(* ===== verification/_CoqProject ===== *)
-Q . S2P
Prelude.v
GoFloat.v
Digest.v
GoPath.v
Json.v
Manifest.v
SafePath.v
GoFs.v
Chunker.v
ChunkStore.v
StoreRuns.v
Materializer.v
Verifier.v
Quota.v
Retain.v
IndexFile.v
Peer.v
PeerLimits.v
Config.v
Advertise.v
Source.v
Publisher.v
PublishDir.v
Payload.v
NetUtil.v
Topology.v
Scheduler.v
Engine.v
EngineSafety.v
EngineRuns.v
EngineWorkers.v
EngineLive.v
EngineDemo.v
EndToEnd.v
Mesh.v
Daemon.v
DaemonMain.v
Benchmark.v
Ctl.v
MetaStore.v
MetaCache.v
Redis.v
CachedStore.v
SqlStore.v
SqlText.v
Registry.v
TrackerMain.v
