(* ===== verification/Prelude.v ===== *)
(** * Spider: a verification development

    Spider distributes large artifacts (model weights, images) inside a fleet.
    A publisher cuts files into chunks that are named by their SHA-256 digest
    and writes a manifest; a daemon on every node fetches the chunks of a
    manifest from its neighbours or from the origin, keeps them in a cache on
    disk and writes the files out; a tracker knows which node has which chunk.
    This library models the Go code under src/ as functions of Rocq and proves
    what makes it correct.

    ** Conventions

    - A Go string is a [string] of bytes, a byte slice a list of bytes.  An
      [int64] is a [Z]; sums and differences wrap around ([add64], [sub64])
      where the code can leave the range.  A [float64] is a binary64 of
      SpecFloat (GoFloat).  A time is a number of nanoseconds.
    - A call that can fail gives a [res]; an error keeps the sentinel, the
      status code and the wrapping that the code inspects.
    - Code that touches the disk is in the monad [IO X] (GoFs): it passes a
      [world] with the disk, an oracle of faults, the draws of temporary names,
      the clock and a state [X].  A system call takes its outcome from the
      oracle: it can fail, and a write can stop after a prefix.  A theorem
      without a condition on the oracle holds for full disks, I/O errors and a
      process that is killed between two calls; [reliable] is the empty oracle.
    - Code under a mutex is one step.  Goroutines are state machines: a history
      of steps is an interleaving of the concurrent calls.
    - What is outside the repository is an argument or a type class with its
      documented laws: JSON and YAML decoding, the case folding of Unicode, the
      Redis server, the S3 client, URL parsing, an unstable sort, the network.
      The digest is the class [Digest]; SHA-256 is its instance (Digest).
    - A map is a [gmap]; iterating it gives [map_to_list].

    ** Parts and files

    The data (api/v1/manifest.go) is in Manifest: types, [NormalizePath],
    [ComputeID], [Finalize], [Validate], [ParseManifest].  Json is the output
    of encoding/json, GoPath is path/filepath.

    The disk of a node.
    - Chunker: pkg/chunk/chunker.go.
    - ChunkStore, StoreRuns: pkg/cache/cache.go, the store of chunks, partial
      downloads and manifests.
    - Quota, IndexFile: pkg/cache/manager.go and reconcile.go, the index, pins
      and eviction, and what a restarted process reads back.
    - Retain: which calls on the disk leave a committed chunk in its place.
    - SafePath, Materializer, Verifier: pkg/materializer and pkg/verifier.
    - Source, Publisher, PublishDir: pkg/source and pkg/engine/publisher.go.

    Moving chunks.
    - Peer, PeerLimits: pkg/peer, the transfer of a chunk, the upload slots and
      the pool of connections.
    - Topology, Scheduler: pkg/topology and pkg/scheduler, the choice of peers.
    - Engine: pkg/engine/engine.go.  [Sync] prepares a job, runs its workers on
      a list of events and completes it; a worker is a machine whose step is
      [Engine.advance].  EngineSafety, EngineRuns, EngineWorkers and EngineLive
      hold its theorems, EngineDemo a concrete engine.
    - Advertise: pkg/advertise, the reports to the tracker.
    - EndToEnd and Mesh put the parts together: publishing on one node and
      syncing on another, and the upload server as the peer of an engine.

    The tracker.
    - MetaStore: the [Store] interface as a class and the store in memory
      (pkg/store/store.go, memory.go).  SqlStore and SqlText: the SQL store
      (sql.go, embed.go, queries.sql, schema.sql).
    - MetaCache, Redis: pkg/metacache, the caches in memory and in Redis, with
      the class [CacheSpec] of what a cache promises.
    - CachedStore: pkg/store/cached.go, a store behind a cache.
    - Registry: pkg/tracker, over any store.

    The processes.  Config (pkg/config); Daemon and DaemonMain (cmd/spiderd): the
    requests and the operations of the daemon, and its [main] with the
    goroutines as turns of one step relation; Ctl (cmd/spiderctl); TrackerMain
    (cmd/tracker); Payload and Benchmark (pkg/benchmark); NetUtil (pkg/netutil
    and the probes of pkg/httpserver).

    Prelude, this file, holds the errors, the strings and integers of Go, stable
    sorting, and the hint databases and tactics of the library.

    ** What is proved

    The comment before each theorem has its conditions; here they are left out.

    Integrity.  Whatever fails, the store serves only bytes that hash to their
    name ([store_serves_verified]), also while the engine writes to it
    ([download_keeps_cache]).  A [Sync] that returns without error has put
    exactly the bytes of the manifest at its paths ([Sync_exact]), and so has
    [Materialize] ([Materialize_exact]); a path of a manifest does not leave
    the destination ([SafeJoin_contained]); spiderctl verify exits with success
    only for intact files, a directory of size 0 in the place of an empty file
    excepted ([verify_exit_sound]).

    Progress.  With a reliable disk, an honest origin and no garbage in the
    partials, a [Sync] completes with peers that deliver nothing but bytes of
    the chunks ([Sync_completes]; other peers can make it fail,
    [garbage_blocks_origin]), and an upload server is such a peer
    ([server_honest]); the workers make finitely many steps whatever the
    environment answers ([workers_terminate]); an interrupted download is
    resumed and committed ([resume_commit]).

    Round trips.  Publishing a source or a directory and materialising the
    manifest copies it ([Publish_roundtrip], [publish_directory]); a directory
    published on one node is synced to another ([publish_then_sync]); what was
    materialised verifies; the index survives a restart
    ([index_survives_restart]); a chunk sent in any pieces arrives as it is
    ([peer_transfer_exact]).

    Manifests.  [Validate] decides an independent definition of validity
    ([Validate_iff_ValidManifest]), its chunks tile their files, [Finalize]
    establishes it, and the id does not depend on the order of the files.

    Cache management.  Reference counts are exact, eviction takes the least
    recently used chunks and no pinned one, and the chunks of a pinned artifact
    stay on the disk while the daemon downloads, commits, evicts, copies and
    flushes ([pinned_survives]), through every interleaving of its goroutines up
    to its exit ([life_keeps_pins]).

    The process.  The daemon exits with status 0 only after a signal, after the
    last turn of its advertiser and the flush of its index ([exit_orderly]).

    Metadata.  The SQL store and the cached store behave as the store in memory
    ([SQL_refines], [CachedStore_refines]), an operation of the SQL store that
    fails has done all of its work or nothing, also when the answer to the
    commit is lost ([SQL_atomic]), the Redis cache never serves a stale value
    ([Redis_never_stale]), and the answers of the tracker are described by
    [LocateChunks_spec].

    Limits and accounting: uploads, connections, in-flight counters and
    advertised hashes are bounded or conserved ([uploads_bounded],
    [pool_bounded_no_leak], [inflight_exact], [advertise_conserves]), and a
    loaded configuration is in its bounds ([LoadFile_safe]).

    Flaws.  Theorems also describe runs in which the code does not do what it
    means to: [garbage_blocks_origin], [mixed_errors_panic], [pin_lost],
    [rejected_sync_exits_ok], [hash_path_escape], [exit_without_deregister],
    [config_overridden],
    [hardlink_no_overwrite_truncates_cache], [Validate_accepts_wrapped_sizes].

    ** Fuel

    Recursion that is not structural has fuel, and the bound is one the loop
    does not reach: the length of the data, or one more, for loops that take a
    byte at least in a round (chunking, UTF-8, the blocks of SHA-256, sending a
    chunk, batches of hashes, filling a payload).  The rounds of a SCAN are the
    ones the server still owes, by the documented guarantee that a scan ends.
    The pages of an S3 listing are not bounded by anything the code knows; a
    listing with more pages than its fuel gives an error of its own.  The polls
    of spiderctl sync are the list of the answers.  A run of the engine is a
    list of events, and [workers_terminate] bounds its steps.

    ** Not modelled

    - Generated code (api/v1/proto): the messages in use are records.
    - Listening and dialling: their outcomes are arguments.  The HTTP server and
      the signals of cmd/tracker.
    - Logging and metrics, which nothing reads back, and the text that spiderctl
      prints: its commands give the values that are printed.
    - Of pkg/benchmark/benchmark.go the servers that it starts over real sockets;
      the outcomes of its workers are an argument.  cmd ensure-payload (scripts)
      parses its arguments and calls [EnsurePayloadFile].
    - The syncs of a running daemon are in Daemon and DaemonMain as the calls that
      they make on the disk and the index ([syncWork]), in any order; the order
      in which [Sync] makes them is the subject of the Engine files.  There the
      commit hook changes nothing: the hook of the daemon changes the index of
      the quota manager, which the engine does not read.
    - [FormatSummary] and [snapshot] of the engine, [Ping] and [Close] of the
      stores and caches, which are single calls.
    - Symbolic links and the working directory: paths are resolved from the
      root.  The size that the system reports for a directory is a function of
      the disk ([dirSize]).  The durability of data after a crash of the machine (fsync). *)

From stdpp Require Export base gmap strings list pretty sorting.
From Stdlib Require Export Strings.Byte ZArith Lia.
From Stdlib Require Strings.Ascii.

#[export] Set Default Goal Selector "!".

(** ** Notations *)

Declare Scope go_scope.
Delimit Scope go_scope with go.

Abbreviation bytes := (list byte).

(** ** Fixed-width integers

    Go's [int64] is a [Z] in the two's complement range; [wrap64] is the
    wrap-around that every [int64] addition or subtraction performs. *)

Definition int64_range (z : Z) : Prop := (- 2 ^ 63 <= z < 2 ^ 63)%Z.

Definition wrap64 (z : Z) : Z := ((z + 2 ^ 63) mod 2 ^ 64 - 2 ^ 63)%Z.

Definition add64 (a b : Z) : Z := wrap64 (a + b).

Definition sub64 (a b : Z) : Z := wrap64 (a - b).

(** The mathematical sum that a Go accumulator approximates. *)
Definition sumZ (l : list Z) : Z := foldr Z.add 0%Z l.

(** [int64(len(d))] *)
Definition blen (d : bytes) : Z := Z.of_nat (length d).

(** ** Go strings *)

(** [strings.HasPrefix] *)
Fixpoint hasPrefix (p s : string) : bool :=
  match p, s with
  | EmptyString, _ => true
  | String a p', String b s' => bool_decide (a = b) && hasPrefix p' s'
  | String _ _, EmptyString => false
  end.

(** Drop the first [n] bytes, [s[n:]]. *)
Fixpoint strDrop (n : nat) (s : string) : string :=
  match n, s with
  | O, _ => s
  | S n', String _ s' => strDrop n' s'
  | S _, EmptyString => EmptyString
  end.

(** [s[:n]] *)
Fixpoint strTake (n : nat) (s : string) : string :=
  match n, s with
  | S n', String a s' => String a (strTake n' s')
  | _, _ => EmptyString
  end.

(** [strings.TrimPrefix] *)
Definition trimPrefix (s p : string) : string :=
  if hasPrefix p s then strDrop (String.length p) s else s.

(** [strings.HasSuffix] *)
Definition hasSuffix (s p : string) : bool :=
  bool_decide (String.length p <= String.length s)
  && bool_decide (strDrop (String.length s - String.length p) s = p).

(** [strings.Contains(s, sub)] *)
Fixpoint contains (sub s : string) : bool :=
  hasPrefix sub s || match s with EmptyString => false | String _ s' => contains sub s' end.

(** Go's [<] on strings: lexicographic on bytes. *)
Fixpoint strLt (s t : string) : bool :=
  match s, t with
  | EmptyString, EmptyString => false
  | EmptyString, String _ _ => true
  | String _ _, EmptyString => false
  | String a s', String b t' =>
      if bool_decide (a = b) then strLt s' t'
      else (Ascii.N_of_ascii a <? Ascii.N_of_ascii b)%N
  end.

(** The encodings of the runes with Unicode property White_Space, the ones
    [unicode.IsSpace] accepts. *)
Definition spaceSeqs : list (list N) :=
  [[9]; [10]; [11]; [12]; [13]; [32];
   [194; 133]; [194; 160]; [225; 154; 128];
   [226; 128; 128]; [226; 128; 129]; [226; 128; 130]; [226; 128; 131];
   [226; 128; 132]; [226; 128; 133]; [226; 128; 134]; [226; 128; 135];
   [226; 128; 136]; [226; 128; 137]; [226; 128; 138]; [226; 128; 168];
   [226; 128; 169]; [226; 128; 175]; [226; 129; 159]; [227; 128; 128]]%N.

Definition ofCodes (l : list N) : string :=
  fold_right (fun n s => String (Ascii.ascii_of_N n) s) EmptyString l.

Definition spaces : list string := map ofCodes spaceSeqs.

Definition trimLeftOnce (seqs : list string) (s : string) : option string :=
  match find (fun p => hasPrefix p s) seqs with
  | Some p => Some (strDrop (String.length p) s)
  | None => None
  end.

Definition trimRightOnce (seqs : list string) (s : string) : option string :=
  match find (fun p => hasSuffix s p) seqs with
  | Some p => Some (strTake (String.length s - String.length p) s)
  | None => None
  end.

Fixpoint trimIter (step : string -> option string) (fuel : nat) (s : string) : string :=
  match fuel with
  | O => s
  | S fuel' => match step s with Some s' => trimIter step fuel' s' | None => s end
  end.

(** [strings.TrimSpace]: every step removes at least one byte, so the length
    of the string is enough fuel. *)
Definition trimSpace (s : string) : string :=
  let l := trimIter (trimLeftOnce spaces) (String.length s) s in
  trimIter (trimRightOnce spaces) (String.length l) l.

(** ** Slices

    A Go slice that reaches [encoding/json] is kept with its nil-ness: a nil
    slice marshals to [null], an empty one to an empty array. *)

Inductive slice (A : Type) : Type :=
| NilSlice
| Slice (xs : list A).
Arguments NilSlice {A}.
Arguments Slice {A} xs.

Definition elems {A} (s : slice A) : list A :=
  match s with NilSlice => [] | Slice xs => xs end.

(** [append(s, xs...)] *)
Definition appendSlice {A} (s : slice A) (xs : list A) : slice A :=
  match xs with
  | [] => s
  | _ => Slice (elems s ++ xs)
  end.

(** ** Times *)

(** [now.Sub(t)] in nanoseconds, which saturates; [None] is the zero time. *)
Definition timeSub (now : Z) (t : option Z) : Z :=
  match t with
  | None => 2 ^ 63 - 1
  | Some t => Z.max (- 2 ^ 63) (Z.min (2 ^ 63 - 1) (now - t))
  end%Z.

(** ** Errors *)

(** System call failures the code tells apart with [os.IsNotExist], and the
    other ones it only propagates. *)
Inductive errno := ENOENT | EEXIST | ENOTDIR | EISDIR | ENOTEMPTY | EINVAL | EIO | ENOSPC | EACCES.

(** Package-level error values, compared by identity. *)
Inductive sentinel :=
| ErrChunkNotFound
| ErrHashMismatch
| ErrInvalidHashName
| ErrIncomplete
| ContextCanceled
| ContextDeadlineExceeded.

(** The codes of [google.golang.org/grpc/codes] that the code uses or that a
    context error has. *)
Inductive grpcCode := CCanceled | CInvalidArgument | CDeadlineExceeded | CNotFound | CResourceExhausted
  | COutOfRange | CInternal | CUnknown.

#[export] Instance grpcCode_eq_dec : EqDecision grpcCode.
Proof. solve_decision. Defined.

(** The errors of [api/v1/manifest.go], with the values they format. *)
Inductive manifest_error :=
| UnsupportedSchema (v : Z)
| NameRequired
| VersionRequired
| BadChunkSize
| NoFiles
| InvalidFilePath (i : nat) (p : string)
| DuplicateFilePath (p : string)
| InvalidChunkHash (p : string) (ci : nat) (h : string)
| InvalidChunkSize (p : string) (ci : nat) (size : Z)
| OffsetMismatch (p : string) (ci : nat) (expected got : Z)
| FileSizeMismatch (p : string) (declared total : Z)
| TotalSizeMismatch (declared calculated : Z)
| ArtifactIDMismatch (expected got : string).

Inductive error :=
| ESentinel (s : sentinel)
| ESys (op : string) (e : errno)
| EManifest (e : manifest_error)
| EText (msg : string)
| EStatus (code : grpcCode) (msg : string)
| EWrap (msg : string) (inner : error).

(** [errors.Is(err, target)] for a package-level [target]. *)
Fixpoint errorsIs (e : error) (t : sentinel) : bool :=
  match e with
  | ESentinel s =>
      match s, t with
      | ErrChunkNotFound, ErrChunkNotFound | ErrHashMismatch, ErrHashMismatch
      | ErrInvalidHashName, ErrInvalidHashName | ErrIncomplete, ErrIncomplete
      | ContextCanceled, ContextCanceled
      | ContextDeadlineExceeded, ContextDeadlineExceeded => true
      | _, _ => false
      end
  | EWrap _ e' => errorsIs e' t
  | _ => false
  end.

#[export] Instance errno_eq_dec : EqDecision errno.
Proof. solve_decision. Defined.
#[export] Instance sentinel_eq_dec : EqDecision sentinel.
Proof. solve_decision. Defined.
#[export] Instance manifest_error_eq_dec : EqDecision manifest_error.
Proof. solve_decision. Defined.
#[export] Instance error_eq_dec : EqDecision error.
Proof. intros x y. unfold Decision. decide equality; apply decide; apply _. Defined.

(** [status.Code(err)], which looks through wrapped errors. *)
Fixpoint statusCode (e : error) : grpcCode :=
  match e with
  | EStatus c _ => c
  | EWrap _ e' => statusCode e'
  | _ => CUnknown
  end.

(** [os.IsNotExist]: it does not unwrap [fmt.Errorf] errors. *)
Definition isNotExist (e : error) : bool :=
  match e with ESys _ ENOENT => true | _ => false end.

(** ** Results *)

Inductive res (A : Type) : Type :=
| Ok (a : A)
| Err (e : error).
Arguments Ok {A} a.
Arguments Err {A} e.

Definition res_bind {A B} (m : res A) (k : A -> res B) : res B :=
  match m with Ok a => k a | Err e => Err e end.

Notation "'let?' x := m 'in' k" := (res_bind m (fun x => k))
  (at level 10, x pattern, m at level 100, k at level 200) : go_scope.

(** [if cond { return err }] *)
Definition failIf (b : bool) (e : manifest_error) : res unit :=
  if b then Err (EManifest e) else Ok tt.

(** ** Sorting

    [sort.SliceStable] has one possible result, the one of insertion sort.
    [sort.Slice] promises only a sorted permutation; its clients are verified
    against the class [SortSlice]. *)

Fixpoint insertBy {A} (less : A -> A -> bool) (x : A) (l : list A) : list A :=
  match l with
  | [] => [x]
  | y :: ys => if less y x then y :: insertBy less x ys else x :: y :: ys
  end.

Fixpoint sliceStable {A} (less : A -> A -> bool) (l : list A) : list A :=
  match l with
  | [] => []
  | x :: xs => insertBy less x (sliceStable less xs)
  end.

(** [less] is a strict weak order, what package [sort] asks of it. *)
Class StrictWeak {A} (less : A -> A -> bool) : Prop := {
  less_irrefl : forall x, less x x = false;
  less_trans : forall x y z, less x y = true -> less y z = true -> less x z = true;
  less_cotrans : forall x y z, less x z = true -> less x y = true \/ less y z = true
}.

(** No element is strictly before an element that precedes it in the list. *)
Definition sortedBy {A} (less : A -> A -> bool) : list A -> Prop :=
  StronglySorted (fun a b => less b a = false).

Class SortSlice := {
  sortSlice : forall {A}, (A -> A -> bool) -> list A -> list A;
  sortSlice_perm : forall {A} (less : A -> A -> bool) l, sortSlice less l ≡ₚ l;
  sortSlice_sorted : forall {A} (less : A -> A -> bool) l,
    StrictWeak less -> sortedBy less (sortSlice less l)
}.

(** ** Deduplication by a [seen] map, keeping first occurrences *)

Fixpoint dedupFrom (seen : gset string) (l : list string) : list string :=
  match l with
  | [] => []
  | x :: xs =>
      if bool_decide (x ∈ seen) then dedupFrom seen xs
      else x :: dedupFrom ({[x]} ∪ seen) xs
  end.

(** * Lemmas *)

(** ** Tactics and hint databases *)

Create HintDb go discriminated.
Create Rewrite HintDb go.

(** Case analysis on every boolean decision and match the goal scrutinises. *)
Ltac split_ifs :=
  repeat match goal with
    | |- context [if ?b then _ else _] => destruct b eqn:?
    | H : context [if ?b then _ else _] |- _ => destruct b eqn:?
    end.

(** Close [Err e = Ok a <-> P] when [P] is refuted by the context. *)
Ltac refute_ok :=
  split; [discriminate|]; intros; exfalso; destruct_and?; try done; try congruence; try lia.

(** Turn boolean facts into propositions. *)
Ltac boolify :=
  repeat match goal with
    | H : bool_decide _ = true |- _ => apply bool_decide_eq_true_1 in H
    | H : bool_decide _ = false |- _ => apply bool_decide_eq_false_1 in H
    | H : (_ && _) = true |- _ => apply andb_true_iff in H as [? ?]
    | H : (_ || _) = false |- _ => apply orb_false_iff in H as [? ?]
    | H : negb _ = true |- _ => apply negb_true_iff in H
    | H : negb _ = false |- _ => apply negb_false_iff in H
    | H : (_ =? _)%Z = true |- _ => apply Z.eqb_eq in H
    | H : (_ =? _)%Z = false |- _ => apply Z.eqb_neq in H
    | H : (_ <? _)%Z = true |- _ => apply Z.ltb_lt in H
    | H : (_ <? _)%Z = false |- _ => apply Z.ltb_ge in H
    | H : (_ <=? _)%Z = true |- _ => apply Z.leb_le in H
    | H : (_ <=? _)%Z = false |- _ => apply Z.leb_gt in H
    end.

(** ** Integers *)

Lemma wrap64_id z : int64_range z -> wrap64 z = z.
Proof. unfold int64_range, wrap64. intros. rewrite Z.mod_small; lia. Qed.

Lemma wrap64_range z : int64_range (wrap64 z).
Proof.
  unfold int64_range, wrap64.
  pose proof (Z.mod_pos_bound (z + 2 ^ 63) (2 ^ 64)). lia.
Qed.

Lemma wrap64_congr z : (wrap64 z mod 2 ^ 64 = z mod 2 ^ 64)%Z.
Proof.
  unfold wrap64. rewrite Zminus_mod, Z.mod_mod by lia.
  rewrite <- Zminus_mod. f_equal. lia.
Qed.

Lemma wrap64_unique a b : int64_range b -> (a mod 2 ^ 64 = b mod 2 ^ 64)%Z -> wrap64 a = b.
Proof.
  intros Hb Hc. rewrite <- (wrap64_id b Hb). unfold wrap64. f_equal.
  rewrite (Zplus_mod a), (Zplus_mod b), Hc. done.
Qed.

Lemma wrap64_add_l a b : wrap64 (wrap64 a + b) = wrap64 (a + b).
Proof.
  apply wrap64_unique; [apply wrap64_range|].
  rewrite wrap64_congr, Zplus_mod, wrap64_congr, <- Zplus_mod. done.
Qed.

Lemma sumZ_app l1 l2 : sumZ (l1 ++ l2) = (sumZ l1 + sumZ l2)%Z.
Proof. induction l1 as [|x l1 IH]; simpl; [done|]. rewrite IH. lia. Qed.

Lemma sumZ_nonneg l : Forall (fun z => 0 <= z)%Z l -> (0 <= sumZ l)%Z.
Proof. induction 1; simpl; lia. Qed.

Lemma sumZ_perm l1 l2 : l1 ≡ₚ l2 -> sumZ l1 = sumZ l2.
Proof. induction 1; simpl; lia. Qed.

(** An [int64] accumulator holds the wrapped sum. *)
Lemma fold_add64 acc l : fold_left add64 l (wrap64 acc) = wrap64 (acc + sumZ l).
Proof.
  revert acc. induction l as [|x l IH]; intros acc; simpl; [by rewrite Z.add_0_r|].
  unfold add64 at 2. rewrite wrap64_add_l, IH. f_equal. lia.
Qed.

Lemma blen_nonneg d : (0 <= blen d)%Z.
Proof. unfold blen. lia. Qed.

Lemma blen_app d1 d2 : blen (d1 ++ d2) = (blen d1 + blen d2)%Z.
Proof. unfold blen. rewrite length_app. lia. Qed.

#[export] Hint Resolve wrap64_range blen_nonneg : go.

(** ** Strings *)

Lemma str_app_cons a s t : String a s +:+ t = String a (s +:+ t).
Proof. done. Qed.

Lemma str_app_nil_l s : "" +:+ s = s.
Proof. done. Qed.

#[export] Hint Rewrite str_app_cons str_app_nil_l : go.

(** [if v <= 0 { v = d }] and [if v == "" { v = d }] *)
Definition positiveOr (d v : Z) : Z := if (v <=? 0)%Z then d else v.
Definition nonemptyOr (d v : string) : string := if bool_decide (v = "") then d else v.

Lemma positiveOr_pos d v : (0 < d)%Z -> (0 < positiveOr d v)%Z.
Proof. unfold positiveOr. destruct (Z.leb_spec v 0); lia. Qed.

Lemma nonemptyOr_ne d v : d <> "" -> nonemptyOr d v <> "".
Proof. unfold nonemptyOr. by case_bool_decide. Qed.

Lemma str_length_app s t : String.length (s +:+ t) = String.length s + String.length t.
Proof. induction s as [|a s IH]; [done|]. rewrite str_app_cons. simpl. by rewrite IH. Qed.

Lemma str_app_nil_r s : s +:+ "" = s.
Proof. induction s as [|a s IH]; [done|]. by rewrite str_app_cons, IH. Qed.

Lemma str_app_assoc s t u : (s +:+ t) +:+ u = s +:+ (t +:+ u).
Proof. induction s as [|a s IH]; [done|]. by rewrite !str_app_cons, IH. Qed.

Lemma hasPrefix_app p s : hasPrefix p (p +:+ s) = true.
Proof.
  induction p as [|a p IH]; [done|]. rewrite str_app_cons. simpl.
  by rewrite bool_decide_eq_true_2.
Qed.

Lemma hasPrefix_inv p s : hasPrefix p s = true -> s = p +:+ strDrop (String.length p) s.
Proof.
  revert s. induction p as [|a p IH]; intros [|b s]; simpl; try done.
  intros H. boolify. subst. rewrite str_app_cons. f_equal. auto.
Qed.

Lemma hasPrefix_iff p s : hasPrefix p s = true <-> exists t, s = p +:+ t.
Proof.
  split.
  - intros H%hasPrefix_inv. eauto.
  - intros [t ->]. apply hasPrefix_app.
Qed.

Lemma strDrop_app p s : strDrop (String.length p) (p +:+ s) = s.
Proof. induction p as [|a p IH]; [done|]. rewrite str_app_cons. done. Qed.

Lemma strTake_app p s : strTake (String.length p) (p +:+ s) = p.
Proof. induction p as [|c p IH]; [by destruct s|]. rewrite str_app_cons. simpl. by rewrite IH. Qed.

Lemma trimPrefix_app p s : trimPrefix (p +:+ s) p = s.
Proof. unfold trimPrefix. rewrite hasPrefix_app. apply strDrop_app. Qed.

Lemma strDrop_length n s : String.length (strDrop n s) = String.length s - n.
Proof. revert s. induction n; intros [|a s]; simpl; auto. Qed.

#[export] Hint Rewrite str_length_app str_app_nil_r str_app_assoc hasPrefix_app strDrop_app
  trimPrefix_app : go.

#[global] Arguments hasPrefix : simpl never.
#[global] Arguments strDrop : simpl never.

Lemma strLt_irrefl s : strLt s s = false.
Proof. induction s; simpl; [done|]. rewrite bool_decide_eq_true_2; done. Qed.

Lemma strLt_trans s t u : strLt s t = true -> strLt t u = true -> strLt s u = true.
Proof.
  revert t u. induction s as [|a s IH]; intros [|b t] [|c u]; simpl; try done.
  repeat case_bool_decide; subst; try done; eauto; rewrite ?N.ltb_lt; try lia.
Qed.

(** The order is total. *)
Lemma strLt_total s t : strLt s t = true \/ s = t \/ strLt t s = true.
Proof.
  revert t. induction s as [|a s IH]; intros [|b t]; simpl; try by auto.
  destruct (decide (a = b)) as [->|Hne].
  - rewrite !bool_decide_eq_true_2 by done.
    destruct (IH t) as [?|[->|?]]; auto.
  - rewrite !bool_decide_eq_false_2 by done. rewrite !N.ltb_lt.
    destruct (N.lt_trichotomy (Ascii.N_of_ascii a) (Ascii.N_of_ascii b)) as [?|[He|?]]; auto.
    apply (f_equal Ascii.ascii_of_N) in He. rewrite !Ascii.ascii_N_embedding in He. done.
Qed.

Lemma strLt_asym s t : strLt s t = true -> strLt t s = false.
Proof.
  intros H. destruct (strLt t s) eqn:E; [|done].
  pose proof (strLt_trans _ _ _ H E) as C. by rewrite strLt_irrefl in C.
Qed.

(** Comparing a key of a record with [<] is a strict weak order. *)
Lemma strLt_key_weak {A} (key : A -> string) :
  StrictWeak (fun a b => strLt (key a) (key b)).
Proof.
  split.
  - intros. apply strLt_irrefl.
  - intros. eapply strLt_trans; eauto.
  - intros x y z Hxz. destruct (strLt_total (key x) (key y)) as [?|[He|?]]; [by auto| |].
    + right. by rewrite <- He.
    + right. eapply strLt_trans; eauto.
Qed.

Lemma Zlt_key_weak {A} (key : A -> Z) :
  StrictWeak (fun a b => key a <? key b)%Z.
Proof. split; intros; rewrite ?Z.ltb_lt in *; rewrite ?Z.ltb_ge; lia. Qed.

Lemma natlt_key_weak {A} (key : A -> nat) : StrictWeak (fun a b => key a <? key b).
Proof. split; intros; rewrite ?Nat.ltb_lt in *; rewrite ?Nat.ltb_ge; lia. Qed.

(** ** Slices *)

Lemma elems_appendSlice {A} (s : slice A) xs : elems (appendSlice s xs) = elems s ++ xs.
Proof. destruct s, xs; simpl; rewrite ?app_nil_r; done. Qed.

Lemma appendSlice_app {A} (s : slice A) xs ys : appendSlice (appendSlice s xs) ys = appendSlice s (xs ++ ys).
Proof. destruct xs, ys; simpl; rewrite ?app_nil_r, <- ?app_assoc; done. Qed.

#[export] Hint Rewrite @elems_appendSlice : go.

(** ** Results *)

Lemma res_bind_ok {A B} (m : res A) (k : A -> res B) b :
  res_bind m k = Ok b <-> exists a, m = Ok a /\ k a = Ok b.
Proof.
  destruct m as [a|e]; simpl; split.
  - eauto.
  - intros (? & [= <-] & ?). done.
  - done.
  - intros (? & [=] & ?).
Qed.

Lemma failIf_ok b e : failIf b e = Ok tt <-> b = false.
Proof. destruct b; simpl; split; congruence. Qed.

(** ** Sorting *)

Section sorting.
Context {A : Type} (less : A -> A -> bool).

Lemma insertBy_perm x l : insertBy less x l ≡ₚ x :: l.
Proof.
  induction l as [|y l IH]; simpl; [done|].
  destruct (less y x); [|done]. rewrite IH. apply Permutation_swap.
Qed.

Lemma sliceStable_perm l : sliceStable less l ≡ₚ l.
Proof. induction l as [|x l IH]; simpl; [done|]. by rewrite insertBy_perm, IH. Qed.

Context {Hw : StrictWeak less}.

Lemma less_asym x y : less x y = true -> less y x = false.
Proof.
  intros H. destruct (less y x) eqn:E; [|done].
  pose proof (less_trans _ _ _ H E) as C. by rewrite less_irrefl in C.
Qed.

Lemma notless_trans x y z : less y x = false -> less z y = false -> less z x = false.
Proof.
  intros H1 H2. destruct (less z x) eqn:E; [|done].
  destruct (less_cotrans z y x E); congruence.
Qed.

Lemma insertBy_sorted x l : sortedBy less l -> sortedBy less (insertBy less x l).
Proof.
  unfold sortedBy. induction 1 as [|y l Hs IH Hf]; simpl; [repeat constructor|].
  destruct (less y x) eqn:E.
  - constructor; [done|]. rewrite insertBy_perm. constructor; [|done].
    by apply less_asym.
  - constructor; [by constructor|]. constructor; [done|].
    eapply Forall_impl; [exact Hf|]. intros z Hz. by eapply notless_trans.
Qed.

Lemma sliceStable_sorted l : sortedBy less (sliceStable less l).
Proof.
  induction l as [|x l IH]; simpl; [constructor|]. by apply insertBy_sorted.
Qed.

(** Stability: elements no comparison separates keep their order. *)
Lemma insertBy_filter (P : A -> bool) x l :
  (forall a b, P a = true -> P b = true -> less a b = false) ->
  List.filter P (insertBy less x l) = List.filter P (x :: l).
Proof.
  intros HP. induction l as [|y l IH]; [done|]. simpl.
  destruct (less y x) eqn:E; [|done]. simpl in *.
  rewrite IH. destruct (P y) eqn:Ey, (P x) eqn:Ex; try done.
  rewrite HP in E; done.
Qed.

Lemma sliceStable_stable (P : A -> bool) l :
  (forall a b, P a = true -> P b = true -> less a b = false) ->
  List.filter P (sliceStable less l) = List.filter P l.
Proof.
  intros HP. induction l as [|x l IH]; simpl; [done|].
  rewrite insertBy_filter by done. simpl. by rewrite IH.
Qed.

(** Two sorted permutations of a list whose elements [less] tells apart are
    equal: the result of an unstable sort is then determined. *)
Lemma sortedBy_unique l1 l2 :
  (forall x y, x ∈ l1 -> y ∈ l2 -> less x y = false -> less y x = false -> x = y) ->
  sortedBy less l1 -> sortedBy less l2 -> l1 ≡ₚ l2 -> l1 = l2.
Proof.
  intros Hd H1 H2 Hp.
  apply (StronglySorted_unique_strong (fun a b => less b a = false)); auto.
Qed.

End sorting.

(** ** Lexicographic orders *)

(** Compare by [l1], then by [l2]. *)
Definition lexLess {A} (l1 l2 : A -> A -> bool) (a b : A) : bool :=
  l1 a b || (negb (l1 b a) && l2 a b).

Section lex.
Context {A : Type} (l1 l2 : A -> A -> bool) `{!StrictWeak l1} `{!StrictWeak l2}.

#[export] Instance lexLess_weak : StrictWeak (lexLess l1 l2).
Proof.
  assert (forall x y z, l1 x y = false -> l1 y z = false -> l1 x z = false) as Hnt.
  { intros x y z H1 H2. destruct (l1 x z) eqn:E; [|done]. destruct (less_cotrans x y z E); congruence. }
  assert (forall x y, l1 x y = true -> l1 y x = false) as Has by (intros; by apply less_asym).
  unfold lexLess. split.
  - intros x. by rewrite !less_irrefl.
  - intros x y z. rewrite !orb_true_iff, !andb_true_iff, !negb_true_iff. intros [H|[H H']] [K|[K K']].
    + left. by eapply less_trans.
    + left. destruct (less_cotrans x z y H); [done|congruence].
    + left. destruct (less_cotrans y x z K); [congruence|done].
    + right. split; [by eapply Hnt|by eapply less_trans].
  - intros x y z. rewrite !orb_true_iff, !andb_true_iff, !negb_true_iff. intros [H|[H H']].
    + destruct (less_cotrans x y z H); auto.
    + destruct (less_cotrans x y z H') as [K|K].
      * destruct (l1 y x) eqn:E; [|auto]. right. left.
        destruct (less_cotrans y z x E); [done|congruence].
      * destruct (l1 z y) eqn:E; [|auto]. left. left.
        destruct (less_cotrans z x y E); [congruence|done].
Qed.

(** Sorted by the pair is sorted by the first. *)
Lemma sortedBy_lex l : sortedBy (lexLess l1 l2) l -> sortedBy l1 l.
Proof.
  unfold sortedBy. induction 1 as [|x l Hs IH Hf]; constructor; [done|].
  eapply Forall_impl; [exact Hf|]. intros y. unfold lexLess. by destruct (l1 y x).
Qed.

End lex.

Lemma elem_of_filterb {A} (P : A -> bool) l x : x ∈ List.filter P l <-> x ∈ l /\ P x = true.
Proof. by rewrite !list_elem_of_In, filter_In. Qed.

Lemma sliceStable_map {A B} (f : A -> B) (less : B -> B -> bool) l :
  sliceStable less (map f l) = map f (sliceStable (fun a b => less (f a) (f b)) l).
Proof.
  induction l as [|x l IH]; simpl; [done|]. rewrite IH. generalize (sliceStable (fun a b => less (f a) (f b)) l).
  intros l0. induction l0 as [|y l0 IH0]; simpl; [done|]. destruct (less (f y) (f x)); simpl; by rewrite ?IH0.
Qed.

Lemma filter_nil {A} (P : A -> bool) l : (forall x, x ∈ l -> P x = false) -> List.filter P l = [].
Proof.
  induction l as [|x l IH]; intros H; simpl; [done|]. rewrite (H x) by by left.
  apply IH. intros y Hy. apply H. by right.
Qed.

Lemma filter_filter {A} (P Q : A -> bool) l :
  (forall x, x ∈ l -> P x = true -> Q x = true) -> List.filter P (List.filter Q l) = List.filter P l.
Proof.
  induction l as [|x l IH]; intros H; simpl; [done|].
  assert (List.filter P (List.filter Q l) = List.filter P l) as IH' by (apply IH; intros y Hy; apply H; by right).
  destruct (Q x) eqn:Eq; simpl; [by rewrite IH'|]. destruct (P x) eqn:Ep; [|done].
  rewrite (H x) in Eq; [done|by left|done].
Qed.

(** A stable sort has one result: two sorted lists that agree on every class
    of elements the order does not separate are equal. *)
Lemma stable_unique {A} (less : A -> A -> bool) `{!StrictWeak less} : forall l1 l2,
  sortedBy less l1 -> sortedBy less l2 ->
  (forall x, List.filter (fun y => negb (less x y) && negb (less y x)) l1
             = List.filter (fun y => negb (less x y) && negb (less y x)) l2) -> l1 = l2.
Proof.
  assert (forall x l l', sortedBy less (x :: l) ->
    (forall y, List.filter (fun z => negb (less y z) && negb (less z y)) (x :: l)
             = List.filter (fun z => negb (less y z) && negb (less z y)) l') -> exists l'', l' = x :: l'' \/
      (exists y, l' = y :: l'' /\ less y x = false)) as Hhead.
  { intros x l l' Hs He. pose proof (He x) as Hx. simpl in Hx. rewrite (less_irrefl (less:=less)) in Hx. simpl in Hx.
    destruct l' as [|y l'']; [done|]. exists l''. right. exists y. split; [done|].
    assert (y ∈ x :: l) as Hy.
    { assert (y ∈ List.filter (fun z => negb (less y z) && negb (less z y)) (x :: l)) as Hin.
      { rewrite He. apply elem_of_filterb. split; [by left|]. by rewrite (less_irrefl (less:=less)). }
      by apply elem_of_filterb in Hin as [? _]. }
    apply elem_of_cons in Hy as [->|Hy]; [apply less_irrefl|].
    inversion Hs as [|? ? _ Hf]; subst. by eapply (proj1 (Forall_forall _ _) Hf). }
  induction l1 as [|x l1 IH]; intros l2 H1 H2 He.
  - destruct l2 as [|y l2]; [done|]. specialize (He y). simpl in He. by rewrite (less_irrefl (less:=less)) in He.
  - destruct (Hhead x l1 l2 H1 He) as (l2' & Hl2). assert (x :: l2' = l2) as <-.
    { destruct Hl2 as [->|(y & -> & Hyx)]; [done|]. f_equal.
      destruct (Hhead y l2' (x :: l1) H2 (fun z => eq_sym (He z))) as (l1' & [[= <- _]|(z & [= <- _] & Hxy)]); [done|].
      specialize (He x). simpl in He. rewrite (less_irrefl (less:=less)), Hxy, Hyx in He. by injection He. }
    f_equal. apply IH; [by inversion H1|by inversion H2|]. intros y. specialize (He y). simpl in He.
    destruct (negb (less y x) && negb (less x y)); [by injection He|done].
Qed.

Lemma StronglySorted_mono {A} (R S : A -> A -> Prop) l :
  (forall x y, R x y -> S x y) -> StronglySorted R l -> StronglySorted S l.
Proof. intros H. induction 1 as [|x l Hs IH Hf]; constructor; [done|]. eapply Forall_impl; eauto. Qed.

Lemma StrictWeak_ext {A} (l1 l2 : A -> A -> bool) :
  (forall a b, l1 a b = l2 a b) -> StrictWeak l2 -> StrictWeak l1.
Proof. intros He [H1 H2 H3]. split; intros *; rewrite !He; eauto. Qed.

Lemma sortedBy_ext {A} (l1 l2 : A -> A -> bool) l :
  (forall a b, l1 a b = l2 a b) -> sortedBy l1 l -> sortedBy l2 l.
Proof.
  intros He. unfold sortedBy. induction 1 as [|x l Hs IH Hf]; constructor; [done|].
  eapply Forall_impl; [exact Hf|]. intros y. simpl. by rewrite He.
Qed.

#[export] Program Instance insertionSort : SortSlice := {|
  sortSlice := @sliceStable
|}.
Next Obligation. intros. apply sliceStable_perm. Qed.
Next Obligation. intros. by apply sliceStable_sorted. Qed.

(** ** Deduplication *)

Lemma dedupFrom_elem seen l x : x ∈ dedupFrom seen l <-> x ∈ l /\ x ∉ seen.
Proof.
  revert seen. induction l as [|y l IH]; intros seen; simpl; [set_solver|].
  case_bool_decide; rewrite ?elem_of_cons, IH; [set_solver|].
  destruct (decide (x = y)) as [->|]; set_solver.
Qed.

Lemma dedupFrom_nodup seen l : NoDup (dedupFrom seen l).
Proof.
  revert seen. induction l as [|y l IH]; intros seen; simpl; [constructor|].
  case_bool_decide; [done|]. constructor; [|done]. rewrite dedupFrom_elem. set_solver.
Qed.

(** The result lists the elements in the order of their first occurrence. *)
Lemma dedupFrom_sublist seen l : dedupFrom seen l `sublist_of` l.
Proof.
  revert seen. induction l as [|y l IH]; intros seen; simpl; [done|].
  case_bool_decide; constructor; auto.
Qed.

Lemma elem_of_concat_map {A B} (f : A -> list B) l x :
  x ∈ concat (map f l) <-> exists y, y ∈ l /\ x ∈ f y.
Proof.
  induction l as [|a l IH]; simpl; [set_solver|].
  rewrite elem_of_app, IH. set_solver.
Qed.

Lemma NoDup_map_filter {A B} (f : A -> B) (P : A -> bool) l :
  NoDup (f <$> l) -> NoDup (f <$> List.filter P l).
Proof.
  induction l as [|a l IH]; simpl; [done|]. rewrite NoDup_cons. intros [Ha Hl].
  destruct (P a); simpl; [|by apply IH]. apply NoDup_cons. split; [|by apply IH].
  intros (b & Hb & Hin)%list_elem_of_fmap. apply Ha, list_elem_of_fmap. exists b.
  split; [done|]. by apply elem_of_filterb in Hin as [? _].
Qed.

(** ** Histories *)

(** An invariant of the steps holds after any of them. *)
Lemma rtc_ind_inv {A} (I : A -> Prop) (R : A -> A -> Prop) x y :
  (forall a b, I a -> R a b -> I b) -> rtc R x y -> I x -> I y.
Proof. intros HI Hr. induction Hr; eauto. Qed.

(** ** A concrete encoding of data as bytes *)

Section encoding.
Context {A : Type} `{Countable A}.

Fixpoint posBytes (p : positive) : bytes :=
  match p with
  | xH => []
  | xO p => x00 :: posBytes p
  | xI p => x01 :: posBytes p
  end.

Fixpoint bytesPos (b : bytes) : positive :=
  match b with
  | [] => xH
  | c :: b => if Byte.eqb c x00 then xO (bytesPos b) else xI (bytesPos b)
  end.

Lemma bytesPos_posBytes p : bytesPos (posBytes p) = p.
Proof. induction p as [p IH|p IH|]; simpl; by rewrite ?IH. Qed.

Definition countEncode (x : A) : bytes := posBytes (encode x).
Definition countDecode (b : bytes) : option A := decode (bytesPos b).

Lemma countDecode_encode x : countDecode (countEncode x) = Some x.
Proof. unfold countDecode, countEncode. by rewrite bytesPos_posBytes, decode_encode. Qed.

End encoding.
