(* ===== verification/GoFloat.v ===== *)
(** * Floating point

    Go's [float64] is the IEEE 754 binary64 of [SpecFloat]; conversions to and
    from [int64] are the ones of amd64, where products and sums are not fused. *)

From S2P Require Import Prelude.
From Stdlib Require Import Floats.SpecFloat.

Definition float64 : Type := spec_float.

Definition fzero : float64 := S754_zero false.
Definition fmul : float64 -> float64 -> float64 := SFmul 53 1024.
Definition fadd : float64 -> float64 -> float64 := SFadd 53 1024.
Definition fdiv : float64 -> float64 -> float64 := SFdiv 53 1024.
Definition fltb : float64 -> float64 -> bool := SFltb.
Definition fleb : float64 -> float64 -> bool := SFleb.
Definition feqb : float64 -> float64 -> bool := SFeqb.

(** [float64(z)] *)
Definition ofInt64 (z : Z) : float64 := binary_normalize 53 1024 z 0 false.

(** The literal [n/d], correctly rounded. *)
Definition literal (n d : Z) : float64 := fdiv (ofInt64 n) (ofInt64 d).

(** [int64(f)]: truncation; out of range it is the smallest [int64]. *)
Definition toInt64 (f : float64) : Z :=
  match f with
  | S754_zero _ => 0
  | S754_finite s m e =>
      let v := if (0 <=? e)%Z then (Zpos m * 2 ^ e)%Z else (Zpos m / 2 ^ (- e))%Z in
      let v := if s then (- v)%Z else v in
      if ((- 2 ^ 63 <=? v) && (v <? 2 ^ 63))%Z then v else (- 2 ^ 63)%Z
  | _ => (- 2 ^ 63)%Z
  end.

(** [d.Seconds()] of a duration in nanoseconds. *)
Definition seconds (d : Z) : float64 :=
  fadd (ofInt64 (Z.quot d 1000000000)) (fdiv (ofInt64 (Z.rem d 1000000000)) (ofInt64 1000000000)).

(** The conversions on values the program uses: 0.8 of 500 GiB, a weighted
    average of two durations, half a second. *)
Example toInt64_watermark :
  toInt64 (fmul (ofInt64 (500 * 1024 * 1024 * 1024)) (literal 4 5)) = 429496729600%Z.
Proof. vm_compute. reflexivity. Qed.

Example toInt64_average :
  toInt64 (fadd (fmul (ofInt64 1000) (literal 7 8)) (fmul (ofInt64 200) (literal 1 8))) = 900%Z.
Proof. vm_compute. reflexivity. Qed.

Example seconds_half : feqb (seconds 500000000) (literal 1 2) = true.
Proof. vm_compute. reflexivity. Qed.

(** * Properties *)

(** ** Order *)

Definition notNaN (f : float64) : Prop := f <> S754_nan.

(** A key that orders the numbers: sign class, exponent, mantissa. *)
Definition fkey (f : float64) : Z * (Z * Z) :=
  match f with
  | S754_infinity true => (-2, (0, 0))
  | S754_finite true m e => (-1, (- e, Zneg m))
  | S754_zero _ | S754_nan => (0, (0, 0))
  | S754_finite false m e => (1, (e, Zpos m))
  | S754_infinity false => (2, (0, 0))
  end%Z.

Definition klt (a b : Z * (Z * Z)) : Prop :=
  (a.1 < b.1 \/ (a.1 = b.1 /\ (a.2.1 < b.2.1 \/ (a.2.1 = b.2.1 /\ a.2.2 < b.2.2))))%Z.

Lemma fltb_klt a b : notNaN a -> notNaN b -> fltb a b = true <-> klt (fkey a) (fkey b).
Proof.
  unfold notNaN, klt, fltb, SFltb.
  destruct a as [[]|[]| |[] m e], b as [[]|[]| |[] m' e']; intros Ha Hb; try done; simpl;
    try (split; [done|lia]); try (split; [lia|done]);
    destruct (Z.compare_spec e e') as [->|He|He]; try change (Pos.compare_cont Eq m m') with (m ?= m')%positive;
    try destruct (Pos.compare_spec m m') as [->|Hm|Hm]; simpl; split; (done || lia).
Qed.

Lemma feqb_false a b : notNaN a -> notNaN b -> feqb a b = false -> fltb a b = true \/ fltb b a = true.
Proof.
  intros Ha Hb He. rewrite !fltb_klt by done. revert He. unfold notNaN, klt, feqb, SFeqb in *.
  destruct a as [[]|[]| |[] m e], b as [[]|[]| |[] m' e']; try done; simpl; try (intros _; lia);
    destruct (Z.compare_spec e e') as [->|He|He]; try change (Pos.compare_cont Eq m m') with (m ?= m')%positive;
    try destruct (Pos.compare_spec m m') as [->|Hm|Hm]; simpl; intros; (done || lia).
Qed.

Lemma feqb_true a b : notNaN a -> notNaN b -> feqb a b = true -> fkey a = fkey b.
Proof.
  unfold notNaN, feqb, SFeqb.
  destruct a as [[]|[]| |[] m e], b as [[]|[]| |[] m' e']; try done; simpl;
    destruct (Z.compare_spec e e') as [->|He|He]; try change (Pos.compare_cont Eq m m') with (m ?= m')%positive;
    try destruct (Pos.compare_spec m m') as [->|Hm|Hm]; simpl; done.
Qed.

(** ** Results that are not NaN *)

(** Zero, a positive number or the positive infinity. *)
Definition nonneg (f : float64) : Prop :=
  match f with
  | S754_zero s | S754_infinity s | S754_finite s _ _ => s = false
  | S754_nan => False
  end.

Lemma nonneg_notNaN f : nonneg f -> notNaN f.
Proof. by destruct f. Qed.

Lemma iter_pos_ind {A} (P : A -> Prop) (f : A -> A) n x :
  (forall y, P y -> P (f y)) -> P x -> P (iter_pos f n x).
Proof. intros Hf. revert x. induction n as [n IH|n IH|]; intros x Hx; simpl; auto. Qed.

Lemma shr_fexp_nonneg m e l : (0 <= m)%Z -> (0 <= shr_m (shr_fexp 53 1024 m e l).1)%Z.
Proof.
  intros Hm. unfold shr_fexp. assert (0 <= shr_m (shr_record_of_loc m l))%Z as H by by destruct l as [|[]].
  unfold shr. destruct (_ - _)%Z; simpl; try done. apply (iter_pos_ind (fun r => 0 <= shr_m r)%Z); [|done].
  intros [[|[]|[]] r s]; simpl; lia.
Qed.

Lemma round_even_nonneg m l : (0 <= m)%Z -> (0 <= round_nearest_even m l)%Z.
Proof. intros. unfold round_nearest_even. destruct l as [|[]]; [|destruct (Z.even m)| |]; lia. Qed.

Lemma round_nonneg m e l : (0 <= m)%Z -> nonneg (binary_round_aux 53 1024 false m e l).
Proof.
  intros Hm. unfold binary_round_aux. pose proof (shr_fexp_nonneg m e l Hm) as H1.
  destruct (shr_fexp 53 1024 m e l) as [r1 e1]. simpl in H1.
  pose proof (shr_fexp_nonneg _ e1 loc_Exact (round_even_nonneg _ (loc_of_shr_record r1) H1)) as H2.
  destruct (shr_fexp 53 1024 _ e1 loc_Exact) as [r2 e2]. simpl in H2.
  destruct (shr_m r2); [done| |lia]. by destruct (_ <=? _)%Z.
Qed.

Lemma normalize_nonneg m e : (0 <= m)%Z -> nonneg (binary_normalize 53 1024 m e false).
Proof.
  intros Hm. destruct m; [done| |lia]. simpl. unfold binary_round.
  destruct (shl_align _ _ _). by apply round_nonneg.
Qed.

Lemma ofInt64_nonneg z : (0 <= z)%Z -> nonneg (ofInt64 z).
Proof. apply normalize_nonneg. Qed.

Lemma fadd_nonneg a b : nonneg a -> nonneg b -> nonneg (fadd a b).
Proof.
  destruct a, b; simpl; intros; subst; try done. apply normalize_nonneg. simpl. lia.
Qed.

Lemma fmul_nonneg a m e : nonneg a -> nonneg (fmul a (S754_finite false m e)).
Proof. destruct a; simpl; intros; subst; try done. by apply round_nonneg. Qed.

Lemma fdiv_nonneg m e b : nonneg b -> nonneg (fdiv (S754_finite false m e) b).
Proof.
  destruct b as [| | |s m' e']; simpl; intros; subst; try done. unfold SFdiv_core_binary.
  destruct (Z.div_eucl _ _) as [q r] eqn:E. apply round_nonneg.
  match type of E with Z.div_eucl ?a ?b = _ => assert (q = a / b)%Z as -> by (unfold Z.div; by rewrite E) end.
  apply Z.div_pos; [|done]. destruct (_ - _)%Z; [done|apply Z.shiftl_nonneg; done|done].
Qed.

(** ** Positive [int64] values are positive finite numbers *)

Lemma digits_log2 m : Zpos (digits2_pos m) = (Z.log2 (Zpos m) + 1)%Z.
Proof.
  induction m as [m IH|m IH|]; [| |done]; simpl digits2_pos; rewrite Pos2Z.inj_succ, IH.
  - rewrite Pos2Z.inj_xI, Z.log2_succ_double by lia. lia.
  - rewrite Pos2Z.inj_xO, Z.log2_double by lia. lia.
Qed.

Lemma shr_1_div2 r : (0 <= shr_m r)%Z -> shr_m (shr_1 r) = (shr_m r / 2)%Z.
Proof.
  destruct r as [m ? ?]. simpl. intros Hm. rewrite <- Z.div2_div. by destruct m as [|[]|[]].
Qed.

Lemma iter_shr_div n : forall r, (0 <= shr_m r)%Z -> shr_m (iter_pos shr_1 n r) = (shr_m r / 2 ^ Zpos n)%Z.
Proof.
  assert (forall n r, (0 <= shr_m r)%Z -> (0 <= shr_m (iter_pos shr_1 n r))%Z) as Hnn.
  { intros k r Hr. apply (iter_pos_ind (fun r => 0 <= shr_m r)%Z); [|done]. intros y Hy.
    rewrite shr_1_div2 by done. apply Z.div_pos; lia. }
  induction n as [n IH|n IH|]; intros r Hr; simpl.
  - assert (0 <= shr_m (shr_1 r))%Z by (rewrite shr_1_div2 by done; apply Z.div_pos; lia).
    rewrite !IH, shr_1_div2 by auto. rewrite Pos2Z.inj_xI, !Z.div_div by lia. f_equal.
    replace (2 * Zpos n + 1)%Z with (Zpos n + Zpos n + 1)%Z by lia. rewrite !Z.pow_add_r, Z.pow_1_r by lia. ring.
  - rewrite !IH by auto. rewrite (Pos2Z.inj_xO n), Z.div_div by lia. f_equal.
    replace (2 * Zpos n)%Z with (Zpos n + Zpos n)%Z by lia. rewrite Z.pow_add_r by lia. ring.
  - by rewrite shr_1_div2.
Qed.

(** Shifting to the format keeps a mantissa positive, far from underflow. *)
Lemma shr_fexp_pos m e l :
  (-900 <= e)%Z ->
  let r := shr_fexp 53 1024 (Zpos m) e l in
  (0 < shr_m r.1 <= Zpos m)%Z /\ (e <= r.2 <= e + Z.log2 (Zpos m) + 1)%Z.
Proof.
  intros He r. assert (shr_m (shr_record_of_loc (Zpos m) l) = Zpos m) as Hm by by destruct l as [|[]].
  unfold r, shr_fexp, fexp, emin. simpl (Zdigits2 _). rewrite digits_log2.
  pose proof (Z.log2_nonneg (Zpos m)) as Hlog. rewrite Z.max_l by lia.
  destruct (Z.log2 (Zpos m) + 1 + e - 53 - e)%Z as [|p|p] eqn:Ep; cbn [shr fst snd]; rewrite ?Hm; [lia| |lia].
  rewrite iter_shr_div by (rewrite Hm; lia). rewrite Hm.
  assert (Zpos p = Z.log2 (Zpos m) - 52)%Z as Hp by lia.
  pose proof (Z.log2_spec (Zpos m) ltac:(lia)) as [Hlo _]. split; [split|lia].
  - apply Z.div_str_pos. split; [lia|]. etransitivity; [|exact Hlo]. apply Z.pow_le_mono_r; lia.
  - apply Z.div_le_upper_bound; nia.
Qed.

Lemma round_finite m e :
  (-900 <= e)%Z -> (e + 2 * Z.log2 (Zpos m) + 4 <= 971)%Z ->
  exists m' e', binary_round_aux 53 1024 false (Zpos m) e loc_Exact = S754_finite false m' e'.
Proof.
  intros He Hu. unfold binary_round_aux. pose proof (shr_fexp_pos m e loc_Exact He) as H1. cbv zeta in H1.
  destruct (shr_fexp 53 1024 (Zpos m) e loc_Exact) as [r1 e1]. cbn [fst snd] in H1. destruct H1 as [H1 He1].
  set (m1 := round_nearest_even (shr_m r1) (loc_of_shr_record r1)).
  assert (0 < m1 <= Zpos m + 1)%Z as Hm1.
  { unfold m1, round_nearest_even. destruct (loc_of_shr_record r1) as [|[]]; [|destruct (Z.even _)| |]; lia. }
  destruct m1 as [|p1|]; [lia| |lia].
  pose proof (shr_fexp_pos p1 e1 loc_Exact ltac:(lia)) as H2. cbv zeta in H2.
  destruct (shr_fexp 53 1024 (Zpos p1) e1 loc_Exact) as [r2 e2]. cbn [fst snd] in H2. destruct H2 as [H2 He2].
  destruct (shr_m r2) as [|p2|]; [lia| |lia].
  assert (Z.log2 (Zpos p1) <= Z.log2 (Zpos m) + 1)%Z as Hlog.
  { etransitivity; [apply (Z.log2_le_mono _ (Zpos m + 1)); lia|]. rewrite Z.add_1_r. pose proof (Z.log2_succ_le (Zpos m)). lia. }
  rewrite (proj2 (Z.leb_le e2 (1024 - 53))) by lia. eauto.
Qed.

Lemma iter_xO m d : Zpos (Pos.iter xO m d) = (Zpos m * 2 ^ Zpos d)%Z.
Proof.
  revert m. induction d as [|d IH] using Pos.peano_ind; intros m; [simpl; lia|].
  rewrite Pos.iter_succ, Pos2Z.inj_xO, IH, Pos2Z.inj_succ, Z.pow_succ_r by lia. ring.
Qed.

(** [float64(z)] of a positive [int64]. *)
Lemma ofInt64_finite z : (0 < z < 2 ^ 63)%Z -> exists m e, ofInt64 z = S754_finite false m e.
Proof.
  intros [Hz Hu]. destruct z as [|p|]; [lia| |lia]. unfold ofInt64, binary_normalize, binary_round.
  assert (0 <= Z.log2 (Zpos p) < 63)%Z as Hlog.
  { split; [apply Z.log2_nonneg|]. by apply Z.log2_lt_pow2. }
  unfold shl_align, fexp, emin. rewrite digits_log2, Z.max_l by lia.
  destruct (Z.log2 (Zpos p) + 1 + 0 - 53 - 0)%Z as [|d|d] eqn:Ed; [apply round_finite; lia..|].
  apply round_finite; [lia|]. rewrite iter_xO, Z.log2_mul_pow2 by lia. lia.
Qed.
