(* ===== verification/Digest.v ===== *)
(** * Digests

    [crypto/sha256] and [encoding/hex] as the code uses them, and
    [ComputeHash] of pkg/chunk/chunker.go, the name of a chunk.  The rest of
    the development is parametric in the digest function: the class [Digest]
    states the only fact the code relies on (a digest has 32 bytes), and
    [sha256Digest] is the instance the program runs with. *)

From S2P Require Import Prelude.

Class Digest := {
  sum256 : bytes -> bytes;
  sum256_length : forall d, length (sum256 d) = 32
}.

(** ** SHA-256 (FIPS 180-4) *)

Module Sha256.

Definition w32 (x : Z) : Z := Z.land x 4294967295.
Definition add32 (x y : Z) : Z := w32 (x + y).
Definition rotr (n x : Z) : Z := Z.lor (Z.shiftr x n) (w32 (Z.shiftl x (32 - n))).
Definition not32 (x : Z) : Z := Z.lxor x 4294967295.

(** The constants, by the standard's own definition: the first 32 bits of the
    fractional parts of the cube roots of the first 64 primes, and for the
    initial state of the square roots of the first 8. *)
Definition isPrime (p : nat) : bool :=
  forallb (fun d => negb (Nat.eqb (p mod d) 0)) (seq 2 (p - 2)).

Definition primes : list Z := map Z.of_nat (List.filter isPrime (seq 2 310)).

(** The largest [r] below [lo + 2^n] with [r^3 <= x], by bisection. *)
Fixpoint cbrtFrom (n : nat) (lo x : Z) : Z :=
  match n with
  | O => lo
  | S n' =>
      let mid := (lo + 2 ^ Z.of_nat n')%Z in
      cbrtFrom n' (if (mid * mid * mid <=? x)%Z then mid else lo) x
  end.

Definition cbrtBits (p : Z) : Z := w32 (cbrtFrom 36 0 (Z.shiftl p 96)).
Definition sqrtBits (p : Z) : Z := w32 (Z.sqrt (Z.shiftl p 64)).

Definition K : list Z := Eval vm_compute in map cbrtBits primes.

Record st := St { sa : Z; sb : Z; sc : Z; sd : Z; se : Z; sf : Z; sg : Z; sh : Z }.

Definition H0 : st :=
  Eval vm_compute in
  match map sqrtBits (take 8 primes) with
  | [a; b; c; d; e; f; g; h] => St a b c d e f g h
  | _ => St 0 0 0 0 0 0 0 0
  end.

Definition byteZ (b : byte) : Z := Z.of_N (Byte.to_N b).
Definition Zbyte (z : Z) : byte :=
  match Byte.of_N (Z.to_N (z mod 256)) with Some b => b | None => x00 end.

Definition be32 (w : Z) : bytes :=
  [Zbyte (Z.shiftr w 24); Zbyte (Z.shiftr w 16); Zbyte (Z.shiftr w 8); Zbyte w].

Fixpoint words (d : bytes) : list Z :=
  match d with
  | a :: b :: c :: e :: d' =>
      (byteZ a * 16777216 + byteZ b * 65536 + byteZ c * 256 + byteZ e)%Z :: words d'
  | _ => []
  end.

(** Message padding: 0x80, zeros to 56 mod 64, the bit length in 64 bits. *)
Definition pad (d : bytes) : bytes :=
  let n := blen d in
  let z := ((55 - n) mod 64)%Z in
  d ++ [x80] ++ replicate (Z.to_nat z) x00
    ++ be32 (w32 (Z.shiftr (8 * n) 32)) ++ be32 (w32 (8 * n)).

(** Extend the schedule, kept reversed, by [n] words. *)
Fixpoint extend (n : nat) (w : list Z) : list Z :=
  match n with
  | O => w
  | S n' =>
      let w15 := nth 14 w 0%Z in
      let w2 := nth 1 w 0%Z in
      let s0 := Z.lxor (Z.lxor (rotr 7 w15) (rotr 18 w15)) (Z.shiftr w15 3) in
      let s1 := Z.lxor (Z.lxor (rotr 17 w2) (rotr 19 w2)) (Z.shiftr w2 10) in
      extend n' (w32 (nth 15 w 0%Z + s0 + nth 6 w 0%Z + s1) :: w)
  end.

Definition round (s : st) (kw : Z * Z) : st :=
  let s1 := Z.lxor (Z.lxor (rotr 6 (se s)) (rotr 11 (se s))) (rotr 25 (se s)) in
  let ch := Z.lxor (Z.land (se s) (sf s)) (Z.land (not32 (se s)) (sg s)) in
  let t1 := (sh s + s1 + ch + fst kw + snd kw)%Z in
  let s0 := Z.lxor (Z.lxor (rotr 2 (sa s)) (rotr 13 (sa s))) (rotr 22 (sa s)) in
  let maj := Z.lxor (Z.lxor (Z.land (sa s) (sb s)) (Z.land (sa s) (sc s))) (Z.land (sb s) (sc s)) in
  St (w32 (t1 + s0 + maj)) (sa s) (sb s) (sc s) (w32 (sd s + t1)) (se s) (sf s) (sg s).

Definition block (s : st) (w : list Z) : st :=
  let r := fold_left round (combine K (rev (extend 48 (rev w)))) s in
  St (add32 (sa s) (sa r)) (add32 (sb s) (sb r)) (add32 (sc s) (sc r)) (add32 (sd s) (sd r))
     (add32 (se s) (se r)) (add32 (sf s) (sf r)) (add32 (sg s) (sg r)) (add32 (sh s) (sh r)).

Fixpoint blocks (fuel : nat) (s : st) (w : list Z) : st :=
  match fuel, w with
  | S fuel', _ :: _ => blocks fuel' (block s (take 16 w)) (drop 16 w)
  | _, _ => s
  end.

Definition hash (d : bytes) : bytes :=
  let w := words (pad d) in
  let s := blocks (length w) H0 w in
  be32 (sa s) ++ be32 (sb s) ++ be32 (sc s) ++ be32 (sd s)
  ++ be32 (se s) ++ be32 (sf s) ++ be32 (sg s) ++ be32 (sh s).

End Sha256.

#[export] Program Instance sha256Digest : Digest := {| sum256 := Sha256.hash |}.
Next Obligation. done. Qed.

(** ** Hexadecimal *)

Definition hexDigit (n : N) : Ascii.ascii :=
  Ascii.ascii_of_N (if (n <? 10)%N then 48 + n else 87 + n)%N.

Definition hexByte (b : byte) : string :=
  let n := Byte.to_N b in
  String (hexDigit (n / 16)%N) (String (hexDigit (n mod 16)%N) EmptyString).

(** [hex.EncodeToString] *)
Fixpoint hexEncode (d : bytes) : string :=
  match d with
  | [] => ""
  | b :: d' => hexByte b +:+ hexEncode d'
  end.

(** A lower-case hexadecimal character. *)
Definition isHexChar (c : Ascii.ascii) : bool :=
  let n := Ascii.N_of_ascii c in
  ((48 <=? n)%N && (n <=? 57)%N) || ((97 <=? n)%N && (n <=? 102)%N).

Fixpoint allChars (P : Ascii.ascii -> bool) (s : string) : bool :=
  match s with
  | EmptyString => true
  | String c s' => P c && allChars P s'
  end.

Definition isHex (s : string) : bool := allChars isHexChar s.

Section hashing.
Context {D : Digest}.

(** chunk.ComputeHash *)
Definition ComputeHash (data : bytes) : string :=
  "sha256:" +:+ hexEncode (sum256 data).

End hashing.

(** * Lemmas *)

Lemma allChars_app P s t : allChars P (s +:+ t) = allChars P s && allChars P t.
Proof.
  induction s as [|c s IH]; [done|]. rewrite str_app_cons. simpl.
  by rewrite IH, andb_assoc.
Qed.

Lemma hexByte_hex b : isHex (hexByte b) = true.
Proof. destruct b; reflexivity. Qed.

Definition unhexChar (c : Ascii.ascii) : N :=
  let n := Ascii.N_of_ascii c in
  if (n <=? 57)%N then (n - 48)%N else (n - 87)%N.

Definition unhexByte (s : string) : option byte :=
  match s with
  | String a (String b EmptyString) => Byte.of_N (16 * unhexChar a + unhexChar b)%N
  | _ => None
  end.

Lemma unhex_hexByte b : unhexByte (hexByte b) = Some b.
Proof. destruct b; reflexivity. Qed.

Lemma hexByte_inj b1 b2 : hexByte b1 = hexByte b2 -> b1 = b2.
Proof.
  intros H. apply (f_equal unhexByte) in H. rewrite !unhex_hexByte in H. congruence.
Qed.

Lemma hexEncode_length d : String.length (hexEncode d) = 2 * length d.
Proof.
  induction d as [|b d IH]; [done|]. simpl. rewrite str_length_app, IH. simpl. lia.
Qed.

Lemma hexEncode_hex d : isHex (hexEncode d) = true.
Proof.
  induction d as [|b d IH]; [done|]. simpl. unfold isHex in *.
  rewrite allChars_app, IH. pose proof (hexByte_hex b) as Hb. unfold isHex in Hb. by rewrite Hb.
Qed.

Lemma hexEncode_inj d1 d2 : hexEncode d1 = hexEncode d2 -> d1 = d2.
Proof.
  revert d2. induction d1 as [|b1 d1 IH]; intros [|b2 d2] H; try done.
  simpl in H. unfold hexByte in H. rewrite !str_app_cons, !str_app_nil_l in H.
  injection H as Ha Hb Hr. f_equal; [|by apply IH].
  apply hexByte_inj. unfold hexByte. congruence.
Qed.

(** The test vectors of FIPS 180-4. *)
Example sha256_abc :
  hexEncode (Sha256.hash [x61; x62; x63])
  = "ba7816bf8f01cfea414140de5dae2223b00361a396177a9cb410ff61f20015ad".
Proof. vm_compute. reflexivity. Qed.

Example sha256_empty :
  hexEncode (Sha256.hash [])
  = "e3b0c44298fc1c149afbf4c8996fb92427ae41e4649b934ca495991b7852b855".
Proof. vm_compute. reflexivity. Qed.

Section hashing_lemmas.
Context {D : Digest}.

(** A chunk name has the shape [parseHash] and [Validate] ask for. *)
Lemma ComputeHash_length d : String.length (ComputeHash d) = 71.
Proof.
  unfold ComputeHash. rewrite str_length_app, hexEncode_length, sum256_length. done.
Qed.

Lemma ComputeHash_eq d1 d2 : ComputeHash d1 = ComputeHash d2 <-> sum256 d1 = sum256 d2.
Proof.
  unfold ComputeHash. split; [|by intros ->].
  intros H. apply (f_equal (fun s => strDrop (String.length "sha256:") s)) in H.
  rewrite !strDrop_app in H. by apply hexEncode_inj.
Qed.

End hashing_lemmas.
