(* ===== verification/GoPath.v ===== *)
(** * Paths

    Go's [path/filepath] on Unix, on byte strings.  A path is read as the list
    of its slash-separated elements; [Clean] runs the elements through a stack
    machine.  [key] is what a path names: the elements below the root directory
    (a relative path is taken from the root directory, symbolic links are not
    modelled). *)

From S2P Require Import Prelude Digest.

Definition slash : Ascii.ascii := Ascii.ascii_of_N 47.

(** [strings.Split(s, "/")] *)
Fixpoint split (s : string) : list string :=
  match s with
  | EmptyString => [""]
  | String a s' =>
      if bool_decide (a = slash) then "" :: split s'
      else match split s' with
           | h :: t => String a h :: t
           | [] => [String a ""]
           end
  end.

(** [strings.Join(cs, "/")] *)
Fixpoint joinSlash (cs : list string) : string :=
  match cs with
  | [] => ""
  | [c] => c
  | c :: cs' => c +:+ "/" +:+ joinSlash cs'
  end.

(** One element against the reversed output of [Clean]. *)
Definition cleanStep (rooted : bool) (out : list string) (c : string) : list string :=
  if bool_decide (c = "") || bool_decide (c = ".") then out
  else if bool_decide (c = "..") then
    match out with
    | [] => if rooted then [] else [".."]
    | o :: out' => if bool_decide (o = "..") then ".." :: out else out'
    end
  else c :: out.

Definition cleanComps (rooted : bool) (cs : list string) : list string :=
  rev (fold_left (cleanStep rooted) cs []).

(** filepath.IsAbs *)
Definition IsAbs (p : string) : bool := hasPrefix "/" p.

Definition render (rooted : bool) (cs : list string) : string :=
  if rooted then "/" +:+ joinSlash cs
  else match cs with [] => "." | _ => joinSlash cs end.

(** filepath.Clean *)
Definition Clean (p : string) : string := render (IsAbs p) (cleanComps (IsAbs p) (split p)).

(** filepath.Join *)
Fixpoint Join (es : list string) : string :=
  match es with
  | [] => ""
  | e :: es' => if bool_decide (e = "") then Join es' else Clean (joinSlash es)
  end.

(** filepath.Dir: [Clean] of everything up to the last slash. *)
Definition Dir (p : string) : string :=
  match rev (split p) with
  | _ :: ((_ :: _) as r) => Clean (joinSlash (rev r) +:+ "/")
  | _ => "."
  end.

(** filepath.Base *)
Definition Base (p : string) : string :=
  if bool_decide (p = "") then "."
  else match List.filter (fun c => negb (bool_decide (c = ""))) (rev (split p)) with
       | c :: _ => c
       | [] => "/"
       end.

Fixpoint dropCommon (b t : list string) : list string * list string :=
  match b, t with
  | x :: b', y :: t' => if bool_decide (x = y) then dropCommon b' t' else (b, t)
  | _, _ => (b, t)
  end.

(** filepath.Rel; [None] is its error. *)
Definition Rel (base targ : string) : option string :=
  let b := cleanComps (IsAbs base) (split base) in
  let t := cleanComps (IsAbs targ) (split targ) in
  if bool_decide (Clean base = Clean targ) then Some "."
  else if negb (bool_decide (IsAbs base = IsAbs targ)) then None
  else let '(b', t') := dropCommon b t in
       match b' with
       | c :: _ => if bool_decide (c = "..") then None
                   else Some (joinSlash (map (fun _ => "..") b' ++ t'))
       | [] => Some (joinSlash t')
       end.

(** The directory entry a path names. *)
Definition key (p : string) : list string := cleanComps true (split p).

(** ** Elements *)

Fixpoint noSlash (s : string) : bool :=
  match s with
  | EmptyString => true
  | String a s' => negb (bool_decide (a = slash)) && noSlash s'
  end.

(** An element [Clean] keeps as it is: a file name. *)
Definition isName (c : string) : bool :=
  noSlash c && negb (bool_decide (c = "")) && negb (bool_decide (c = "."))
  && negb (bool_decide (c = "..")).

(** * Lemmas *)

Example Clean_ex1 : Clean "a/./b//../c/" = "a/c". Proof. reflexivity. Qed.
Example Clean_ex2 : Clean "../../a/.." = "../..". Proof. reflexivity. Qed.
Example Clean_ex3 : Clean "/../a/../" = "/". Proof. reflexivity. Qed.
Example Clean_ex4 : Clean "" = ".". Proof. reflexivity. Qed.
Example Dir_ex1 : Dir "/a/b" = "/a". Proof. reflexivity. Qed.
Example Dir_ex2 : Dir "/a" = "/". Proof. reflexivity. Qed.
Example Rel_ex1 : Rel "/a" "/b/c" = Some "../b/c". Proof. reflexivity. Qed.

Lemma split_nonnil s : split s <> [].
Proof. destruct s; simpl; [done|]. case_bool_decide; [done|]. by destruct (split s). Qed.

Lemma split_noSlash s : Forall (fun c => noSlash c = true) (split s).
Proof.
  induction s as [|a s IH]; simpl; [repeat constructor|].
  case_bool_decide as Ha; [by constructor|].
  destruct (split s) as [|h t] eqn:E; [by destruct (split_nonnil s)|].
  inversion IH; subst. constructor; [|done]. simpl. by rewrite bool_decide_eq_false_2.
Qed.

Lemma split_simple c : noSlash c = true -> split c = [c].
Proof.
  induction c as [|a c IH]; simpl; [done|]. intros H. boolify.
  rewrite bool_decide_eq_false_2 by done. by rewrite IH.
Qed.

Lemma split_app_slash c s : noSlash c = true -> split (c +:+ "/" +:+ s) = c :: split s.
Proof.
  induction c as [|a c IH]; intros H.
  - done.
  - simpl in H. boolify. rewrite str_app_cons. simpl.
    rewrite bool_decide_eq_false_2 by done. by rewrite IH.
Qed.

Lemma split_join cs :
  cs <> [] -> Forall (fun c => noSlash c = true) cs -> split (joinSlash cs) = cs.
Proof.
  intros Hne H. induction H as [|c cs Hc Hcs IH]; [done|].
  destruct cs as [|c' cs]; [by apply split_simple|].
  change (split (c +:+ "/" +:+ joinSlash (c' :: cs)) = c :: c' :: cs).
  rewrite split_app_slash by done. by rewrite IH.
Qed.

(** Splitting distributes over a slash between any two strings. *)
Lemma split_slash s t : split (s +:+ "/" +:+ t) = split s ++ split t.
Proof.
  induction s as [|a s IH].
  - done.
  - rewrite str_app_cons. simpl. rewrite IH. case_bool_decide; [done|].
    destruct (split s) as [|h u] eqn:E; [by destruct (split_nonnil s)|]. done.
Qed.

(** The inverse direction: a string is the join of its elements. *)
Lemma join_split s : joinSlash (split s) = s.
Proof.
  induction s as [|a s IH]; [done|]. simpl. case_bool_decide as Ha.
  - subst. destruct (split s) as [|h t] eqn:E; [by destruct (split_nonnil s)|].
    change ("" +:+ "/" +:+ joinSlash (h :: t) = String slash s). by rewrite IH.
  - destruct (split s) as [|h t] eqn:E; [by destruct (split_nonnil s)|].
    rewrite <- IH. destruct t; done.
Qed.

Lemma isName_inv c :
  isName c = true -> noSlash c = true /\ c <> "" /\ c <> "." /\ c <> "..".
Proof. unfold isName. intros. boolify. done. Qed.

Lemma isName_iff c :
  isName c = true <-> noSlash c = true /\ c <> "" /\ c <> "." /\ c <> "..".
Proof.
  split; [apply isName_inv|]. intros (H & ? & ? & ?). unfold isName.
  rewrite H, !bool_decide_eq_false_2 by done. done.
Qed.

Lemma cleanStep_name r out c : isName c = true -> cleanStep r out c = c :: out.
Proof.
  intros (_ & ? & ? & ?)%isName_inv. unfold cleanStep.
  rewrite !bool_decide_eq_false_2 by done. done.
Qed.

Lemma fold_cleanStep_names r out cs :
  Forall (fun c => isName c = true) cs -> fold_left (cleanStep r) cs out = rev cs ++ out.
Proof.
  intros H. revert out. induction H as [|c cs Hc Hcs IH]; intros out; simpl; [done|].
  rewrite cleanStep_name, IH by done. by rewrite <- app_assoc.
Qed.

Lemma cleanComps_names r cs :
  Forall (fun c => isName c = true) cs -> cleanComps r cs = cs.
Proof.
  intros H. unfold cleanComps. rewrite fold_cleanStep_names by done.
  by rewrite app_nil_r, rev_involutive.
Qed.

(** The shape of what [Clean] outputs: names, below leading [..] elements when
    the path is not rooted.  Stated on the reversed output. *)
Definition cleanOut (rooted : bool) (out : list string) : Prop :=
  exists ns n, out = ns ++ replicate n ".." /\ Forall (fun c => isName c = true) ns
               /\ (rooted = true -> n = 0).

Lemma cleanStep_out r out c :
  noSlash c = true -> cleanOut r out -> cleanOut r (cleanStep r out c).
Proof.
  intros Hc (ns & n & -> & Hns & Hr). unfold cleanStep.
  destruct (bool_decide (c = "") || bool_decide (c = ".")) eqn:E; [by exists ns, n|].
  boolify. case_bool_decide as Hdd.
  - destruct ns as [|o ns]; simpl.
    + destruct n as [|n]; simpl.
      * destruct r; [by exists [], 0|]. by exists [], 1.
      * exists [], (S (S n)). split; [done|]. split; [done|]. intros Ht; by specialize (Hr Ht).
    + inversion Hns as [|? ? Ho Hns']; subst.
      pose proof (isName_inv _ Ho) as (_ & _ & _ & Hne).
      rewrite bool_decide_eq_false_2 by done. by exists ns, n.
  - exists (c :: ns), n. split; [done|]. split; [|done]. constructor; [|done].
    apply isName_iff. done.
Qed.

Lemma fold_cleanStep_out r cs out :
  Forall (fun c => noSlash c = true) cs -> cleanOut r out ->
  cleanOut r (fold_left (cleanStep r) cs out).
Proof.
  intros H. revert out. induction H; intros out Ho; simpl; [done|].
  apply IHForall. by apply cleanStep_out.
Qed.

Lemma replicate_rev {A} n (x : A) : rev (replicate n x) = replicate n x.
Proof.
  induction n; simpl; [done|]. rewrite IHn.
  clear. induction n; simpl; congruence.
Qed.

Lemma cleanComps_shape r cs :
  Forall (fun c => noSlash c = true) cs ->
  exists n ns, cleanComps r cs = replicate n ".." ++ ns
               /\ Forall (fun c => isName c = true) ns /\ (r = true -> n = 0).
Proof.
  intros H. destruct (fold_cleanStep_out r cs [] H) as (ns & n & E & Hns & Hr).
  { by exists [], 0. }
  exists n, (rev ns). unfold cleanComps. rewrite E, rev_app_distr.
  split; [|split; [by apply Forall_rev|done]].
  by rewrite replicate_rev.
Qed.

Lemma cleanComps_rooted_names cs :
  Forall (fun c => noSlash c = true) cs ->
  Forall (fun c => isName c = true) (cleanComps true cs).
Proof.
  intros H. destruct (cleanComps_shape true cs H) as (n & ns & -> & ? & Hn).
  by rewrite (Hn eq_refl).
Qed.

Lemma key_names p : Forall (fun c => isName c = true) (key p).
Proof. apply cleanComps_rooted_names, split_noSlash. Qed.

Lemma fold_cleanStep_dots n out :
  fold_left (cleanStep false) (replicate n "..") (replicate out "..") = replicate (n + out) "..".
Proof.
  revert out. induction n as [|n IH]; intros out; simpl; [done|].
  assert (cleanStep false (replicate out "..") ".." = replicate (S out) "..") as E
    by (destruct out; done).
  rewrite E, IH. change (".." :: replicate (n + out) "..") with (replicate (S (n + out)) "..").
  f_equal. lia.
Qed.

(** [Clean] is idempotent on elements. *)
Lemma cleanComps_idem r cs :
  Forall (fun c => noSlash c = true) cs -> cleanComps r (cleanComps r cs) = cleanComps r cs.
Proof.
  intros H. destruct (cleanComps_shape r cs H) as (n & ns & -> & Hns & Hr).
  unfold cleanComps. rewrite fold_left_app.
  destruct r.
  - rewrite (Hr eq_refl). simpl. rewrite fold_cleanStep_names by done.
    by rewrite app_nil_r, rev_involutive.
  - pose proof (fold_cleanStep_dots n 0) as E. simpl in E. rewrite E.
    rewrite fold_cleanStep_names by done. rewrite rev_app_distr, rev_involutive, replicate_rev, Nat.add_0_r. done.
Qed.

(** ** What a path names *)

Lemma cleanStep_skip r out c : c = "" \/ c = "." -> cleanStep r out c = out.
Proof. by intros [-> | ->]. Qed.

Lemma cleanStep_push r out c : c <> "" -> c <> "." -> c <> ".." -> cleanStep r out c = c :: out.
Proof. intros. unfold cleanStep. by rewrite !bool_decide_eq_false_2. Qed.

Lemma cleanStep_pop r o out : o <> ".." -> cleanStep r (o :: out) ".." = out.
Proof. intros. unfold cleanStep. simpl. by rewrite bool_decide_eq_false_2. Qed.

Lemma cleanStep_fuse acc out c :
  cleanOut false out ->
  fold_left (cleanStep true) (rev (cleanStep false out c)) acc
  = cleanStep true (fold_left (cleanStep true) (rev out) acc) c.
Proof.
  intros (ns & n & -> & Hns & _).
  destruct (decide (c = "" \/ c = ".")) as [Hs|Hs]; [by rewrite !cleanStep_skip|].
  destruct (decide (c = "..")) as [->|Hdd].
  - destruct ns as [|o ns].
    + destruct n as [|n]; [done|].
      change (cleanStep false ([] ++ replicate (S n) "..") "..")
        with (".." :: replicate (S n) "..").
      simpl. by rewrite !fold_left_app.
    + inversion Hns as [|? ? Ho Hns']; subst.
      pose proof (isName_inv _ Ho) as (_ & ? & ? & Hne).
      rewrite <- app_comm_cons, cleanStep_pop by done.
      simpl. rewrite fold_left_app. simpl. rewrite (cleanStep_name true _ o) by done.
      by rewrite cleanStep_pop.
  - rewrite !cleanStep_push by tauto. simpl. rewrite fold_left_app. simpl.
    by rewrite cleanStep_push by tauto.
Qed.

(** Cleaning a relative path first does not change what it names from [acc]. *)
Lemma fold_cleanComps acc cs :
  Forall (fun c => noSlash c = true) cs ->
  fold_left (cleanStep true) (cleanComps false cs) acc = fold_left (cleanStep true) cs acc.
Proof.
  intros H. unfold cleanComps.
  assert (forall out, cleanOut false out ->
    fold_left (cleanStep true) (rev (fold_left (cleanStep false) cs out)) acc
    = fold_left (cleanStep true) cs (fold_left (cleanStep true) (rev out) acc)) as Hg.
  { induction H as [|c cs Hc Hcs IH]; intros out Ho; simpl; [done|].
    rewrite IH by by apply cleanStep_out. by rewrite cleanStep_fuse. }
  rewrite Hg; [done|]. by exists [], 0.
Qed.

Lemma cleanComps_noSlash r cs :
  Forall (fun c => noSlash c = true) cs -> Forall (fun c => noSlash c = true) (cleanComps r cs).
Proof.
  intros H. destruct (cleanComps_shape r cs H) as (n & ns & -> & Hns & _).
  apply Forall_app. split; [by apply Forall_replicate|].
  eapply Forall_impl; [exact Hns|]. intros c Hc. by apply isName_inv in Hc as [? _].
Qed.

Lemma IsAbs_split p : IsAbs p = true -> exists t, split p = "" :: t /\ t <> [].
Proof.
  unfold IsAbs. rewrite hasPrefix_iff. intros [t ->]. exists (split t).
  split; [done|apply split_nonnil].
Qed.

Lemma split_render r cs :
  Forall (fun c => noSlash c = true) cs ->
  split (render r cs)
  = match r, cs with
    | true, [] => [""; ""]
    | true, _ => "" :: cs
    | false, [] => ["."]
    | false, _ => cs
    end.
Proof.
  intros H. unfold render. destruct r.
  - change ("/" +:+ joinSlash cs) with ("" +:+ "/" +:+ joinSlash cs).
    rewrite split_app_slash by done. destruct cs; [done|]. by rewrite split_join.
  - destruct cs; [done|]. by rewrite split_join.
Qed.

Lemma IsAbs_cons a s : IsAbs (String a s) = bool_decide (slash = a).
Proof. change (bool_decide (slash = a) && true = bool_decide (slash = a)). apply andb_true_r. Qed.

(** Rendering the output of [Clean] and reading it back. *)
Lemma IsAbs_render r cs :
  Forall (fun c => noSlash c = true) cs -> Forall (fun c => c <> "") cs ->
  IsAbs (render r cs) = r.
Proof.
  intros H1 H2. destruct r; [done|]. unfold render. destruct cs as [|c cs]; [done|].
  inversion H1; inversion H2; subst.
  destruct c as [|a c]; [done|]. simpl in *. boolify.
  assert (slash <> a) by done.
  destruct cs; simpl; rewrite ?str_app_cons, IsAbs_cons; by rewrite bool_decide_eq_false_2.
Qed.

Lemma cleanComps_nonempty r cs :
  Forall (fun c => noSlash c = true) cs -> Forall (fun c => c <> "") (cleanComps r cs).
Proof.
  intros H. destruct (cleanComps_shape r cs H) as (n & ns & -> & Hns & _).
  apply Forall_app. split; [by apply Forall_replicate|].
  eapply Forall_impl; [exact Hns|]. intros c Hc. by apply isName_inv in Hc as (_ & ? & _).
Qed.

Lemma IsAbs_Clean p : IsAbs (Clean p) = IsAbs p.
Proof.
  apply IsAbs_render; [apply cleanComps_noSlash|apply cleanComps_nonempty]; apply split_noSlash.
Qed.

Lemma comps_Clean p :
  cleanComps (IsAbs p) (split (Clean p)) = cleanComps (IsAbs p) (split p).
Proof.
  unfold Clean. rewrite split_render by apply cleanComps_noSlash, split_noSlash.
  pose proof (cleanComps_idem (IsAbs p) (split p) (split_noSlash p)) as Hi.
  destruct (IsAbs p); destruct (cleanComps _ (split p)) as [|c cs] eqn:E; try done.
Qed.

Lemma Clean_idem p : Clean (Clean p) = Clean p.
Proof. unfold Clean at 1. rewrite IsAbs_Clean, comps_Clean. done. Qed.

Lemma key_Clean p : key (Clean p) = key p.
Proof.
  unfold key. destruct (IsAbs p) eqn:E.
  - rewrite <- E. apply comps_Clean.
  - unfold Clean. rewrite E, split_render by apply cleanComps_noSlash, split_noSlash.
    pose proof (fold_cleanComps [] (split p) (split_noSlash p)) as Hf.
    unfold cleanComps in *. f_equal. rewrite <- Hf.
    destruct (rev _); done.
Qed.

(** What [Join(d, es...)] names, when the elements are file names. *)
Lemma joinSlash_cons2 d e es : joinSlash (d :: e :: es) = d +:+ "/" +:+ joinSlash (e :: es).
Proof. done. Qed.

Lemma split_joinSlash_cons d es :
  Forall (fun c => noSlash c = true) es -> split (joinSlash (d :: es)) = split d ++ es.
Proof.
  intros H. destruct es as [|e es]; [by rewrite app_nil_r|].
  rewrite joinSlash_cons2, split_slash, split_join by done. done.
Qed.

Lemma Join_Clean d es : d <> "" -> Join (d :: es) = Clean (joinSlash (d :: es)).
Proof. intros. unfold Join. by rewrite bool_decide_eq_false_2. Qed.

Lemma names_noSlash es :
  Forall (fun c => isName c = true) es -> Forall (fun c => noSlash c = true) es.
Proof. intros H. eapply Forall_impl; [exact H|]. intros c Hc. by apply isName_inv in Hc as [? _]. Qed.

Lemma key_Join_names d es :
  d <> "" -> Forall (fun c => isName c = true) es -> key (Join (d :: es)) = key d ++ es.
Proof.
  intros Hd H. rewrite Join_Clean, key_Clean by done. unfold key.
  rewrite split_joinSlash_cons by by apply names_noSlash.
  unfold cleanComps. rewrite fold_left_app, fold_cleanStep_names by done.
  by rewrite rev_app_distr, rev_involutive.
Qed.

Lemma Join_nonempty d es : d <> "" -> Join (d :: es) <> "".
Proof.
  intros Hd. rewrite Join_Clean by done. set (s := joinSlash (d :: es)).
  unfold Clean, render. destruct (IsAbs s); [done|].
  pose proof (cleanComps_nonempty false (split s) (split_noSlash s)) as Hne.
  destruct (cleanComps false (split s)) as [|c cs]; [done|].
  inversion Hne; subst. destruct cs; [done|]. destruct c; done.
Qed.

(** [Dir] names the parent when the last element is a file name. *)
Lemma key_Dir p cs c : split p = cs ++ [c] -> isName c = true -> key p = key (Dir p) ++ [c].
Proof.
  intros Hs Hc. unfold key at 1. rewrite Hs. unfold Dir. rewrite Hs, rev_app_distr. simpl.
  unfold cleanComps at 1. rewrite fold_left_app. simpl. rewrite cleanStep_name by done.
  simpl. f_equal.
  destruct (rev cs) as [|x r] eqn:E.
  - assert (cs = []) as ->; [|done]. by rewrite <- (rev_involutive cs), E.
  - rewrite <- E, rev_involutive, key_Clean. unfold key.
    assert (cs <> []) as Hne. { intros ->. done. }
    assert (joinSlash cs +:+ "/" = joinSlash cs +:+ "/" +:+ "") as -> by done.
    rewrite split_slash, split_join; [|done|].
    + unfold cleanComps. by rewrite fold_left_app.
    + pose proof (split_noSlash p) as Hn. rewrite Hs in Hn. by apply Forall_app in Hn as [? _].
Qed.

Lemma cleanComps_snoc r cs e : isName e = true -> cleanComps r (cs ++ [e]) = cleanComps r cs ++ [e].
Proof.
  intros He. unfold cleanComps. rewrite fold_left_app. simpl. by rewrite cleanStep_name.
Qed.

Lemma split_render_snoc r cs e :
  Forall (fun c => noSlash c = true) (cs ++ [e]) ->
  exists pre, split (render r (cs ++ [e])) = pre ++ [e].
Proof.
  intros H. rewrite split_render by done. destruct cs as [|c cs], r; simpl.
  - by exists [""].
  - by exists [].
  - by exists ("" :: c :: cs).
  - by exists (c :: cs).
Qed.

(** The parent of [Join(d, es..., e)]. *)
Lemma key_Dir_Join d es e :
  d <> "" -> Forall (fun c => isName c = true) (es ++ [e]) ->
  key (Dir (Join (d :: es ++ [e]))) = key d ++ es.
Proof.
  intros Hd H. pose proof (key_Join_names d (es ++ [e]) Hd H) as Hk.
  assert (Forall (fun c => noSlash c = true) (es ++ [e])) as Hn by by apply names_noSlash.
  apply Forall_app in H as [Hes He]. inversion He as [|? ? He' _]; subst.
  destruct (split_render_snoc (IsAbs (joinSlash (d :: es ++ [e])))
    (cleanComps (IsAbs (joinSlash (d :: es ++ [e]))) (split d ++ es)) e) as [pre Hpre].
  { apply Forall_app. split; [|by apply Forall_app in Hn as [_ ?]].
    apply cleanComps_noSlash, Forall_app. split; [apply split_noSlash|by apply names_noSlash]. }
  assert (split (Join (d :: es ++ [e])) = pre ++ [e]) as Hcs.
  { rewrite Join_Clean by done. unfold Clean.
    rewrite split_joinSlash_cons, app_assoc, cleanComps_snoc by done. exact Hpre. }
  rewrite (key_Dir _ _ _ Hcs He') in Hk. rewrite app_assoc in Hk.
  by apply app_inj_tail in Hk as [? _].
Qed.

Lemma noSlash_app s t : noSlash (s +:+ t) = noSlash s && noSlash t.
Proof.
  induction s as [|a s IH]; [done|]. rewrite str_app_cons. simpl. by rewrite IH, andb_assoc.
Qed.

(** A name longer than two bytes. *)
Lemma isName_long c : noSlash c = true -> 2 < String.length c -> isName c = true.
Proof.
  intros Hn Hl. apply isName_iff. split; [done|]. split; [|split]; intros ->; simpl in Hl; lia.
Qed.

Lemma noSlash_pretty (n : N) : noSlash (pretty n) = true.
Proof.
  assert (forall k s, noSlash s = true -> noSlash (pretty_N_go k s) = true) as Hgo.
  { intros k. induction k as [k IH] using (well_founded_induction N.lt_wf_0). intros s Hs.
    destruct (decide (k = 0%N)) as [->|Hk]; [by rewrite pretty_N_go_0|].
    rewrite pretty_N_go_step by lia. apply IH; [apply N.div_lt; lia|].
    simpl. rewrite Hs, andb_true_r. apply negb_true_iff, bool_decide_eq_false.
    unfold pretty_N_char. by repeat case_match. }
  unfold pretty, pretty_N. case_decide; [done|]. by apply Hgo.
Qed.

Lemma split_Join_snoc d es e :
  d <> "" -> Forall (fun c => isName c = true) (es ++ [e]) ->
  exists pre, split (Join (d :: es ++ [e])) = pre ++ [e].
Proof.
  intros Hd H. assert (Forall (fun c => noSlash c = true) (es ++ [e])) as Hn by by apply names_noSlash.
  apply Forall_app in H as [Hes He]. inversion He as [|? ? He' _]; subst.
  rewrite Join_Clean by done. unfold Clean.
  rewrite split_joinSlash_cons, app_assoc, cleanComps_snoc by done. apply split_render_snoc.
  apply Forall_app. split; [|by apply Forall_app in Hn as [_ ?]].
  apply cleanComps_noSlash, Forall_app. split; [apply split_noSlash|by apply names_noSlash].
Qed.

(** [Base] of a joined path is its last element. *)
Lemma Base_Join d es e :
  d <> "" -> Forall (fun c => isName c = true) (es ++ [e]) -> Base (Join (d :: es ++ [e])) = e.
Proof.
  intros Hd H. destruct (split_Join_snoc d es e Hd H) as [pre Hs].
  apply Forall_app in H as [_ He]. inversion He as [|? ? (_ & Hne & _)%isName_inv _]; subst.
  unfold Base. rewrite bool_decide_eq_false_2 by by apply Join_nonempty.
  rewrite Hs, rev_app_distr. simpl. by rewrite bool_decide_eq_false_2.
Qed.

(** A suffix without a slash belongs to the last element. *)
Lemma split_suffix s t pre e :
  noSlash t = true -> split s = pre ++ [e] -> split (s +:+ t) = pre ++ [e +:+ t].
Proof.
  intros Ht. revert pre e. induction s as [|a s IH]; intros pre e Hs.
  - change (split t = pre ++ [e +:+ t]). rewrite split_simple by done.
    change ([""] = pre ++ [e]) in Hs. destruct pre as [|? [|? ?]]; simplify_eq/=. done.
  - rewrite str_app_cons. simpl in Hs |- *. case_bool_decide.
    + destruct pre as [|p pre]; simplify_eq/=; [by destruct (split_nonnil s)|]. f_equal. by apply IH.
    + destruct (split s) as [|h [|h' r]] eqn:E; [by destruct (split_nonnil s)| |].
      * destruct pre as [|? [|? ?]]; simplify_eq/=. by rewrite (IH [] h).
      * destruct pre as [|p pre]; simplify_eq/=. rewrite (IH (h :: pre) e); [done|]. simpl. congruence.
Qed.

Lemma key_Join_suffix d e t :
  d <> "" -> isName e = true -> noSlash t = true -> isName (e +:+ t) = true ->
  key (Join [d; e] +:+ t) = key d ++ [e +:+ t].
Proof.
  intros Hd He Ht Het. assert (Forall (fun c => isName c = true) ([] ++ [e])) as Hf by by repeat constructor.
  destruct (split_Join_snoc d [] e Hd Hf) as [pre Hs]. pose proof (key_Join_names d [e] Hd Hf) as Hk.
  change ([] ++ [e]) with [e] in Hs. unfold key in Hk at 1. rewrite Hs in Hk. unfold key at 1. rewrite (split_suffix _ _ _ _ Ht Hs).
  unfold cleanComps in *. rewrite fold_left_app in Hk |- *. simpl in *.
  rewrite cleanStep_name in Hk |- * by done. simpl in *. apply app_inj_tail in Hk as [-> _]. done.
Qed.
