(* ===== verification/Json.v ===== *)
(** * JSON output

    The part of [encoding/json] that [json.Marshal] uses on the structs of the
    program: strings with HTML escaping, integers, arrays and objects. *)

From S2P Require Import Prelude.

Definition code (a : Ascii.ascii) : N := Ascii.N_of_ascii a.

(** ** UTF-8 *)

Definition inRange (lo hi : N) (s : string) : bool :=
  match s with
  | String a _ => ((lo <=? code a) && (code a <=? hi))%N
  | EmptyString => false
  end.

Definition tail1 (s : string) : string := strDrop 1 s.

(** [utf8.DecodeRuneInString] on a string: the size of the rune it starts with,
    0 when the encoding is invalid (or the string empty). *)
Definition runeLen (s : string) : nat :=
  let s1 := tail1 s in
  let s2 := tail1 s1 in
  let s3 := tail1 s2 in
  let cont := inRange 128 191 in
  if inRange 0 127 s then 1
  else if inRange 194 223 s && cont s1 then 2
  else if inRange 224 224 s && inRange 160 191 s1 && cont s2 then 3
  else if (inRange 225 236 s || inRange 238 239 s) && cont s1 && cont s2 then 3
  else if inRange 237 237 s && inRange 128 159 s1 && cont s2 then 3
  else if inRange 240 240 s && inRange 144 191 s1 && cont s2 && cont s3 then 4
  else if inRange 241 243 s && cont s1 && cont s2 && cont s3 then 4
  else if inRange 244 244 s && inRange 128 143 s1 && cont s2 && cont s3 then 4
  else 0.

(** [utf8.ValidString] *)
Fixpoint validFrom (fuel : nat) (s : string) : bool :=
  match fuel, s with
  | S fuel', String _ _ => negb (runeLen s =? 0) && validFrom fuel' (strDrop (runeLen s) s)
  | _, _ => true
  end.

Definition utf8Valid (s : string) : bool := validFrom (String.length s) s.

(** ** Strings *)

Definition quote : Ascii.ascii := Ascii.ascii_of_N 34.
Definition backslash : Ascii.ascii := Ascii.ascii_of_N 92.
Definition bs (s : string) : string := String backslash s.

Definition hexNibble (n : N) : Ascii.ascii :=
  Ascii.ascii_of_N (if (n <? 10)%N then 48 + n else 87 + n)%N.

(** Bytes below 0x80 that are copied as they are ([htmlSafeSet]). *)
Definition htmlSafe (n : N) : bool :=
  ((32 <=? n) && (n <=? 127))%N
  && negb (existsb (N.eqb n) [34; 38; 60; 62; 92]%N).

Definition escapeAscii (a : Ascii.ascii) : string :=
  let n := code a in
  if htmlSafe n then String a ""
  else if (n =? 92)%N then bs (String backslash "")
  else if (n =? 34)%N then bs (String quote "")
  else if (n =? 8)%N then bs "b"
  else if (n =? 12)%N then bs "f"
  else if (n =? 10)%N then bs "n"
  else if (n =? 13)%N then bs "r"
  else if (n =? 9)%N then bs "t"
  else bs ("u00" +:+ String (hexNibble (n / 16)) (String (hexNibble (n mod 16)) "")).

(** The encoding of the rune of [k] bytes that [s] starts with. *)
Definition escapeRune (k : nat) (s : string) : string :=
  match k, s with
  | O, _ => bs "ufffd"
  | 1, String a _ => escapeAscii a
  | _, _ =>
      let r := strTake k s in
      if bool_decide (r = ofCodes [226; 128; 168]%N) then bs "u2028"
      else if bool_decide (r = ofCodes [226; 128; 169]%N) then bs "u2029"
      else r
  end.

(** A rune is at least one byte, so the length is enough fuel. *)
Fixpoint escapeFrom (fuel : nat) (s : string) : string :=
  match fuel, s with
  | S fuel', String _ _ =>
      let k := runeLen s in
      escapeRune k s +:+ escapeFrom fuel' (strDrop (max 1 k) s)
  | _, _ => ""
  end.

Definition jsonString (s : string) : string :=
  String quote (escapeFrom (String.length s) s +:+ String quote "").

(** ** Values *)

Definition jsonInt (z : Z) : string := pretty z.

Definition jsonField (name value : string) : string := jsonString name +:+ ":" +:+ value.

Fixpoint commaSep (l : list string) : string :=
  match l with
  | [] => ""
  | [x] => x
  | x :: l' => x +:+ "," +:+ commaSep l'
  end.

Definition jsonObject (fields : list string) : string := "{" +:+ commaSep fields +:+ "}".

Definition jsonSlice {A} (f : A -> string) (s : slice A) : string :=
  match s with
  | NilSlice => "null"
  | Slice xs => "[" +:+ commaSep (map f xs) +:+ "]"
  end.

Definition toBytes (s : string) : bytes := String.list_byte_of_string s.
Definition fromBytes (b : bytes) : string := String.string_of_list_byte b.

Lemma toBytes_fromBytes b : toBytes (fromBytes b) = b.
Proof. apply String.list_byte_of_string_of_list_byte. Qed.
