(* ===== verification/Manifest.v ===== *)
(** * Artifact manifests (api/v1/manifest.go)

    The manifest types, path normalisation and checking, the canonical artifact
    id, [Finalize], [Validate], [AllChunkHashes] and [ParseManifest]. *)

From S2P Require Import Prelude Digest GoPath Json.
Local Open Scope go_scope.

Definition DefaultChunkSize : Z := 4 * 1024 * 1024.
Definition CurrentSchema : Z := 1.

Record ChunkRef := mkChunkRef { Hash : string; Offset : Z; Size : Z }.

Record FileEntry := mkFileEntry {
  Path : string;
  FSize : Z;
  Mode : string;
  Chunks : slice ChunkRef
}.

Record ArtifactManifest := mkManifest {
  SchemaVersion : Z;
  ArtifactID : string;
  Name : string;
  Version : string;
  ChunkSize : Z;
  TotalSize : Z;
  Files : slice FileEntry
}.

Definition files (m : ArtifactManifest) : list FileEntry := elems (Files m).
Definition chunksOf (f : FileEntry) : list ChunkRef := elems (Chunks f).

(** ** Paths *)

Definition NormalizePath (p : string) : string :=
  trimPrefix (trimPrefix (Clean p) "/") "./".

Definition validManifestPath (p : string) : bool :=
  if bool_decide (p = "") || hasPrefix "/" p then false
  else
    let cleaned := trimPrefix (Clean p) "./" in
    if bool_decide (cleaned = "") || bool_decide (cleaned = ".") then false
    else if IsAbs p || IsAbs cleaned then false
    else if bool_decide (cleaned = "..") || hasPrefix "../" cleaned then false
    else true.

(** ** JSON *)

Definition marshalChunk (c : ChunkRef) : string :=
  jsonObject [jsonField "hash" (jsonString (Hash c));
              jsonField "offset" (jsonInt (Offset c));
              jsonField "size" (jsonInt (Size c))].

Definition marshalFile (f : FileEntry) : string :=
  jsonObject [jsonField "path" (jsonString (Path f));
              jsonField "size" (jsonInt (FSize f));
              jsonField "mode" (jsonString (Mode f));
              jsonField "chunks" (jsonSlice marshalChunk (Chunks f))].

(** [json.Marshal] of a manifest; it cannot fail on these field types. *)
Definition Marshal (m : ArtifactManifest) : res bytes :=
  Ok (toBytes (jsonObject
    [jsonField "schemaVersion" (jsonInt (SchemaVersion m));
     jsonField "artifactId" (jsonString (ArtifactID m));
     jsonField "name" (jsonString (Name m));
     jsonField "version" (jsonString (Version m));
     jsonField "chunkSize" (jsonInt (ChunkSize m));
     jsonField "totalSize" (jsonInt (TotalSize m));
     jsonField "files" (jsonSlice marshalFile (Files m))])).

(** [json.MarshalIndent] and [json.Unmarshal], used on manifests at rest. *)
Class ManifestCodec := {
  MarshalIndent : ArtifactManifest -> res bytes;
  Unmarshal : bytes -> res ArtifactManifest
}.

Section manifest.
Context {D : Digest} {SS : SortSlice}.

Definition pathLess (a b : FileEntry) : bool := strLt (Path a) (Path b).

Definition ComputeID (m : ArtifactManifest) : res string :=
  let clone := {|
    SchemaVersion := SchemaVersion m; ArtifactID := ""; Name := Name m; Version := Version m;
    ChunkSize := ChunkSize m; TotalSize := TotalSize m;
    Files := appendSlice NilSlice (sortSlice pathLess (files m)) |} in
  let? canonicalBytes := Marshal clone in
  Ok ("sha256:" +:+ hexEncode (sum256 canonicalBytes)).

(** The loop of [Finalize]: normalised entries and the wrapped sum of sizes. *)
Fixpoint normalizeFiles (fs : list FileEntry) (total : Z) : list FileEntry * Z :=
  match fs with
  | [] => ([], total)
  | f :: fs' =>
      let '(fs'', t) := normalizeFiles fs' (add64 total (FSize f)) in
      ({| Path := NormalizePath (Path f); FSize := FSize f; Mode := Mode f;
          Chunks := Chunks f |} :: fs'', t)
  end.

Definition Finalize (m : ArtifactManifest) : res ArtifactManifest :=
  let '(fs, totalSize) := normalizeFiles (files m) 0 in
  let m' := {|
    SchemaVersion := if (SchemaVersion m =? 0)%Z then CurrentSchema else SchemaVersion m;
    ArtifactID := ArtifactID m; Name := Name m; Version := Version m;
    ChunkSize := if (ChunkSize m =? 0)%Z then DefaultChunkSize else ChunkSize m;
    TotalSize := totalSize;
    Files := match Files m with NilSlice => NilSlice | Slice _ => Slice (sortSlice pathLess fs) end
  |} in
  let? id := ComputeID m' in
  Ok {| SchemaVersion := SchemaVersion m'; ArtifactID := id; Name := Name m';
        Version := Version m'; ChunkSize := ChunkSize m'; TotalSize := TotalSize m';
        Files := Files m' |}.

(** The inner loop of [Validate]: [fileChunkSize] after the chunks. *)
Fixpoint validateChunks (p : string) (ci : nat) (fileChunkSize : Z) (cs : list ChunkRef) : res Z :=
  match cs with
  | [] => Ok fileChunkSize
  | c :: cs' =>
      let? _ := failIf (negb (hasPrefix "sha256:" (Hash c))
                        || negb (bool_decide (String.length (Hash c) = 71)))
                       (InvalidChunkHash p ci (Hash c)) in
      let? _ := failIf (Size c <? 0)%Z (InvalidChunkSize p ci (Size c)) in
      let? _ := failIf (negb (Offset c =? fileChunkSize)%Z)
                       (OffsetMismatch p ci fileChunkSize (Offset c)) in
      validateChunks p (S ci) (add64 fileChunkSize (Size c)) cs'
  end.

(** The outer loop: [calculatedTotal] after the files. *)
Fixpoint validateFiles (i : nat) (seenPaths : gset string) (calculatedTotal : Z)
    (fs : list FileEntry) : res Z :=
  match fs with
  | [] => Ok calculatedTotal
  | f :: fs' =>
      let? _ := failIf (negb (validManifestPath (Path f))) (InvalidFilePath i (Path f)) in
      let? _ := failIf (bool_decide (Path f ∈ seenPaths)) (DuplicateFilePath (Path f)) in
      let? fileChunkSize := validateChunks (Path f) 0 0 (chunksOf f) in
      let? _ := failIf (negb (fileChunkSize =? FSize f)%Z)
                       (FileSizeMismatch (Path f) (FSize f) fileChunkSize) in
      validateFiles (S i) ({[Path f]} ∪ seenPaths) (add64 calculatedTotal (FSize f)) fs'
  end.

Definition Validate (m : ArtifactManifest) : res unit :=
  let? _ := failIf (negb (SchemaVersion m =? CurrentSchema)%Z) (UnsupportedSchema (SchemaVersion m)) in
  let? _ := failIf (bool_decide (trimSpace (Name m) = "")) NameRequired in
  let? _ := failIf (bool_decide (trimSpace (Version m) = "")) VersionRequired in
  let? _ := failIf (ChunkSize m <=? 0)%Z BadChunkSize in
  let? _ := failIf (bool_decide (length (files m) = 0)) NoFiles in
  let? calculatedTotal := validateFiles 0 ∅ 0 (files m) in
  let? _ := failIf (negb (calculatedTotal =? TotalSize m)%Z)
                   (TotalSizeMismatch (TotalSize m) calculatedTotal) in
  let? expectedID := ComputeID m in
  failIf (negb (bool_decide (ArtifactID m = expectedID)))
         (ArtifactIDMismatch expectedID (ArtifactID m)).

Definition AllChunkHashes (m : ArtifactManifest) : list string :=
  dedupFrom ∅ (map Hash (concat (map chunksOf (files m)))).

Definition ParseManifest {C : ManifestCodec} (data : bytes) : res ArtifactManifest :=
  match Unmarshal data with
  | Err e => Err (EWrap "failed to parse manifest JSON" e)
  | Ok m =>
      match Validate m with
      | Err e => Err (EWrap "manifest validation failed" e)
      | Ok _ => Ok m
      end
  end.

End manifest.

(** * Properties *)

(** ** The specification of a valid manifest *)

(** A chunk name: the digest scheme and 64 more bytes. *)
Definition chunkNamed (c : ChunkRef) : Prop :=
  hasPrefix "sha256:" (Hash c) = true /\ String.length (Hash c) = 71 /\ (0 <= Size c)%Z.

Definition sizes (f : FileEntry) : list Z := map Size (chunksOf f).

(** Chunk [i] starts where the chunks before it end, modulo 2^64. *)
Definition chunksAligned (f : FileEntry) : Prop :=
  (forall i c, chunksOf f !! i = Some c -> Offset c = wrap64 (sumZ (take i (sizes f))))
  /\ FSize f = wrap64 (sumZ (sizes f)).

Definition fileOk (f : FileEntry) : Prop :=
  validManifestPath (Path f) = true /\ Forall chunkNamed (chunksOf f) /\ chunksAligned f.

Section properties.
Context {D : Digest} {SS : SortSlice}.

Record ValidManifest (m : ArtifactManifest) : Prop := {
  valid_schema : SchemaVersion m = CurrentSchema;
  valid_name : trimSpace (Name m) <> "";
  valid_version : trimSpace (Version m) <> "";
  valid_chunkSize : (0 < ChunkSize m)%Z;
  valid_nonempty : files m <> [];
  valid_paths : NoDup (map Path (files m));
  valid_files : Forall fileOk (files m);
  valid_total : TotalSize m = wrap64 (sumZ (map FSize (files m)));
  valid_id : ComputeID m = Ok (ArtifactID m)
}.

(** ** Loops *)

Definition alignedFrom (off : Z) (cs : list ChunkRef) : Prop :=
  forall i c, cs !! i = Some c -> Offset c = wrap64 (off + sumZ (take i (map Size cs))).

Lemma alignedFrom_cons off c cs :
  alignedFrom off (c :: cs) <-> Offset c = wrap64 off /\ alignedFrom (off + Size c) cs.
Proof.
  unfold alignedFrom. split.
  - intros H. split.
    + rewrite (H 0 c eq_refl). simpl. f_equal. lia.
    + intros i c' Hi. rewrite (H (S i) c' Hi). simpl. f_equal. lia.
  - intros [H0 H] [|i] c' Hi; simpl in *.
    + injection Hi as <-. rewrite H0. f_equal. lia.
    + rewrite (H i c' Hi). f_equal. lia.
Qed.

Lemma validateChunks_ok p ci off cs z :
  validateChunks p ci (wrap64 off) cs = Ok z <->
  Forall chunkNamed cs /\ alignedFrom off cs /\ z = wrap64 (off + sumZ (map Size cs)).
Proof.
  revert ci off. induction cs as [|c cs IH]; intros ci off; simpl.
  { rewrite Z.add_0_r. unfold alignedFrom. split.
    - intros [= <-]. split; [done|]. split; [|done]. intros i c Hi. by rewrite lookup_nil in Hi.
    - by intros (_ & _ & ->). }
  rewrite Forall_cons, alignedFrom_cons.
  unfold chunkNamed at 1. unfold failIf.
  destruct (hasPrefix "sha256:" (Hash c)); simpl; [|refute_ok].
  case_bool_decide; simpl; [|refute_ok].
  destruct (Z.ltb_spec (Size c) 0); simpl; [refute_ok|].
  destruct (Z.eqb_spec (Offset c) (wrap64 off)) as [Ho|Ho]; simpl; [|refute_ok].
  unfold add64. rewrite wrap64_add_l, IH.
  rewrite Z.add_assoc. tauto.
Qed.

Lemma validateFiles_ok i seen total fs z :
  validateFiles i seen (wrap64 total) fs = Ok z <->
  Forall fileOk fs /\ NoDup (map Path fs) /\ (forall f, f ∈ fs -> Path f ∉ seen)
  /\ z = wrap64 (total + sumZ (map FSize fs)).
Proof.
  revert i seen total. induction fs as [|f fs IH]; intros i seen total; simpl.
  { rewrite Z.add_0_r. split.
    - intros [= <-]. repeat split; [constructor|constructor|]. intros f Hf. by apply elem_of_nil in Hf.
    - by intros (_ & _ & _ & ->). }
  rewrite Forall_cons, NoDup_cons. unfold fileOk at 1, failIf.
  destruct (validManifestPath (Path f)); simpl; [|refute_ok].
  case_bool_decide as Hseen; simpl.
  { split; [done|]. intros (_ & _ & Hn & _). exfalso. eapply Hn; [|done]. constructor. }
  pose proof (validateChunks_ok (Path f) 0 0 (chunksOf f)) as Hc.
  rewrite wrap64_id in Hc by (unfold int64_range; lia).
  destruct (validateChunks (Path f) 0 0 (chunksOf f)) as [sz|e] eqn:Ev; simpl.
  2: { split; [done|]. intros (((_ & Hn & Ha) & _) & _). exfalso.
       destruct (Hc (wrap64 (sumZ (sizes f)))) as [_ Hc']. discriminate Hc'.
       split; [done|]. split; [|done]. intros j c Hj. by rewrite (proj1 Ha j c Hj). }
  destruct (proj1 (Hc sz) eq_refl) as (Hn & Ha & ->).
  assert (chunksAligned f <-> FSize f = wrap64 (sumZ (sizes f))) as Hal.
  { split; [by intros [_ ?]|]. intros Hs. split; [|done]. intros j c Hj. by rewrite (Ha j c Hj). }
  rewrite Z.add_0_l. change (map Size (chunksOf f)) with (sizes f).
  destruct (Z.eqb_spec (wrap64 (sumZ (sizes f))) (FSize f)) as [Hs|Hs]; simpl.
  2: { split; [done|]. intros (((_ & _ & Hx) & _) & _). apply Hal in Hx. congruence. }
  unfold add64. rewrite wrap64_add_l, IH, Z.add_assoc.
  split.
  - intros (Hf & Hnd & Hsn & ->).
    split; [split; [split; [done|split; [done|by apply Hal]]|done]|].
    split; [split; [|done]|].
    + intros (g & Hg & Hin)%list_elem_of_fmap. apply (Hsn g Hin). rewrite <- Hg. set_solver.
    + split; [|done]. intros g [->|Hg]%elem_of_cons; [done|].
      intros Hbad. apply (Hsn g Hg). set_solver.
  - intros ((_ & Hf) & (Hni & Hnd) & Hsn & ->).
    split; [done|]. split; [done|]. split; [|done].
    intros g Hg [Heq%elem_of_singleton|Hbad]%elem_of_union.
    + apply Hni, list_elem_of_fmap. by exists g.
    + apply (Hsn g); [by constructor|done].
Qed.

#[local] Opaque ComputeID.

Lemma Validate_iff m : Validate m = Ok tt <-> ValidManifest m.
Proof.
  unfold Validate, failIf.
  destruct (Z.eqb_spec (SchemaVersion m) CurrentSchema); simpl.
  2: by split; [|intros []].
  case_bool_decide; simpl; [by split; [|intros []]|].
  case_bool_decide; simpl; [by split; [|intros []]|].
  destruct (Z.leb_spec (ChunkSize m) 0); simpl; [split; [done|intros []; lia]|].
  case_bool_decide as Hlen; simpl.
  { split; [done|]. intros []. by apply nil_length_inv in Hlen. }
  pose proof (validateFiles_ok 0 ∅ 0 (files m)) as Hf.
  rewrite wrap64_id in Hf by (unfold int64_range; lia).
  destruct (validateFiles 0 ∅ 0 (files m)) as [z|err0]; simpl.
  2: { split; [done|]. intros []. exfalso.
       destruct (Hf (wrap64 (0 + sumZ (map FSize (files m))))) as [_ Hc]. discriminate Hc.
       split; [done|]. split; [done|]. split; [|done]. set_solver. }
  destruct (proj1 (Hf z) eq_refl) as (Hfiles & Hnd & _ & ->).
  rewrite Z.add_0_l.
  destruct (Z.eqb_spec (wrap64 (sumZ (map FSize (files m)))) (TotalSize m)); simpl.
  2: by split; [|intros []].
  destruct (ComputeID m) as [id|err] eqn:Eid; simpl; [|split; [done|intros []; congruence]].
  case_bool_decide as Hid; simpl.
  2: { split; [done|]. intros Hv. pose proof (valid_id _ Hv) as Hi. rewrite Eid in Hi.
       exfalso. apply Hid. congruence. }
  split; [|done]. intros _. constructor; try done; [|congruence].
  intros Hnil. by rewrite Hnil in Hlen.
Qed.

(** C11. [Validate] accepts exactly the manifests of the specification: schema,
    name and version, positive chunk size, at least one file, distinct valid
    paths, well-named chunks laid end to end, sizes that add up (in [int64]
    arithmetic) and an artifact id equal to the canonical one. *)
Theorem Validate_iff_ValidManifest m : Validate m = Ok tt <-> ValidManifest m.
Proof. apply Validate_iff. Qed.

Lemma take_sum_bounds (l : list Z) i :
  Forall (fun z => 0 <= z)%Z l -> (0 <= sumZ (take i l) <= sumZ l)%Z.
Proof.
  intros H. rewrite <- (take_drop i l) in H |- *. apply Forall_app in H as [H1 H2].
  rewrite take_drop. rewrite <- (take_drop i l) at 3. rewrite sumZ_app.
  pose proof (sumZ_nonneg _ H1). pose proof (sumZ_nonneg _ H2). lia.
Qed.

(** In a valid manifest the chunks of a file tile it: when the sizes do not
    exceed an [int64], every chunk starts at the exact sum of the sizes before
    it, stays inside the file, and the sizes add up to the file size. *)
Theorem Validate_chunks_tile m f (Hv : Validate m = Ok tt) (Hf : f ∈ files m)
    (Hsum : (sumZ (sizes f) < 2 ^ 63)%Z) :
  FSize f = sumZ (sizes f)
  /\ forall i c, chunksOf f !! i = Some c ->
       Offset c = sumZ (take i (sizes f)) /\ (0 <= Offset c)%Z
       /\ (Offset c + Size c <= FSize f)%Z.
Proof.
  apply Validate_iff in Hv as [].
  rewrite Forall_forall in valid_files0.
  destruct (valid_files0 f Hf) as (_ & Hn & Ha & Hs).
  assert (Forall (fun z => 0 <= z)%Z (sizes f)) as Hpos.
  { unfold sizes. rewrite Forall_fmap. eapply Forall_impl; [exact Hn|]. by intros c (_ & _ & ?). }
  pose proof (sumZ_nonneg _ Hpos).
  rewrite wrap64_id in Hs by (unfold int64_range; lia).
  split; [done|]. intros i c Hi.
  pose proof (take_sum_bounds (sizes f) i Hpos) as Hb.
  pose proof (take_sum_bounds (sizes f) (S i) Hpos) as Hb'.
  rewrite (Ha i c Hi), wrap64_id by (unfold int64_range; lia).
  assert (sizes f !! i = Some (Size c)) as Hsz by (unfold sizes; by rewrite list_lookup_fmap, Hi).
  rewrite (take_S_r _ _ _ Hsz), sumZ_app in Hb'. simpl in Hb'. split; [done|]. lia.
Qed.

(** ** Artifact ids *)

#[local] Transparent ComputeID.

Lemma ComputeID_files m1 m2 :
  SchemaVersion m1 = SchemaVersion m2 -> Name m1 = Name m2 -> Version m1 = Version m2 ->
  ChunkSize m1 = ChunkSize m2 -> TotalSize m1 = TotalSize m2 ->
  sortSlice pathLess (files m1) = sortSlice pathLess (files m2) ->
  ComputeID m1 = ComputeID m2.
Proof. intros H1 H2 H3 H4 H5 H6. unfold ComputeID. by rewrite H1, H2, H3, H4, H5, H6. Qed.

Lemma sortSlice_paths_unique fs1 fs2 :
  NoDup (map Path fs1) -> fs1 ≡ₚ fs2 -> sortSlice pathLess fs1 = sortSlice pathLess fs2.
Proof.
  intros Hnd Hp.
  assert (sortSlice pathLess fs1 ≡ₚ sortSlice pathLess fs2) as Hp'
    by by rewrite !sortSlice_perm.
  apply (sortedBy_unique pathLess).
  - intros x y Hx Hy Hxy Hyx. rewrite <- Hp' in Hy. rewrite sortSlice_perm in Hx, Hy.
    assert (Path x = Path y) as He.
    { unfold pathLess in *. destruct (strLt_total (Path x) (Path y)) as [?|[?|?]]; congruence. }
    apply list_elem_of_lookup in Hx as [i Hi]. apply list_elem_of_lookup in Hy as [j Hj].
    assert (i = j) as ->; [|congruence].
    eapply (NoDup_lookup _ i j (Path x) Hnd); rewrite list_lookup_fmap.
    + by rewrite Hi.
    + by rewrite Hj, He.
  - apply sortSlice_sorted, (strLt_key_weak Path).
  - apply sortSlice_sorted, (strLt_key_weak Path).
  - done.
Qed.

(** C28. The artifact id does not depend on the order of the files or on the
    id stored in the manifest: two manifests with distinct paths that differ
    only there have the same canonical id, whatever sort is used. *)
Theorem ComputeID_order_independent m fs id :
  NoDup (map Path (files m)) -> fs ≡ₚ files m ->
  ComputeID {| SchemaVersion := SchemaVersion m; ArtifactID := id; Name := Name m;
               Version := Version m; ChunkSize := ChunkSize m; TotalSize := TotalSize m;
               Files := Slice fs |}
  = ComputeID m.
Proof.
  intros Hnd Hp. apply ComputeID_files; try done. unfold files at 1. simpl.
  symmetry. apply sortSlice_paths_unique; done.
Qed.

(** An id has the shape [parseHash] accepts. *)
Lemma ComputeID_shape m id :
  ComputeID m = Ok id -> exists d : bytes, id = "sha256:" +:+ hexEncode (sum256 d).
Proof. unfold ComputeID. simpl. intros [= <-]. eauto. Qed.

(** ** Finalize *)

#[local] Opaque ComputeID.

Lemma normalizeFiles_spec fs t :
  normalizeFiles fs (wrap64 t)
  = (map (fun f => {| Path := NormalizePath (Path f); FSize := FSize f; Mode := Mode f;
                      Chunks := Chunks f |}) fs,
     wrap64 (t + sumZ (map FSize fs))).
Proof.
  revert t. induction fs as [|f fs IH]; intros t; simpl; [by rewrite Z.add_0_r|].
  unfold add64. rewrite wrap64_add_l, IH. do 2 f_equal. lia.
Qed.

Lemma sumZ_FSize_sort fs :
  sumZ (map FSize (sortSlice pathLess fs)) = sumZ (map FSize fs).
Proof. apply sumZ_perm. by rewrite sortSlice_perm. Qed.

(** An entry as [Finalize] leaves it. *)
Definition normalizeEntry (f : FileEntry) : FileEntry :=
  {| Path := NormalizePath (Path f); FSize := FSize f; Mode := Mode f; Chunks := Chunks f |}.

(** What [Finalize] asks of a manifest for the result to be valid. *)
Record finalizable (m : ArtifactManifest) : Prop := {
  fin_schema : SchemaVersion m = 0%Z \/ SchemaVersion m = 1%Z;
  fin_name : trimSpace (Name m) <> "";
  fin_version : trimSpace (Version m) <> "";
  fin_chunkSize : (0 <= ChunkSize m)%Z;
  fin_some : files m <> [];
  fin_paths : NoDup (map (fun f => NormalizePath (Path f)) (files m));
  fin_files : Forall (fun f => validManifestPath (NormalizePath (Path f)) = true
                               /\ Forall chunkNamed (chunksOf f) /\ chunksAligned f) (files m)
}.

Lemma Finalize_valid m :
  finalizable m ->
  exists m', Finalize m = Ok m' /\ Validate m' = Ok tt
             /\ files m' = sortSlice pathLess (map normalizeEntry (files m)).
Proof.
  intros [Hsch Hname Hver Hcs Hne Hpaths Hfiles].
  unfold Finalize. pose proof (normalizeFiles_spec (files m) 0) as Hnf.
  rewrite wrap64_id in Hnf by (unfold int64_range; lia). rewrite Hnf. fold normalizeEntry.
  destruct (Files m) as [|xs] eqn:Exs; [by unfold files in Hne; rewrite Exs in Hne|].
  assert (files m = xs) as Efs by (unfold files; by rewrite Exs). rewrite Efs in *.
  eexists. simpl. split; [reflexivity|]. split; [|done].
  apply Validate_iff. constructor; simpl; try done.
  - destruct Hsch as [-> | ->]; done.
  - destruct (Z.eqb_spec (ChunkSize m) 0); [done|lia].
  - unfold files. simpl. intros Hn. pose proof (sortSlice_perm pathLess (map normalizeEntry xs)) as Hp.
    rewrite Hn in Hp. apply Permutation_nil_l in Hp. by destruct xs.
  - unfold files. simpl. rewrite sortSlice_perm. rewrite map_map. exact Hpaths.
  - unfold files. simpl. rewrite sortSlice_perm. rewrite Forall_fmap. exact Hfiles.
  - unfold files. simpl. rewrite sumZ_FSize_sort, map_map. done.
Qed.

(** C27. [Finalize] produces a manifest that [Validate] accepts, with its files
    sorted by path and otherwise the input's with normalised paths, whenever the
    input has a usable schema, name, version and chunk size and its files have
    well-formed chunk lists and paths that stay valid and distinct once
    normalised. *)
Theorem Finalize_establishes_Validate m (Hm : finalizable m) :
  exists m', Finalize m = Ok m' /\ Validate m' = Ok tt /\ sortedBy pathLess (files m')
             /\ files m' ≡ₚ map normalizeEntry (files m).
Proof.
  destruct (Finalize_valid m Hm) as (m' & H1 & H2 & Hf). exists m'. rewrite Hf. split_and!; [done..| |].
  - apply sortSlice_sorted, (strLt_key_weak Path).
  - apply sortSlice_perm.
Qed.

#[local] Transparent ComputeID.

(** ** AllChunkHashes *)

Lemma AllChunkHashes_NoDup m : NoDup (AllChunkHashes m).
Proof. apply dedupFrom_nodup. Qed.

(** [AllChunkHashes] lists every chunk hash of every file exactly once, in
    the order of first occurrence. *)
Theorem AllChunkHashes_dedup m :
  NoDup (AllChunkHashes m)
  /\ (forall h, h ∈ AllChunkHashes m <->
        exists f c, f ∈ files m /\ c ∈ chunksOf f /\ Hash c = h)
  /\ AllChunkHashes m `sublist_of` map Hash (concat (map chunksOf (files m))).
Proof.
  unfold AllChunkHashes. split; [apply dedupFrom_nodup|]. split; [|apply dedupFrom_sublist].
  intros h. rewrite dedupFrom_elem, list_elem_of_fmap. setoid_rewrite elem_of_concat_map.
  set_solver.
Qed.

End properties.

(** ** Concrete manifests *)

Definition abcHash : string :=
  "sha256:ba7816bf8f01cfea414140de5dae2223b00361a396177a9cb410ff61f20015ad".

Definition withID (m : ArtifactManifest) : ArtifactManifest :=
  {| SchemaVersion := SchemaVersion m;
     ArtifactID := match ComputeID m with Ok id => id | Err _ => "" end;
     Name := Name m; Version := Version m; ChunkSize := ChunkSize m;
     TotalSize := TotalSize m; Files := Files m |}.

Definition demoFiles : list FileEntry :=
  [mkFileEntry "b" 0 "0644" NilSlice;
   mkFileEntry "a.txt" 6 "0644" (Slice [mkChunkRef abcHash 0 3; mkChunkRef abcHash 3 3])].

Definition demo : ArtifactManifest :=
  withID (mkManifest 1 "" "demo" "1.0" 4 6 (Slice demoFiles)).

(** The id [sha256sum] gives for the canonical bytes; the name holds a
    character that JSON escapes and a two-byte rune. *)
Example ComputeID_known :
  ComputeID (mkManifest 1 "x" ("demo <" +:+ ofCodes [195; 169]%N +:+ ">") "1.0" 4 3
    (Slice [mkFileEntry "b" 0 "0644" NilSlice;
            mkFileEntry "a.txt" 3 "0644" (Slice [mkChunkRef abcHash 0 3])]))
  = Ok "sha256:125e7cfe56b15267af63eeaddbbf584792a06676c86c9ce894301dfbb0050edc".
Proof. vm_compute. reflexivity. Qed.

Lemma Validate_chunks_tile_witness :
  FSize (nth 1 demoFiles (mkFileEntry "" 0 "" NilSlice)) = 6%Z
  /\ Validate demo = Ok tt
  /\ (forall i c, [mkChunkRef abcHash 0 3; mkChunkRef abcHash 3 3] !! i = Some c ->
        Offset c = sumZ (take i [3; 3]%Z) /\ (0 <= Offset c)%Z /\ (Offset c + Size c <= 6)%Z).
Proof.
  split; [reflexivity|]. split; [vm_compute; reflexivity|].
  refine (proj2 (Validate_chunks_tile demo
    (mkFileEntry "a.txt" 6 "0644" (Slice [mkChunkRef abcHash 0 3; mkChunkRef abcHash 3 3])) _ _ _)).
  - vm_compute. reflexivity.
  - do 2 constructor.
  - vm_compute. reflexivity.
Defined.

Lemma ComputeID_order_independent_witness :
  ComputeID (mkManifest 1 "other" "demo" "1.0" 4 6 (Slice (rev demoFiles))) = ComputeID demo.
Proof.
  apply (ComputeID_order_independent demo (rev demoFiles) "other").
  - apply (bool_decide_unpack _). vm_compute. exact I.
  - apply (Permutation_swap (mkFileEntry "b" 0 "0644" NilSlice)).
Defined.

Lemma Finalize_establishes_Validate_witness :
  exists m', Finalize (mkManifest 0 "" "demo" "1.0" 0 0
      (Slice [mkFileEntry "/x//a.txt" 3 "0644" (Slice [mkChunkRef abcHash 0 3])])) = Ok m'
    /\ Validate m' = Ok tt.
Proof.
  destruct (Finalize_establishes_Validate (mkManifest 0 "" "demo" "1.0" 0 0
      (Slice [mkFileEntry "/x//a.txt" 3 "0644" (Slice [mkChunkRef abcHash 0 3])])))
    as (m' & H1 & H2 & _); [split|].
  - by left.
  - by vm_compute.
  - by vm_compute.
  - by vm_compute.
  - done.
  - apply (bool_decide_unpack _). vm_compute. exact I.
  - constructor; [|constructor]. split; [reflexivity|]. split.
    + constructor; [|constructor]. repeat split; by vm_compute.
    + split; [|reflexivity]. intros [|i] c Hi; [|done]. injection Hi as <-. reflexivity.
  - by exists m'.
Defined.

(** A manifest whose chunk sizes wrap around. *)
Definition wrapFile : FileEntry :=
  mkFileEntry "big" (- 2 ^ 62)
    "0644" (Slice [mkChunkRef abcHash 0 (2 ^ 62); mkChunkRef abcHash (2 ^ 62) (2 ^ 62);
                   mkChunkRef abcHash (- 2 ^ 63) (2 ^ 62)]).

(** C29. [Validate] does not reject sizes that overflow: it accepts a manifest
    whose only file declares a negative size and holds a chunk at a negative
    offset. *)
Theorem Validate_accepts_wrapped_sizes :
  exists m f c, Validate m = Ok tt /\ f ∈ files m /\ c ∈ chunksOf f
                /\ (FSize f < 0)%Z /\ (Offset c < 0)%Z.
Proof.
  exists (withID (mkManifest 1 "" "demo" "1.0" 4 (- 2 ^ 62) (Slice [wrapFile]))), wrapFile,
    (mkChunkRef abcHash (- 2 ^ 63) (2 ^ 62)).
  split; [vm_compute; reflexivity|]. split; [by constructor|].
  split; [|by split; vm_compute]. do 3 constructor.
Qed.
