(* ===== verification/SafePath.v ===== *)
(** * Joining untrusted paths (pkg/materializer/path.go)

    [SafeJoin], and what it and [validManifestPath] accept. *)

From S2P Require Import Prelude Digest GoPath Json Manifest.
Local Open Scope go_scope.

Definition SafeJoin (baseDir rel : string) : res string :=
  let cleanRel := Clean rel in
  if IsAbs cleanRel then Err (EText "security violation: absolute path rejected")
  else if bool_decide (cleanRel = "..") || hasPrefix "../" cleanRel then
    Err (EText "security violation: path escape detected")
  else
    let base := Clean baseDir in
    let joined := Join [base; cleanRel] in
    if negb (bool_decide (joined = base)) && negb (hasPrefix (base +:+ "/") joined) then
      Err (EText "security violation: path escape detected")
    else Ok joined.

(** * Properties *)

(** The elements of a relative path, with its leading [..] if any. *)
Definition relComps (p : string) : list string := cleanComps false (split p).

(** A relative path that stays below where it starts. *)
Definition localPath (p : string) : Prop :=
  IsAbs p = false /\ Forall (fun c => isName c = true) (relComps p).

(** ** Clean paths *)

Lemma Clean_nonempty p : Clean p <> "".
Proof.
  unfold Clean, render. destruct (IsAbs p); [done|].
  pose proof (cleanComps_nonempty false (split p) (split_noSlash p)) as Hne.
  destruct (cleanComps false (split p)) as [|c cs]; [done|].
  inversion Hne; subst. destruct cs; [done|]. by destruct c.
Qed.

Lemma hasPrefix_dots s : hasPrefix "../" s = true -> exists t, split s = ".." :: split t.
Proof.
  intros [t ->]%hasPrefix_iff. exists t. change ("../" +:+ t) with (".." +:+ "/" +:+ t).
  by rewrite split_app_slash.
Qed.

Lemma Clean_rel p : IsAbs p = false -> Clean p = render false (relComps p).
Proof. intros H. unfold Clean, relComps. by rewrite H. Qed.

(** The escape test of the code is exactly a leading [..] element. *)
Lemma escape_test p :
  IsAbs p = false ->
  bool_decide (Clean p = "..") || hasPrefix "../" (Clean p) = false <->
  Forall (fun c => isName c = true) (relComps p).
Proof.
  intros Hp. rewrite Clean_rel by done.
  destruct (cleanComps_shape false (split p) (split_noSlash p)) as (n & ns & Hc & Hns & _).
  unfold relComps. rewrite Hc. destruct n as [|n]; cbn [replicate app].
  - split; [done|]. intros _. destruct ns as [|c cs]; [done|].
    assert (split (render false (c :: cs)) = c :: cs) as Hs.
    { rewrite split_render; [done|]. by apply names_noSlash. }
    inversion Hns as [|? ? (_ & _ & _ & Hdd)%isName_inv _]; subst.
    apply orb_false_iff. split.
    + apply bool_decide_eq_false. intros E. rewrite E in Hs. injection Hs as <- _. done.
    + destruct (hasPrefix "../" (render false (c :: cs))) eqn:E; [|done].
      apply hasPrefix_dots in E as [t Ht]. rewrite Hs in Ht. by injection Ht as -> _.
  - split; [|by intros H; inversion H as [|? ? [=]]].
    intros H. exfalso. destruct (replicate n ".." ++ ns) as [|c cs] eqn:E; [done|].
    apply orb_false_iff in H as [_ H]. cbn [render] in H. rewrite joinSlash_cons2 in H.
    assert (hasPrefix "../" (".." +:+ "/" +:+ joinSlash (c :: cs)) = true); [|congruence].
    rewrite <- str_app_assoc. apply hasPrefix_app.
Qed.

Lemma joinSlash_app a b :
  a <> [] -> b <> [] -> joinSlash (a ++ b) = joinSlash a +:+ "/" +:+ joinSlash b.
Proof.
  intros Ha Hb. induction a as [|x a IH]; [done|]. destruct a as [|y a].
  - simpl. destruct b; [done|]. done.
  - cbn [app]. rewrite !joinSlash_cons2. cbn [app] in IH. rewrite IH by done.
    by rewrite !str_app_assoc.
Qed.

(** [Join(base, rel)] of clean paths. *)
Lemma Join_local base rel :
  localPath rel ->
  Join [Clean base; Clean rel]
  = render (IsAbs base) (cleanComps (IsAbs base) (split base) ++ relComps rel).
Proof.
  intros [Hr Hn]. rewrite Join_Clean by apply Clean_nonempty. unfold Clean at 1.
  rewrite joinSlash_cons2. cbn [joinSlash].
  assert (IsAbs (Clean base +:+ "/" +:+ Clean rel) = IsAbs base) as ->.
  { rewrite <- (IsAbs_Clean base). pose proof (Clean_nonempty base).
    destruct (Clean base); [done|]. by rewrite str_app_cons, !IsAbs_cons. }
  f_equal. rewrite split_slash.
  assert (fold_left (cleanStep (IsAbs base)) (split (Clean rel))
            (fold_left (cleanStep (IsAbs base)) (split (Clean base)) [])
          = rev (relComps rel) ++ fold_left (cleanStep (IsAbs base)) (split (Clean base)) []) as Hf.
  { rewrite Clean_rel by done. rewrite split_render by by apply names_noSlash.
    destruct (relComps rel) as [|c cs]; [done|]. by apply fold_cleanStep_names. }
  unfold cleanComps at 1. rewrite fold_left_app, Hf, rev_app_distr, rev_involutive.
  f_equal. apply comps_Clean.
Qed.

(** The containment test of the code on a joined path. *)
Lemma prefix_test (r : bool) bc ns :
  Forall (fun c => noSlash c = true) bc -> Forall (fun c => c <> "") bc ->
  Forall (fun c => isName c = true) ns -> ns <> [] ->
  hasPrefix (render r bc +:+ "/") (render r (bc ++ ns)) = negb (bool_decide (bc = [])).
Proof.
  intros Hbc Hbn Hns Hne. assert (Hl := names_noSlash _ Hns).
  destruct bc as [|b bc].
  - rewrite bool_decide_eq_true_2 by done. simpl app. cbn [negb].
    destruct (hasPrefix _ _) eqn:E; [|done]. exfalso.
    apply hasPrefix_iff in E as [t Ht].
    assert (split (render r ns) = (if r then "" :: ns else ns)) as Hs.
    { rewrite split_render by done. by destruct r, ns. }
    rewrite Ht in Hs. destruct r; cbn [render] in Hs.
    + change ("" :: "" :: split t = "" :: ns) in Hs. injection Hs as <-.
      by inversion Hns as [|? ? [=]].
    + rewrite str_app_assoc, split_app_slash in Hs by done. rewrite <- Hs in Hns.
      by inversion Hns as [|? ? [=]].
  - rewrite bool_decide_eq_false_2 by done. apply hasPrefix_iff. exists (joinSlash ns).
    assert (joinSlash ((b :: bc) ++ ns) = joinSlash (b :: bc) +:+ "/" +:+ joinSlash ns) as Hj
      by by apply joinSlash_app.
    destruct r; simpl app in *; cbn [render]; rewrite Hj; by rewrite !str_app_assoc.
Qed.

(** The other half of the test: a proper descendant differs from its base. *)
Lemma render_app_ne (r : bool) bc ns :
  Forall (fun c => noSlash c = true) bc ->
  Forall (fun c => isName c = true) ns -> ns <> [] -> render r (bc ++ ns) <> render r bc.
Proof.
  intros Hbc Hns Hne E. apply (f_equal split) in E. assert (Hl := names_noSlash _ Hns).
  rewrite !split_render in E by (try done; by apply Forall_app).
  destruct ns as [|n ns]; [done|]. inversion Hns as [|? ? (_ & H1 & H2 & _)%isName_inv _]; subst.
  destruct r, bc as [|b bc]; cbn [app] in E.
  - by injection E as -> _.
  - injection E as E. apply (f_equal length) in E. rewrite length_app in E. simpl in E. lia.
  - by injection E as -> _.
  - injection E as E. apply (f_equal length) in E. rewrite length_app in E. simpl in E. lia.
Qed.

Definition baseComps (b : string) : list string := cleanComps (IsAbs b) (split b).

Lemma SafeJoin_ok b rel j :
  SafeJoin b rel = Ok j <->
  localPath rel /\ (relComps rel = [] \/ baseComps b <> [])
  /\ j = render (IsAbs b) (baseComps b ++ relComps rel).
Proof.
  unfold SafeJoin. rewrite IsAbs_Clean. destruct (IsAbs rel) eqn:Ha.
  { split; [done|]. intros [[? _] _]. congruence. }
  destruct (bool_decide (Clean rel = "..") || hasPrefix "../" (Clean rel)) eqn:Ee.
  { split; [done|]. intros [[_ Hn] _]. apply (escape_test rel Ha) in Hn. congruence. }
  apply (escape_test rel Ha) in Ee. assert (localPath rel) as Hl by done.
  rewrite Join_local by done. fold (baseComps b).
  pose proof (cleanComps_noSlash (IsAbs b) (split b) (split_noSlash b)) as Hbs.
  pose proof (cleanComps_nonempty (IsAbs b) (split b) (split_noSlash b)) as Hbn.
  fold (baseComps b) in Hbs, Hbn.
  change (Clean b) with (render (IsAbs b) (baseComps b)).
  destruct (decide (relComps rel = [])) as [Hr|Hr].
  - rewrite Hr, app_nil_r, bool_decide_eq_true_2 by done. simpl. split.
    + intros [= <-]. auto.
    + by intros (_ & _ & ->).
  - rewrite (bool_decide_eq_false_2 _ (render_app_ne _ _ _ Hbs Ee Hr)).
    rewrite prefix_test by done. destruct (decide (baseComps b = [])) as [Hb|Hb].
    + rewrite bool_decide_eq_true_2 by done. simpl. split; [done|]. by intros (_ & [?|?] & _).
    + rewrite bool_decide_eq_false_2 by done. simpl. split; [intros [= <-]; auto|by intros (_ & _ & ->)].
Qed.

Lemma key_render r cs :
  Forall (fun c => noSlash c = true) cs -> key (render r cs) = cleanComps true cs.
Proof.
  intros H. unfold key. rewrite split_render by done.
  destruct r, cs as [|c cs]; try done.
Qed.

Lemma key_SafeJoin b rel j :
  SafeJoin b rel = Ok j -> key j = key b ++ relComps rel /\ localPath rel.
Proof.
  intros (Hl & _ & ->)%SafeJoin_ok. split; [|done].
  pose proof (cleanComps_noSlash (IsAbs b) (split b) (split_noSlash b)) as Hbs.
  rewrite key_render by (apply Forall_app; split; [done|apply names_noSlash, Hl]).
  unfold cleanComps at 1. rewrite fold_left_app, (fold_cleanStep_names true _ (relComps rel)) by apply Hl.
  rewrite rev_app_distr, rev_involutive. f_equal.
  rewrite <- (key_Clean b). unfold Clean. symmetry. by rewrite key_render.
Qed.

(** The directory of a joined path. *)
Lemma key_Dir_SafeJoin b rel j :
  SafeJoin b rel = Ok j -> relComps rel <> [] -> key (Dir j) = removelast (key j).
Proof.
  intros (Hl & _ & ->)%SafeJoin_ok Hne.
  destruct (exists_last Hne) as (ns & e & He).
  assert (isName e = true) as Hn.
  { destruct Hl as [_ Hn]. rewrite He in Hn. apply Forall_app in Hn as [_ Hn]. by inversion Hn. }
  destruct (split_render_snoc (IsAbs b) (baseComps b ++ ns) e) as [pre Hpre].
  { rewrite <- app_assoc, <- He. apply Forall_app. split; [|apply names_noSlash, Hl].
    apply cleanComps_noSlash, split_noSlash. }
  rewrite He, app_assoc. rewrite (key_Dir _ _ _ Hpre Hn). by rewrite removelast_last.
Qed.

(** What [validManifestPath] accepts. *)
Lemma validManifestPath_iff p :
  validManifestPath p = true <-> localPath p /\ relComps p <> [].
Proof.
  unfold validManifestPath. change (hasPrefix "/" p) with (IsAbs p).
  destruct (IsAbs p) eqn:Ha.
  { rewrite orb_true_r. split; [done|]. intros [[? _] _]. congruence. }
  rewrite orb_false_r. case_bool_decide as Hp.
  { subst p. split; [done|]. intros [_ H]. by destruct H. }
  assert (hasPrefix "./" (Clean p) = false) as Hdot.
  { destruct (hasPrefix "./" (Clean p)) eqn:E; [|done]. exfalso.
    apply hasPrefix_iff in E as [t Ht]. rewrite Clean_rel in Ht by done.
    pose proof (cleanComps_noSlash false (split p) (split_noSlash p)) as Hns.
    destruct (cleanComps_shape false (split p) (split_noSlash p)) as (n & ns & Hc & Hn & _).
    apply (f_equal split) in Ht. rewrite split_render in Ht by done.
    change ("./" +:+ t) with ("." +:+ "/" +:+ t) in Ht. rewrite split_app_slash in Ht by done.
    unfold relComps in Ht. rewrite Hc in Ht. destruct n as [|n].
    - destruct ns as [|c cs]; cbn [replicate app] in Ht.
      + destruct t; simpl in Ht; [done|]. case_bool_decide; [done|]. by destruct (split t).
      + injection Ht as -> _. by inversion Hn as [|? ? [=]].
    - done. }
  assert (trimPrefix (Clean p) "./" = Clean p) as Ht by (unfold trimPrefix; by rewrite Hdot).
  rewrite Ht, IsAbs_Clean, Ha. cbn [orb].
  rewrite (bool_decide_eq_false_2 (Clean p = "")) by apply Clean_nonempty. cbn [orb].
  assert (Clean p = "." <-> relComps p = []) as Hd.
  { rewrite Clean_rel by done. unfold relComps.
    pose proof (cleanComps_noSlash false (split p) (split_noSlash p)) as Hns.
    destruct (cleanComps_shape false (split p) (split_noSlash p)) as (n & ns & Hc & Hn & _).
    split; [|by intros ->]. intros E%(f_equal split). rewrite split_render in E by done.
    rewrite Hc in E |- *. destruct n as [|n]; [|done]. destruct ns as [|c cs]; [done|].
    cbn [replicate app] in E. injection E as -> _. by inversion Hn as [|? ? [=]]. }
  case_bool_decide as Hdd.
  { split; [done|]. intros [_ H]. by rewrite Hd in Hdd. }
  rewrite Hd in Hdd. pose proof (escape_test p Ha) as He. unfold localPath.
  destruct (bool_decide (Clean p = "..") || hasPrefix "../" (Clean p)); naive_solver.
Qed.

(** C10. Containment: whenever [SafeJoin] succeeds, the result is the base
    directory followed by plain names, so it denotes the base or something
    below it; in particular no [..], absolute path or other spelling escapes. *)
Theorem SafeJoin_contained b rel j (H : SafeJoin b rel = Ok j) :
  key j = key b ++ relComps rel /\ Forall (fun c => isName c = true) (relComps rel).
Proof. destruct (key_SafeJoin b rel j H) as [Hk [_ Hn]]. done. Qed.

(** [SafeJoin] accepts every path that a valid manifest can hold, for every
    base except the working directory itself and the root. *)
Theorem SafeJoin_accepts_manifest_paths b p
    (Hp : validManifestPath p = true) (H1 : Clean b <> ".") (H2 : Clean b <> "/") :
  exists j, SafeJoin b p = Ok j /\ key j = key b ++ relComps p /\ relComps p <> [].
Proof.
  apply validManifestPath_iff in Hp as [Hl Hne].
  assert (SafeJoin b p = Ok (render (IsAbs b) (baseComps b ++ relComps p))) as Hj.
  { apply SafeJoin_ok. split; [done|]. split; [|done]. right. intros Hb.
    change (Clean b) with (render (IsAbs b) (baseComps b)) in H1, H2. rewrite Hb in H1, H2.
    by destruct (IsAbs b). }
  eexists. split; [exact Hj|]. split; [|done]. by apply key_SafeJoin in Hj as [? _].
Qed.

Lemma SafeJoin_contained_witness :
  SafeJoin "/out" "a//b/../c" = Ok "/out/a/c" /\ key "/out/a/c" = key "/out" ++ ["a"; "c"].
Proof.
  split; [vm_compute; reflexivity|].
  apply (SafeJoin_contained "/out" "a//b/../c" "/out/a/c"). vm_compute. reflexivity.
Defined.

Lemma SafeJoin_accepts_manifest_paths_witness :
  exists j, SafeJoin "/out" "dir/f" = Ok j /\ key j = ["out"; "dir"; "f"].
Proof.
  destruct (SafeJoin_accepts_manifest_paths "/out" "dir/f") as (j & H1 & H2 & _).
  - vm_compute. reflexivity.
  - by vm_compute.
  - by vm_compute.
  - exists j. split; [exact H1|]. rewrite H2. vm_compute. reflexivity.
Defined.

(** With the working directory or the root as the destination, [SafeJoin]
    rejects every path that names anything below it. *)
Theorem SafeJoin_rejects_dot_and_root b p
    (Hb : Clean b = "." \/ Clean b = "/") (Hp : relComps p <> []) :
  exists e, SafeJoin b p = Err e.
Proof.
  destruct (SafeJoin b p) as [j|e] eqn:E; [|eauto]. exfalso.
  apply SafeJoin_ok in E as (_ & [?|Hne] & _); [done|]. apply Hne.
  change (Clean b) with (render (IsAbs b) (baseComps b)) in Hb. unfold baseComps in *.
  pose proof (cleanComps_noSlash (IsAbs b) (split b) (split_noSlash b)) as Hns.
  pose proof (cleanComps_nonempty (IsAbs b) (split b) (split_noSlash b)) as Hnn.
  destruct (cleanComps_shape (IsAbs b) (split b) (split_noSlash b)) as (n & ns & Hc & Hn & _).
  destruct (cleanComps (IsAbs b) (split b)) as [|c cs] eqn:Ec; [done|]. exfalso.
  assert (c <> "." /\ c <> "") as [Hc1 Hc2].
  { inversion Hnn; subst. split; [|done]. intros ->. destruct n as [|n]; [|done]. simpl in Hc.
    rewrite <- Hc in Hn. by inversion Hn as [|? ? [=]]. }
  destruct Hb as [Hb|Hb]; apply (f_equal split) in Hb; rewrite split_render in Hb by done;
    destruct (IsAbs b); injection Hb as Hb; congruence.
Qed.

Lemma SafeJoin_rejects_dot_and_root_witness : exists e, SafeJoin "." "model.bin" = Err e.
Proof.
  apply (SafeJoin_rejects_dot_and_root "." "model.bin").
  - left. vm_compute. reflexivity.
  - by vm_compute.
Defined.

(** ** Two manifest paths for one file *)

Definition aliasManifest : ArtifactManifest :=
  withID (mkManifest 1 "" "demo" "1.0" 4 0
    (Slice [mkFileEntry "a" 0 "0644" NilSlice; mkFileEntry "./a" 0 "0644" NilSlice])).

(** The duplicate check of [Validate] compares spellings: it accepts a
    manifest with two entries that [SafeJoin] sends to the same file. *)
Theorem Validate_accepts_aliases :
  exists m p q, Validate m = Ok tt /\ map Path (files m) = [p; q] /\ p <> q
                /\ SafeJoin "/out" p = SafeJoin "/out" q.
Proof.
  exists aliasManifest, "a", "./a". split; [vm_compute; reflexivity|].
  split; [reflexivity|]. split; [done|vm_compute; reflexivity].
Qed.
