(* ===== verification/GoFs.v ===== *)
(** * The file system and the effects of the program

    A disk is a map from directory entries to inodes, so that hard links share
    their contents, and every system call of package [os] the code makes is a
    function on it.  A call first consults an oracle of faults: it may fail
    without effect, and a write may stop after a prefix.  A theorem over all
    oracles therefore covers full disks, I/O errors and a process that stops
    between any two calls; a theorem about a [reliable] world has none of them.

    Paths are the keys of [GoPath.key]: the Unix separator, no symbolic links,
    the working directory at the root.  The file mode creation mask is 022. *)

From S2P Require Import Prelude GoPath.

(** ** Disks *)

Inductive node := DirN | FileN (ino : positive).

(** [iperm] are the permission bits and the setuid, setgid and sticky bits. *)
Record inode := Inode { idata : bytes; iperm : Z }.

(** [dirSize] is what the file system reports as the size of a directory: Go
    leaves it to the system (4096 on ext4, 0 for an empty one on btrfs). *)
Record disk := Disk {
  names : gmap (list string) node;
  inodes : gmap positive inode;
  dirSize : gmap (list string) node -> list string -> Z
}.

Definition nodeAt (d : disk) (k : list string) : option node :=
  match k with [] => Some DirN | _ => names d !! k end.

Definition setName (k : list string) (n : node) (d : disk) : disk :=
  Disk (<[k := n]> (names d)) (inodes d) (dirSize d).

Definition delName (k : list string) (d : disk) : disk :=
  Disk (delete k (names d)) (inodes d) (dirSize d).

Definition setInode (i : positive) (nd : inode) (d : disk) : disk :=
  Disk (names d) (<[i := nd]> (inodes d)) (dirSize d).

Definition isFile (n : option node) : bool :=
  match n with Some (FileN _) => true | _ => false end.

Definition parent (k : list string) : list string := removelast k.

(** Why a lookup that finds nothing fails. *)
Definition lookErr (d : disk) (k : list string) : errno :=
  if existsb (fun n => isFile (nodeAt d (take n k))) (seq 0 (length k)) then ENOTDIR else ENOENT.

(** Entries are inodes in use or not; a new one is none of both. *)
Definition nodeInos (d : disk) : list positive :=
  omap (fun kv => match kv.2 with FileN i => Some i | DirN => None end) (map_to_list (names d)).

Definition freshIno (d : disk) : positive :=
  Pos.succ (foldr Pos.max 1%positive (map fst (map_to_list (inodes d)) ++ nodeInos d)).

(** The contents of the file at a key. *)
Definition fileAt (d : disk) (k : list string) : option inode :=
  match nodeAt d k with Some (FileN i) => inodes d !! i | _ => None end.

(** ** Worlds and effects *)

Inductive fault := NoFault | Fail (e : errno) | Short (n : nat) (e : errno).

(** [ext] is the state of the components that are not on disk; [rands] are the
    numbers [os.CreateTemp] draws. *)
Record world (X : Type) := World {
  wdisk : disk;
  faults : list fault;
  rands : list N;
  now : Z;
  ext : X
}.
Arguments World {X}.
Arguments wdisk {X}.
Arguments faults {X}.
Arguments rands {X}.
Arguments now {X}.
Arguments ext {X}.

Definition setDisk {X} (d : disk) (w : world X) : world X :=
  World d (faults w) (rands w) (now w) (ext w).

Definition setFaults {X} (fs : list fault) (w : world X) : world X :=
  World (wdisk w) fs (rands w) (now w) (ext w).

Definition setExt {X} (x : X) (w : world X) : world X :=
  World (wdisk w) (faults w) (rands w) (now w) x.

(** A Go function that returns a value and an error. *)
Definition IO (X A : Type) : Type := world X -> res A * world X.

Definition ioRet {X A} (a : A) : IO X A := fun w => (Ok a, w).
Definition ioErr {X A} (e : error) : IO X A := fun w => (Err e, w).

(** [x, err := m; if err != nil { return err }; k] *)
Definition ioBind {X A B} (m : IO X A) (k : A -> IO X B) : IO X B :=
  fun w => match m w with (Ok a, w') => k a w' | (Err e, w') => (Err e, w') end.

(** Look at the error instead of returning it. *)
Definition attempt {X A} (m : IO X A) : IO X (res A) :=
  fun w => match m w with (r, w') => (Ok r, w') end.

(** [_ = m] *)
Definition ignore {X A} (m : IO X A) : IO X unit :=
  fun w => match m w with (_, w') => (Ok tt, w') end.

(** [fmt.Errorf("msg: %w", err)] around the error of [m]. *)
Definition wrapErr {X A} (msg : string) (m : IO X A) : IO X A :=
  fun w => match m w with (Err e, w') => (Err (EWrap msg e), w') | ok => ok end.

Definition liftRes {X A} (r : res A) : IO X A := fun w => (r, w).

Definition getExt {X} : IO X X := fun w => (Ok (ext w), w).
Definition putExt {X} (x : X) : IO X unit := fun w => (Ok tt, setExt x w).
Definition getNow {X} : IO X Z := fun w => (Ok (now w), w).

Notation "'do' x <- m ; k" := (ioBind m (fun x => k))
  (at level 10, x pattern, m at level 100, k at level 200) : go_scope.
Notation "'do_' m ; k" := (ioBind m (fun _ => k))
  (at level 10, m at level 100, k at level 200) : go_scope.
Local Open Scope go_scope.

(** Run [f] on the disk unless the oracle says otherwise. *)
Definition syscall {X A} (op : string) (f : disk -> res A * disk) : IO X A :=
  fun w =>
    match faults w with
    | (Fail e | Short _ e) :: fs => (Err (ESys op e), setFaults fs w)
    | fs => let '(r, d) := f (wdisk w) in (r, setDisk d (setFaults (tail fs) w))
    end.

(** ** Calls on names *)

Record FileInfo := { fiDir : bool; fiSize : Z; fiPerm : Z }.

(** The size of a small directory of ext4. *)
Definition ext4 : gmap (list string) node -> list string -> Z := fun _ _ => 4096%Z.

(** What [Stat] reports of the directory at [k]. *)
Definition dirInfo (d : disk) (k : list string) : FileInfo :=
  {| fiDir := true; fiSize := dirSize d (names d) k; fiPerm := 493 |}.

Definition fileInfo (nd : inode) : FileInfo :=
  {| fiDir := false; fiSize := blen (idata nd); fiPerm := iperm nd |}.

Definition noInode : inode := Inode [] 0.

Definition getInode (d : disk) (i : positive) : inode := default noInode (inodes d !! i).

Definition statK (k : list string) (d : disk) : res FileInfo * disk :=
  match nodeAt d k with
  | Some DirN => (Ok (dirInfo d k), d)
  | Some (FileN i) => (Ok (fileInfo (getInode d i)), d)
  | None => (Err (ESys "stat" (lookErr d k)), d)
  end.

(** An open directory, or an open file: the inode and the offset. *)
Inductive handle := HDir (k : list string) | HFile (ino : positive) (off : nat).

Definition openK (k : list string) (d : disk) : res handle * disk :=
  match nodeAt d k with
  | Some DirN => (Ok (HDir k), d)
  | Some (FileN i) => (Ok (HFile i 0), d)
  | None => (Err (ESys "open" (lookErr d k)), d)
  end.

(** [O_CREATE|O_WRONLY] with [O_APPEND] (the handle starts at the end) or with
    [O_TRUNC] (the contents are dropped, the handle starts at 0). *)
Definition openWriteK (trunc : bool) (perm : Z) (k : list string) (d : disk) : res handle * disk :=
  match nodeAt d k with
  | Some DirN => (Err (ESys "open" EISDIR), d)
  | Some (FileN i) =>
      let nd := getInode d i in
      if trunc then (Ok (HFile i 0), setInode i (Inode [] (iperm nd)) d)
      else (Ok (HFile i (length (idata nd))), d)
  | None =>
      match nodeAt d (parent k) with
      | Some DirN =>
          let i := freshIno d in
          (Ok (HFile i 0), setName k (FileN i) (setInode i (Inode [] (Z.land perm (Z.lnot 18))) d))
      | _ => (Err (ESys "open" (lookErr d k)), d)
      end
  end.

Definition hasChild (d : disk) (k : list string) : bool :=
  existsb (fun kv => bool_decide (kv.1 <> []) && bool_decide (parent kv.1 = k))
          (map_to_list (names d)).

Definition removeK (k : list string) (d : disk) : res unit * disk :=
  match k, nodeAt d k with
  | [], _ => (Err (ESys "remove" EINVAL), d)
  | _, Some (FileN _) => (Ok tt, delName k d)
  | _, Some DirN =>
      if hasChild d k then (Err (ESys "remove" ENOTEMPTY), d) else (Ok tt, delName k d)
  | _, None => (Err (ESys "remove" (lookErr d k)), d)
  end.

(** [rename(2)] of a file; no caller renames a directory. *)
Definition renameK (k k' : list string) (d : disk) : res unit * disk :=
  match nodeAt d k with
  | Some (FileN i) =>
      match nodeAt d k' with
      | Some DirN => (Err (ESys "rename" EISDIR), d)
      | Some (FileN j) =>
          if bool_decide (i = j) then (Ok tt, d)
          else (Ok tt, setName k' (FileN i) (delName k d))
      | None =>
          match nodeAt d (parent k') with
          | Some DirN => (Ok tt, setName k' (FileN i) (delName k d))
          | _ => (Err (ESys "rename" (lookErr d k')), d)
          end
      end
  | Some DirN => (Err (ESys "rename" EINVAL), d)
  | None => (Err (ESys "rename" (lookErr d k)), d)
  end.

Definition linkK (k k' : list string) (d : disk) : res unit * disk :=
  match nodeAt d k with
  | Some (FileN i) =>
      match nodeAt d k' with
      | Some _ => (Err (ESys "link" EEXIST), d)
      | None =>
          match nodeAt d (parent k') with
          | Some DirN => (Ok tt, setName k' (FileN i) d)
          | _ => (Err (ESys "link" (lookErr d k')), d)
          end
      end
  | Some DirN => (Err (ESys "link" EACCES), d)
  | None => (Err (ESys "link" (lookErr d k)), d)
  end.

(** The mode bits of directories are not modelled. *)
Definition chmodK (perm : Z) (k : list string) (d : disk) : res unit * disk :=
  match nodeAt d k with
  | Some DirN => (Ok tt, d)
  | Some (FileN i) => (Ok tt, setInode i (Inode (idata (getInode d i)) perm) d)
  | None => (Err (ESys "chmod" (lookErr d k)), d)
  end.

Definition mkdirK (k : list string) (d : disk) : res unit * disk :=
  match nodeAt d k with
  | Some _ => (Err (ESys "mkdir" EEXIST), d)
  | None =>
      match nodeAt d (parent k) with
      | Some DirN => (Ok tt, setName k DirN d)
      | _ => (Err (ESys "mkdir" (lookErr d k)), d)
      end
  end.

Section calls.
Context {X : Type}.

Definition Stat (p : string) : IO X FileInfo := syscall "stat" (statK (key p)).
Definition Open (p : string) : IO X handle := syscall "open" (openK (key p)).
Definition OpenAppend (p : string) (perm : Z) : IO X handle :=
  syscall "open" (openWriteK false perm (key p)).
Definition OpenTrunc (p : string) (perm : Z) : IO X handle :=
  syscall "open" (openWriteK true perm (key p)).
Definition Remove (p : string) : IO X unit := syscall "remove" (removeK (key p)).
Definition Rename (p q : string) : IO X unit := syscall "rename" (renameK (key p) (key q)).
Definition Link (p q : string) : IO X unit := syscall "link" (linkK (key p) (key q)).
Definition Chmod (p : string) (perm : Z) : IO X unit := syscall "chmod" (chmodK perm (key p)).

(** [os.MkdirAll] on the first [n] elements of [k]. *)
Fixpoint mkdirAllK (n : nat) (k : list string) : IO X unit :=
  do st <- attempt (syscall "stat" (statK (take n k)));
  match st with
  | Ok fi => if fiDir fi then ioRet tt else ioErr (ESys "mkdir" ENOTDIR)
  | Err _ =>
      do_ match n with O => ioRet tt | S n' => mkdirAllK n' k end;
      do r <- attempt (syscall "mkdir" (mkdirK (take n k)));
      match r with
      | Ok _ => ioRet tt
      | Err e =>
          do st' <- attempt (syscall "stat" (statK (take n k)));
          match st' with
          | Ok fi => if fiDir fi then ioRet tt else ioErr e
          | Err _ => ioErr e
          end
      end
  end.

Definition MkdirAll (p : string) : IO X unit := mkdirAllK (length (key p)) (key p).

(** ** Calls on open files *)

(** What a reader delivers: bytes, then the end of file or an error. *)
Definition reader : Type := bytes * option error.

Definition contents (d : disk) (h : handle) : reader :=
  match h with
  | HDir _ => ([], Some (ESys "read" EISDIR))
  | HFile i off => (drop off (idata (getInode d i)), None)
  end.

(** Read to the end of the file. *)
Definition readRest (h : handle) : IO X reader :=
  fun w =>
    let '(b, e) := contents (wdisk w) h in
    match faults w with
    | Fail er :: fs => (Ok ([], Some (ESys "read" er)), setFaults fs w)
    | Short n er :: fs => (Ok (take n b, Some (ESys "read" er)), setFaults fs w)
    | fs => (Ok (b, e), setFaults (tail fs) w)
    end.

(** [io.LimitReader(r, n)] *)
Definition limit (n : Z) (r : reader) : reader :=
  if (n <=? blen r.1)%Z then (take (Z.to_nat n) r.1, None) else r.

(** [io.ReadAll], [io.Copy] into memory: the bytes or the error. *)
Definition readerBytes (r : reader) : res bytes :=
  match r.2 with None => Ok r.1 | Some e => Err e end.

(** Overwrite [old] from offset [off]; a hole reads as zeros. *)
Definition pwrite (off : nat) (b old : bytes) : bytes :=
  take off (old ++ replicate (off - length old) x00) ++ b ++ drop (off + length b) old.

Definition writeInode (i : positive) (off : nat) (b : bytes) (d : disk) : disk :=
  let nd := getInode d i in setInode i (Inode (pwrite off b (idata nd)) (iperm nd)) d.

(** [f.Write]: the handle after it. *)
Definition Write (h : handle) (b : bytes) : IO X handle :=
  fun w =>
    match h with
    | HDir _ => (Err (ESys "write" EINVAL), w)
    | HFile i off =>
        match faults w with
        | Fail e :: fs => (Err (ESys "write" e), setFaults fs w)
        | Short n e :: fs =>
            (Err (ESys "write" e),
             setDisk (writeInode i off (take n b) (wdisk w)) (setFaults fs w))
        | fs => (Ok (HFile i (off + length b)),
                 setDisk (writeInode i off b (wdisk w)) (setFaults (tail fs) w))
        end
    end.

(** [f.Sync] and [f.Close] have no effect on what is read back. *)
Definition Sync (h : handle) : IO X unit := syscall "sync" (fun d => (Ok tt, d)).
Definition Close (h : handle) : IO X unit := syscall "close" (fun d => (Ok tt, d)).

(** [f.Stat] *)
Definition FStat (h : handle) : IO X FileInfo :=
  syscall "stat" (fun d => match h with
    | HDir k => (Ok (dirInfo d k), d)
    | HFile i _ => (Ok (fileInfo (getInode d i)), d)
    end).

(** [f.Seek(off, io.SeekStart)] *)
Definition Seek (h : handle) (off : Z) : IO X handle :=
  syscall "seek" (fun d =>
    if (off <? 0)%Z then (Err (ESys "seek" EINVAL), d)
    else (Ok match h with HDir k => HDir k | HFile i _ => HFile i (Z.to_nat off) end, d)).

(** [io.Copy(f, r)]: the bytes reach the file before the error of the reader
    is returned. *)
Definition copyTo (h : handle) (r : reader) : IO X handle :=
  do h' <- Write h r.1;
  match r.2 with None => ioRet h' | Some e => ioErr e end.

(** [os.ReadFile] *)
Definition ReadFile (p : string) : IO X bytes :=
  do h <- Open p;
  do r <- readRest h;
  do_ ignore (Close h);
  liftRes (readerBytes r).

(** [os.WriteFile] *)
Definition WriteFile (p : string) (b : bytes) (perm : Z) : IO X unit :=
  do h <- OpenTrunc p perm;
  do r <- attempt (Write h b);
  do c <- attempt (Close h);
  match r with Ok _ => liftRes c | Err e => ioErr e end.

(** [os.CreateTemp]: draw suffixes until a name is free. *)
Fixpoint createTemp (draws : list N) (dir prefix : string) : IO X (string * handle) :=
  match draws with
  | [] => ioErr (ESys "createtemp" EEXIST)
  | n :: ns =>
      let name := Join [dir; prefix +:+ pretty n] in
      do st <- (fun w => (Ok (nodeAt (wdisk w) (key name)), w));
      match st with
      | Some _ => createTemp ns dir prefix
      | None =>
          do h <- syscall "open" (openWriteK false 384 (key name));
          fun w => (Ok (name, h), World (wdisk w) (faults w) ns (now w) (ext w))
      end
  end.

Definition CreateTemp (dir prefix : string) : IO X (string * handle) :=
  fun w => createTemp (rands w) dir prefix w.

End calls.

(** ** Walking a directory tree *)

(** The order in which [filepath.Walk] visits: a directory before its entries,
    the entries of a directory by name. *)
Fixpoint keyLt (a b : list string) : bool :=
  match a, b with
  | [], [] => false
  | [], _ :: _ => true
  | _ :: _, [] => false
  | x :: a', y :: b' => if bool_decide (x = y) then keyLt a' b' else strLt x y
  end.

(** The entries at or below [k]. *)
Definition walkList (d : disk) (k : list string) : list (list string * node) :=
  match nodeAt d k with
  | None => []
  | Some n =>
      (k, n) :: sliceStable (fun a b => keyLt a.1 b.1)
        (List.filter (fun kv => bool_decide (k <> kv.1) && bool_decide (k `prefix_of` kv.1))
                     (map_to_list (names d)))
  end.

Definition nodeInfo (d : disk) (k : list string) (n : node) : FileInfo :=
  match n with DirN => dirInfo d k | FileN i => fileInfo (getInode d i) end.

(** The path the callback gets for the entry [k] of a walk from [root]. *)
Definition walkPath (root : string) (k : list string) : string :=
  match drop (length (key root)) k with [] => root | cs => Join (root :: cs) end.

(** Visit the entries with an accumulator; every entry is an [lstat] that may
    fail, and then the callback returns that error. *)
Fixpoint visit {X A} (fn : A -> string -> FileInfo -> res A) (root : string) (acc : A)
    (l : list (list string * node)) : IO X (A * option error) :=
  match l with
  | [] => ioRet (acc, None)
  | (k, n) :: l' =>
      do st <- attempt (syscall "lstat" (fun d => (Ok (nodeInfo d k n), d)));
      match st with
      | Err e => ioRet (acc, Some e)
      | Ok fi => match fn acc (walkPath root k) fi with
                 | Ok acc' => visit fn root acc' l'
                 | Err e => ioRet (acc, Some e)
                 end
      end
  end.

(** [filepath.Walk] with a callback that returns every error it is given. *)
Definition Walk {X A} (fn : A -> string -> FileInfo -> res A) (acc : A) (root : string)
    : IO X (A * option error) :=
  fun w =>
    match nodeAt (wdisk w) (key root) with
    | None => (Ok (acc, Some (ESys "lstat" (lookErr (wdisk w) (key root)))), w)
    | Some _ => visit fn root acc (walkList (wdisk w) (key root)) w
    end.

(** * Reasoning about effects *)

(** ** Triples over the disk, for every oracle *)

(** Whatever calls fail, [m] started on a disk with [P] ends with [Q]. *)
Definition hoare {X A} (P : disk -> Prop) (m : IO X A) (Q : res A -> disk -> Prop) : Prop :=
  forall w, P (wdisk w) -> Q (m w).1 (wdisk (m w).2).

(** [m] never breaks [P]. *)
Definition keeps {X A} (P : disk -> Prop) (m : IO X A) : Prop := hoare P m (fun _ => P).

Section triples.
Context {X : Type}.

Lemma bind_res_ok {A B} (a : A) (k : A -> IO X B) : ioBind (liftRes (Ok a)) k = k a.
Proof. reflexivity. Qed.

Lemma bind_res_err {A B} e (k : A -> IO X B) : ioBind (liftRes (Err e)) k = ioErr e.
Proof. reflexivity. Qed.

Lemma hoare_ret {A} (P : disk -> Prop) (a : A) Q :
  (forall d, P d -> Q (Ok a) d) -> hoare (X:=X) P (ioRet a) Q.
Proof. intros H w Hw. by apply H. Qed.

Lemma hoare_err {A} (P : disk -> Prop) e (Q : res A -> disk -> Prop) :
  (forall d, P d -> Q (Err e) d) -> hoare (X:=X) P (ioErr e) Q.
Proof. intros H w Hw. by apply H. Qed.

Lemma hoare_res {A} (P : disk -> Prop) (r : res A) Q :
  (forall d, P d -> Q r d) -> hoare (X:=X) P (liftRes r) Q.
Proof. intros H w Hw. by apply H. Qed.

Lemma hoare_bind {A B} P (m : IO X A) (k : A -> IO X B) M Q :
  hoare P m M -> (forall a, hoare (M (Ok a)) (k a) Q) ->
  (forall e d, M (Err e) d -> Q (Err e) d) -> hoare P (ioBind m k) Q.
Proof.
  intros Hm Hk He w Hw. unfold ioBind. specialize (Hm w Hw).
  destruct (m w) as [[a|e] w']; simpl in *; [by apply Hk|by apply He].
Qed.

Lemma hoare_attempt {A} P (m : IO X A) M (Q : res (res A) -> disk -> Prop) :
  hoare P m M -> (forall r d, M r d -> Q (Ok r) d) -> hoare P (attempt m) Q.
Proof.
  intros Hm HQ w Hw. unfold attempt. specialize (Hm w Hw).
  destruct (m w) as [r w']; simpl in *. by apply HQ.
Qed.

Lemma hoare_ignore {A} P (m : IO X A) M (Q : res unit -> disk -> Prop) :
  hoare P m M -> (forall r d, M r d -> Q (Ok tt) d) -> hoare P (ignore m) Q.
Proof.
  intros Hm HQ w Hw. unfold ignore. specialize (Hm w Hw).
  destruct (m w) as [r w']; simpl in *. by eapply HQ.
Qed.

Lemma hoare_wrapErr {A} P msg (m : IO X A) M Q :
  hoare P m M -> (forall a d, M (Ok a) d -> Q (Ok a) d) ->
  (forall e d, M (Err e) d -> Q (Err (EWrap msg e)) d) -> hoare P (wrapErr msg m) Q.
Proof.
  intros Hm H1 H2 w Hw. unfold wrapErr. specialize (Hm w Hw).
  destruct (m w) as [[a|e] w']; simpl in *; eauto.
Qed.

Lemma hoare_wrapErr_split {A} P msg (m : IO X A) (Q : A -> disk -> Prop) (E : disk -> Prop) :
  hoare P m (fun r d => match r with Ok a => Q a d | Err _ => E d end) ->
  hoare P (wrapErr msg m) (fun r d => match r with Ok a => Q a d | Err _ => E d end).
Proof. intros H. eapply hoare_wrapErr; [exact H|done|done]. Qed.

Lemma hoare_conseq {A} (P P' : disk -> Prop) (m : IO X A) (Q Q' : res A -> disk -> Prop) :
  hoare P m Q -> (forall d, P' d -> P d) -> (forall r d, Q r d -> Q' r d) -> hoare P' m Q'.
Proof. intros Hm H1 H2 w Hw. apply H2, Hm, H1, Hw. Qed.

Lemma hoare_pull {A} (F : Prop) P (m : IO X A) Q :
  (F -> hoare P m Q) -> hoare (fun d => F /\ P d) m Q.
Proof. intros H w [HF HP]. by apply H. Qed.

(** A system call: the fault-free result and the failures. *)
Lemma hoare_syscall {A} op (f : disk -> res A * disk) P Q :
  (forall d, P d -> Q (f d).1 (f d).2) -> (forall e d, P d -> Q (Err (ESys op e)) d) ->
  hoare (X:=X) P (syscall op f) Q.
Proof.
  intros H1 H2 w Hw. unfold syscall. specialize (H1 _ Hw).
  destruct (faults w) as [|[|e|n e] fs]; simpl; try by apply H2.
  - destruct (f (wdisk w)) as [r d]; simpl in *. done.
  - destruct (f (wdisk w)) as [r d]; simpl in *. done.
Qed.

Lemma keeps_bind {A B} P (m : IO X A) (k : A -> IO X B) :
  keeps P m -> (forall a, keeps P (k a)) -> keeps P (ioBind m k).
Proof. intros Hm Hk. eapply hoare_bind; [exact Hm|exact Hk|done]. Qed.

Lemma keeps_attempt {A} P (m : IO X A) : keeps P m -> keeps P (attempt m).
Proof. intros Hm. eapply hoare_attempt; [exact Hm|done]. Qed.

Lemma keeps_ignore {A} P (m : IO X A) : keeps P m -> keeps P (ignore m).
Proof. intros Hm. eapply hoare_ignore; [exact Hm|done]. Qed.

Lemma keeps_wrapErr {A} P msg (m : IO X A) : keeps P m -> keeps P (wrapErr msg m).
Proof. intros Hm. eapply hoare_wrapErr; [exact Hm|done|done]. Qed.

Lemma keeps_ret {A} P (a : A) : keeps (X:=X) P (ioRet a).
Proof. by apply hoare_ret. Qed.

Lemma keeps_err {A} P e : keeps (X:=X) (A:=A) P (ioErr e).
Proof. by apply hoare_err. Qed.

Lemma keeps_res {A} P (r : res A) : keeps (X:=X) P (liftRes r).
Proof. by apply hoare_res. Qed.

Lemma keeps_syscall {A} P op (f : disk -> res A * disk) :
  (forall d, P d -> P (f d).2) -> keeps (X:=X) P (syscall op f).
Proof. intros H. apply hoare_syscall; [exact H|done]. Qed.

(** Calls that only look at the disk keep everything. *)
Lemma keeps_readonly {A} P op (f : disk -> res A * disk) :
  (forall d, (f d).2 = d) -> keeps (X:=X) P (syscall op f).
Proof. intros H. apply keeps_syscall. intros d. by rewrite H. Qed.

Lemma statK_readonly k d : (statK k d).2 = d.
Proof. unfold statK. by repeat case_match. Qed.

Lemma openK_readonly k d : (openK k d).2 = d.
Proof. unfold openK. by repeat case_match. Qed.

Lemma keeps_Stat P p : keeps (X:=X) P (Stat p).
Proof. apply keeps_readonly, statK_readonly. Qed.

Lemma keeps_Open P p : keeps (X:=X) P (Open p).
Proof. apply keeps_readonly, openK_readonly. Qed.

Lemma keeps_Sync P h : keeps (X:=X) P (Sync h).
Proof. by apply keeps_readonly. Qed.

Lemma keeps_Close P h : keeps (X:=X) P (Close h).
Proof. by apply keeps_readonly. Qed.

Lemma keeps_FStat P h : keeps (X:=X) P (FStat h).
Proof. apply keeps_readonly. by destruct h. Qed.

Lemma keeps_Seek P h off : keeps (X:=X) P (Seek h off).
Proof. apply keeps_readonly. intros d. by destruct (off <? 0)%Z. Qed.

Lemma keeps_readRest P h : keeps (X:=X) P (readRest h).
Proof.
  intros w Hw. unfold readRest. destruct (contents _ _) as [b e].
  by destruct (faults w) as [|[]].
Qed.

(** A read without error delivered the rest of the file. *)
Lemma hoare_readRest P h :
  hoare (X:=X) P (readRest h)
    (fun r d => P d /\ match r with Ok rd => rd.2 = None -> rd = contents d h | Err _ => False end).
Proof.
  intros w Hw. unfold readRest. destruct (contents (wdisk w) h) as [b e] eqn:E.
  destruct (faults w) as [|[]]; simpl; by rewrite ?E.
Qed.

Lemma keeps_getExt P : keeps (X:=X) P getExt.
Proof. by intros w Hw. Qed.

Lemma keeps_putExt P x : keeps (X:=X) P (putExt x).
Proof. by intros w Hw. Qed.

Lemma keeps_getNow P : keeps (X:=X) P getNow.
Proof. by intros w Hw. Qed.

Lemma keeps_visit {A} P (fn : A -> string -> FileInfo -> res A) root acc l :
  keeps (X:=X) P (visit fn root acc l).
Proof.
  revert acc. induction l as [|[k n] l IH]; intros acc; simpl; [apply keeps_ret|].
  apply keeps_bind; [by apply keeps_attempt, keeps_readonly|].
  intros [fi|e]; [|apply keeps_ret].
  destruct (fn _ _ _); [apply IH|apply keeps_ret].
Qed.

Lemma keeps_Walk {A} P (fn : A -> string -> FileInfo -> res A) acc root :
  keeps (X:=X) P (Walk fn acc root).
Proof.
  intros w Hw. unfold Walk. destruct (nodeAt _ _); [|done]. by apply keeps_visit.
Qed.

(** [MkdirAll] keeps what a new directory cannot break. *)
Lemma keeps_mkdirAllK (P : disk -> Prop) n k :
  (forall j d, P d -> nodeAt d (take j k) = None -> nodeAt d (parent (take j k)) = Some DirN ->
     P (setName (take j k) DirN d)) ->
  keeps (X:=X) P (mkdirAllK n k).
Proof.
  intros HP.
  assert (forall j e0, keeps P (ioBind (attempt (syscall (X:=X) "mkdir" (mkdirK (take j k))))
    (fun r => match r with
      | Ok _ => ioRet tt
      | Err e =>
          ioBind (attempt (syscall "stat" (statK (take j k)))) (fun st' => match st' with
          | Ok fi => if fiDir fi then ioRet tt else ioErr (e0 e)
          | Err _ => ioErr (e0 e)
          end)
      end))) as Htail.
  { intros j e0. apply keeps_bind.
    { apply keeps_attempt, keeps_syscall. intros d Hd. unfold mkdirK. repeat case_match; simpl; auto. }
    intros [?|e']; [apply keeps_ret|].
    apply keeps_bind; [apply keeps_attempt, keeps_readonly, statK_readonly|].
    intros [fi|e'']; [destruct (fiDir fi)|]; auto using keeps_ret, keeps_err. }
  induction n as [|n IH].
  all: apply keeps_bind; [apply keeps_attempt, keeps_readonly, statK_readonly|].
  all: intros [fi|e]; [destruct (fiDir fi); [apply keeps_ret|apply keeps_err]|].
  all: apply keeps_bind; [first [apply keeps_ret|apply IH]|intros _; apply (Htail _ id)].
Qed.

Lemma keeps_MkdirAll (P : disk -> Prop) p :
  (forall k d, P d -> nodeAt d k = None -> nodeAt d (parent k) = Some DirN ->
     P (setName k DirN d)) ->
  keeps (X:=X) P (MkdirAll p).
Proof. intros H. apply keeps_mkdirAllK. intros j d. apply H. Qed.

End triples.

(** ** What a successful run establishes *)

(** If [m] returns without error, [Q] holds; nothing is said of failed runs. *)
Definition okay {X A} (P : disk -> Prop) (m : IO X A) (Q : A -> disk -> Prop) : Prop :=
  hoare P m (fun r d => match r with Ok a => Q a d | Err _ => True end).

Section okay.
Context {X : Type}.

Lemma okay_ret {A} (P : disk -> Prop) (a : A) (Q : A -> disk -> Prop) :
  (forall d, P d -> Q a d) -> okay (X:=X) P (ioRet a) Q.
Proof. intros H. by apply hoare_ret. Qed.

Lemma okay_err {A} P e (Q : A -> disk -> Prop) : okay (X:=X) P (ioErr e) Q.
Proof. by apply hoare_err. Qed.

Lemma okay_res {A} (P : disk -> Prop) (r : res A) (Q : A -> disk -> Prop) :
  (forall a d, r = Ok a -> P d -> Q a d) -> okay (X:=X) P (liftRes r) Q.
Proof. intros H. apply hoare_res. intros d. destruct r; [by apply H|done]. Qed.

Lemma okay_bind {A B} P (m : IO X A) (k : A -> IO X B) M Q :
  okay P m M -> (forall a, okay (M a) (k a) Q) -> okay P (ioBind m k) Q.
Proof. intros Hm Hk. eapply hoare_bind; [exact Hm|exact Hk|done]. Qed.

Lemma okay_attempt {A} P (m : IO X A) Q :
  okay P m Q -> okay P (attempt m) (fun r d => match r with Ok a => Q a d | Err _ => True end).
Proof. intros Hm. eapply hoare_attempt; [exact Hm|done]. Qed.

Lemma okay_wrapErr {A} P msg (m : IO X A) Q : okay P m Q -> okay P (wrapErr msg m) Q.
Proof. intros Hm. eapply hoare_wrapErr; [exact Hm|done|done]. Qed.

Lemma okay_keeps {A} (P : disk -> Prop) (m : IO X A) : keeps P m -> okay P m (fun _ => P).
Proof. intros Hm. eapply hoare_conseq; [exact Hm|done|]. by intros [?|?] d Hd. Qed.

Lemma okay_syscall {A} (P : disk -> Prop) op (f : disk -> res A * disk) (Q : A -> disk -> Prop) :
  (forall d a d', P d -> f d = (Ok a, d') -> Q a d') -> okay (X:=X) P (syscall op f) Q.
Proof.
  intros H. apply hoare_syscall; [|done]. intros d Hd. destruct (f d) as [[a|e] d'] eqn:E; [|done].
  by eapply H.
Qed.

Lemma okay_conseq {A} (P P' : disk -> Prop) (m : IO X A) (Q Q' : A -> disk -> Prop) :
  okay P m Q -> (forall d, P' d -> P d) -> (forall a d, Q a d -> Q' a d) -> okay P' m Q'.
Proof.
  intros Hm H1 H2. eapply hoare_conseq; [exact Hm|done|]. intros [a|e] d Hd; [by apply H2|done].
Qed.

Lemma okay_run {A} P (m : IO X A) Q w a w' :
  okay P m Q -> P (wdisk w) -> m w = (Ok a, w') -> Q a (wdisk w').
Proof. intros Hm Hw Hr. specialize (Hm w Hw). by rewrite Hr in Hm. Qed.

End okay.

#[export] Hint Resolve keeps_ret keeps_err keeps_res keeps_bind keeps_attempt keeps_ignore
  keeps_wrapErr keeps_Stat keeps_Open keeps_Sync keeps_Close keeps_FStat keeps_Seek
  keeps_readRest keeps_getExt keeps_putExt keeps_getNow keeps_Walk : go.

(** ** Disks and their updates *)

Lemma nodeAt_setName k n d k' :
  k <> [] -> nodeAt (setName k n d) k' = if bool_decide (k = k') then Some n else nodeAt d k'.
Proof.
  intros Hk. unfold nodeAt, setName. simpl. case_bool_decide; subst.
  - destruct k'; [done|]. by rewrite lookup_insert_eq.
  - destruct k'; [done|]. by rewrite lookup_insert_ne.
Qed.

Lemma nodeAt_delName k d k' :
  k <> [] -> nodeAt (delName k d) k' = if bool_decide (k = k') then None else nodeAt d k'.
Proof.
  intros Hk. unfold nodeAt, delName. simpl. case_bool_decide; subst.
  - destruct k'; [done|]. by rewrite lookup_delete_eq.
  - destruct k'; [done|]. by rewrite lookup_delete_ne.
Qed.

Lemma nodeAt_setInode i nd d k : nodeAt (setInode i nd d) k = nodeAt d k.
Proof. by destruct k. Qed.

Lemma nodeAt_file_nonroot d k i : nodeAt d k = Some (FileN i) -> k <> [].
Proof. by destruct k. Qed.

Lemma nodeAt_none_nonroot d k : nodeAt d k = None -> k <> [].
Proof. by destruct k. Qed.

Lemma elem_of_nodeInos d k i : nodeAt d k = Some (FileN i) -> i ∈ nodeInos d.
Proof.
  intros H. unfold nodeInos. apply list_elem_of_omap. exists (k, FileN i). split; [|done].
  apply elem_of_map_to_list. by destruct k.
Qed.

Lemma freshIno_above d i :
  i ∈ map fst (map_to_list (inodes d)) ++ nodeInos d -> (i < freshIno d)%positive.
Proof.
  unfold freshIno. induction (map fst (map_to_list (inodes d)) ++ nodeInos d) as [|j l IH]; [set_solver|].
  intros [->|H]%elem_of_cons; simpl; [lia|]. specialize (IH H). lia.
Qed.

Lemma freshIno_inode d : inodes d !! freshIno d = None.
Proof.
  destruct (inodes d !! freshIno d) as [nd|] eqn:E; [|done]. exfalso.
  apply (Pos.lt_irrefl (freshIno d)), freshIno_above, elem_of_app. left.
  apply list_elem_of_fmap. exists (freshIno d, nd). split; [done|]. by apply elem_of_map_to_list.
Qed.

Lemma freshIno_node d k : nodeAt d k <> Some (FileN (freshIno d)).
Proof.
  intros H%elem_of_nodeInos. apply (Pos.lt_irrefl (freshIno d)), freshIno_above, elem_of_app. by right.
Qed.

Lemma getInode_setInode i nd d j :
  getInode (setInode i nd d) j = if bool_decide (i = j) then nd else getInode d j.
Proof.
  unfold getInode, setInode. simpl. case_bool_decide; subst.
  - by rewrite lookup_insert_eq.
  - by rewrite lookup_insert_ne.
Qed.

(** ** Reliable worlds *)

Definition reliable {X} (w : world X) : Prop := faults w = [].

Arguments setDisk : simpl never.

Lemma setExt_same {X} (w : world X) : setExt (ext w) w = w.
Proof. by destruct w. Qed.

Lemma setDisk_same {X} (w : world X) : setDisk (wdisk w) w = w.
Proof. by destruct w. Qed.

Lemma setDisk_setDisk {X} d d' (w : world X) : setDisk d' (setDisk d w) = setDisk d' w.
Proof. done. Qed.

Lemma wdisk_setDisk {X} d (w : world X) : wdisk (setDisk d w) = d.
Proof. done. Qed.

Lemma reliable_setDisk {X} d (w : world X) : reliable w -> reliable (setDisk d w).
Proof. done. Qed.

#[export] Hint Resolve reliable_setDisk : go.

Section reliable.
Context {X : Type}.
Implicit Types w : world X.

Lemma syscall_reliable {A} op (f : disk -> res A * disk) w :
  reliable w -> syscall op f w = ((f (wdisk w)).1, setDisk (f (wdisk w)).2 w).
Proof.
  destruct w as [d fs rs t x]. unfold reliable. simpl. intros ->. unfold syscall. simpl.
  by destruct (f d).
Qed.

Lemma ioBind_ok {A B} (m : IO X A) (k : A -> IO X B) w a w' :
  m w = (Ok a, w') -> ioBind m k w = k a w'.
Proof. unfold ioBind. by intros ->. Qed.

Lemma ioBind_err {A B} (m : IO X A) (k : A -> IO X B) w e w' :
  m w = (Err e, w') -> ioBind m k w = (Err e, w').
Proof. unfold ioBind. by intros ->. Qed.

Lemma attempt_eq {A} (m : IO X A) w : attempt m w = (Ok (m w).1, (m w).2).
Proof. unfold attempt. by destruct (m w). Qed.

Lemma ignore_eq {A} (m : IO X A) w : ignore m w = (Ok tt, (m w).2).
Proof. unfold ignore. by destruct (m w). Qed.

Lemma wrapErr_ok {A} msg (m : IO X A) w a w' :
  m w = (Ok a, w') -> wrapErr msg m w = (Ok a, w').
Proof. unfold wrapErr. by intros ->. Qed.

Lemma wrapErr_err {A} msg (m : IO X A) w e w' :
  m w = (Err e, w') -> wrapErr msg m w = (Err (EWrap msg e), w').
Proof. unfold wrapErr. by intros ->. Qed.

Lemma Stat_reliable p w : reliable w -> Stat p w = ((statK (key p) (wdisk w)).1, w).
Proof. intros. unfold Stat. by rewrite syscall_reliable, statK_readonly, setDisk_same. Qed.

Lemma Open_reliable p w : reliable w -> Open p w = ((openK (key p) (wdisk w)).1, w).
Proof. intros. unfold Open. by rewrite syscall_reliable, openK_readonly, setDisk_same. Qed.

Lemma Close_reliable h w : reliable w -> Close h w = (Ok tt, w).
Proof. intros. unfold Close. rewrite syscall_reliable by done. simpl. by rewrite setDisk_same. Qed.

Lemma Sync_reliable h w : reliable w -> Sync h w = (Ok tt, w).
Proof. intros. unfold Sync. rewrite syscall_reliable by done. simpl. by rewrite setDisk_same. Qed.

Lemma FStat_reliable h w :
  reliable w ->
  FStat h w = (Ok match h with HDir k => dirInfo (wdisk w) k | HFile i _ => fileInfo (getInode (wdisk w) i) end, w).
Proof.
  intros. unfold FStat. rewrite syscall_reliable by done. destruct h; simpl.
  - by rewrite setDisk_same.
  - by rewrite setDisk_same.
Qed.

Lemma Seek_reliable i o off (w : world X) :
  reliable w -> (0 <= off)%Z -> Seek (HFile i o) off w = (Ok (HFile i (Z.to_nat off)), w).
Proof.
  intros Hr Ho. unfold Seek. rewrite syscall_reliable by done.
  destruct (Z.ltb_spec off 0); [lia|]. simpl. by rewrite setDisk_same.
Qed.

Lemma readRest_reliable h w : reliable w -> readRest h w = (Ok (contents (wdisk w) h), w).
Proof.
  destruct w as [d fs rs t x]. unfold reliable. simpl. intros ->. unfold readRest. simpl.
  by destruct (contents d h).
Qed.

Lemma Write_reliable i off b w :
  reliable w ->
  Write (HFile i off) b w
  = (Ok (HFile i (off + length b)), setDisk (writeInode i off b (wdisk w)) w).
Proof.
  destruct w as [d fs rs t x]. unfold reliable. simpl. intros ->. done.
Qed.

Lemma Stat_file p w i nd :
  reliable w -> nodeAt (wdisk w) (key p) = Some (FileN i) -> inodes (wdisk w) !! i = Some nd ->
  Stat p w = (Ok (fileInfo nd), w).
Proof.
  intros Hr Hn Hi. rewrite Stat_reliable by done. unfold statK, getInode. by rewrite Hn, Hi.
Qed.

Lemma Open_file p w i :
  reliable w -> nodeAt (wdisk w) (key p) = Some (FileN i) -> Open p w = (Ok (HFile i 0), w).
Proof. intros Hr Hn. rewrite Open_reliable by done. unfold openK. by rewrite Hn. Qed.

Lemma Remove_file p w i :
  reliable w -> nodeAt (wdisk w) (key p) = Some (FileN i) ->
  Remove p w = (Ok tt, setDisk (delName (key p) (wdisk w)) w).
Proof.
  intros Hr Hn. unfold Remove. rewrite syscall_reliable by done. unfold removeK.
  destruct (key p); [done|]. by rewrite Hn.
Qed.

Lemma Remove_missing p w :
  reliable w -> nodeAt (wdisk w) (key p) = None ->
  Remove p w = (Err (ESys "remove" (lookErr (wdisk w) (key p))), w).
Proof.
  intros Hr Hn. unfold Remove. rewrite syscall_reliable by done. unfold removeK.
  destruct (key p); [done|]. rewrite Hn. simpl. by rewrite setDisk_same.
Qed.

(** A missing entry of an existing directory. *)
Lemma lookErr_enoent d k :
  (forall j, isFile (nodeAt d (take j k)) = false) -> lookErr d k = ENOENT.
Proof.
  intros H. unfold lookErr.
  destruct (existsb _ _) eqn:E; [|done]. apply existsb_exists in E as (j & _ & Hj). congruence.
Qed.

End reliable.

(** ** New directories *)

(** [d'] is [d] with missing prefixes of [k] made directories. *)
Record dirsAdded (k : list string) (d d' : disk) : Prop := {
  added_inodes : inodes d' = inodes d;
  added_node : forall k', nodeAt d' k' = nodeAt d k'
                          \/ (nodeAt d k' = None /\ nodeAt d' k' = Some DirN
                              /\ exists j, k' = take j k)
}.

Lemma dirsAdded_refl k d : dirsAdded k d d.
Proof. split; [done|]. by left. Qed.

Lemma dirsAdded_trans k d1 d2 d3 : dirsAdded k d1 d2 -> dirsAdded k d2 d3 -> dirsAdded k d1 d3.
Proof.
  intros [Hi1 Hn1] [Hi2 Hn2]. split; [congruence|]. intros k'.
  destruct (Hn1 k') as [E1|(? & ? & ?)], (Hn2 k') as [E2|(? & ? & ?)].
  - left. congruence.
  - right. split; [congruence|]. done.
  - right. split; [done|]. split; [congruence|done].
  - congruence.
Qed.

Lemma dirsAdded_mono k d d' k' n :
  dirsAdded k d d' -> nodeAt d k' = Some n -> nodeAt d' k' = Some n.
Proof. intros [_ H] Hn. destruct (H k') as [?|(? & _)]; congruence. Qed.

Lemma dirsAdded_file k d d' k' i :
  dirsAdded k d d' -> nodeAt d' k' = Some (FileN i) <-> nodeAt d k' = Some (FileN i).
Proof. intros [_ H]. destruct (H k') as [?|(? & ? & _)]; split; congruence. Qed.

Lemma mkdirAllK_ok {X} (w : world X) n k :
  reliable w -> (forall j, isFile (nodeAt (wdisk w) (take j k)) = false) -> n <= length k ->
  exists d', mkdirAllK n k w = (Ok tt, setDisk d' w) /\ dirsAdded k (wdisk w) d'
             /\ nodeAt d' (take n k) = Some DirN.
Proof.
  intros Hr Hf. induction n as [|n IH]; intros Hn.
  { exists (wdisk w). split; [|by split; [apply dirsAdded_refl|]].
    simpl. unfold ioBind, attempt. rewrite syscall_reliable by done. simpl.
    by rewrite setDisk_same. }
  destruct (nodeAt (wdisk w) (take (S n) k)) as [[|i]|] eqn:E.
  - exists (wdisk w). split; [|by split; [apply dirsAdded_refl|]].
    cbn [mkdirAllK]. unfold ioBind at 1, attempt at 1.
    rewrite syscall_reliable by done. unfold statK. rewrite E. simpl. by rewrite setDisk_same.
  - specialize (Hf (S n)). by rewrite E in Hf.
  - destruct IH as (d1 & H1 & Ha & Hd1); [lia|].
    assert (take (S n) k <> []) as Hne by by eapply nodeAt_none_nonroot.
    assert (parent (take (S n) k) = take n k) as Hp.
    { unfold parent. rewrite removelast_firstn; [done|lia]. }
    assert (Hfin : forall d2, nodeAt d2 (take (S n) k) = None -> nodeAt d2 (take n k) = Some DirN ->
      dirsAdded k d2 (setName (take (S n) k) DirN d2)).
    { intros d2 H2 _. split; [done|]. intros k'. rewrite nodeAt_setName by done.
      case_bool_decide; [|by left]. subst. right. eauto. }
    cbn [mkdirAllK]. unfold ioBind at 1, attempt at 1.
    rewrite syscall_reliable by done. unfold statK at 1. rewrite E. simpl.
    rewrite statK_readonly, setDisk_same. rewrite (ioBind_ok _ _ _ _ _ H1).
    unfold ioBind, attempt. rewrite syscall_reliable by done. simpl. unfold mkdirK.
    destruct (nodeAt d1 (take (S n) k)) as [nd|] eqn:E1.
    + destruct (added_node _ _ _ Ha (take (S n) k)) as [?|(_ & HD & _)]; [congruence|].
      simpl. rewrite syscall_reliable by done. unfold statK. simpl. rewrite HD. simpl.
      exists d1. done.
    + rewrite Hp, Hd1. simpl. eexists. split; [reflexivity|]. split.
      * eapply dirsAdded_trans; [exact Ha|]. by apply Hfin.
      * rewrite nodeAt_setName by done. by rewrite bool_decide_eq_true_2.
Qed.

Lemma MkdirAll_ok {X} (w : world X) p :
  reliable w -> (forall j, isFile (nodeAt (wdisk w) (take j (key p))) = false) ->
  exists d', MkdirAll p w = (Ok tt, setDisk d' w) /\ dirsAdded (key p) (wdisk w) d'
             /\ nodeAt d' (key p) = Some DirN.
Proof.
  intros Hr Hf. destruct (mkdirAllK_ok w (length (key p)) (key p) Hr Hf) as (d' & H1 & H2 & H3);
    [done|]. exists d'. rewrite firstn_all in H3. done.
Qed.

(** ** Well-formed disks *)

(** Every file entry has an inode, every entry is in a directory. *)
Record wfDisk (d : disk) : Prop := {
  wf_inode : forall k i, nodeAt d k = Some (FileN i) -> is_Some (inodes d !! i);
  wf_parent : forall k, k <> [] -> is_Some (nodeAt d k) -> nodeAt d (parent k) = Some DirN
}.

Lemma take_removelast {A} (k : list A) j : j < length k -> take j (removelast k) = take j k.
Proof. intros H. rewrite removelast_firstn_len, take_take. f_equal. lia. Qed.

(** All the prefixes of an entry are directories. *)
Lemma wf_prefix d k j :
  wfDisk d -> is_Some (nodeAt d k) -> j < length k -> nodeAt d (take j k) = Some DirN.
Proof.
  intros Hwf. remember (length k) as n eqn:En. revert k En.
  induction n as [|n IH]; intros k En Hk Hj; [lia|].
  assert (k <> []) as Hne by by intros ->.
  pose proof (wf_parent _ Hwf k Hne Hk) as Hp. unfold parent in Hp.
  destruct (decide (j = n)) as [->|Hjn].
  - rewrite removelast_firstn_len in Hp. rewrite <- En in Hp. exact Hp.
  - rewrite <- take_removelast by lia.
    apply IH; [|by eexists|lia]. rewrite removelast_firstn_len, length_take. lia.
Qed.

Lemma wf_dir_nofile d k j :
  wfDisk d -> nodeAt d k = Some DirN -> isFile (nodeAt d (take j k)) = false.
Proof.
  intros Hwf Hk. destruct (decide (j < length k)) as [Hj|Hj].
  - rewrite (wf_prefix d k j); [done|done|by eexists|done].
  - rewrite take_ge by lia. by rewrite Hk.
Qed.

Lemma wf_setDir d k :
  wfDisk d -> nodeAt d k = None -> nodeAt d (parent k) = Some DirN -> wfDisk (setName k DirN d).
Proof.
  intros [Hi Hp] Hk Hpar. assert (k <> []) as Hne by by eapply nodeAt_none_nonroot.
  split; intros k'.
  - intros i. rewrite nodeAt_setName by done. case_bool_decide; [done|apply Hi].
  - intros Hne' Hs. rewrite nodeAt_setName in * by done.
    case_bool_decide; [by case_bool_decide; congruence|].
    case_bool_decide; [done|]. by apply Hp.
Qed.

Lemma wf_setFile d k i :
  wfDisk d -> is_Some (inodes d !! i) -> nodeAt d k <> Some DirN ->
  nodeAt d (parent k) = Some DirN -> wfDisk (setName k (FileN i) d).
Proof.
  intros [Hi Hp] Hio Hk Hpar. assert (k <> []) as Hne by by intros ->.
  split; intros k'.
  - intros j. rewrite nodeAt_setName by done. case_bool_decide; [|apply Hi]. by intros [= <-].
  - intros Hne' Hs. rewrite nodeAt_setName in * by done.
    assert (k <> parent k') as Hd.
    { intros ->. destruct (decide (parent k' = k')) as [E|E].
      - apply (f_equal length) in E. unfold parent in E. rewrite removelast_firstn_len, length_take in E.
        destruct k'; [done|]. simpl in E. lia.
      - rewrite bool_decide_eq_false_2 in Hs by done. apply Hk. by apply Hp. }
    rewrite (bool_decide_eq_false_2 _ Hd).
    case_bool_decide; [by subst|]. by apply Hp.
Qed.

Lemma wf_setInode d i nd : wfDisk d -> wfDisk (setInode i nd d).
Proof.
  intros [Hi Hp]. split; intros k.
  - intros j. rewrite nodeAt_setInode. intros Hj. simpl.
    destruct (decide (i = j)) as [->|Hne]; [by rewrite lookup_insert_eq|].
    rewrite lookup_insert_ne by done. by eapply Hi.
  - rewrite !nodeAt_setInode. apply Hp.
Qed.

(** Removing a file, or a directory without entries. *)
Lemma wf_delName d k :
  wfDisk d -> k <> [] ->
  (forall k', k' <> [] -> is_Some (nodeAt d k') -> parent k' <> k) -> wfDisk (delName k d).
Proof.
  intros [Hi Hp] Hne Hch. split; intros k'.
  - intros j. rewrite nodeAt_delName by done. case_bool_decide; [done|apply Hi].
  - intros Hne' Hs. rewrite nodeAt_delName in * by done.
    case_bool_decide; [by destruct Hs|].
    rewrite bool_decide_eq_false_2; [by apply Hp|]. intros ->. by eapply Hch.
Qed.

Lemma wf_file_nochild d k i k' :
  wfDisk d -> nodeAt d k = Some (FileN i) -> k' <> [] -> is_Some (nodeAt d k') -> parent k' <> k.
Proof. intros Hwf Hk Hne Hs <-. rewrite (wf_parent _ Hwf) in Hk by done. done. Qed.

Lemma hasChild_false d k k' :
  hasChild d k = false -> k' <> [] -> is_Some (nodeAt d k') -> parent k' <> k.
Proof.
  intros H Hne [n Hn] Hp. unfold hasChild in H.
  assert (existsb (fun kv => bool_decide (kv.1 <> []) && bool_decide (parent kv.1 = k))
    (map_to_list (names d)) = true) as Hc; [|congruence].
  apply existsb_exists. exists (k', n). split.
  - apply list_elem_of_In, elem_of_map_to_list. by destruct k'.
  - simpl. by rewrite !bool_decide_eq_true_2.
Qed.

(** The three ways a call changes which names there are. *)
Lemma removeK_cases k d :
  (removeK k d).2 = d
  \/ (k <> [] /\ (removeK k d) = (Ok tt, delName k d)
      /\ (isFile (nodeAt d k) = true \/ hasChild d k = false)).
Proof.
  unfold removeK. destruct k as [|x k]; [by left|].
  destruct (nodeAt d (x :: k)) as [[|i]|]; [|right; by auto|by left].
  destruct (hasChild d (x :: k)) eqn:E; [by left|]. right. auto.
Qed.

Lemma wf_removeK k d : wfDisk d -> wfDisk (removeK k d).2.
Proof.
  intros Hwf. destruct (removeK_cases k d) as [->|(Hne & -> & H)]; [done|]. simpl.
  apply wf_delName; [done..|]. intros k' Hk' Hs. destruct H as [H|H].
  - destruct (nodeAt d k) as [[|i]|] eqn:E; try done. by eapply wf_file_nochild.
  - by eapply hasChild_false.
Qed.

Lemma renameK_cases k k' d :
  (renameK k k' d).2 = d
  \/ exists i, nodeAt d k = Some (FileN i) /\ k <> k' /\ nodeAt d k' <> Some DirN
      /\ nodeAt d k' <> Some (FileN i)
      /\ (is_Some (nodeAt d k') \/ nodeAt d (parent k') = Some DirN)
      /\ renameK k k' d = (Ok tt, setName k' (FileN i) (delName k d)).
Proof.
  unfold renameK. destruct (nodeAt d k) as [[|i]|] eqn:E; try by left.
  destruct (nodeAt d k') as [[|j]|] eqn:E'; [by left| |].
  - case_bool_decide as Hij; [by left|]. right. exists i.
    assert (k <> k') by (intros ->; congruence).
    split; [done|]. split; [done|]. split; [done|]. split; [congruence|]. split; [|done]. left. eauto.
  - destruct (nodeAt d (parent k')) as [[|j]|] eqn:E''; try by left. right. exists i.
    assert (k <> k') by (intros ->; congruence). auto 10.
Qed.

Lemma renameK_moves k k' d i :
  nodeAt d k = Some (FileN i) -> nodeAt d k' <> Some DirN -> nodeAt d k' <> Some (FileN i) ->
  nodeAt d (parent k') = Some DirN ->
  renameK k k' d = (Ok tt, setName k' (FileN i) (delName k d)).
Proof.
  intros Hk H1 H2 Hp. unfold renameK. rewrite Hk.
  destruct (nodeAt d k') as [[|j]|]; [done| |by rewrite Hp].
  rewrite bool_decide_eq_false_2; [done|]. congruence.
Qed.

Lemma wf_renameK k k' d : wfDisk d -> wfDisk (renameK k k' d).2.
Proof.
  intros Hw. destruct (renameK_cases k k' d) as [->|(i & Hi & Hne & Hnd & _ & Hp & ->)]; [done|].
  simpl. assert (k <> []) as Hk by by eapply nodeAt_file_nonroot.
  assert (k' <> []) as Hk' by by intros ->.
  assert (nodeAt d (parent k') = Some DirN) as Hpar.
  { destruct Hp as [Hp|Hp]; [|done]. by apply (wf_parent _ Hw). }
  apply wf_setFile.
  - apply wf_delName; [done..|]. intros k0 Hk0 Hs. by eapply wf_file_nochild.
  - exact (wf_inode _ Hw _ _ Hi).
  - rewrite nodeAt_delName by done. by case_bool_decide.
  - rewrite nodeAt_delName by done. rewrite bool_decide_eq_false_2; [done|]. intros ->. congruence.
Qed.

(** The new inode of an open with [O_CREATE]. *)
Definition newFile (k : list string) (perm : Z) (d : disk) : disk :=
  setName k (FileN (freshIno d)) (setInode (freshIno d) (Inode [] (Z.land perm (Z.lnot 18))) d).

Lemma wf_newFile d k perm :
  wfDisk d -> nodeAt d k = None -> nodeAt d (parent k) = Some DirN -> wfDisk (newFile k perm d).
Proof.
  intros Hwf Hk Hp. apply wf_setFile.
  - by apply wf_setInode.
  - simpl. by rewrite lookup_insert_eq.
  - by rewrite nodeAt_setInode, Hk.
  - by rewrite nodeAt_setInode.
Qed.

Lemma nodeAt_newFile d k perm k' :
  k <> [] ->
  nodeAt (newFile k perm d) k' = if bool_decide (k = k') then Some (FileN (freshIno d)) else nodeAt d k'.
Proof. intros Hk. unfold newFile. by rewrite nodeAt_setName, nodeAt_setInode. Qed.

Lemma getInode_newFile_ne d k perm k' i :
  nodeAt d k' = Some (FileN i) -> getInode (newFile k perm d) i = getInode d i.
Proof.
  intros Hk'. unfold newFile. unfold getInode at 1. simpl.
  rewrite lookup_insert_ne; [done|]. intros <-. by apply freshIno_node in Hk'.
Qed.

(** ** More on reliable worlds *)

Lemma MkdirAll_exists {X} (w : world X) p :
  reliable w -> nodeAt (wdisk w) (key p) = Some DirN -> MkdirAll p w = (Ok tt, w).
Proof.
  intros Hr Hd. unfold MkdirAll.
  assert (attempt (syscall "stat" (statK (take (length (key p)) (key p)))) w = (Ok (Ok (dirInfo (wdisk w) (key p))), w)) as Hs.
  { rewrite attempt_eq, syscall_reliable by done. rewrite statK_readonly, setDisk_same.
    rewrite firstn_all. unfold statK. by rewrite Hd. }
  destruct (length (key p)) as [|n]; cbn [mkdirAllK]; by rewrite (ioBind_ok _ _ _ _ _ Hs).
Qed.

(** No element of a path below an existing directory is a file, except
    possibly the last. *)
Lemma lookErr_child d k x :
  wfDisk d -> nodeAt d k = Some DirN -> isFile (nodeAt d (k ++ [x])) = false ->
  lookErr d (k ++ [x]) = ENOENT.
Proof.
  intros Hw Hk Hx. apply lookErr_enoent. intros j.
  destruct (decide (j <= length k)) as [Hj|Hj].
  - rewrite take_app_le by lia. by apply wf_dir_nofile.
  - rewrite take_ge; [done|]. rewrite length_app. simpl. lia.
Qed.

(** What an append or a new file leaves alone. *)
Record frame (k : list string) (d d' : disk) : Prop := {
  frame_node : forall k', k' <> k -> nodeAt d' k' = nodeAt d k';
  frame_data : forall k' i, k' <> k -> nodeAt d k' = Some (FileN i) -> getInode d' i = getInode d i
}.

Lemma frame_refl k d : frame k d d.
Proof. by split. Qed.

Lemma frame_trans k d1 d2 d3 : frame k d1 d2 -> frame k d2 d3 -> frame k d1 d3.
Proof.
  intros [N1 D1] [N2 D2]. split.
  - intros k' Hk. by rewrite N2, N1.
  - intros k' i Hk Hi. rewrite (D2 k'), (D1 k'); [done..|]. by rewrite N1.
Qed.

Lemma frame_delName k d : k <> [] -> frame k d (delName k d).
Proof.
  intros Hk. split; [|done]. intros k' Hk'. rewrite nodeAt_delName by done.
  by rewrite bool_decide_eq_false_2.
Qed.

Lemma frame_newFile k perm d : k <> [] -> frame k d (newFile k perm d).
Proof.
  intros Hk. split.
  - intros k' Hk'. rewrite nodeAt_newFile by done. by rewrite bool_decide_eq_false_2.
  - intros k' i _ Hi. by eapply getInode_newFile_ne.
Qed.

Lemma frame_setInode k d i nd :
  (forall k', nodeAt d k' = Some (FileN i) -> k' = k) -> frame k d (setInode i nd d).
Proof.
  intros Hu. split; [intros; apply nodeAt_setInode|].
  intros k' j Hk' Hj. rewrite getInode_setInode. rewrite bool_decide_eq_false_2; [done|].
  intros <-. by apply Hu in Hj.
Qed.

(** Open for appending: the file, new or not, and where the handle stands. *)
Lemma OpenAppend_ok {X} (w : world X) p perm :
  reliable w -> nodeAt (wdisk w) (key p) <> Some DirN ->
  nodeAt (wdisk w) (parent (key p)) = Some DirN ->
  exists d i off,
    OpenAppend p perm w = (Ok (HFile i off), setDisk d w)
    /\ nodeAt d (key p) = Some (FileN i) /\ off = length (idata (getInode d i))
    /\ frame (key p) (wdisk w) d
    /\ idata (getInode d i)
       = match nodeAt (wdisk w) (key p) with
         | Some (FileN j) => idata (getInode (wdisk w) j) | _ => [] end.
Proof.
  intros Hr Hd Hp. unfold OpenAppend. rewrite syscall_reliable by done. unfold openWriteK.
  destruct (nodeAt (wdisk w) (key p)) as [[|i]|] eqn:E; [done| |].
  - exists (wdisk w), i, (length (idata (getInode (wdisk w) i))). simpl.
    split; [done|]. split; [done|]. split; [done|]. split; [apply frame_refl|done].
  - rewrite Hp. simpl. assert (key p <> []) as Hne by by eapply nodeAt_none_nonroot.
    exists (newFile (key p) perm (wdisk w)), (freshIno (wdisk w)), 0.
    assert (getInode (newFile (key p) perm (wdisk w)) (freshIno (wdisk w))
            = Inode [] (Z.land perm (Z.lnot 18))) as Hg.
    { unfold newFile, getInode. simpl. by rewrite lookup_insert_eq. }
    split; [done|]. rewrite nodeAt_newFile by done. rewrite bool_decide_eq_true_2 by done.
    rewrite Hg. split; [done|]. split; [done|]. split; [by apply frame_newFile|done].
Qed.

Lemma pwrite_end b old : pwrite (length old) b old = old ++ b.
Proof.
  unfold pwrite. rewrite Nat.sub_diag. simpl. rewrite app_nil_r, firstn_all.
  rewrite drop_ge by lia. by rewrite app_nil_r.
Qed.

(** ** Walks *)

Lemma elem_of_walkList d k k' n :
  (k', n) ∈ walkList d k <-> nodeAt d k' = Some n /\ k `prefix_of` k' /\ is_Some (nodeAt d k).
Proof.
  unfold walkList. destruct (nodeAt d k) as [n0|] eqn:E.
  2: { split; [by intros H%elem_of_nil|by intros (_ & _ & [? [=]])]. }
  rewrite elem_of_cons, sliceStable_perm, elem_of_filterb, elem_of_map_to_list. simpl. split.
  - intros [[= -> ->]|[Hn H]]; [split; [done|split; [done|eauto]]|].
    boolify. destruct k'; [by destruct (prefix_nil_inv k)|]. split; [done|split; [done|eauto]].
  - intros (Hn & Hp & _). destruct (decide (k = k')) as [->|Hne]; [left; congruence|right].
    rewrite !bool_decide_eq_true_2 by done. split; [|done].
    destruct k'; [by apply prefix_nil_inv in Hp|done].
Qed.

Lemma NoDup_walkList d k : NoDup (walkList d k).*1.
Proof.
  unfold walkList. destruct (nodeAt d k) as [n0|]; [|constructor]. simpl.
  constructor.
  - intros ((k' & n) & Hk & Hin)%list_elem_of_fmap. simpl in Hk. subst k'.
    rewrite sliceStable_perm, elem_of_filterb in Hin. destruct Hin as [_ H]. boolify. done.
  - rewrite sliceStable_perm. apply NoDup_map_filter, NoDup_fst_map_to_list.
Qed.

Lemma visit_reliable {X A} (fn : A -> string -> FileInfo -> res A) g root acc l (w : world X) :
  reliable w -> (forall a p fi, fn a p fi = Ok (g a p fi)) ->
  visit fn root acc l w
  = (Ok (fold_left (fun a kn => g a (walkPath root kn.1) (nodeInfo (wdisk w) kn.1 kn.2)) l acc, None), w).
Proof.
  intros Hr Hg. revert acc. induction l as [|[k n] l IH]; intros acc; [done|]. cbn [visit].
  assert (attempt (syscall "lstat" (fun d => (Ok (nodeInfo d k n), d))) w
          = (Ok (Ok (nodeInfo (wdisk w) k n)), w)) as Hs.
  { rewrite attempt_eq, syscall_reliable by done. simpl. by rewrite setDisk_same. }
  rewrite (ioBind_ok _ _ _ _ _ Hs), Hg. apply IH.
Qed.

Lemma Walk_reliable {X A} (fn : A -> string -> FileInfo -> res A) g root acc (w : world X) :
  reliable w -> (forall a p fi, fn a p fi = Ok (g a p fi)) -> is_Some (nodeAt (wdisk w) (key root)) ->
  Walk fn acc root w
  = (Ok (fold_left (fun a kn => g a (walkPath root kn.1) (nodeInfo (wdisk w) kn.1 kn.2))
           (walkList (wdisk w) (key root)) acc, None), w).
Proof. intros Hr Hg [n Hn]. unfold Walk. rewrite Hn. by apply visit_reliable. Qed.

(** The path of an entry below the root of the walk. *)
Lemma walkPath_below root k x y :
  k = key root ++ x :: y -> walkPath root k = Join (root :: x :: y).
Proof.
  intros ->. unfold walkPath. rewrite drop_app_length. done.
Qed.

(** ** Inversion of successful calls *)

Lemma ioBind_inv {X A B} (m : IO X A) (k : A -> IO X B) w b w' :
  ioBind m k w = (Ok b, w') -> exists a w1, m w = (Ok a, w1) /\ k a w1 = (Ok b, w').
Proof. unfold ioBind. destruct (m w) as [[a|e] w1]; [eauto|done]. Qed.

(** The result of a run, without its final world. *)
Lemma io_result {X A} (m : IO X A) w r : (m w).1 = r -> m w = (r, (m w).2).
Proof. destruct (m w). by intros <-. Qed.

Lemma attempt_inv {X A} (m : IO X A) w r w' : attempt m w = (Ok r, w') -> m w = (r, w').
Proof. rewrite attempt_eq. destruct (m w). by intros [= <- <-]. Qed.

Lemma syscall_inv {X A} op (f : disk -> res A * disk) (w : world X) a w' :
  syscall op f w = (Ok a, w') -> f (wdisk w) = (Ok a, wdisk w').
Proof.
  unfold syscall. destruct (f (wdisk w)) as [r d].
  destruct (faults w) as [|[]]; by intros [= -> <-].
Qed.

Lemma keeps_disk {X A} (m : IO X A) w :
  (forall P, keeps P m) -> wdisk (m w).2 = wdisk w.
Proof. intros H. exact (H (fun d => d = wdisk w) w eq_refl). Qed.

Lemma OpenTrunc_new {X} (w : world X) p perm :
  reliable w -> nodeAt (wdisk w) (key p) = None -> nodeAt (wdisk w) (parent (key p)) = Some DirN ->
  OpenTrunc p perm w = (Ok (HFile (freshIno (wdisk w)) 0), setDisk (newFile (key p) perm (wdisk w)) w).
Proof.
  intros Hr Hn Hp. unfold OpenTrunc. rewrite syscall_reliable by done. unfold openWriteK. by rewrite Hn, Hp.
Qed.

Lemma getInode_newFile k perm d :
  getInode (newFile k perm d) (freshIno d) = Inode [] (Z.land perm (Z.lnot 18)).
Proof. unfold newFile, getInode. simpl. by rewrite lookup_insert_eq. Qed.

(** ** Checking a concrete disk *)

(** A property of all the entries of a disk, checked by enumeration. *)
Definition allEntries (P : list string -> node -> bool) (d : disk) : bool :=
  forallb (fun kn => P kn.1 kn.2) (map_to_list (names d)).

Lemma allEntries_sound P d k n :
  allEntries P d = true -> k <> [] -> nodeAt d k = Some n -> P k n = true.
Proof.
  intros H Hk Hn. unfold allEntries in H. rewrite forallb_forall in H.
  apply (H (k, n)), list_elem_of_In, elem_of_map_to_list. by destruct k.
Qed.

Definition isDir (n : option node) : bool := match n with Some DirN => true | _ => false end.

Definition wfDiskb (d : disk) : bool :=
  allEntries (fun k n => isDir (nodeAt d (parent k)) &&
    match n with DirN => true | FileN i => bool_decide (is_Some (inodes d !! i)) end) d.

Lemma wfDiskb_sound d : wfDiskb d = true -> wfDisk d.
Proof.
  intros H. split.
  - intros k i Hk. assert (k <> []) as Hne by by eapply nodeAt_file_nonroot.
    pose proof (allEntries_sound _ _ _ _ H Hne Hk) as Hb. simpl in Hb. boolify. done.
  - intros k Hne [n Hn]. pose proof (allEntries_sound _ _ _ _ H Hne Hn) as Hb. simpl in Hb.
    apply andb_true_iff in Hb as [Hb _]. by destruct (nodeAt d (parent k)) as [[|]|].
Qed.

(** ** Calls on the disk leave the other components alone *)

Definition extSame {X A} (m : IO X A) : Prop := forall w, ext (m w).2 = ext w.

Section extSame.
Context {X : Type}.

Lemma extSame_ret {A} (a : A) : extSame (X:=X) (ioRet a).
Proof. done. Qed.

Lemma extSame_err {A} e : extSame (X:=X) (A:=A) (ioErr e).
Proof. done. Qed.

Lemma extSame_res {A} (r : res A) : extSame (X:=X) (liftRes r).
Proof. done. Qed.

Lemma extSame_bind {A B} (m : IO X A) (k : A -> IO X B) :
  extSame m -> (forall a, extSame (k a)) -> extSame (ioBind m k).
Proof.
  intros Hm Hk w. unfold ioBind. specialize (Hm w). destruct (m w) as [[a|e] w']; [|done].
  simpl in Hm. by rewrite Hk.
Qed.

Lemma extSame_attempt {A} (m : IO X A) : extSame m -> extSame (attempt m).
Proof. intros Hm w. rewrite attempt_eq. apply Hm. Qed.

Lemma extSame_ignore {A} (m : IO X A) : extSame m -> extSame (ignore m).
Proof. intros Hm w. rewrite ignore_eq. apply Hm. Qed.

Lemma extSame_wrapErr {A} msg (m : IO X A) : extSame m -> extSame (wrapErr msg m).
Proof. intros Hm w. unfold wrapErr. specialize (Hm w). by destruct (m w) as [[a|e] w']. Qed.

Lemma extSame_syscall {A} op (f : disk -> res A * disk) : extSame (X:=X) (syscall op f).
Proof.
  intros w. unfold syscall. destruct (f (wdisk w)). by destruct (faults w) as [|[]].
Qed.

Lemma extSame_readRest h : extSame (X:=X) (readRest h).
Proof.
  intros w. unfold readRest. destruct (contents (wdisk w) h). by destruct (faults w) as [|[]].
Qed.

Lemma extSame_Write h b : extSame (X:=X) (Write h b).
Proof. intros w. unfold Write. destruct h; [done|]. by destruct (faults w) as [|[]]. Qed.

Lemma extSame_getNow : extSame (X:=X) getNow.
Proof. done. Qed.

Lemma extSame_getExt : extSame (X:=X) getExt.
Proof. done. Qed.

Lemma extSame_visit {A} (fn : A -> string -> FileInfo -> res A) root l : forall acc,
  extSame (X:=X) (visit fn root acc l).
Proof.
  induction l as [|[k n] l IH]; intros acc; cbn [visit]; [apply extSame_ret|].
  apply extSame_bind; [apply extSame_attempt, extSame_syscall|].
  intros [fi|e]; [|apply extSame_ret]. destruct (fn _ _ _); [apply IH|apply extSame_ret].
Qed.

Lemma extSame_Walk {A} (fn : A -> string -> FileInfo -> res A) acc root :
  extSame (X:=X) (Walk fn acc root).
Proof. intros w. unfold Walk. destruct (nodeAt _ _); [apply extSame_visit|done]. Qed.

Lemma extSame_Stat p : extSame (X:=X) (Stat p).
Proof. apply extSame_syscall. Qed.
Lemma extSame_Open p : extSame (X:=X) (Open p).
Proof. apply extSame_syscall. Qed.
Lemma extSame_OpenTrunc p perm : extSame (X:=X) (OpenTrunc p perm).
Proof. apply extSame_syscall. Qed.
Lemma extSame_OpenAppend p perm : extSame (X:=X) (OpenAppend p perm).
Proof. apply extSame_syscall. Qed.
Lemma extSame_Sync h : extSame (X:=X) (Sync h).
Proof. apply extSame_syscall. Qed.
Lemma extSame_Remove p : extSame (X:=X) (Remove p).
Proof. apply extSame_syscall. Qed.
Lemma extSame_Rename p q : extSame (X:=X) (Rename p q).
Proof. apply extSame_syscall. Qed.
Lemma extSame_Close h : extSame (X:=X) (Close h).
Proof. apply extSame_syscall. Qed.
Lemma extSame_FStat h : extSame (X:=X) (FStat h).
Proof. apply extSame_syscall. Qed.

Lemma extSame_mkdirAllK n k : extSame (X:=X) (mkdirAllK n k).
Proof.
  induction n as [|n IH]; cbn [mkdirAllK].
  all: apply extSame_bind; [apply extSame_attempt, extSame_syscall|].
  all: intros [fi|e]; [destruct (fiDir fi); [apply extSame_ret|apply extSame_err]|].
  all: apply extSame_bind; [first [apply IH|apply extSame_ret]|intros _].
  all: apply extSame_bind; [apply extSame_attempt, extSame_syscall|intros [r|e']; [apply extSame_ret|]].
  all: apply extSame_bind; [apply extSame_attempt, extSame_syscall|].
  all: intros [fi|e'']; [destruct (fiDir fi)|]; first [apply extSame_ret|apply extSame_err].
Qed.

Lemma extSame_MkdirAll p : extSame (X:=X) (MkdirAll p).
Proof. apply extSame_mkdirAllK. Qed.

Lemma extSame_copyTo h r : extSame (X:=X) (copyTo h r).
Proof. apply extSame_bind; [apply extSame_Write|]. intros h'. destruct (r.2); [apply extSame_err|apply extSame_ret]. Qed.

Lemma extSame_CreateTemp dir prefix : extSame (X:=X) (CreateTemp dir prefix).
Proof.
  intros w. unfold CreateTemp. generalize (rands w) as draws. intros draws. revert w.
  induction draws as [|n draws IH]; cbn [createTemp]; [apply extSame_err|].
  apply extSame_bind; [done|]. intros [?|]; [done|]. apply extSame_bind; [apply extSame_syscall|done].
Qed.

Lemma extSame_ReadFile p : extSame (X:=X) (ReadFile p).
Proof.
  apply extSame_bind; [apply extSame_Open|]. intros h.
  apply extSame_bind; [apply extSame_readRest|]. intros r.
  apply extSame_bind; [apply extSame_ignore, extSame_Close|]. intros _. apply extSame_res.
Qed.

Lemma extSame_WriteFile p b perm : extSame (X:=X) (WriteFile p b perm).
Proof.
  apply extSame_bind; [apply extSame_OpenTrunc|]. intros h.
  apply extSame_bind; [apply extSame_attempt, extSame_Write|]. intros r.
  apply extSame_bind; [apply extSame_attempt, extSame_Close|]. intros c.
  destruct r; [apply extSame_res|apply extSame_err].
Qed.

End extSame.

#[export] Hint Resolve extSame_ret extSame_err extSame_res extSame_bind extSame_attempt
  extSame_ignore extSame_wrapErr extSame_syscall extSame_readRest extSame_Write extSame_getNow
  extSame_getExt extSame_Walk extSame_Stat extSame_Open extSame_OpenTrunc extSame_Remove
  extSame_Rename extSame_Close extSame_FStat extSame_ReadFile extSame_WriteFile
  extSame_MkdirAll extSame_copyTo extSame_CreateTemp extSame_OpenAppend extSame_Sync : go.

(** ** Triples over whole worlds *)

Definition triple {X A} (P : world X -> Prop) (m : IO X A) (Q : res A -> world X -> Prop) : Prop :=
  forall w, P w -> Q (m w).1 (m w).2.

Section worldTriples.
Context {X : Type}.
Implicit Types P : world X -> Prop.

Lemma triple_ret {A} P (a : A) (Q : res A -> world X -> Prop) :
  (forall w, P w -> Q (Ok a) w) -> triple P (ioRet a) Q.
Proof. intros H w Hw. by apply H. Qed.

Lemma triple_err {A} P e (Q : res A -> world X -> Prop) :
  (forall w, P w -> Q (Err e) w) -> triple P (ioErr e) Q.
Proof. intros H w Hw. by apply H. Qed.

Lemma triple_bind {A B} P (m : IO X A) (k : A -> IO X B) M Q :
  triple P m M -> (forall a, triple (M (Ok a)) (k a) Q) ->
  (forall e w, M (Err e) w -> Q (Err e) w) -> triple P (ioBind m k) Q.
Proof.
  intros Hm Hk He w Hw. unfold ioBind. specialize (Hm w Hw).
  destruct (m w) as [[a|e] w']; simpl in *; [by apply Hk|by apply He].
Qed.

Lemma triple_attempt {A} P (m : IO X A) M (Q : res (res A) -> world X -> Prop) :
  triple P m M -> (forall r w, M r w -> Q (Ok r) w) -> triple P (attempt m) Q.
Proof.
  intros Hm HQ w Hw. unfold attempt. specialize (Hm w Hw).
  destruct (m w) as [r w']; simpl in *. by apply HQ.
Qed.

Lemma triple_ignore {A} P (m : IO X A) M (Q : res unit -> world X -> Prop) :
  triple P m M -> (forall r w, M r w -> Q (Ok tt) w) -> triple P (ignore m) Q.
Proof.
  intros Hm HQ w Hw. unfold ignore. specialize (Hm w Hw).
  destruct (m w) as [r w']; simpl in *. by eapply HQ.
Qed.

Lemma triple_conseq {A} P P' (m : IO X A) (Q Q' : res A -> world X -> Prop) :
  triple P m Q -> (forall w, P' w -> P w) -> (forall r w, Q r w -> Q' r w) -> triple P' m Q'.
Proof. intros Hm H1 H2 w Hw. apply H2, Hm, H1, Hw. Qed.

Lemma triple_pull {A} (F : Prop) P (m : IO X A) Q :
  (F -> triple P m Q) -> triple (fun w => F /\ P w) m Q.
Proof. intros H w [HF HP]. by apply H. Qed.

(** A condition on the process state survives calls that leave it alone. *)
Lemma triple_extSame {A} (P : X -> Prop) (m : IO X A) :
  extSame m -> triple (fun w => P (ext w)) m (fun _ w => P (ext w)).
Proof. intros Hm w Hw. by rewrite Hm. Qed.

(** A condition on the disk. *)
Lemma triple_hoare {A} (P : disk -> Prop) (m : IO X A) Q :
  hoare P m Q -> triple (fun w => P (wdisk w)) m (fun r w => Q r (wdisk w)).
Proof. intros Hm w Hw. by apply Hm. Qed.

End worldTriples.
