(* ===== verification/Chunker.v ===== *)
(** * Splitting streams into chunks (pkg/chunk/chunker.go)

    [ComputeReaderHash], [VerifyHash] and the [Chunker].  A callback that
    captures variables is a function with an accumulator that holds them. *)

From S2P Require Import Prelude Digest GoPath Json Manifest GoFs.
Local Open Scope go_scope.

Record Chunk := mkChunk { cHash : string; cData : bytes; cOffset : Z; cSize : Z }.

Record Chunker := { chunkSize : Z }.

Definition NewChunker (size : Z) : Chunker :=
  {| chunkSize := if (size <=? 0)%Z then DefaultChunkSize else size |}.

Section chunker.
Context {D : Digest}.

Definition ComputeReaderHash (r : reader) : res (string * Z) :=
  match readerBytes r with
  | Err e => Err (EWrap "failed to hash reader" e)
  | Ok b => Ok ("sha256:" +:+ hexEncode (sum256 b), blen b)
  end.

Definition VerifyHash (r : reader) (expectedHash : string) : res unit :=
  let? (actual, n) := ComputeReaderHash r in
  if bool_decide (actual = expectedHash) then Ok tt
  else Err (EText "hash mismatch").

(** What [io.ReadFull] returns beside the bytes. *)
Inductive readEnd := ReadNil | ReadEOF | ReadUnexpectedEOF | ReadErr (e : error).

(** [io.ReadFull(r, buf)] with [len(buf) = n]: the bytes, the end and the rest
    of the reader. *)
Definition ReadFull (n : nat) (r : reader) : bytes * readEnd * reader :=
  if bool_decide (n <= length r.1) then (take n r.1, ReadNil, (drop n r.1, r.2))
  else (r.1,
        match r.2 with
        | Some e => ReadErr e
        | None => if bool_decide (r.1 = []) then ReadEOF else ReadUnexpectedEOF
        end,
        ([], r.2)).

Section stream.
Context {X A : Type} (onChunk : A -> Chunk -> IO X (A * option error)).

(** The loop of [ChunkStream]; every round but the last consumes a byte of the
    reader, so the length of the data and one more is enough fuel. *)
Fixpoint chunkLoop (fuel : nat) (size : nat) (offset : Z) (r : reader) (acc : A)
    : IO X (A * option error) :=
  match fuel with
  | O => ioRet (acc, None)
  | S fuel' =>
      let '(b, err, r') := ReadFull size r in
      do (acc', cbErr) <-
        (if bool_decide (b = []) then ioRet (acc, None)
         else onChunk acc (mkChunk (ComputeHash b) b offset (blen b)));
      match cbErr with
      | Some e => ioRet (acc', Some e)
      | None =>
          let offset' := add64 offset (blen b) in
          match err with
          | ReadEOF | ReadUnexpectedEOF => ioRet (acc', None)
          | ReadErr e => ioRet (acc', Some (EWrap "error reading chunk" e))
          | ReadNil => chunkLoop fuel' size offset' r' acc'
          end
      end
  end.

Definition ChunkStream (c : Chunker) (r : reader) (acc : A) : IO X (A * option error) :=
  chunkLoop (S (length r.1)) (Z.to_nat (chunkSize c)) 0 r acc.

End stream.

Definition ChunkReader {X} (c : Chunker) (r : reader) : IO X (list Chunk * option error) :=
  ChunkStream (fun chunks ch => ioRet (chunks ++ [ch], None)) c r [].

Definition refOf (ch : Chunk) : ChunkRef := mkChunkRef (cHash ch) (cOffset ch) (cSize ch).

Definition ChunkFile {X} (c : Chunker) (filePath : string) : IO X (list Chunk * list ChunkRef) :=
  do f <- wrapErr "failed to open file" (Open filePath);
  do r <- readRest f;
  do ((chunks, refs), err) <-
    ChunkStream (fun '(chunks, refs) ch => ioRet ((chunks ++ [ch], refs ++ [refOf ch]), None))
      c r ([], []);
  do_ ignore (Close f);
  match err with
  | Some e => ioErr e
  | None => ioRet (chunks, refs)
  end.

End chunker.

(** * Properties *)

(** ** The reference: cut the data every [n] bytes *)

Fixpoint cutFuel (fuel n : nat) (d : bytes) : list bytes :=
  match fuel, d with
  | S fuel', _ :: _ => take n d :: cutFuel fuel' n (drop n d)
  | _, _ => []
  end.

Definition cut (n : nat) (d : bytes) : list bytes := cutFuel (length d) n d.

Lemma cutFuel_enough fuel fuel' n d :
  0 < n -> length d <= fuel -> length d <= fuel' -> cutFuel fuel n d = cutFuel fuel' n d.
Proof.
  intros Hn. revert fuel' d. induction fuel as [|fuel IH]; intros fuel' d H H'.
  { destruct d; [by destruct fuel'|simpl in *; lia]. }
  destruct d as [|b d]; [by destruct fuel'|]. destruct fuel' as [|fuel']; [simpl in *; lia|].
  cbn [cutFuel]. f_equal. apply IH; rewrite length_drop; simpl in *; lia.
Qed.

Lemma cut_nil n : cut n [] = [].
Proof. done. Qed.

Lemma cut_cons n d : 0 < n -> d <> [] -> cut n d = take n d :: cut n (drop n d).
Proof.
  intros Hn Hd. unfold cut at 1. destruct d as [|b d]; [done|]. cbn [length cutFuel].
  f_equal. apply cutFuel_enough; [done| |done]. rewrite length_drop. simpl. lia.
Qed.

(** Induction over the pieces. *)
Lemma cut_ind n (Hn : 0 < n) (P : bytes -> Prop) :
  P [] -> (forall d, d <> [] -> P (drop n d) -> P d) -> forall d, P d.
Proof.
  intros H0 H1 d. remember (length d) as m eqn:Em. revert d Em.
  induction m as [m IH] using lt_wf_ind. intros d Em.
  destruct d as [|b d]; [done|]. apply H1; [done|].
  eapply IH; [|reflexivity]. rewrite length_drop. subst. simpl. lia.
Qed.

Lemma cut_concat n d : 0 < n -> concat (cut n d) = d.
Proof.
  intros Hn. induction d as [|d Hd IH] using (cut_ind n Hn); [done|].
  rewrite cut_cons by done. simpl. rewrite IH. apply take_drop.
Qed.

Lemma cut_sizes n d : 0 < n -> Forall (fun b => b <> [] /\ length b <= n) (cut n d).
Proof.
  intros Hn. induction d as [|d Hd IH] using (cut_ind n Hn); [constructor|].
  rewrite cut_cons by done. constructor; [|done]. rewrite length_take. split; [|lia].
  destruct d; [done|]. by destruct n; [lia|].
Qed.

(** Piece [i] is the range of the file that starts at [i * n]. *)
Lemma cut_lookup n d i :
  0 < n -> i * n < length d -> cut n d !! i = Some (take n (drop (i * n) d)).
Proof.
  intros Hn. revert i. induction d as [|d Hd IH] using (cut_ind n Hn); intros i Hi; [simpl in *; lia|].
  rewrite cut_cons by done. destruct i as [|i]; [done|]. simpl.
  rewrite IH; [|rewrite length_drop; simpl in *; lia]. by rewrite drop_drop.
Qed.

Section properties.
Context {D : Digest}.

(** The chunk records of consecutive pieces. *)
Fixpoint chunksFrom (offset : Z) (bs : list bytes) : list Chunk :=
  match bs with
  | [] => []
  | b :: bs' => mkChunk (ComputeHash b) b offset (blen b) :: chunksFrom (offset + blen b) bs'
  end.

Definition cutStream (c : Chunker) (d : bytes) : list Chunk :=
  chunksFrom 0 (cut (Z.to_nat (chunkSize c)) d).

(** Run a callback over a list of chunks, stopping at its first error. *)
Fixpoint foldChunks {X A} (onChunk : A -> Chunk -> IO X (A * option error)) (acc : A)
    (l : list Chunk) : IO X (A * option error) :=
  match l with
  | [] => ioRet (acc, None)
  | ch :: l' =>
      do (acc', e) <- onChunk acc ch;
      match e with
      | Some e => ioRet (acc', Some e)
      | None => foldChunks onChunk acc' l'
      end
  end.

Lemma ReadFull_short n d :
  length d < n ->
  ReadFull n (d, None) = (d, if bool_decide (d = []) then ReadEOF else ReadUnexpectedEOF, ([], None)).
Proof. intros H. unfold ReadFull. simpl. by rewrite bool_decide_eq_false_2 by lia. Qed.

Lemma ReadFull_full n d : n <= length d -> ReadFull n (d, None) = (take n d, ReadNil, (drop n d, None)).
Proof. intros H. unfold ReadFull. simpl. by rewrite bool_decide_eq_true_2. Qed.

Lemma chunkLoop_fold {X A} (onChunk : A -> Chunk -> IO X (A * option error)) fuel n off d acc w :
  0 < n -> length d < fuel -> (0 <= off)%Z -> (off + blen d < 2 ^ 63)%Z ->
  chunkLoop onChunk fuel n off (d, None) acc w
  = foldChunks onChunk acc (chunksFrom off (cut n d)) w.
Proof.
  intros Hn. revert fuel off acc w.
  induction d as [|d Hd IH] using (cut_ind n Hn); intros fuel off acc w Hf H0 Ho.
  - destruct fuel as [|fuel]; [simpl in *; lia|]. simpl.
    rewrite ReadFull_short by (simpl; lia). done.
  - destruct fuel as [|fuel]; [lia|].
    rewrite cut_cons by done. cbn [chunkLoop chunksFrom foldChunks].
    assert (take n d <> []) as Htk.
    { destruct d; [done|]. by destruct n; [lia|]. }
    destruct (decide (n <= length d)) as [Hle|Hle].
    + rewrite ReadFull_full by done.
      rewrite bool_decide_eq_false_2 by done.
      unfold ioBind. destruct (onChunk acc _ w) as [[[acc' [e|]]|e] w']; try done.
      assert (blen (take n d) = Z.of_nat n) as Hb by (unfold blen; rewrite length_take; lia).
      assert (blen (drop n d) = (blen d - Z.of_nat n)%Z) as Hb'
        by (unfold blen; rewrite length_drop; lia).
      unfold add64. rewrite wrap64_id by (unfold int64_range; unfold blen in *; lia).
      rewrite IH; [done|rewrite length_drop; lia|lia|lia].
    + rewrite ReadFull_short by lia. rewrite !bool_decide_eq_false_2 by done.
      rewrite take_ge by lia. rewrite drop_ge by lia. rewrite cut_nil. done.
Qed.

Lemma ChunkStream_fold {X A} (onChunk : A -> Chunk -> IO X (A * option error)) c d acc w :
  (0 < chunkSize c)%Z -> (blen d < 2 ^ 63)%Z ->
  ChunkStream onChunk c (d, None) acc w = foldChunks onChunk acc (cutStream c d) w.
Proof. intros Hc Hd. unfold ChunkStream. apply chunkLoop_fold; simpl; lia. Qed.

Lemma chunksFrom_lookup off bs i :
  chunksFrom off bs !! i
  = (fun b => mkChunk (ComputeHash b) b (off + sumZ (map blen (take i bs))) (blen b)) <$> bs !! i.
Proof.
  revert off i. induction bs as [|b bs IH]; intros off [|i]; simpl; [done|done| |].
  - by rewrite Z.add_0_r.
  - rewrite IH. destruct (bs !! i); simpl; [|done]. do 2 f_equal. lia.
Qed.

Lemma chunksFrom_data off bs : map cData (chunksFrom off bs) = bs.
Proof. revert off. induction bs as [|b bs IH]; intros off; simpl; [done|]. by rewrite IH. Qed.

Lemma chunksFrom_sizes off bs : map cSize (chunksFrom off bs) = map blen bs.
Proof. revert off. induction bs as [|b bs IH]; intros off; simpl; [done|]. by rewrite IH. Qed.

Lemma blen_concat bs : blen (concat bs) = sumZ (map blen bs).
Proof. induction bs as [|b bs IH]; simpl; [done|]. by rewrite blen_app, IH. Qed.

(** Every piece but the last is full. *)
Lemma cut_piece n d i b :
  0 < n -> cut n d !! i = Some b ->
  i * n < length d /\ b = take n (drop (i * n) d)
  /\ sumZ (map blen (take i (cut n d))) = Z.of_nat (i * n).
Proof.
  intros Hn. revert i. induction d as [|d Hd IH] using (cut_ind n Hn); intros i Hi.
  { by rewrite cut_nil, lookup_nil in Hi. }
  rewrite cut_cons in Hi by done. rewrite cut_cons by done.
  destruct i as [|i]; simpl in Hi |- *.
  - injection Hi as <-. destruct d; [done|]. simpl. split; [lia|]. split; [done|]. lia.
  - apply IH in Hi as (H1 & -> & H3). rewrite length_drop in H1. rewrite drop_drop.
    split; [lia|]. split; [done|].
    simpl in H3 |- *. rewrite H3. unfold blen. rewrite length_take. lia.
Qed.

Lemma cutStream_piece c d i ch :
  (0 < chunkSize c)%Z -> cutStream c d !! i = Some ch ->
  cHash ch = ComputeHash (cData ch) /\ cSize ch = blen (cData ch)
  /\ cOffset ch = (Z.of_nat i * chunkSize c)%Z
  /\ cData ch = take (Z.to_nat (chunkSize c)) (drop (i * Z.to_nat (chunkSize c)) d).
Proof.
  intros Hc. unfold cutStream. rewrite chunksFrom_lookup.
  destruct (cut _ d !! i) as [b|] eqn:E; simpl; [|done]. intros [= <-]. simpl.
  apply cut_piece in E as (_ & -> & ->); [|lia].
  split; [done|]. split; [done|]. split; [|done]. lia.
Qed.

(** The references of the pieces are what [Validate] asks of a file. *)
Lemma cutStream_refs c d :
  (0 < chunkSize c)%Z -> (blen d < 2 ^ 63)%Z ->
  Forall chunkNamed (map refOf (cutStream c d))
  /\ alignedFrom 0 (map refOf (cutStream c d))
  /\ sumZ (map Size (map refOf (cutStream c d))) = blen d.
Proof.
  intros Hc Hd.
  assert (map Size (map refOf (cutStream c d)) = map blen (cut (Z.to_nat (chunkSize c)) d)) as Hs
    by (rewrite map_map; apply chunksFrom_sizes).
  split; [|split].
  - apply Forall_lookup_2. intros i r Hr. apply list_lookup_fmap_Some in Hr as (ch & -> & Hi).
    destruct (cutStream_piece c d i ch Hc Hi) as (Hh & Hz & _).
    unfold chunkNamed. simpl. rewrite Hh, Hz.
    split; [apply hasPrefix_app|]. split; [apply ComputeHash_length|]. unfold blen. lia.
  - intros i r Hr. apply list_lookup_fmap_Some in Hr as (ch & -> & Hi). rewrite Hs. simpl.
    unfold cutStream in Hi. rewrite chunksFrom_lookup in Hi.
    destruct (cut _ d !! i) as [b|] eqn:E; simpl in Hi; [|done]. injection Hi as <-. simpl.
    apply cut_piece in E as (Hlt & _ & Hsum); [|lia]. rewrite firstn_map, Hsum. simpl.
    rewrite wrap64_id; [done|]. unfold int64_range, blen in *. lia.
  - rewrite Hs, <- blen_concat, cut_concat by lia. done.
Qed.

(** [ChunkStream] on a stream that ends without error hands the callback
    exactly the consecutive pieces of [chunkSize] bytes (the last may be
    shorter), each with its hash, offset and size, in order and until the
    callback fails. *)
Theorem ChunkStream_pieces {X A} (onChunk : A -> Chunk -> IO X (A * option error)) c d acc w
    (Hc : (0 < chunkSize c)%Z) (Hd : (blen d < 2 ^ 63)%Z) :
  ChunkStream onChunk c (d, None) acc w = foldChunks onChunk acc (cutStream c d) w
  /\ concat (map cData (cutStream c d)) = d
  /\ forall i ch, cutStream c d !! i = Some ch ->
       cHash ch = ComputeHash (cData ch) /\ cSize ch = blen (cData ch)
       /\ cOffset ch = (Z.of_nat i * chunkSize c)%Z
       /\ cData ch = take (Z.to_nat (chunkSize c)) (drop (i * Z.to_nat (chunkSize c)) d).
Proof.
  split; [by apply ChunkStream_fold|]. split.
  - unfold cutStream. rewrite chunksFrom_data. apply cut_concat. lia.
  - intros i ch. by apply cutStream_piece.
Qed.

Lemma foldChunks_collect {X} (l acc : list Chunk) (w : world X) :
  foldChunks (fun chunks ch => ioRet (chunks ++ [ch], None)) acc l w = (Ok (acc ++ l, None), w).
Proof.
  revert acc. induction l as [|ch l IH]; intros acc; simpl; [by rewrite app_nil_r|].
  unfold ioBind, ioRet at 1. rewrite IH. by rewrite <- app_assoc.
Qed.

End properties.

(** A chunker of three-byte pieces on five bytes, with the digest of the program. *)
Lemma ChunkStream_pieces_witness :
  let c := NewChunker 3 in
  let d := toBytes "hello" in
  map cData (cutStream c d) = [toBytes "hel"; toBytes "lo"]
  /\ concat (map cData (cutStream c d)) = d.
Proof.
  split; [reflexivity|].
  apply (ChunkStream_pieces (X:=unit) (A:=unit) (fun a _ => ioRet (a, None)) (NewChunker 3)
    (toBytes "hello") tt (World (Disk ∅ ∅ ext4) [] [] 0 tt)).
  - reflexivity.
  - reflexivity.
Defined.
