(* ===== verification/ChunkStore.v ===== *)
(** * The content-addressed chunk store (pkg/cache/cache.go)

    Every operation of [ChunkStore] on the disk.  [onCommit] is the hook of
    [SetOnCommit], a function in the same effects.  The operations of one hash
    are serialised by [LockHash] in the program; here an operation runs alone. *)

From S2P Require Import Prelude Digest GoPath Json Manifest GoFs Chunker.
Local Open Scope go_scope.

Record ChunkStore (X : Type) := {
  rootDir : string;
  chunksDir : string;
  tmpDir : string;
  partialDir : string;
  mfstDir : string;
  onCommit : option (string -> Z -> IO X unit)
}.
Arguments rootDir {X}.
Arguments chunksDir {X}.
Arguments tmpDir {X}.
Arguments partialDir {X}.
Arguments mfstDir {X}.
Arguments onCommit {X}.

Definition parseHash (hash : string) : res string :=
  if negb (hasPrefix "sha256:" hash) then Err (ESentinel ErrInvalidHashName)
  else
    let hexPart := trimPrefix hash "sha256:" in
    if negb (bool_decide (String.length hexPart = 64)) then Err (ESentinel ErrInvalidHashName)
    else Ok hexPart.

Section store.
Context {D : Digest} {SS : SortSlice} {MC : ManifestCodec} {X : Type}.
Implicit Types c : ChunkStore X.

(** The paths of a store at a root. *)
Definition storeAt (root : string) : ChunkStore X :=
  {| rootDir := root;
     chunksDir := Join [root; "chunks"; "sha256"];
     tmpDir := Join [root; "tmp"];
     partialDir := Join [root; "tmp"; "partial"];
     mfstDir := Join [root; "manifests"];
     onCommit := None |}.

Fixpoint mkdirs (dirs : list string) : IO X unit :=
  match dirs with
  | [] => ioRet tt
  | dir :: ds => do_ wrapErr "failed to create cache directory" (MkdirAll dir); mkdirs ds
  end.

Definition NewChunkStore (root : string) : IO X (ChunkStore X) :=
  let c := storeAt (if bool_decide (root = "") then "/var/lib/spider" else root) in
  do_ mkdirs [chunksDir c; tmpDir c; partialDir c; mfstDir c];
  ioRet c.

Definition SetOnCommit c (fn : string -> Z -> IO X unit) : ChunkStore X :=
  {| rootDir := rootDir c; chunksDir := chunksDir c; tmpDir := tmpDir c;
     partialDir := partialDir c; mfstDir := mfstDir c; onCommit := Some fn |}.

Definition chunkPath c (hash : string) : res string :=
  let? hexPart := parseHash hash in
  let shard := strTake 2 hexPart in
  Ok (Join [chunksDir c; shard; hexPart]).

Definition partialPath c (hash : string) : res string :=
  let? hexPart := parseHash hash in
  Ok (Join [partialDir c; hexPart]).

(** A function that returns a value without an error. *)
Definition HasChunk c (hash : string) : IO X bool :=
  match chunkPath c hash with
  | Err _ => ioRet false
  | Ok p =>
      do info <- attempt (Stat p);
      ioRet match info with Ok fi => negb (fiDir fi) | Err _ => false end
  end.

Definition CommittedChunkSize c (hash : string) : IO X (option Z) :=
  match chunkPath c hash with
  | Err _ => ioRet None
  | Ok p =>
      do info <- attempt (Stat p);
      ioRet match info with
            | Ok fi => if fiDir fi then None else Some (fiSize fi)
            | Err _ => None
            end
  end.

Definition HasValidCommittedChunk c (hash : string) (expectedSize : Z) : IO X bool :=
  do has <- HasChunk c hash;
  if negb has then ioRet false
  else if (expectedSize <=? 0)%Z then ioRet true
  else do sz <- CommittedChunkSize c hash;
       ioRet match sz with Some z => (z =? expectedSize)%Z | None => false end.

(** [os.IsNotExist(err)] turned into [ErrChunkNotFound]. *)
Definition notFound {A} (m : IO X A) : IO X A :=
  do r <- attempt m;
  match r with
  | Ok a => ioRet a
  | Err e => if isNotExist e then ioErr (ESentinel ErrChunkNotFound) else ioErr e
  end.

Definition GetChunkPath c (hash : string) : IO X string :=
  do p <- liftRes (chunkPath c hash);
  do_ notFound (Stat p);
  ioRet p.

Definition GetChunkReader c (hash : string) : IO X (handle * Z) :=
  do p <- liftRes (chunkPath c hash);
  do f <- notFound (Open p);
  do info <- attempt (FStat f);
  match info with
  | Err e => do_ ignore (Close f); ioErr e
  | Ok fi => ioRet (f, fiSize fi)
  end.

Definition PartialSize c (hash : string) : IO X Z :=
  match partialPath c hash with
  | Err _ => ioRet 0%Z
  | Ok p =>
      do info <- attempt (Stat p);
      ioRet match info with
            | Ok fi => if fiDir fi then 0%Z else fiSize fi
            | Err _ => 0%Z
            end
  end.

Definition DiscardPartial c (hash : string) : IO X unit :=
  do p <- liftRes (partialPath c hash);
  do r <- attempt (Remove p);
  match r with
  | Ok _ => ioRet tt
  | Err e => if isNotExist e then ioRet tt else ioErr e
  end.

Definition AppendPartial c (hash : string) (r : reader) : IO X unit :=
  do_ liftRes (parseHash hash);
  do p <- liftRes (partialPath c hash);
  do_ MkdirAll (Dir p);
  do f <- wrapErr "open partial" (OpenAppend p 420);
  do n <- attempt (copyTo f r);
  match n with
  | Err e => do_ ignore (Close f); ioErr (EWrap "write partial" e)
  | Ok f' =>
      do s <- attempt (Sync f');
      match s with
      | Err e => do_ ignore (Close f'); ioErr (EWrap "sync partial" e)
      | Ok _ => Close f'
      end
  end.

Definition CommitPartial c (hash : string) : IO X unit :=
  do_ liftRes (parseHash hash);
  do p <- liftRes (partialPath c hash);
  do onDisk <- wrapErr "open partial for verify" (Open p);
  do r <- readRest onDisk;
  do_ ignore (Close onDisk);
  do (actual, _) <- wrapErr "hash partial" (liftRes (ComputeReaderHash r));
  if negb (bool_decide (actual = hash)) then
    do_ ignore (Remove p);
    ioErr (EWrap "hash mismatch" (ESentinel ErrHashMismatch))
  else
    do destPath <- liftRes (chunkPath c hash);
    do_ wrapErr "failed to create shard directory" (MkdirAll (Dir destPath));
    do_ wrapErr "failed to move chunk to cache" (Rename p destPath);
    match onCommit c with
    | None => ioRet tt
    | Some fn =>
        do st <- attempt (Stat destPath);
        ignore (fn hash match st with Ok fi => fiSize fi | Err _ => 0%Z end)
    end.

Definition PutChunkFromReader c (hash : string) (r : reader) : IO X unit :=
  do_ DiscardPartial c hash;
  do a <- attempt (AppendPartial c hash r);
  match a with
  | Err e => do_ ignore (DiscardPartial c hash); ioErr e
  | Ok _ => CommitPartial c hash
  end.

Definition PutChunk c (hash : string) (data : bytes) : IO X unit :=
  PutChunkFromReader c hash (data, None).

Definition HashPartial c (hash : string) : IO X string :=
  do p <- liftRes (partialPath c hash);
  do f <- Open p;
  do r <- readRest f;
  do_ ignore (Close f);
  do b <- liftRes (readerBytes r);
  ioRet ("sha256:" +:+ hexEncode (sum256 b)).

Definition SaveManifest c (m : ArtifactManifest) : IO X unit :=
  do_ wrapErr "cannot save invalid manifest" (liftRes (Validate m));
  do hexPart <- liftRes (parseHash (ArtifactID m));
  do data <- wrapErr "failed to marshal manifest" (liftRes (MarshalIndent m));
  let dest := Join [mfstDir c; hexPart +:+ ".json"] in
  do (tmpName, tmpFile) <- CreateTemp (tmpDir c) "manifest-";
  do r <- attempt
    (do w <- attempt (Write tmpFile data);
     match w with
     | Err e => do_ ignore (Close tmpFile); ioErr e
     | Ok f => do_ Close f; Rename tmpName dest
     end);
  do_ ignore (Remove tmpName);
  liftRes r.

Definition GetManifest c (artifactID : string) : IO X ArtifactManifest :=
  do hexPart <- liftRes (parseHash artifactID);
  do data <- ReadFile (Join [mfstDir c; hexPart +:+ ".json"]);
  liftRes (ParseManifest data).

(** The callback of [ListChunks]. *)
Definition listChunk (hashes : list string) (path : string) (info : FileInfo) : res (list string) :=
  Ok (if fiDir info then hashes
      else if bool_decide (String.length (Base path) = 64) then hashes ++ ["sha256:" +:+ Base path]
      else hashes).

Definition ListChunks c : IO X (list string * option error) := Walk listChunk [] (chunksDir c).

Definition addSize (total : Z) (path : string) (info : FileInfo) : res Z :=
  Ok (if fiDir info then total else add64 total (fiSize info)).

Definition TotalCachedBytes c : IO X (Z * option error) := Walk addSize 0%Z (chunksDir c).

Definition DeleteChunk c (hash : string) : IO X unit :=
  do p <- liftRes (chunkPath c hash);
  Remove p.

End store.

(** * Properties *)

(** ** Hash names *)

(** The names [ComputeHash] makes: the scheme and 64 hexadecimal digits. *)
Definition hexName (x : string) : Prop := String.length x = 64 /\ isHex x = true.

Definition goodHash (h : string) : Prop := exists x, h = "sha256:" +:+ x /\ hexName x.

Lemma parseHash_ok h x :
  parseHash h = Ok x <-> h = "sha256:" +:+ x /\ String.length x = 64.
Proof.
  unfold parseHash. split.
  - destruct (hasPrefix "sha256:" h) eqn:E; simpl; [|done].
    apply hasPrefix_iff in E as [t ->]. rewrite trimPrefix_app.
    case_bool_decide; simpl; [|done]. by intros [= <-].
  - intros [-> Hl]. rewrite hasPrefix_app. simpl. rewrite trimPrefix_app.
    by rewrite bool_decide_eq_true_2.
Qed.

Lemma ComputeHash_good {D : Digest} d : goodHash (ComputeHash d).
Proof.
  exists (hexEncode (sum256 d)). split; [done|]. split; [|apply hexEncode_hex].
  by rewrite hexEncode_length, sum256_length.
Qed.

Lemma hexChar_noDot c : isHexChar c = true -> c <> slash /\ c <> Ascii.ascii_of_N 46.
Proof. intros H. split; intros ->; vm_compute in H; discriminate. Qed.

Lemma isHex_noSlash x : isHex x = true -> noSlash x = true.
Proof.
  unfold isHex. induction x as [|c x IH]; simpl; [done|]. intros H. boolify.
  apply hexChar_noDot in H as [H _]. rewrite bool_decide_eq_false_2 by done. by rewrite IH.
Qed.

Lemma isHex_name x : isHex x = true -> x <> "" -> isName x = true.
Proof.
  intros H Hne. apply isName_iff. split; [by apply isHex_noSlash|]. split; [done|].
  split; intros ->; vm_compute in H; discriminate.
Qed.

Lemma isHex_take n x : isHex x = true -> isHex (strTake n x) = true.
Proof.
  unfold isHex. revert x. induction n as [|n IH]; intros [|c x]; simpl; try done.
  intros H. boolify. rewrite IH by done. by rewrite andb_true_r.
Qed.

Lemma hexName_name x : hexName x -> isName x = true.
Proof. intros [Hl Hx]. apply isHex_name; [done|]. by intros ->. Qed.

Lemma hexName_shard x : hexName x -> isName (strTake 2 x) = true.
Proof.
  intros [Hl Hx]. apply isHex_name; [by apply isHex_take|]. by destruct x as [|? [|? ?]].
Qed.

(** ** Layout *)

(** The keys of the files of a store at [root]. *)
Definition chunkRoot (root : string) : list string := key root ++ ["chunks"; "sha256"].
Definition chunkKey (root x : string) : list string := chunkRoot root ++ [strTake 2 x; x].
Definition partialRoot (root : string) : list string := key root ++ ["tmp"; "partial"].
Definition partialKey (root x : string) : list string := partialRoot root ++ [x].

(** A store whose directories are the ones [NewChunkStore] computes. *)
Record storeLayout {X} (root : string) (c : ChunkStore X) : Prop := {
  layout_root : root <> "";
  layout_chunks : chunksDir c = Join [root; "chunks"; "sha256"];
  layout_tmp : tmpDir c = Join [root; "tmp"];
  layout_partial : partialDir c = Join [root; "tmp"; "partial"];
  layout_mfst : mfstDir c = Join [root; "manifests"]
}.

Lemma storeAt_layout {X} root : root <> "" -> storeLayout root (storeAt (X:=X) root).
Proof. by split. Qed.

Lemma SetOnCommit_layout {X} root (c : ChunkStore X) fn :
  storeLayout root c -> storeLayout root (SetOnCommit c fn).
Proof. by intros []. Qed.

Ltac names := repeat (constructor; [first [reflexivity | by apply hexName_name | by apply hexName_shard]|]);
  try constructor.

Section keys.
Context {X : Type} (root : string) (c : ChunkStore X) (HL : storeLayout root c).

Lemma key_chunksDir : key (chunksDir c) = chunkRoot root.
Proof. rewrite (layout_chunks _ _ HL). apply key_Join_names; [apply HL|names]. Qed.

Lemma key_partialDir : key (partialDir c) = partialRoot root.
Proof. rewrite (layout_partial _ _ HL). apply key_Join_names; [apply HL|names]. Qed.

Lemma chunksDir_nonempty : chunksDir c <> "".
Proof. rewrite (layout_chunks _ _ HL). apply Join_nonempty, HL. Qed.

Lemma partialDir_nonempty : partialDir c <> "".
Proof. rewrite (layout_partial _ _ HL). apply Join_nonempty, HL. Qed.

Lemma chunkPath_good x :
  hexName x ->
  exists p, chunkPath c ("sha256:" +:+ x) = Ok p /\ key p = chunkKey root x
            /\ key (Dir p) = chunkRoot root ++ [strTake 2 x].
Proof.
  intros Hx. unfold chunkPath. rewrite (proj2 (parseHash_ok _ x)) by (split; [done|apply Hx]).
  cbn [res_bind]. eexists. split; [reflexivity|]. split.
  - rewrite key_Join_names; [|apply chunksDir_nonempty|names]. by rewrite key_chunksDir.
  - pose proof (key_Dir_Join (chunksDir c) [strTake 2 x] x chunksDir_nonempty) as H.
    rewrite key_chunksDir in H. apply H. names.
Qed.

Lemma partialPath_good x :
  hexName x ->
  exists p, partialPath c ("sha256:" +:+ x) = Ok p /\ key p = partialKey root x
            /\ key (Dir p) = partialRoot root.
Proof.
  intros Hx. unfold partialPath. rewrite (proj2 (parseHash_ok _ x)) by (split; [done|apply Hx]).
  cbn [res_bind]. eexists. split; [reflexivity|]. split.
  - rewrite key_Join_names; [|apply partialDir_nonempty|names]. by rewrite key_partialDir.
  - pose proof (key_Dir_Join (partialDir c) [] x partialDir_nonempty) as H.
    rewrite key_partialDir, app_nil_r in H. apply H. names.
Qed.

End keys.

Lemma partialKey_not_chunk root x k : chunkRoot root `prefix_of` k -> k <> partialKey root x.
Proof.
  intros [t ->] H. unfold chunkRoot, partialKey, partialRoot in H.
  rewrite <- !app_assoc in H. apply app_inv_head in H. discriminate.
Qed.

Lemma partialKey_inj root x y : partialKey root x = partialKey root y -> x = y.
Proof. unfold partialKey. intros H%app_inj_tail. tauto. Qed.

Lemma chunkKey_inj root x y : chunkKey root x = chunkKey root y -> x = y.
Proof. unfold chunkKey. intros H%app_inv_head. congruence. Qed.

Lemma chunkKey_under root x : chunkRoot root `prefix_of` chunkKey root x.
Proof. by exists [strTake 2 x; x]. Qed.

Lemma partialKey_nonroot root x : partialKey root x <> [].
Proof. unfold partialKey. by destruct (partialRoot root). Qed.

Lemma chunkKey_nonroot root x : chunkKey root x <> [].
Proof. unfold chunkKey, chunkRoot. by destruct (key root). Qed.

Lemma parent_snoc k x : parent (k ++ [x]) = k.
Proof. unfold parent. apply removelast_last. Qed.

Lemma parent_partialKey root x : parent (partialKey root x) = partialRoot root.
Proof. apply parent_snoc. Qed.

Lemma parent_chunkKey root x : parent (chunkKey root x) = chunkRoot root ++ [strTake 2 x].
Proof.
  unfold chunkKey. change [strTake 2 x; x] with ([strTake 2 x] ++ [x]).
  rewrite app_assoc. apply parent_snoc.
Qed.

(** ** The invariant of the store *)

Section invariant.
Context {D : Digest} {SS : SortSlice} {MC : ManifestCodec} {X : Type}.
Context (root : string).

(** Every file below the chunk directory is at the place of the hash of its
    contents; a partial file shares its inode with no other name. *)
Record CacheInv (d : disk) : Prop := {
  inv_wf : wfDisk d;
  inv_chunk : forall k i, chunkRoot root `prefix_of` k -> nodeAt d k = Some (FileN i) ->
    exists x, hexName x /\ k = chunkKey root x
              /\ ComputeHash (idata (getInode d i)) = "sha256:" +:+ x;
  inv_partial : forall x k i, nodeAt d (partialKey root x) = Some (FileN i) ->
    nodeAt d k = Some (FileN i) -> k = partialKey root x
}.

Lemma CacheInv_setDir d k :
  CacheInv d -> nodeAt d k = None -> nodeAt d (parent k) = Some DirN -> CacheInv (setName k DirN d).
Proof.
  intros [Hw Hc Hp] Hk Hpar. assert (k <> []) as Hne by by eapply nodeAt_none_nonroot.
  split; [by apply wf_setDir| |].
  - intros k' i. rewrite nodeAt_setName by done. case_bool_decide; [done|apply Hc].
  - intros x k' i. rewrite !nodeAt_setName by done.
    case_bool_decide; [done|]. case_bool_decide; [done|]. apply Hp.
Qed.

Lemma CacheInv_removeK d k : CacheInv d -> CacheInv (removeK k d).2.
Proof.
  intros [Hw Hc Hp]. split; [by apply wf_removeK| |].
  - intros k' i. destruct (removeK_cases k d) as [->|(Hne & -> & _)]; [apply Hc|].
    simpl. rewrite nodeAt_delName by done. case_bool_decide; [done|apply Hc].
  - intros x k' i. destruct (removeK_cases k d) as [->|(Hne & -> & _)]; [apply Hp|].
    simpl. rewrite !nodeAt_delName by done.
    case_bool_decide; [done|]. case_bool_decide; [done|]. apply Hp.
Qed.

(** A new file outside the chunk directory. *)
Lemma CacheInv_newFile d k perm :
  CacheInv d -> nodeAt d k = None -> nodeAt d (parent k) = Some DirN ->
  ~ chunkRoot root `prefix_of` k -> CacheInv (newFile k perm d).
Proof.
  intros [Hw Hc Hp] Hk Hpar Hout. assert (k <> []) as Hne by by eapply nodeAt_none_nonroot.
  split; [by apply wf_newFile| |].
  - intros k' i Hpre. rewrite nodeAt_newFile by done. case_bool_decide; [by subst|].
    intros Hk'. rewrite (getInode_newFile_ne _ _ _ _ _ Hk'). by apply Hc.
  - intros x k' i. rewrite !nodeAt_newFile by done.
    case_bool_decide; case_bool_decide; try congruence.
    + intros [= <-] Hf. by apply freshIno_node in Hf.
    + intros Hf [= <-]. by apply freshIno_node in Hf.
    + apply Hp.
Qed.

(** Writing to a file that shares no inode with a committed chunk. *)
Lemma CacheInv_write d i nd :
  CacheInv d -> (forall k, chunkRoot root `prefix_of` k -> nodeAt d k <> Some (FileN i)) ->
  CacheInv (setInode i nd d).
Proof.
  intros [Hw Hc Hp] Hout. split; [by apply wf_setInode| |].
  - intros k j Hpre. rewrite nodeAt_setInode. intros Hk. rewrite getInode_setInode.
    rewrite bool_decide_eq_false_2; [by apply Hc|]. intros <-. by eapply Hout.
  - intros x k j. rewrite !nodeAt_setInode. apply Hp.
Qed.

(** A partial file and a committed chunk have different inodes. *)
Lemma partial_not_chunk d x i k :
  CacheInv d -> nodeAt d (partialKey root x) = Some (FileN i) ->
  chunkRoot root `prefix_of` k -> nodeAt d k <> Some (FileN i).
Proof.
  intros HI Hx Hpre Hk. apply (partialKey_not_chunk root x k Hpre). by eapply (inv_partial _ HI).
Qed.

(** Moving a file keeps the invariant when the target is outside the store's
    chunks and partials, or is the place of the contents. *)
Lemma CacheInv_renameK d k k' :
  CacheInv d -> (forall x, k' <> partialKey root x) ->
  ((forall x, k <> partialKey root x) /\ ~ chunkRoot root `prefix_of` k'
   \/ exists x i, hexName x /\ k = partialKey root x /\ k' = chunkKey root x
        /\ nodeAt d k = Some (FileN i) /\ ComputeHash (idata (getInode d i)) = "sha256:" +:+ x) ->
  CacheInv (renameK k k' d).2.
Proof.
  intros HI Hk' Hcase. pose proof HI as [Hw Hc Hp].
  split; [by apply wf_renameK| |];
    destruct (renameK_cases k k' d) as [->|(i & Hi & Hne & Hnd & Hni & _ & ->)];
    [exact Hc| |exact Hp|]; simpl.
  all: assert (k <> []) as Hkn by by eapply nodeAt_file_nonroot.
  all: assert (k' <> []) as Hkn' by by intros ->.
  - intros k0 j Hpre. rewrite nodeAt_setName by done. case_bool_decide as E.
    + intros [= <-]. subst k0. destruct Hcase as [[_ Hout]|(x & i' & Hx & -> & -> & Hi' & Hh)]; [done|].
      exists x. assert (i' = i) as -> by congruence. done.
    + rewrite nodeAt_delName by done. case_bool_decide; [done|]. by apply Hc.
  - intros y k0 j. rewrite !nodeAt_setName, !nodeAt_delName by done.
    rewrite (bool_decide_eq_false_2 (k' = partialKey root y)) by done.
    case_bool_decide as E2; [done|]. case_bool_decide as E3.
    + intros Hj [= <-]. exfalso.
      pose proof (Hp y k i Hj Hi) as Hky. by symmetry in Hky.
    + case_bool_decide; [done|]. apply Hp.
Qed.

(** Moving a verified partial into place. *)
Lemma CacheInv_commit d x i :
  CacheInv d -> hexName x -> nodeAt d (partialKey root x) = Some (FileN i) ->
  ComputeHash (idata (getInode d i)) = "sha256:" +:+ x ->
  CacheInv (renameK (partialKey root x) (chunkKey root x) d).2.
Proof.
  intros HI Hx Hi Hh. apply CacheInv_renameK; [done| |right; eauto 10].
  intros y. apply partialKey_not_chunk, chunkKey_under.
Qed.

(** ** Operations keep the invariant, whatever fails *)

Context (c : ChunkStore X) (HL : storeLayout root c).

(** The hook does not touch the disk. *)
Definition diskless (fn : string -> Z -> IO X unit) : Prop :=
  forall h z w, wdisk (fn h z w).2 = wdisk w.

Context (Hhook : forall fn, onCommit c = Some fn -> diskless fn).

(** What the store relies on beside the format check of [parseHash]. *)
Definition wellNamed (h : string) : Prop := forall x, parseHash h = Ok x -> isHex x = true.

Lemma goodHash_wellNamed h : goodHash h -> wellNamed h.
Proof.
  intros (x & -> & Hl & Hx) y [Hy _]%parseHash_ok.
  assert (x = y) as <-; [|done].
  rewrite <- (strDrop_app "sha256:" x), Hy. apply strDrop_app.
Qed.

Lemma wellNamed_cases h :
  wellNamed h ->
  (exists e, parseHash h = Err e)
  \/ exists x, parseHash h = Ok x /\ h = "sha256:" +:+ x /\ hexName x.
Proof.
  intros H. destruct (parseHash h) as [x|e] eqn:E; [right|left; by exists e].
  exists x. pose proof (H x E) as Hx. apply parseHash_ok in E as [-> Hl]. done.
Qed.

Lemma keeps_MkdirAll_inv p : keeps (X:=X) (CacheInv) (MkdirAll p).
Proof. apply keeps_MkdirAll. intros k d. apply CacheInv_setDir. Qed.

Lemma keeps_Remove_inv p : keeps (X:=X) (CacheInv) (Remove p).
Proof. apply keeps_syscall. intros d. apply CacheInv_removeK. Qed.

#[local] Hint Resolve keeps_MkdirAll_inv keeps_Remove_inv : go.

Lemma keeps_DiscardPartial h : keeps (CacheInv) (DiscardPartial c h).
Proof.
  unfold DiscardPartial. apply keeps_bind; [auto with go|]. intros p.
  apply keeps_bind; [auto with go|]. intros [?|e]; [|destruct (isNotExist e)]; auto with go.
Qed.

Lemma keeps_DeleteChunk h : keeps (CacheInv) (DeleteChunk c h).
Proof. unfold DeleteChunk. apply keeps_bind; auto with go. Qed.

(** An open partial file: its inode is the one of the partial's name. *)
Definition partialOpen (x : string) (h : handle) (d : disk) : Prop :=
  CacheInv d /\ exists i off, h = HFile i off /\ nodeAt d (partialKey root x) = Some (FileN i).

Lemma hoare_OpenAppend p x perm :
  key p = partialKey root x ->
  hoare (X:=X) (CacheInv) (OpenAppend p perm)
    (fun r d => match r with Ok h => partialOpen x h d | Err _ => CacheInv d end).
Proof.
  intros Hp. apply hoare_syscall; [|done]. intros d HI. unfold openWriteK. rewrite Hp.
  destruct (nodeAt d (partialKey root x)) as [[|i]|] eqn:E; simpl; [done| |].
  - split; [done|]. eauto.
  - destruct (nodeAt d (parent (partialKey root x))) as [[|j]|] eqn:E'; simpl; try done.
    change (partialOpen x (HFile (freshIno d) 0) (newFile (partialKey root x) perm d)).
    split.
    + apply CacheInv_newFile; [done..|]. intros Hpre. by apply (partialKey_not_chunk root x _ Hpre).
    + exists (freshIno d), 0. split; [done|].
      rewrite nodeAt_newFile by apply partialKey_nonroot. by rewrite bool_decide_eq_true_2.
Qed.

Lemma CacheInv_writeInode d x i off b :
  CacheInv d -> nodeAt d (partialKey root x) = Some (FileN i) ->
  CacheInv (writeInode i off b d).
Proof.
  intros HI Hi. apply CacheInv_write; [done|]. intros k Hpre. by eapply partial_not_chunk.
Qed.

Lemma hoare_copyTo x h r :
  hoare (X:=X) (partialOpen x h) (copyTo h r) (fun _ => CacheInv).
Proof.
  unfold copyTo. apply (hoare_bind _ _ _ (fun _ => CacheInv)).
  - intros w (HI & i & off & -> & Hi). unfold Write.
    destruct (faults w) as [|[|e|n e] fs]; simpl; try done; by eapply CacheInv_writeInode.
  - intros h'. destruct (r.2); [by apply hoare_err|by apply hoare_ret].
  - done.
Qed.

Lemma keeps_AppendPartial h r : wellNamed h -> keeps (CacheInv) (AppendPartial c h r).
Proof.
  intros [(e & He)|(x & Hx & -> & Hn)]%wellNamed_cases; unfold AppendPartial.
  { rewrite He, bind_res_err. auto with go. }
  destruct (partialPath_good root c HL x Hn) as (p & Hp & Hk & _).
  rewrite Hx, Hp, !bind_res_ok.
  apply keeps_bind; [auto with go|intros _].
  eapply hoare_bind; [by eapply hoare_wrapErr_split, hoare_OpenAppend| |done].
  intros f. apply (hoare_bind _ _ _ (fun _ => CacheInv)); [| |done].
  { eapply hoare_attempt; [apply hoare_copyTo|done]. }
  intros [f'|e]; [|by apply keeps_bind; auto with go].
  apply keeps_bind; [auto with go|].
  intros [?|e]; [auto with go|by apply keeps_bind; auto with go].
Qed.

(** What has to be kept when a complete partial moves into place. *)
Record commitSafe (P : disk -> Prop) : Prop := {
  cs_dir : forall d k, P d -> nodeAt d k = None -> nodeAt d (parent k) = Some DirN -> P (setName k DirN d);
  cs_commit : forall d x i, P d -> hexName x -> nodeAt d (partialKey root x) = Some (FileN i) ->
    ComputeHash (idata (getInode d i)) = "sha256:" +:+ x ->
    P (renameK (partialKey root x) (chunkKey root x) d).2
}.

Lemma commitSafe_inv : commitSafe CacheInv.
Proof. split; [apply CacheInv_setDir|apply CacheInv_commit]. Qed.

(** The partial of [x] is complete. *)
Definition verified (P : disk -> Prop) (x : string) (d : disk) : Prop :=
  P d /\ exists i, nodeAt d (partialKey root x) = Some (FileN i)
                 /\ ComputeHash (idata (getInode d i)) = "sha256:" +:+ x.

Lemma verified_setDir P x k d :
  commitSafe P -> verified P x d -> nodeAt d k = None -> nodeAt d (parent k) = Some DirN ->
  verified P x (setName k DirN d).
Proof.
  intros HP (HI & i & Hi & Hh) Hk Hp. split; [by apply (cs_dir _ HP)|].
  exists i. split; [|done]. rewrite nodeAt_setName by by eapply nodeAt_none_nonroot.
  rewrite bool_decide_eq_false_2; [done|]. intros ->. congruence.
Qed.

Lemma hoare_Rename_verified P p q x :
  commitSafe P -> hexName x -> key p = partialKey root x -> key q = chunkKey root x ->
  hoare (X:=X) (verified P x) (Rename p q) (fun _ => P).
Proof.
  intros HP Hx Hp Hq. unfold Rename. rewrite Hp, Hq.
  apply hoare_syscall; [|by intros e d [? _]].
  intros d (HI & i & Hi & Hh). by eapply (cs_commit _ HP).
Qed.

Lemma keeps_hook (P : disk -> Prop) fn h z :
  onCommit c = Some fn -> keeps P (fn h z).
Proof. intros Hf w Hw. by rewrite (Hhook fn Hf). Qed.

(** The tail of [CommitPartial], once the digest is right. *)
Lemma hoare_commit_tail P p x :
  commitSafe P -> hexName x -> key p = partialKey root x ->
  hoare (X:=X) (verified P x)
    (do destPath <- liftRes (chunkPath c ("sha256:" +:+ x));
     do_ wrapErr "failed to create shard directory" (MkdirAll (Dir destPath));
     do_ wrapErr "failed to move chunk to cache" (Rename p destPath);
     match onCommit c with
     | None => ioRet tt
     | Some fn =>
         do st <- attempt (Stat destPath);
         ignore (fn ("sha256:" +:+ x) match st with Ok fi => fiSize fi | Err _ => 0%Z end)
     end) (fun _ => P).
Proof.
  intros HP Hx Hp. destruct (chunkPath_good root c HL x Hx) as (q & Hqp & Hq & _).
  rewrite Hqp, bind_res_ok.
  apply (hoare_bind _ _ _ (fun _ => verified P x)); [| |by intros e d [? _]].
  { apply keeps_wrapErr, keeps_MkdirAll. intros k d. by apply verified_setDir. }
  intros _. apply (hoare_bind _ _ _ (fun _ => P)); [| |done].
  { eapply hoare_wrapErr; [by apply hoare_Rename_verified|done|done]. }
  intros _. pose proof keeps_hook as Hk. destruct (onCommit c) as [fn|]; [|apply keeps_ret].
  apply keeps_bind; [auto with go|]. intros st. by apply keeps_ignore, Hk.
Qed.

Lemma keeps_commit P h :
  commitSafe P -> (forall p, partialPath c h = Ok p -> keeps (X:=X) P (Remove p)) -> keeps P (CommitPartial c h).
Proof.
  intros HP Hrm.
  unfold CommitPartial. destruct (parseHash h) as [x|e] eqn:Ex; [|by rewrite bind_res_err; auto with go].
  rewrite bind_res_ok. destruct (partialPath c h) as [p|e] eqn:Ep; [|rewrite bind_res_err; auto with go].
  rewrite bind_res_ok. apply parseHash_ok in Ex as [-> Hlen].
  assert (hexName x -> key p = partialKey root x) as Hkey.
  { intros Hx. destruct (partialPath_good root c HL x Hx) as (p' & Hp' & Hk & _). congruence. }
  set (opened := fun (h : handle) (d : disk) => P d /\
    (hexName x -> (exists k, h = HDir k) \/ exists i, h = HFile i 0 /\ nodeAt d (partialKey root x) = Some (FileN i))).
  apply (hoare_bind _ _ _ (fun r d => match r with Ok h => opened h d | Err _ => P d end)); [| |done].
  { apply hoare_wrapErr_split, hoare_syscall; [|done]. intros d HI. unfold openK, opened.
    destruct (nodeAt d (key p)) as [[|i]|] eqn:E; simpl; try done.
    - split; [done|]. left. eauto.
    - split; [done|]. intros Hx. rewrite (Hkey Hx) in E. right. eauto. }
  intros f. eapply hoare_bind; [apply hoare_readRest| |by intros e d [[? _] _]]. intros r.
  set (M := fun d => opened f d /\ (r.2 = None -> r = contents d f)).
  apply (hoare_bind _ _ _ (fun _ => M)); [| |by intros e d [[? _] _]].
  { apply keeps_ignore, keeps_Close. }
  intros _.
  destruct (ComputeReaderHash r) as [[actual n]|e] eqn:Ec.
  2: { intros w [[HI _] _]. exact HI. }
  assert (ioBind (wrapErr "hash partial" (liftRes (X:=X) (Ok (actual, n)))) = fun k => k (actual, n)) as ->
    by reflexivity.
  unfold ComputeReaderHash, readerBytes in Ec.
  destruct (r.2) as [er|] eqn:Er; [done|]. injection Ec as <- <-.
  case_bool_decide as Hh; simpl.
  - change ("sha256:" +:+ hexEncode (sum256 r.1)) with (ComputeHash r.1) in Hh.
    assert (hexName x) as Hx.
    { destruct (ComputeHash_good r.1) as (y & Hy & Hx). rewrite Hh in Hy.
      apply (f_equal (strDrop 7)) in Hy. rewrite !(strDrop_app "sha256:") in Hy. congruence. }
    eapply hoare_conseq; [by apply hoare_commit_tail; auto| |done].
    intros d [[HI Ho] Hr]. split; [done|]. specialize (Hr eq_refl).
    destruct (Ho Hx) as [[k ->]|(i & -> & Hi)]; [by rewrite Hr in Er|].
    exists i. split; [done|]. rewrite Hr in Hh. exact Hh.
  - intros w [[HI _] _]. revert w HI. pose proof (Hrm p eq_refl). apply keeps_bind; auto with go.
Qed.

Lemma keeps_CommitPartial h : keeps CacheInv (CommitPartial c h).
Proof. apply keeps_commit; [exact commitSafe_inv|auto with go]. Qed.

Lemma keeps_PutChunkFromReader h r :
  wellNamed h -> keeps CacheInv (PutChunkFromReader c h r).
Proof.
  intros Hh. unfold PutChunkFromReader. apply keeps_bind; [apply keeps_DiscardPartial|intros _].
  apply keeps_bind; [by apply keeps_attempt, keeps_AppendPartial|].
  intros [?|e]; [apply keeps_CommitPartial|].
  apply keeps_bind; [apply keeps_ignore, keeps_DiscardPartial|auto with go].
Qed.

(** *** Queries leave the disk alone *)

Lemma keeps_notFound {A} (P : disk -> Prop) (m : IO X A) : keeps P m -> keeps P (notFound m).
Proof.
  intros Hm. apply keeps_bind; [by apply keeps_attempt|].
  intros [a|e]; [|destruct (isNotExist e)]; auto with go.
Qed.

Lemma keeps_GetChunkReader (P : disk -> Prop) c0 h : keeps (X:=X) P (GetChunkReader c0 h).
Proof.
  apply keeps_bind; [auto with go|]. intros p.
  apply keeps_bind; [apply keeps_notFound; auto with go|]. intros f.
  apply keeps_bind; [auto with go|]. intros [fi|e]; [auto with go|].
  apply keeps_bind; auto with go.
Qed.

Lemma keeps_GetChunkPath (P : disk -> Prop) c0 h : keeps (X:=X) P (GetChunkPath c0 h).
Proof.
  apply keeps_bind; [auto with go|]. intros p.
  apply keeps_bind; [apply keeps_notFound; auto with go|auto with go].
Qed.

(** *** Manifests *)

(** A temporary file: its inode has no other name. *)
Definition owned (k : list string) (h : handle) (d : disk) : Prop :=
  CacheInv d /\ exists i off, h = HFile i off /\ nodeAt d k = Some (FileN i)
                 /\ forall k', nodeAt d k' = Some (FileN i) -> k' = k.

Definition manifestTmp (name : string) : Prop :=
  exists n : N, key name = key root ++ ["tmp"; "manifest-" +:+ pretty n].

Lemma manifestTmp_outside name :
  manifestTmp name ->
  ~ chunkRoot root `prefix_of` key name /\ forall x, key name <> partialKey root x.
Proof.
  intros [n ->]. split.
  - intros [t H]. unfold chunkRoot in H. rewrite <- app_assoc in H.
    apply app_inv_head in H. discriminate.
  - intros x H. unfold partialKey, partialRoot in H. rewrite <- app_assoc in H.
    apply app_inv_head in H. discriminate.
Qed.

Lemma hoare_createTemp draws :
  hoare (X:=X) CacheInv (createTemp draws (tmpDir c) "manifest-")
    (fun r d => match r with
      | Ok (name, h) => manifestTmp name /\ owned (key name) h d
      | Err _ => CacheInv d
      end).
Proof.
  induction draws as [|n ns IH]; cbn [createTemp]; [by apply hoare_err|].
  set (name := Join [tmpDir c; "manifest-" +:+ pretty n]).
  assert (manifestTmp name) as Hname.
  { exists n. unfold name. rewrite key_Join_names.
    - rewrite (layout_tmp _ _ HL), key_Join_names; [by rewrite <- app_assoc|apply HL|names].
    - rewrite (layout_tmp _ _ HL). apply Join_nonempty, HL.
    - constructor; [|constructor]. apply isName_long.
      + by rewrite noSlash_app, noSlash_pretty.
      + rewrite str_length_app. simpl. lia. }
  intros w HI. rewrite (ioBind_ok _ _ w (nodeAt (wdisk w) (key name)) w) by done.
  destruct (nodeAt (wdisk w) (key name)) as [nd|] eqn:E; [by apply (IH w)|].
  assert (hoare (X:=X) (fun d => CacheInv d /\ nodeAt d (key name) = None)
    (syscall "open" (openWriteK false 384 (key name)))
    (fun r d => match r with Ok h => owned (key name) h d | Err _ => CacheInv d end)) as Ho.
  { apply hoare_syscall; [|by intros e d [? _]]. intros d [Hd Hn]. unfold openWriteK. rewrite Hn.
    destruct (nodeAt d (parent (key name))) as [[|j]|] eqn:E'; simpl; try done.
    assert (key name <> []) as Hne by by eapply nodeAt_none_nonroot.
    change (owned (key name) (HFile (freshIno d) 0) (newFile (key name) 384 d)). split.
    - apply CacheInv_newFile; try done. by apply manifestTmp_outside.
    - exists (freshIno d), 0. split; [done|]. rewrite nodeAt_newFile by done.
      rewrite bool_decide_eq_true_2 by done. split; [done|]. intros k'.
      rewrite nodeAt_newFile by done. case_bool_decide; [done|]. intros Hf. by apply freshIno_node in Hf. }
  specialize (Ho w (conj HI E)). unfold ioBind.
  destruct (syscall "open" (openWriteK false 384 (key name)) w) as [[h|e] w']; [|done].
  by split.
Qed.

Lemma hoare_CreateTemp :
  hoare (X:=X) CacheInv (CreateTemp (tmpDir c) "manifest-")
    (fun r d => match r with
      | Ok (name, h) => manifestTmp name /\ owned (key name) h d
      | Err _ => CacheInv d
      end).
Proof. intros w. exact (hoare_createTemp (rands w) w). Qed.

Lemma hoare_Write_owned k h b :
  ~ chunkRoot root `prefix_of` k -> hoare (X:=X) (owned k h) (Write h b) (fun _ => CacheInv).
Proof.
  intros Hout w (HI & i & off & -> & Hi & Hu). unfold Write.
  assert (forall b', CacheInv (writeInode i off b' (wdisk w))) as Hw.
  { intros b'. apply CacheInv_write; [done|]. intros k' Hpre Hk'. apply Hout. by rewrite <- (Hu _ Hk'). }
  destruct (faults w) as [|[|e|n e] fs]; simpl; try done; apply Hw.
Qed.

(** The id of a valid manifest is a digest. *)
Lemma Validate_hexName m x : Validate m = Ok tt -> parseHash (ArtifactID m) = Ok x -> hexName x.
Proof.
  intros Hv [Hid Hl]%parseHash_ok. apply Validate_iff, valid_id, ComputeID_shape in Hv as [d Hd].
  rewrite Hid in Hd. apply (f_equal (strDrop 7)) in Hd. rewrite !(strDrop_app "sha256:") in Hd.
  subst x. split; [done|apply hexEncode_hex].
Qed.

Lemma key_manifest x :
  hexName x -> key (Join [mfstDir c; x +:+ ".json"]) = key root ++ ["manifests"; x +:+ ".json"].
Proof.
  intros [Hl Hx]. rewrite key_Join_names.
  - rewrite (layout_mfst _ _ HL), key_Join_names; [by rewrite <- app_assoc|apply HL|names].
  - rewrite (layout_mfst _ _ HL). apply Join_nonempty, HL.
  - constructor; [|constructor]. apply isName_long.
    + rewrite noSlash_app, isHex_noSlash by done. done.
    + rewrite str_length_app, Hl. simpl. lia.
Qed.

Lemma keeps_SaveManifest m : keeps CacheInv (SaveManifest c m).
Proof.
  unfold SaveManifest. destruct (Validate m) as [[]|e] eqn:Ev; [|by intros w].
  apply keeps_bind; [auto with go|intros _].
  destruct (parseHash (ArtifactID m)) as [x|e] eqn:Ex; [|by intros w].
  rewrite bind_res_ok. pose proof (Validate_hexName m x Ev Ex) as Hx.
  apply keeps_bind; [auto with go|intros data].
  assert (forall y, key (Join [mfstDir c; x +:+ ".json"]) <> partialKey root y) as Hd1.
  { intros y. rewrite key_manifest by done. unfold partialKey, partialRoot. rewrite <- app_assoc.
    intros H%app_inv_head. discriminate. }
  assert (~ chunkRoot root `prefix_of` key (Join [mfstDir c; x +:+ ".json"])) as Hd2.
  { rewrite key_manifest by done. intros [t H]. unfold chunkRoot in H. rewrite <- app_assoc in H.
    apply app_inv_head in H. discriminate. }
  eapply hoare_bind; [apply hoare_CreateTemp| |done].
  intros [name h]. apply hoare_pull. intros Hn.
  pose proof (manifestTmp_outside name Hn) as [Hout1 Hout2].
  apply (hoare_bind _ _ _ (fun _ => CacheInv)); [| |done].
  - eapply hoare_attempt; [|intros r d H; exact H].
    apply (hoare_bind _ _ _ (fun _ => CacheInv)); [| |done].
    { eapply hoare_attempt; [by apply hoare_Write_owned|done]. }
    intros [f|e]; [|apply keeps_bind; auto with go].
    apply keeps_bind; [auto with go|intros _].
    apply keeps_syscall. intros d Hd. apply CacheInv_renameK; auto.
  - intros r. apply keeps_bind; auto with go.
Qed.

End invariant.

#[export] Hint Resolve keeps_notFound keeps_GetChunkReader keeps_GetChunkPath : go.

(** ** Functional behaviour on a reliable disk *)

Section functional.
Context {D : Digest} {SS : SortSlice} {MC : ManifestCodec} {X : Type}.
Context (root : string) (c : ChunkStore X) (HL : storeLayout root c).
Implicit Types w : world X.

(** The directories [NewChunkStore] makes are there, and no directory sits
    where a chunk or a partial goes. *)
Record storeReady (d : disk) : Prop := {
  ready_inv : CacheInv root d;
  ready_chunks : nodeAt d (chunkRoot root) = Some DirN;
  ready_partial : nodeAt d (partialRoot root) = Some DirN;
  ready_nodir : forall x, hexName x ->
    nodeAt d (chunkKey root x) <> Some DirN /\ nodeAt d (partialKey root x) <> Some DirN
}.

(** The bytes of the partial and of the committed chunk of [x]. *)
Definition contentAt (d : disk) (k : list string) : option bytes :=
  match nodeAt d k with Some (FileN i) => Some (idata (getInode d i)) | _ => None end.
Definition partialOf (d : disk) (x : string) : option bytes := contentAt d (partialKey root x).
Definition chunkOf (d : disk) (x : string) : option bytes := contentAt d (chunkKey root x).

Lemma contentAt_frame k k' d d' :
  frame k d d' -> k' <> k -> contentAt d' k' = contentAt d k'.
Proof.
  intros [Hn Hd] Hk. unfold contentAt. rewrite Hn by done.
  destruct (nodeAt d k') as [[|i]|] eqn:E; try done. by rewrite (Hd k').
Qed.

Lemma partial_ne_chunk x y : partialKey root x <> chunkKey root y.
Proof. intros E. by eapply (partialKey_not_chunk root x); [apply chunkKey_under|]. Qed.

Lemma chunkRoot_ne_partial x : chunkRoot root <> partialKey root x.
Proof. intros E. by eapply (partialKey_not_chunk root x); [reflexivity|]. Qed.

Lemma partialRoot_ne x : partialRoot root <> partialKey root x.
Proof.
  unfold partialKey. intros E%(f_equal length). rewrite length_app in E. simpl in E. lia.
Qed.

(** A change to one partial keeps the store ready. *)
Lemma ready_frame x d d' :
  storeReady d -> CacheInv root d' -> frame (partialKey root x) d d' ->
  nodeAt d' (partialKey root x) <> Some DirN -> storeReady d'.
Proof.
  intros [HI Hc Hp Hn] HI' [Hf _] Hx. split; [done| | |].
  - rewrite Hf by apply chunkRoot_ne_partial. done.
  - rewrite Hf by apply partialRoot_ne. done.
  - intros y Hy. split.
    + rewrite Hf by (symmetry; apply partial_ne_chunk). by apply Hn.
    + destruct (decide (partialKey root y = partialKey root x)) as [->|Hne]; [done|].
      rewrite Hf by done. by apply Hn.
Qed.

Lemma DiscardPartial_ok w x :
  reliable w -> storeReady (wdisk w) -> hexName x ->
  exists d, DiscardPartial c ("sha256:" +:+ x) w = (Ok tt, setDisk d w)
    /\ storeReady d /\ nodeAt d (partialKey root x) = None /\ frame (partialKey root x) (wdisk w) d.
Proof.
  intros Hr HR Hx. destruct (partialPath_good root c HL x Hx) as (p & Hp & Hk & _).
  assert (keeps (CacheInv root) (DiscardPartial c ("sha256:" +:+ x))) as Hkeep
    by apply keeps_DiscardPartial.
  specialize (Hkeep w (ready_inv _ HR)). revert Hkeep.
  unfold DiscardPartial. rewrite Hp, bind_res_ok.
  destruct (nodeAt (wdisk w) (partialKey root x)) as [[|i]|] eqn:E.
  - by destruct (proj2 (ready_nodir _ HR x Hx)).
  - rewrite <- Hk in E.
    assert (attempt (Remove p) w = (Ok (Ok tt), setDisk (delName (key p) (wdisk w)) w)) as Hrm
      by by rewrite attempt_eq, (Remove_file p w i).
    rewrite (ioBind_ok _ _ _ _ _ Hrm), Hk. simpl. intros HI.
    exists (delName (partialKey root x) (wdisk w)). split; [done|].
    pose proof (partialKey_nonroot root x) as Hne.
    assert (nodeAt (delName (partialKey root x) (wdisk w)) (partialKey root x) = None) as Hnone
      by (rewrite nodeAt_delName by done; by rewrite bool_decide_eq_true_2).
    pose proof (frame_delName (partialKey root x) (wdisk w) Hne) as Hfr.
    split; [|done]. eapply ready_frame; [done|done|done|]. by rewrite Hnone.
  - assert (attempt (Remove p) w = (Ok (Err (ESys "remove" ENOENT)), w)) as Hrm.
    { rewrite attempt_eq, Remove_missing by (try done; by rewrite Hk).
      rewrite Hk. unfold partialKey. rewrite lookErr_child; [done|apply HR|apply HR|].
      unfold partialKey in E. by rewrite E. }
    rewrite (ioBind_ok _ _ _ _ _ Hrm). simpl. intros _.
    exists (wdisk w). rewrite setDisk_same. split; [done|]. split; [done|]. split; [done|apply frame_refl].
Qed.

Lemma AppendPartial_ok w x b e :
  reliable w -> storeReady (wdisk w) -> hexName x ->
  exists d, AppendPartial c ("sha256:" +:+ x) (b, e) w
      = (match e with None => Ok tt | Some e => Err (EWrap "write partial" e) end, setDisk d w)
    /\ storeReady d /\ frame (partialKey root x) (wdisk w) d
    /\ partialOf d x = Some (default [] (partialOf (wdisk w) x) ++ b).
Proof.
  intros Hr HR Hx. destruct (partialPath_good root c HL x Hx) as (p & Hp & Hk & Hdir).
  assert (keeps (CacheInv root) (AppendPartial c ("sha256:" +:+ x) (b, e))) as Hkeep.
  { eapply keeps_AppendPartial; [done|]. apply goodHash_wellNamed. by exists x. }
  specialize (Hkeep w (ready_inv _ HR)). revert Hkeep. unfold AppendPartial.
  rewrite (proj2 (parseHash_ok _ x)) by (split; [done|apply Hx]).
  rewrite Hp, !bind_res_ok.
  rewrite (ioBind_ok _ _ _ _ _ (MkdirAll_exists w (Dir p) Hr ltac:(by rewrite Hdir; apply HR))).
  destruct (OpenAppend_ok w p 420 Hr) as (d & i & off & Ho & Hi & -> & Hfr & Hdata).
  { rewrite Hk. by apply HR. }
  { rewrite Hk, parent_partialKey. apply HR. }
  rewrite (ioBind_ok _ _ _ _ _ (wrapErr_ok _ _ _ _ _ Ho)).
  set (d' := writeInode i (length (idata (getInode d i))) b d).
  assert (attempt (copyTo (HFile i (length (idata (getInode d i)))) (b, e)) (setDisk d w)
    = (Ok (match e with None => Ok (HFile i (length (idata (getInode d i)) + length b))
                   | Some e => Err e end), setDisk d' w)) as Hcp.
  { rewrite attempt_eq. unfold copyTo.
    rewrite (ioBind_ok _ _ _ _ _ (Write_reliable _ _ _ (setDisk d w) Hr)).
    by destruct e. }
  rewrite (ioBind_ok _ _ _ _ _ Hcp). rewrite Hk in *.
  set (res := match e with None => Ok tt | Some e => Err (EWrap "write partial" e) end : res unit).
  match goal with |- context [(?m (setDisk d' w)).2] =>
    assert (m (setDisk d' w) = (res, setDisk d' w)) as -> end.
  { unfold res. destruct e as [e|].
    - unfold ioBind. by rewrite ignore_eq, Close_reliable.
    - unfold ioBind. rewrite attempt_eq, Sync_reliable by done. simpl. by apply Close_reliable. }
  intros HI. simpl in HI. exists d'. split; [done|].
  assert (forall k', nodeAt d k' = Some (FileN i) -> k' = partialKey root x) as Huniq.
  { intros k' Hk'. pose proof (inv_partial _ _ HI x k' i) as Hpi. unfold d', writeInode in Hpi.
    rewrite !nodeAt_setInode in Hpi. auto. }
  assert (frame (partialKey root x) (wdisk w) d') as Hfr'.
  { eapply frame_trans; [exact Hfr|]. by apply frame_setInode. }
  split; [|split; [done|]].
  - eapply ready_frame; [done|done|done|]. unfold d', writeInode. by rewrite nodeAt_setInode, Hi.
  - unfold partialOf, contentAt, d', writeInode. rewrite nodeAt_setInode, Hi.
    rewrite getInode_setInode, bool_decide_eq_true_2 by done. simpl. rewrite pwrite_end, Hdata.
    by destruct (nodeAt (wdisk w) (partialKey root x)) as [[|j]|].
Qed.

Lemma shard_ne_chunkKey x y j : take j (chunkRoot root ++ [strTake 2 x]) <> chunkKey root y.
Proof.
  unfold chunkKey. intros E%(f_equal length). rewrite length_take, !length_app in E. simpl in E. lia.
Qed.

Lemma shard_ne_partialKey x y j : take j (chunkRoot root ++ [strTake 2 x]) <> partialKey root y.
Proof.
  unfold chunkRoot, partialKey, partialRoot. intros E.
  assert (length (take j ((key root ++ ["chunks"; "sha256"]) ++ [strTake 2 x])) = length (key root) + 3) as Hl
    by (rewrite E, !length_app; simpl; lia).
  rewrite take_ge in E by (rewrite length_take, !length_app in Hl; rewrite !length_app; simpl in *; lia).
  rewrite <- !app_assoc in E. apply app_inv_head in E. discriminate.
Qed.

(** The shard directory of a chunk can be made. *)
Lemma shard_nofile d x j :
  storeReady d -> isFile (nodeAt d (take j (chunkRoot root ++ [strTake 2 x]))) = false.
Proof.
  intros [HI Hc _ _]. destruct (decide (j <= length (chunkRoot root))) as [Hj|Hj].
  - rewrite take_app_le by lia. apply wf_dir_nofile; [apply HI|done].
  - rewrite take_ge by (rewrite length_app; simpl; lia).
    destruct (nodeAt d (chunkRoot root ++ [strTake 2 x])) as [[|i]|] eqn:E; try done.
    destruct (inv_chunk _ _ HI _ i ltac:(by exists [strTake 2 x]) E) as (y & _ & Hy & _).
    exfalso. apply (shard_ne_chunkKey x y (length (chunkRoot root ++ [strTake 2 x]))).
    by rewrite firstn_all.
Qed.

(** A committed chunk: its contents, the partial gone, every other file as before. *)
Record committed (x : string) (data : bytes) (d d' : disk) : Prop := {
  com_ready : storeReady d';
  com_chunk : chunkOf d' x = Some data;
  com_partial : partialOf d' x = None;
  com_other : forall k, k <> partialKey root x -> k <> chunkKey root x ->
    contentAt d' k = contentAt d k;
  com_node : forall k, ~ chunkRoot root `prefix_of` k -> k <> partialKey root x -> nodeAt d' k = nodeAt d k
}.

(** Only the shard of a chunk is ever made. *)
Lemma shard_added d d1 x k :
  storeReady d -> dirsAdded (chunkRoot root ++ [strTake 2 x]) d d1 ->
  ~ chunkRoot root `prefix_of` k -> nodeAt d1 k = nodeAt d k.
Proof.
  intros HR Ha Hk. destruct (added_node _ _ _ Ha k) as [?|(Hnone & _ & j & ->)]; [done|]. exfalso.
  destruct (decide (j < length (chunkRoot root))) as [Hj|Hj].
  - rewrite take_app_le in Hnone by lia.
    rewrite wf_prefix in Hnone; [done|apply HR|rewrite (ready_chunks _ HR); eauto|done].
  - apply Hk. rewrite take_app, take_ge by lia. by eexists.
Qed.

Lemma ready_dirsAdded d d1 x :
  storeReady d -> CacheInv root d1 -> dirsAdded (chunkRoot root ++ [strTake 2 x]) d d1 ->
  storeReady d1.
Proof.
  intros [HI Hc Hp Hn] HI1 Ha. split; [done|by eapply dirsAdded_mono|by eapply dirsAdded_mono|].
  intros y Hy. destruct (Hn y Hy) as [H1 H2]. split.
  - destruct (added_node _ _ _ Ha (chunkKey root y)) as [->|(_ & _ & j & E)]; [done|].
    by apply symmetry, shard_ne_chunkKey in E.
  - destruct (added_node _ _ _ Ha (partialKey root y)) as [->|(_ & _ & j & E)]; [done|].
    by apply symmetry, shard_ne_partialKey in E.
Qed.

Lemma contentAt_dirsAdded k0 d d1 k :
  dirsAdded k0 d d1 -> contentAt d1 k = contentAt d k.
Proof.
  intros Ha. unfold contentAt, getInode. rewrite (added_inodes _ _ _ Ha).
  destruct (added_node _ _ _ Ha k) as [->|(-> & -> & _)]; done.
Qed.

(** The state after the rename. *)
Lemma committed_rename d x i :
  storeReady d -> hexName x -> nodeAt d (partialKey root x) = Some (FileN i) ->
  nodeAt d (chunkRoot root ++ [strTake 2 x]) = Some DirN ->
  ComputeHash (idata (getInode d i)) = "sha256:" +:+ x ->
  exists d', renameK (partialKey root x) (chunkKey root x) d = (Ok tt, d')
             /\ nodeAt d' (chunkKey root x) = Some (FileN i) /\ inodes d' = inodes d
             /\ committed x (idata (getInode d i)) d d'.
Proof.
  intros HR Hx Hi Hs Hh. pose proof HR as [HI Hc Hp Hn].
  pose proof (CacheInv_commit root d x i HI Hx Hi Hh) as HI'.
  pose proof (partialKey_nonroot root x) as Hpn. pose proof (chunkKey_nonroot root x) as Hcn.
  rewrite (renameK_moves _ _ _ i) in HI' |- *; try done.
  2, 5: by apply Hn.
  2, 4: by apply (partial_not_chunk root d x i _ HI Hi (chunkKey_under root x)).
  2, 3: by rewrite parent_chunkKey.
  simpl in HI'.
  set (d' := setName (chunkKey root x) (FileN i) (delName (partialKey root x) d)) in *.
  assert (forall k, nodeAt d' k = if bool_decide (chunkKey root x = k) then Some (FileN i)
                                  else if bool_decide (partialKey root x = k) then None
                                  else nodeAt d k) as Hnode.
  { intros k. unfold d'. by rewrite nodeAt_setName, nodeAt_delName. }
  exists d'. split; [done|]. split; [rewrite Hnode; by rewrite bool_decide_eq_true_2|]. split; [done|].
  split.
  - split; [done| | |].
    + rewrite Hnode, !bool_decide_eq_false_2; [done| |].
      { symmetry. apply chunkRoot_ne_partial. }
      { intros E%(f_equal length). unfold chunkKey in E. rewrite length_app in E. simpl in E. lia. }
    + rewrite Hnode, !bool_decide_eq_false_2; [done| |].
      { symmetry. apply partialRoot_ne. }
      { intros E%(f_equal length). unfold chunkKey, chunkRoot, partialRoot in E.
        rewrite !length_app in E. simpl in E. lia. }
    + intros y Hy. destruct (Hn y Hy). rewrite !Hnode. split; repeat case_bool_decide; done.
  - unfold chunkOf, contentAt. rewrite Hnode. by rewrite bool_decide_eq_true_2.
  - unfold partialOf, contentAt. rewrite Hnode.
    rewrite bool_decide_eq_false_2, bool_decide_eq_true_2; [done|done|].
    symmetry. apply partial_ne_chunk.
  - intros k H1 H2. unfold contentAt. rewrite Hnode, !bool_decide_eq_false_2 by done. done.
  - intros k H1 H2. rewrite Hnode, !bool_decide_eq_false_2; [done|done|].
    intros <-. apply H1, chunkKey_under.
Qed.

(** What the hook does once a chunk of [n] bytes is in place. *)
Definition afterCommit (h : string) (n : Z) (w : world X) : res unit * world X :=
  match onCommit c with None => (Ok tt, w) | Some fn => ignore (fn h n) w end.

(** A hook that leaves this world alone: what it changes is kept elsewhere. *)
Definition silentHook : Prop := forall fn h n w, onCommit c = Some fn -> (fn h n w).2 = w.

Lemma afterCommit_silent h n w : silentHook -> afterCommit h n w = (Ok tt, w).
Proof.
  intros Hs. unfold afterCommit. destruct (onCommit c) as [fn|] eqn:E; [|done]. by rewrite ignore_eq, (Hs fn).
Qed.

Lemma noHook_silent : onCommit c = None -> silentHook.
Proof. intros E fn h n w. by rewrite E. Qed.

Lemma openPartial_ok w x data :
  reliable w -> hexName x -> partialOf (wdisk w) x = Some data ->
  exists p i, partialPath c ("sha256:" +:+ x) = Ok p /\ key p = partialKey root x
    /\ nodeAt (wdisk w) (partialKey root x) = Some (FileN i) /\ idata (getInode (wdisk w) i) = data
    /\ Open p w = (Ok (HFile i 0), w) /\ readRest (HFile i 0) w = (Ok (data, None), w).
Proof.
  intros Hr Hx Hd. destruct (partialPath_good root c HL x Hx) as (p & Hp & Hk & _).
  unfold partialOf, contentAt in Hd.
  destruct (nodeAt (wdisk w) (partialKey root x)) as [[|i]|] eqn:E; try done. injection Hd as Hd.
  exists p, i. split; [done|]. split; [done|]. split; [done|]. split; [done|]. split.
  - apply Open_file; [done|]. by rewrite Hk.
  - rewrite readRest_reliable by done. simpl. by rewrite Hd.
Qed.

Lemma CommitPartial_ok w x data :
  reliable w -> storeReady (wdisk w) -> hexName x ->
  partialOf (wdisk w) x = Some data -> ComputeHash data = "sha256:" +:+ x ->
  exists d, CommitPartial c ("sha256:" +:+ x) w
            = afterCommit ("sha256:" +:+ x) (blen data) (setDisk d w)
            /\ committed x data (wdisk w) d.
Proof.
  intros Hr HR Hx Hd Hh.
  destruct (openPartial_ok w x data Hr Hx Hd) as (p & i & Hp & Hk & Hi & Hdata & Ho & Hrd).
  destruct (chunkPath_good root c HL x Hx) as (q & Hq & Hqk & Hqd).
  unfold CommitPartial. rewrite (proj2 (parseHash_ok _ x)) by (split; [done|apply Hx]).
  rewrite Hp, !bind_res_ok.
  rewrite (ioBind_ok _ _ _ _ _ (wrapErr_ok _ _ _ _ _ Ho)), (ioBind_ok _ _ _ _ _ Hrd).
  assert (ignore (Close (HFile i 0)) w = (Ok tt, w)) as Hcl
    by by rewrite ignore_eq, Close_reliable.
  rewrite (ioBind_ok _ _ _ _ _ Hcl).
  assert (wrapErr "hash partial" (liftRes (ComputeReaderHash (data, None))) w
          = (Ok ("sha256:" +:+ x, blen data), w)) as Hch.
  { apply wrapErr_ok. unfold liftRes, ComputeReaderHash. simpl. by rewrite <- Hh. }
  rewrite (ioBind_ok _ _ _ _ _ Hch). rewrite bool_decide_eq_true_2 by done. cbn [negb].
  rewrite Hq, bind_res_ok.
  destruct (MkdirAll_ok w (Dir q) Hr) as (d1 & Hmk & Ha & Hshard).
  { intros j. rewrite Hqd. by apply shard_nofile. }
  rewrite (ioBind_ok _ _ _ _ _ (wrapErr_ok _ _ _ _ _ Hmk)). rewrite Hqd in Ha, Hshard.
  assert (CacheInv root d1) as HI1.
  { assert (keeps (X:=X) (CacheInv root) (MkdirAll (Dir q))) as Hkm by apply keeps_MkdirAll_inv.
    specialize (Hkm w (ready_inv _ HR)). by rewrite Hmk in Hkm. }
  assert (getInode d1 i = getInode (wdisk w) i) as Hgi
    by (unfold getInode; by rewrite (added_inodes _ _ _ Ha)).
  destruct (committed_rename d1 x i) as (d2 & Hren & Hn2 & Hin2 & Hcom).
  { by eapply ready_dirsAdded. }
  { done. }
  { by eapply dirsAdded_mono. }
  { done. }
  { by rewrite Hgi, Hdata. }
  assert (Rename p q (setDisk d1 w) = (Ok tt, setDisk d2 w)) as Hrn.
  { unfold Rename. rewrite syscall_reliable by done. simpl. by rewrite Hk, Hqk, Hren. }
  rewrite (ioBind_ok _ _ _ _ _ (wrapErr_ok _ _ _ _ _ Hrn)).
  rewrite Hgi, Hdata in Hcom. exists d2. split.
  - unfold afterCommit. destruct (onCommit c) as [fn|]; [|done].
    assert (attempt (Stat q) (setDisk d2 w)
      = (Ok (Ok (fileInfo (getInode d2 i))), setDisk d2 w)) as Hst.
    { rewrite attempt_eq, Stat_reliable by done. unfold statK. simpl. by rewrite Hqk, Hn2. }
    rewrite (ioBind_ok _ _ _ _ _ Hst). simpl. unfold getInode. rewrite Hin2.
    by rewrite <- Hdata, <- Hgi.
  - destruct Hcom as [H1 H2 H3 H4 H5]. split; [done..| |].
    + intros k Hk1 Hk2. rewrite H4 by done. by eapply contentAt_dirsAdded.
    + intros k Hk1 Hk2. rewrite H5 by done. by eapply shard_added.
Qed.

Lemma CommitPartial_mismatch w x data :
  reliable w -> storeReady (wdisk w) -> hexName x ->
  partialOf (wdisk w) x = Some data -> ComputeHash data <> "sha256:" +:+ x ->
  exists e d, CommitPartial c ("sha256:" +:+ x) w = (Err e, setDisk d w)
    /\ errorsIs e ErrHashMismatch = true
    /\ storeReady d /\ partialOf d x = None /\ frame (partialKey root x) (wdisk w) d.
Proof.
  intros Hr HR Hx Hd Hh.
  destruct (openPartial_ok w x data Hr Hx Hd) as (p & i & Hp & Hk & Hi & Hdata & Ho & Hrd).
  unfold CommitPartial. rewrite (proj2 (parseHash_ok _ x)) by (split; [done|apply Hx]).
  rewrite Hp, !bind_res_ok.
  rewrite (ioBind_ok _ _ _ _ _ (wrapErr_ok _ _ _ _ _ Ho)), (ioBind_ok _ _ _ _ _ Hrd).
  assert (ignore (Close (HFile i 0)) w = (Ok tt, w)) as Hcl
    by by rewrite ignore_eq, Close_reliable.
  rewrite (ioBind_ok _ _ _ _ _ Hcl).
  assert (wrapErr "hash partial" (liftRes (ComputeReaderHash (data, None))) w
          = (Ok (ComputeHash data, blen data), w)) as Hch by by apply wrapErr_ok.
  rewrite (ioBind_ok _ _ _ _ _ Hch). rewrite bool_decide_eq_false_2 by done. cbn [negb].
  pose proof (partialKey_nonroot root x) as Hne.
  set (d := delName (partialKey root x) (wdisk w)).
  assert (ignore (Remove p) w = (Ok tt, setDisk d w)) as Hrm.
  { rewrite ignore_eq, (Remove_file p w i) by (try done; by rewrite Hk). simpl. by rewrite Hk. }
  rewrite (ioBind_ok _ _ _ _ _ Hrm). eexists _, d. split; [reflexivity|]. split; [done|].
  assert (nodeAt d (partialKey root x) = None) as Hnone
    by (unfold d; rewrite nodeAt_delName by done; by rewrite bool_decide_eq_true_2).
  assert (frame (partialKey root x) (wdisk w) d) as Hfr by by apply frame_delName.
  split; [|split; [|done]].
  - eapply ready_frame; [done| |done|by rewrite Hnone].
    assert (keeps (X:=X) (CacheInv root) (Remove p)) as Hkr by apply keeps_Remove_inv.
    specialize (Hkr w (ready_inv _ HR)). rewrite (Remove_file p w i) in Hkr by (try done; by rewrite Hk).
    simpl in Hkr. by rewrite Hk in Hkr.
  - unfold partialOf, contentAt. by rewrite Hnone.
Qed.

(** Reading back a committed chunk. *)
Lemma GetChunkReader_file w x data :
  reliable w -> hexName x -> chunkOf (wdisk w) x = Some data ->
  exists i, GetChunkReader c ("sha256:" +:+ x) w = (Ok (HFile i 0, blen data), w)
            /\ idata (getInode (wdisk w) i) = data.
Proof.
  intros Hr Hx Hd. destruct (chunkPath_good root c HL x Hx) as (q & Hq & Hk & _).
  unfold chunkOf, contentAt in Hd.
  destruct (nodeAt (wdisk w) (chunkKey root x)) as [[|i]|] eqn:E; try done. injection Hd as Hd.
  exists i. split; [|done]. unfold GetChunkReader. rewrite Hq, bind_res_ok.
  assert (notFound (Open q) w = (Ok (HFile i 0), w)) as Ho.
  { unfold notFound. rewrite (ioBind_ok _ _ w (Ok (HFile i 0)) w); [done|].
    rewrite attempt_eq, (Open_file q w i) by (try done; by rewrite Hk). done. }
  rewrite (ioBind_ok _ _ _ _ _ Ho).
  assert (attempt (FStat (HFile i 0)) w = (Ok (Ok (fileInfo (getInode (wdisk w) i))), w)) as Hs
    by by rewrite attempt_eq, FStat_reliable.
  rewrite (ioBind_ok _ _ _ _ _ Hs). simpl. by rewrite Hd.
Qed.

Lemma GetChunkReader_ok w x data :
  reliable w -> hexName x -> chunkOf (wdisk w) x = Some data ->
  exists f, GetChunkReader c ("sha256:" +:+ x) w = (Ok (f, blen data), w)
            /\ readRest f w = (Ok (data, None), w).
Proof.
  intros Hr Hx Hd. destruct (GetChunkReader_file w x data Hr Hx Hd) as (i & Hg & Hi).
  exists (HFile i 0). split; [done|]. rewrite readRest_reliable by done. simpl. by rewrite Hi.
Qed.

End functional.

(** ** Histories of a store *)

Section histories.
Context {D : Digest} {SS : SortSlice} {MC : ManifestCodec} {X : Type} (c : ChunkStore X).

(** One operation with any arguments and any failures of its system calls, or
    a change of the world outside the disk (the clock, the fault oracle, the
    state of other components). *)
Inductive storeStep : world X -> world X -> Prop :=
| stepPut h r w : wellNamed h -> storeStep w (PutChunkFromReader c h r w).2
| stepAppend h r w : wellNamed h -> storeStep w (AppendPartial c h r w).2
| stepCommit h w : storeStep w (CommitPartial c h w).2
| stepDiscard h w : storeStep w (DiscardPartial c h w).2
| stepDelete h w : storeStep w (DeleteChunk c h w).2
| stepSave m w : storeStep w (SaveManifest c m w).2
| stepEnv w w' : wdisk w' = wdisk w -> storeStep w w'.

Lemma storeStep_inv root w w' :
  storeLayout root c -> (forall fn, onCommit c = Some fn -> diskless fn) ->
  storeStep w w' -> CacheInv root (wdisk w) -> CacheInv root (wdisk w').
Proof.
  intros HL Hhook Hs HI. destruct Hs as [h r w Hh|h r w Hh|h w|h w|h w|m w|w w' ->].
  - eapply (keeps_PutChunkFromReader root c HL Hhook); done.
  - eapply (keeps_AppendPartial root c HL); done.
  - eapply (keeps_CommitPartial root c HL Hhook); done.
  - eapply (keeps_DiscardPartial root c); done.
  - eapply (keeps_DeleteChunk root c); done.
  - eapply (keeps_SaveManifest root c HL); done.
  - done.
Qed.

Lemma history_inv root w w' :
  storeLayout root c -> (forall fn, onCommit c = Some fn -> diskless fn) ->
  rtc storeStep w w' -> CacheInv root (wdisk w) -> CacheInv root (wdisk w').
Proof.
  intros HL Hhook Hs. induction Hs as [|w1 w2 w3 H1 H2 IH]; [done|]. intros HI.
  by apply IH, (storeStep_inv root w1).
Qed.

Lemma notFound_inv {A} (m : IO X A) w a w' : notFound m w = (Ok a, w') -> m w = (Ok a, w').
Proof.
  unfold notFound. intros (r & w1 & Hr & H)%ioBind_inv. apply attempt_inv in Hr.
  destruct r as [a'|e]; [by injection H as -> ->|]. by destruct (isNotExist e).
Qed.

(** What a successful [GetChunkReader] has opened. *)
Lemma GetChunkReader_opened root x f size w w' :
  storeLayout root c -> hexName x -> GetChunkReader c ("sha256:" +:+ x) w = (Ok (f, size), w') ->
  wdisk w' = wdisk w /\ ((exists k, f = HDir k) \/ exists i, f = HFile i 0 /\ nodeAt (wdisk w) (chunkKey root x) = Some (FileN i)).
Proof.
  intros HL Hn Hg. destruct (chunkPath_good root c HL x Hn) as (q & Hq & Hk & _).
  unfold GetChunkReader in Hg. rewrite Hq, bind_res_ok in Hg.
  apply ioBind_inv in Hg as (f' & w1 & Ho & Hg). apply notFound_inv, syscall_inv in Ho.
  apply ioBind_inv in Hg as (st & w2 & Hst & Hg).
  assert (wdisk w2 = wdisk w1) as Hw2.
  { rewrite <- (keeps_disk (attempt (FStat f')) w1); [by rewrite Hst|auto with go]. }
  destruct st as [fi|e]; [injection Hg as -> <- <-|by apply ioBind_inv in Hg as (? & ? & _ & ?)].
  rewrite Hw2. unfold openK in Ho. rewrite Hk in Ho.
  destruct (nodeAt (wdisk w) (chunkKey root x)) as [[|i]|]; injection Ho as Ho1 Ho2;
    simplify_eq; rewrite <- Ho2; eauto.
Qed.

(** What a successful [GetChunkReader] delivers in a good state. *)
Lemma GetChunkReader_verified root h f size w w' rd w'' :
  storeLayout root c -> CacheInv root (wdisk w) -> wellNamed h ->
  GetChunkReader c h w = (Ok (f, size), w') -> readRest f w' = (Ok rd, w'') -> rd.2 = None ->
  ComputeHash rd.1 = h.
Proof.
  intros HL HI Hh Hg Hrd Hnone.
  destruct (wellNamed_cases h Hh) as [(e & He)|(x & Hx & -> & Hn)].
  { unfold GetChunkReader, chunkPath in Hg. by rewrite He in Hg. }
  destruct (GetChunkReader_opened root x f size w w' HL Hn Hg) as [Hw Hf].
  pose proof (hoare_readRest (fun d => d = wdisk w') f w' eq_refl) as Hr. rewrite Hrd in Hr.
  simpl in Hr. destruct Hr as [Hd Hr]. rewrite Hr in Hnone |- * by done. rewrite Hd, Hw in Hnone |- *.
  destruct Hf as [[k ->]|(i & -> & Hi)]; [done|]. simpl.
  destruct (inv_chunk _ _ HI _ i (chunkKey_under root x) Hi) as (y & _ & Hy & Hc).
  apply chunkKey_inj in Hy as ->. exact Hc.
Qed.

End histories.

(** ** The theorems of the store *)

(** No file yet in the chunk and partial directories of [root]. *)
Definition freshStore (root : string) (d : disk) : Prop :=
  wfDisk d /\ forall k i, chunkRoot root `prefix_of` k \/ partialRoot root `prefix_of` k ->
                          nodeAt d k <> Some (FileN i).

Section theorems.
Context {D : Digest} {SS : SortSlice} {MC : ManifestCodec} {X : Type}.
Context (root : string) (c : ChunkStore X) (HL : storeLayout root c).
Implicit Types w : world X.

Lemma freshStore_inv d : freshStore root d -> CacheInv root d.
Proof.
  intros [Hw Hf]. split; [done| |].
  - intros k i Hp Hk. by destruct (Hf k i (or_introl Hp)).
  - intros x k i Hx. assert (partialRoot root `prefix_of` partialKey root x) as Hp by by exists [x].
    by destruct (Hf _ i (or_intror Hp)).
Qed.

Lemma keeps_mkdirs ds : keeps (X:=X) (CacheInv root) (mkdirs ds).
Proof.
  induction ds as [|dir ds IH]; simpl; [auto with go|].
  apply keeps_bind; [apply keeps_wrapErr, keeps_MkdirAll_inv|done].
Qed.

Lemma NewChunkStore_inv w : freshStore root (wdisk w) -> CacheInv root (wdisk (NewChunkStore root w).2).
Proof.
  intros Hf%freshStore_inv. revert w Hf. apply keeps_bind; [apply keeps_mkdirs|auto with go].
Qed.

(** C1. Content integrity under faults. Start from a store whose chunk and
    partial directories have no file, and run any sequence of puts, appends,
    commits, discards, deletions and manifest saves, any of whose system calls
    may fail or stop part way (including writes), with a commit hook, if any,
    that leaves the disk alone. The hashes given to puts and appends, and the
    one that is read, have 64 hexadecimal digits if [parseHash] accepts them
    (which checks their length only). Then whatever bytes a later
    [GetChunkReader] delivers for a hash without a read error, they hash to
    that name. *)
Theorem store_serves_verified w0 w h f size w' rd w''
    (Hhook : forall fn, onCommit c = Some fn -> diskless fn)
    (Hfresh : freshStore root (wdisk w0))
    (Hrun : rtc (storeStep c) (NewChunkStore root w0).2 w)
    (Hh : wellNamed h)
    (Hget : GetChunkReader c h w = (Ok (f, size), w'))
    (Hread : readRest f w' = (Ok rd, w'')) (Hend : rd.2 = None) :
  ComputeHash rd.1 = h.
Proof.
  eapply (GetChunkReader_verified c root h f size w w' rd w''); try done.
  eapply history_inv; [done|done|exact Hrun|]. by apply NewChunkStore_inv.
Qed.

Lemma PutChunk_ok w data
    (Hr : reliable w) (HR : storeReady root (wdisk w)) :
  exists d x, ComputeHash data = "sha256:" +:+ x /\ hexName x
    /\ PutChunk c (ComputeHash data) data w
       = afterCommit c (ComputeHash data) (blen data) (setDisk d w)
    /\ committed root x data (wdisk w) d.
Proof.
  destruct (ComputeHash_good data) as (x & Hh & Hx). rewrite Hh.
  destruct (DiscardPartial_ok root c HL w x Hr HR Hx) as (d1 & H1 & HR1 & Hn1 & Hf1).
  destruct (AppendPartial_ok root c HL (setDisk d1 w) x data None Hr HR1 Hx) as (d2 & H2 & HR2 & Hf2 & Hp2).
  assert (partialOf root d2 x = Some data) as Hp2'.
  { rewrite Hp2. unfold partialOf, contentAt. simpl. by rewrite Hn1. }
  destruct (CommitPartial_ok root c HL (setDisk d2 w) x data Hr HR2 Hx Hp2' Hh) as (d3 & H3 & [HR3 Hc Hp Ho Hn]).
  exists d3, x. split; [done|]. split; [done|]. split.
  { unfold PutChunk, PutChunkFromReader. rewrite (ioBind_ok _ _ _ _ _ H1).
    rewrite (ioBind_ok _ _ _ (Ok tt) (setDisk d2 w)) by by rewrite attempt_eq, H2.
    exact H3. }
  split; [done..| |].
  - intros k Hk1 Hk2. rewrite Ho by done. simpl.
    rewrite (contentAt_frame _ _ _ _ Hf2) by done. simpl. by rewrite (contentAt_frame _ _ _ _ Hf1).
  - intros k Hk1 Hk2. rewrite Hn by done. simpl.
    rewrite (frame_node _ _ _ Hf2) by done. simpl. by rewrite (frame_node _ _ _ Hf1).
Qed.

(** Put/get round trip: on a reliable disk, storing bytes under their own
    hash succeeds (up to what the commit hook returns), reading the chunk back
    gives exactly those bytes and their length, no partial is left, and every
    other file keeps its contents. *)
Theorem PutChunk_roundtrip w data
    (Hr : reliable w) (HR : storeReady root (wdisk w)) :
  exists d x, ComputeHash data = "sha256:" +:+ x
    /\ PutChunk c (ComputeHash data) data w
       = afterCommit c (ComputeHash data) (blen data) (setDisk d w)
    /\ storeReady root d
    /\ (exists f, GetChunkReader c (ComputeHash data) (setDisk d w) = (Ok (f, blen data), setDisk d w)
                  /\ readRest f (setDisk d w) = (Ok (data, None), setDisk d w))
    /\ partialOf root d x = None
    /\ (forall k, k <> partialKey root x -> k <> chunkKey root x ->
          contentAt d k = contentAt (wdisk w) k).
Proof.
  destruct (PutChunk_ok w data Hr HR) as (d & x & Hh & Hx & Hput & [HR' Hc Hp Ho]).
  exists d, x. split; [done|]. split; [done|]. split; [done|]. split; [|done].
  rewrite Hh. by apply (GetChunkReader_ok root c HL (setDisk d w)).
Qed.

(** C23. Resuming a download on a reliable disk, in a store whose directories are
    there, of a chunk whose name is 64 hexadecimal digits: appending [b] to a
    partial that holds [p] succeeds, and the commit after it puts [p ++ b] in
    place and ends with the hook, if [p ++ b] has the announced hash.
    Otherwise the commit fails with [ErrHashMismatch], the partial is gone and
    every other file is untouched. *)
Theorem resume_commit w x p b
    (Hr : reliable w) (HR : storeReady root (wdisk w)) (Hx : hexName x)
    (Hp : default [] (partialOf root (wdisk w) x) = p) :
  exists d, AppendPartial c ("sha256:" +:+ x) (b, None) w = (Ok tt, setDisk d w)
    /\ (ComputeHash (p ++ b) = "sha256:" +:+ x ->
        exists d', CommitPartial c ("sha256:" +:+ x) (setDisk d w)
                   = afterCommit c ("sha256:" +:+ x) (blen (p ++ b)) (setDisk d' w)
                   /\ committed root x (p ++ b) (wdisk w) d')
    /\ (ComputeHash (p ++ b) <> "sha256:" +:+ x ->
        exists e d', CommitPartial c ("sha256:" +:+ x) (setDisk d w) = (Err e, setDisk d' w)
                     /\ errorsIs e ErrHashMismatch = true /\ partialOf root d' x = None
                     /\ frame (partialKey root x) (wdisk w) d').
Proof.
  destruct (AppendPartial_ok root c HL w x b None Hr HR Hx) as (d & H1 & HR1 & Hf & Hp1).
  rewrite Hp in Hp1. exists d. split; [done|]. split.
  - intros Hh. destruct (CommitPartial_ok root c HL (setDisk d w) x _ Hr HR1 Hx Hp1 Hh)
      as (d' & H2 & [? ? ? Ho Hn]).
    exists d'. split; [done|]. split; [done..| |]; intros k Hk1 Hk2.
    + rewrite Ho by done. by eapply contentAt_frame.
    + rewrite Hn by done. by apply (frame_node _ _ _ Hf).
  - intros Hh. destruct (CommitPartial_mismatch root c HL (setDisk d w) x _ Hr HR1 Hx Hp1 Hh)
      as (e & d' & H2 & He & _ & Hn & Hf').
    exists e, d'. split; [done|]. split; [done|]. split; [done|]. by eapply frame_trans.
Qed.

End theorems.

(** ** A new store *)

(** Nothing below [root], and no file on the way to it. *)
Record vacant (root : string) (d : disk) : Prop := {
  vac_wf : wfDisk d;
  vac_below : forall k, key root `prefix_of` k -> k <> key root -> nodeAt d k = None;
  vac_path : forall j, isFile (nodeAt d (take j (key root))) = false
}.

(** The same, by enumeration. *)
Definition vacantb (root : string) (d : disk) : bool :=
  wfDiskb d
  && allEntries (fun k _ => negb (bool_decide (key root `prefix_of` k)) || bool_decide (k = key root)) d
  && forallb (fun j => negb (isFile (nodeAt d (take j (key root))))) (seq 0 (S (length (key root)))).

Lemma vacantb_sound root d : vacantb root d = true -> key root <> [] -> vacant root d.
Proof.
  unfold vacantb. rewrite !andb_true_iff. intros [[Hw He] Hp] Hne.
  split; [by apply wfDiskb_sound| |].
  - intros k Hpre Hk. destruct (nodeAt d k) as [n|] eqn:E; [|done]. exfalso.
    assert (k <> []) as Hkn by (intros ->; by apply Hne, (prefix_nil_inv (key root))).
    pose proof (allEntries_sound _ _ _ _ He Hkn E) as Hb. simpl in Hb.
    by rewrite bool_decide_eq_true_2, bool_decide_eq_false_2 in Hb.
  - intros j. rewrite forallb_forall in Hp.
    destruct (decide (j <= length (key root))) as [Hj|Hj].
    + specialize (Hp j). rewrite negb_true_iff in Hp. apply Hp, in_seq. lia.
    + specialize (Hp (length (key root))). rewrite negb_true_iff, firstn_all in Hp.
      rewrite take_ge by lia. apply Hp, in_seq. lia.
Qed.

Lemma vacant_fresh root d : vacant root d -> freshStore root d.
Proof.
  intros [Hw Hb _]. split; [done|]. intros k i Hk Hn.
  assert (key root `prefix_of` k /\ k <> key root) as [H1 H2]; [|by rewrite Hb in Hn].
  destruct Hk as [[t ->]|[t ->]]; unfold chunkRoot, partialRoot; rewrite <- app_assoc;
    (split; [by eexists|intros E%(f_equal length); rewrite length_app in E; simpl in E; lia]).
Qed.

Lemma vacant_nofile root d es j :
  vacant root d -> isFile (nodeAt d (take j (key root ++ es))) = false.
Proof.
  intros [_ Hb Hp]. destruct (decide (j <= length (key root))) as [Hj|Hj].
  - by rewrite take_app_le.
  - rewrite take_app, take_ge by lia. destruct (take (j - length (key root)) es) as [|e es'] eqn:E.
    + rewrite app_nil_r. specialize (Hp (length (key root))). by rewrite firstn_all in Hp.
    + rewrite Hb; [done|by eexists|]. intros Heq%(f_equal length).
      rewrite length_app in Heq. simpl in Heq. lia.
Qed.

Section newStore.
Context {D : Digest} {SS : SortSlice} {MC : ManifestCodec} {X : Type}.
Context (root : string) (Hroot : root <> "").
Implicit Types w : world X.

(** [d'] has the directories of the keys [ks] and is otherwise [d]. *)
Record dirsMade (ks : list (list string)) (d d' : disk) : Prop := {
  made_dirs : forall k, k ∈ ks -> nodeAt d' k = Some DirN;
  made_inodes : inodes d' = inodes d;
  made_node : forall k, nodeAt d' k = nodeAt d k
                        \/ nodeAt d k = None /\ nodeAt d' k = Some DirN
                           /\ exists k0 j, k0 ∈ ks /\ k = take j k0
}.

Lemma mkdirs_ok w ds :
  reliable w ->
  (forall dir j, dir ∈ ds -> isFile (nodeAt (wdisk w) (take j (key dir))) = false) ->
  exists d', mkdirs ds w = (Ok tt, setDisk d' w) /\ dirsMade (map key ds) (wdisk w) d'.
Proof.
  intros Hr. revert w Hr. induction ds as [|dir ds IH]; intros w Hr Hf; simpl.
  { exists (wdisk w). rewrite setDisk_same. split; [done|]. split; [by intros k Hk%elem_of_nil|done|by left]. }
  destruct (MkdirAll_ok w dir Hr) as (d1 & H1 & Ha & Hd1).
  { intros j. apply Hf. by constructor. }
  destruct (IH (setDisk d1 w)) as (d2 & H2 & [Hm Hi Hn]); [done| |].
  { intros dir' j Hin. simpl. destruct (added_node _ _ _ Ha (take j (key dir'))) as [->|(_ & -> & _)];
      [|done]. apply Hf. by constructor. }
  rewrite (ioBind_ok _ _ _ _ _ (wrapErr_ok _ _ _ _ _ H1)). exists d2. split; [done|].
  simpl in Hi, Hn. split.
  - intros k [->|Hk]%elem_of_cons; [|by apply Hm].
    destruct (Hn (key dir)) as [->|(? & ? & _)]; [done|done].
  - by rewrite Hi, (added_inodes _ _ _ Ha).
  - intros k. destruct (Hn k) as [->|(Hk & -> & k0 & j & Hin & ->)].
    + destruct (added_node _ _ _ Ha k) as [->|(? & ? & j & ->)]; [by left|]. right.
      split; [done|]. split; [done|]. exists (key dir), j. split; [by constructor|done].
    + right. split; [|split; [done|]].
      * destruct (added_node _ _ _ Ha (take j k0)) as [<-|(? & ? & _)]; [done|congruence].
      * exists k0, j. split; [by constructor|done].
Qed.

(** [NewChunkStore] on a vacant root succeeds with the computed layout and
    leaves a store that is ready: all its directories exist and nothing stands
    where a chunk or a partial goes. *)
Lemma NewChunkStore_ready w (Hr : reliable w) (Hv : vacant root (wdisk w)) :
  exists d, NewChunkStore root w = (Ok (storeAt root), setDisk d w)
            /\ storeLayout root (storeAt (X:=X) root) /\ storeReady root d.
Proof.
  pose proof (storeAt_layout (X:=X) root Hroot) as HL.
  assert (key (tmpDir (storeAt (X:=X) root)) = key root ++ ["tmp"]) as Ht.
  { rewrite (layout_tmp _ _ HL). apply key_Join_names; [done|names]. }
  assert (key (mfstDir (storeAt (X:=X) root)) = key root ++ ["manifests"]) as Hm.
  { rewrite (layout_mfst _ _ HL). apply key_Join_names; [done|names]. }
  pose proof (key_chunksDir root _ HL) as Hc. pose proof (key_partialDir root _ HL) as Hp.
  destruct (mkdirs_ok w [chunksDir (storeAt (X:=X) root); tmpDir (storeAt (X:=X) root);
    partialDir (storeAt (X:=X) root); mfstDir (storeAt (X:=X) root)] Hr) as (d & Hmk & Hmade).
  { intros dir j Hin. repeat setoid_rewrite elem_of_cons in Hin.
    destruct Hin as [->|[->|[->|[->|Hin]]]]; [rewrite Hc|rewrite Ht|rewrite Hp|rewrite Hm|
      by apply elem_of_nil in Hin]; by apply vacant_nofile. }
  assert (NewChunkStore root w = (Ok (storeAt root), setDisk d w)) as Hnew.
  { unfold NewChunkStore. rewrite bool_decide_eq_false_2 by done. by rewrite (ioBind_ok _ _ _ _ _ Hmk). }
  exists d. split; [done|]. split; [done|].
  cbn [map] in Hmade. rewrite Hc, Ht, Hp, Hm in Hmade. destruct Hmade as [Hdirs _ Hnode].
  split.
  - pose proof (NewChunkStore_inv root w (vacant_fresh _ _ Hv)) as HI. by rewrite Hnew in HI.
  - apply Hdirs. by constructor.
  - apply Hdirs. do 3 constructor.
  - assert (forall k, key root `prefix_of` k -> length (key root) + 3 <= length k ->
      nodeAt d k <> Some DirN) as Hlong.
    { intros k Hpre Hlen. destruct (Hnode k) as [->|(_ & _ & k0 & j & Hk0 & ->)].
      - rewrite (vac_below _ _ Hv); [done..|]. intros ->. lia.
      - rewrite length_take in Hlen. repeat setoid_rewrite elem_of_cons in Hk0.
        destruct Hk0 as [->|[->|[->|[->|Hk0]]]];
          unfold chunkRoot, partialRoot in Hlen; rewrite ?length_app in Hlen; simpl in Hlen;
          [lia..|by apply elem_of_nil in Hk0]. }
    intros x Hx. split; apply Hlong; unfold chunkKey, chunkRoot, partialKey, partialRoot;
      rewrite <- ?app_assoc; [by eexists| |by eexists|]; rewrite !length_app; simpl; lia.
Qed.

End newStore.

(** ** Listing *)

Section listing.
Context {D : Digest} {SS : SortSlice} {MC : ManifestCodec} {X : Type}.
Context (root : string) (c : ChunkStore X) (HL : storeLayout root c).
Implicit Types w : world X.

(** Every file below the chunk directory is at the place of some hash, whatever
    it holds: the shape of a store whose contents may have rotted. *)
Record cacheShape (d : disk) : Prop := {
  shape_dir : nodeAt d (chunkRoot root) = Some DirN;
  shape_file : forall k i, chunkRoot root `prefix_of` k -> nodeAt d k = Some (FileN i) ->
    exists x, hexName x /\ k = chunkKey root x
}.

Lemma ready_shape d : storeReady root d -> cacheShape d.
Proof.
  intros [HI Hc _ _]. split; [done|]. intros k i Hp Hi.
  destruct (inv_chunk _ _ HI k i Hp Hi) as (x & Hx & Hk & _). eauto.
Qed.

(** The committed chunks in the order of the walk: name and contents. *)
Definition committedIn (d : disk) : list (string * bytes) :=
  omap (fun kn => match kn.2 with
    | FileN i => Some (List.last kn.1 "", idata (getInode d i))
    | DirN => None end) (walkList d (chunkRoot root)).

Lemma last_chunkKey x : List.last (chunkKey root x) "" = x.
Proof.
  unfold chunkKey. change [strTake 2 x; x] with ([strTake 2 x] ++ [x]). rewrite app_assoc. apply last_last.
Qed.

Lemma elem_of_committedIn d x data :
  cacheShape d ->
  (x, data) ∈ committedIn d <-> hexName x /\ chunkOf root d x = Some data.
Proof.
  intros HS. unfold committedIn. rewrite list_elem_of_omap. split.
  - intros ([k n] & Hin & Hk). simpl in Hk. destruct n as [|i]; [done|]. injection Hk as <- <-.
    apply elem_of_walkList in Hin as (Hn & Hp & _).
    destruct (shape_file _ HS k i Hp Hn) as (y & Hy & ->).
    rewrite last_chunkKey. split; [done|].
    unfold chunkOf, contentAt. by rewrite Hn.
  - intros [Hx Hd]. unfold chunkOf, contentAt in Hd.
    destruct (nodeAt d (chunkKey root x)) as [[|i]|] eqn:E; try done. injection Hd as <-.
    exists (chunkKey root x, FileN i). split.
    + apply elem_of_walkList. split; [done|]. split; [apply chunkKey_under|]. rewrite (shape_dir _ HS). by eexists.
    + simpl. by rewrite last_chunkKey.
Qed.

Lemma NoDup_committedIn d : cacheShape d -> NoDup (committedIn d).*1.
Proof.
  intros HS. unfold committedIn. pose proof (NoDup_walkList d (chunkRoot root)) as Hnd.
  assert (forall k n, (k, n) ∈ walkList d (chunkRoot root) -> forall i, n = FileN i ->
    k = chunkKey root (List.last k "")) as Hlast.
  { intros k n Hin i ->. apply elem_of_walkList in Hin as (Hn & Hp & _).
    destruct (shape_file _ HS k i Hp Hn) as (y & Hy & ->).
    by rewrite last_chunkKey. }
  induction (walkList d (chunkRoot root)) as [|[k n] l IH]; [constructor|]. simpl in *.
  apply NoDup_cons in Hnd as [Hk Hnd].
  assert (NoDup (omap (fun kn => match kn.2 with
    | FileN i => Some (List.last kn.1 "", idata (getInode d i))
    | DirN => None end) l).*1) as Hl.
  { apply IH; [done|]. intros k' n' Hin. apply Hlast. by constructor. }
  destruct n as [|i]; [done|]. simpl. constructor; [|done].
  intros (p & Hp & Hin)%list_elem_of_fmap. apply list_elem_of_omap in Hin as ([k' n'] & Hin & Heq).
  simpl in Heq. destruct n' as [|j]; [done|]. injection Heq as <-. simpl in Hp.
  apply Hk. apply list_elem_of_fmap. exists (k', FileN j). split; [|done]. simpl.
  rewrite (Hlast k (FileN i) ltac:(by constructor) i eq_refl).
  rewrite (Hlast k' (FileN j) ltac:(by constructor) j eq_refl). by rewrite Hp.
Qed.

(** Folding over the walk of the chunk directory. *)
Lemma fold_committed {A} d (f : A -> string -> bytes -> A) (g : A -> string -> FileInfo -> A) acc :
  cacheShape d ->
  (forall a p fi, fiDir fi = true -> g a p fi = a) ->
  (forall a x i, hexName x -> nodeAt d (chunkKey root x) = Some (FileN i) ->
     g a (Join [chunksDir c; strTake 2 x; x]) (fileInfo (getInode d i)) = f a x (idata (getInode d i))) ->
  fold_left (fun a kn => g a (walkPath (chunksDir c) kn.1) (nodeInfo d kn.1 kn.2))
    (walkList d (key (chunksDir c))) acc
  = fold_left (fun a xd => f a xd.1 xd.2) (committedIn d) acc.
Proof.
  intros HS Hdir Hfile. rewrite (key_chunksDir root c HL). unfold committedIn.
  assert (forall k n, (k, n) ∈ walkList d (chunkRoot root) ->
    nodeAt d k = Some n /\ chunkRoot root `prefix_of` k) as Hin.
  { intros k n (H1 & H2 & _)%elem_of_walkList. done. }
  revert acc. induction (walkList d (chunkRoot root)) as [|[k n] l IH]; intros acc; [done|].
  cbn [fold_left fst snd omap list_omap].
  assert (forall k n, (k, n) ∈ l -> nodeAt d k = Some n /\ chunkRoot root `prefix_of` k) as Hin'.
  { intros k' n' H. apply Hin. by constructor. }
  destruct (Hin k n ltac:(by constructor)) as [Hn Hp].
  destruct n as [|i]; simpl; [rewrite Hdir by done; by apply IH|].
  destruct (shape_file _ HS k i Hp Hn) as (x & Hx & ->).
  rewrite (walkPath_below _ _ (strTake 2 x) [x]) by by rewrite (key_chunksDir root c HL).
  rewrite Hfile by done.
  rewrite IH by done. by rewrite last_chunkKey.
Qed.

Lemma ListChunks_ok w :
  reliable w -> cacheShape (wdisk w) ->
  ListChunks c w = (Ok (map (fun xd => "sha256:" +:+ xd.1) (committedIn (wdisk w)), None), w).
Proof.
  intros Hr HS. unfold ListChunks.
  pose (g := fun hs p fi => match listChunk hs p fi with Ok l => l | Err _ => hs end).
  rewrite (Walk_reliable listChunk g);
    [|done|done|rewrite (key_chunksDir root c HL), (shape_dir _ HS); by eexists].
  do 3 f_equal. etrans;
    [apply (fold_committed (wdisk w) (fun hs x _ => hs ++ ["sha256:" +:+ x]) g)|].
  - done.
  - intros hs p fi Hfi. unfold g, listChunk. by rewrite Hfi.
  - intros hs x i Hx _. unfold g, listChunk. cbn [fiDir fileInfo]. pose proof (Base_Join (chunksDir c) [strTake 2 x] x
      (chunksDir_nonempty root c HL)) as Hb. cbn [app] in Hb.
    rewrite Hb by names. by rewrite bool_decide_eq_true_2 by apply Hx.
  - assert (forall acc, fold_left (fun hs (xd : string * bytes) => hs ++ ["sha256:" +:+ xd.1])
      (committedIn (wdisk w)) acc
      = acc ++ map (fun xd => "sha256:" +:+ xd.1) (committedIn (wdisk w))) as Hfold; [|by rewrite Hfold].
    induction (committedIn (wdisk w)) as [|xd l IH]; intros acc; simpl; [by rewrite app_nil_r|].
    by rewrite IH, <- app_assoc.
Qed.

Lemma TotalCachedBytes_ok w :
  reliable w -> cacheShape (wdisk w) ->
  TotalCachedBytes c w
  = (Ok (wrap64 (sumZ (map (fun xd => blen xd.2) (committedIn (wdisk w)))), None), w).
Proof.
  intros Hr HS. unfold TotalCachedBytes.
  rewrite (Walk_reliable addSize (fun t _ fi => if fiDir fi then t else add64 t (fiSize fi)));
    [|done|done|rewrite (key_chunksDir root c HL), (shape_dir _ HS); by eexists].
  do 3 f_equal. etrans; [apply (fold_committed (wdisk w) (fun t _ data => add64 t (blen data))
    (fun t _ fi => if fiDir fi then t else add64 t (fiSize fi))); [done|by intros t p fi ->|done]|].
  assert (forall acc, fold_left (fun t (xd : string * bytes) => add64 t (blen xd.2))
    (committedIn (wdisk w)) (wrap64 acc)
    = wrap64 (acc + sumZ (map (fun xd => blen xd.2) (committedIn (wdisk w))))) as Hfold.
  { induction (committedIn (wdisk w)) as [|xd l IH]; intros acc; simpl; [by rewrite Z.add_0_r|].
    unfold add64. rewrite wrap64_add_l, IH. f_equal. lia. }
  specialize (Hfold 0%Z). rewrite wrap64_id in Hfold by (unfold int64_range; lia). by rewrite Hfold.
Qed.

(** On a reliable disk [ListChunks] returns the name of every committed
    chunk exactly once and nothing else, and [TotalCachedBytes] is the sum of
    their sizes in [int64] arithmetic. *)
Theorem ListChunks_exact w (Hr : reliable w) (HR : storeReady root (wdisk w)) :
  exists hs total,
    ListChunks c w = (Ok (hs, None), w) /\ NoDup hs
    /\ (forall h, h ∈ hs <-> exists x, h = "sha256:" +:+ x /\ hexName x
                                        /\ is_Some (chunkOf root (wdisk w) x))
    /\ TotalCachedBytes c w = (Ok (wrap64 (sumZ total), None), w)
    /\ Forall2 (fun h n => exists x data, h = "sha256:" +:+ x
                             /\ chunkOf root (wdisk w) x = Some data /\ n = blen data) hs total.
Proof.
  pose proof (ready_shape _ HR) as HS.
  exists (map (fun xd => "sha256:" +:+ xd.1) (committedIn (wdisk w))),
    (map (fun xd => blen xd.2) (committedIn (wdisk w))).
  split; [by apply ListChunks_ok|]. split; [|split; [|split; [by apply TotalCachedBytes_ok|]]].
  - pose proof (NoDup_committedIn _ HS) as Hnd. apply (NoDup_fmap_2 (fun x => "sha256:" +:+ x)) in Hnd.
    by rewrite <- list_fmap_compose in Hnd.
  - intros h. rewrite list_elem_of_fmap. split.
    + intros ([x data] & -> & Hin). apply elem_of_committedIn in Hin as [Hx Hd]; [|done]. eauto.
    + intros (x & -> & Hx & [data Hd]). exists (x, data). split; [done|]. by apply elem_of_committedIn.
  - apply Forall2_fmap, Forall_Forall2_diag, Forall_forall. intros [x data] Hin.
    apply elem_of_committedIn in Hin as [Hx Hd]; [|done]. eauto.
Qed.

End listing.

(** ** Concrete stores *)

(** A codec to run [SaveManifest] with; nothing below reads a manifest back. *)
Definition demoCodec : ManifestCodec :=
  {| MarshalIndent := Marshal; Unmarshal := fun _ => Err (EText "not JSON") |}.

Definition emptyWorld : world unit := World (Disk ∅ ∅ ext4) [] [] 0 tt.

Lemma emptyDisk_vacant root : key root <> [] -> vacant root (Disk ∅ ∅ ext4).
Proof.
  intros Hroot. assert (forall k, k <> [] -> nodeAt (Disk ∅ ∅ ext4) k = None) as Hn by by intros [|].
  split.
  - split; intros k; [|intros Hk Hs]; destruct k; try done. by rewrite Hn in Hs; destruct Hs.
  - intros k Hp Hk. apply Hn. intros ->. by apply Hroot, (prefix_nil_inv (key root)).
  - intros j. by destruct (take j (key root)).
Qed.

Definition demoStore : ChunkStore unit := storeAt "/s".
Definition readyWorld : world unit := (NewChunkStore "/s" emptyWorld).2.

Lemma readyWorld_ready : storeReady "/s" (wdisk readyWorld).
Proof.
  destruct (NewChunkStore_ready "/s" ltac:(done) emptyWorld) as (d & Hn & _ & HR); [done| |].
  - by apply emptyDisk_vacant.
  - unfold readyWorld. by rewrite Hn.
Qed.

Definition abc : bytes := toBytes "abc".

(** The store of [readyWorld] with one chunk. *)
Definition abcWorld : world unit := (PutChunk demoStore abcHash abc readyWorld).2.

Lemma abcHash_good : goodHash abcHash.
Proof. assert (ComputeHash abc = abcHash) as <- by (vm_compute; reflexivity). apply ComputeHash_good. Qed.

Lemma storeStep_faults {D : Digest} {SS : SortSlice} {MC : ManifestCodec} (c : ChunkStore unit) fs w :
  storeStep c w (setFaults fs w).
Proof. by apply stepEnv. Qed.

(** A write that stops after two bytes, then a complete one. *)
Definition faultyPut : world unit :=
  (PutChunk demoStore abcHash abc
     (setFaults [] (PutChunk demoStore abcHash abc
        (setFaults [NoFault; NoFault; NoFault; Short 2 ENOSPC] readyWorld)).2)).2.

Lemma faultyPut_run : rtc (storeStep (MC:=demoCodec) demoStore) readyWorld faultyPut.
Proof.
  assert (wellNamed abcHash) as Hw by by apply goodHash_wellNamed, abcHash_good.
  unfold faultyPut, PutChunk.
  eapply rtc_l; [apply storeStep_faults|].
  eapply rtc_l; [apply (stepPut demoStore abcHash (abc, None)), Hw|].
  eapply rtc_l; [apply storeStep_faults|].
  apply rtc_once, (stepPut demoStore abcHash (abc, None)), Hw.
Qed.

Lemma store_serves_verified_witness :
  let get := GetChunkReader demoStore abcHash faultyPut in
  let read := readRest (HFile 3 0) get.2 in
  get.1 = Ok (HFile 3 0, 3%Z) /\ read.1 = Ok (abc, None) /\ ComputeHash abc = abcHash.
Proof.
  cbv zeta.
  assert ((GetChunkReader demoStore abcHash faultyPut).1 = Ok (HFile 3 0, 3%Z)) as Hg
    by (vm_compute; reflexivity).
  assert ((readRest (HFile 3 0) (GetChunkReader demoStore abcHash faultyPut).2).1 = Ok (abc, None)) as Hr
    by (vm_compute; reflexivity).
  split; [exact Hg|]. split; [exact Hr|].
  refine (store_serves_verified (MC:=demoCodec) "/s" demoStore (storeAt_layout "/s" _)
    emptyWorld faultyPut abcHash _ _ _ (abc, None) _ _ _ faultyPut_run _
    (io_result _ _ _ Hg) (io_result _ _ _ Hr) eq_refl).
  - done.
  - done.
  - by apply vacant_fresh, emptyDisk_vacant.
  - apply goodHash_wellNamed, abcHash_good.
Defined.

Lemma PutChunk_roundtrip_witness :
  exists d, PutChunk demoStore (ComputeHash abc) abc readyWorld = (Ok tt, setDisk d readyWorld)
            /\ storeReady "/s" d.
Proof.
  destruct (PutChunk_roundtrip "/s" demoStore (storeAt_layout "/s" ltac:(done)) readyWorld abc)
    as (d & x & _ & H & HR & _).
  - reflexivity.
  - apply readyWorld_ready.
  - exists d. split; [exact H|exact HR].
Defined.

(** One byte of the chunk has arrived before; the other two complete it. *)
Lemma resume_commit_witness :
  let h := "sha256:" +:+ strDrop 7 abcHash in
  exists d0 d d', AppendPartial demoStore h (take 1 abc, None) readyWorld = (Ok tt, setDisk d0 readyWorld)
    /\ partialOf "/s" d0 (strDrop 7 abcHash) = Some (take 1 abc)
    /\ AppendPartial demoStore h (drop 1 abc, None) (setDisk d0 readyWorld) = (Ok tt, setDisk d (setDisk d0 readyWorld))
    /\ CommitPartial demoStore h (setDisk d (setDisk d0 readyWorld)) = (Ok tt, setDisk d' (setDisk d0 readyWorld))
    /\ chunkOf "/s" d' (strDrop 7 abcHash) = Some abc.
Proof.
  intros h. assert (storeLayout (X:=unit) "/s" demoStore) as HL by by apply storeAt_layout.
  assert (hexName (strDrop 7 abcHash)) as Hx by (split; vm_compute; reflexivity).
  assert (partialOf "/s" (wdisk readyWorld) (strDrop 7 abcHash) = None) as Hnone by (vm_compute; reflexivity).
  destruct (AppendPartial_ok "/s" demoStore HL readyWorld (strDrop 7 abcHash) (take 1 abc) None eq_refl readyWorld_ready Hx)
    as (d0 & H0 & HR0 & _ & Hp0). rewrite Hnone in Hp0.
  destruct (resume_commit "/s" demoStore HL (setDisk d0 readyWorld) (strDrop 7 abcHash) (take 1 abc) (drop 1 abc))
    as (d & H1 & Hok & _).
  - reflexivity.
  - exact HR0.
  - exact Hx.
  - exact (f_equal (default []) Hp0).
  - destruct Hok as (d' & H2 & Hc); [vm_compute; reflexivity|]. exists d0, d, d'.
    split; [exact H0|]. split; [exact Hp0|]. split; [exact H1|]. split; [exact H2|]. exact (com_chunk _ _ _ _ _ Hc).
Defined.

Lemma ListChunks_exact_witness :
  exists hs, ListChunks demoStore readyWorld = (Ok (hs, None), readyWorld) /\ NoDup hs.
Proof.
  destruct (ListChunks_exact "/s" demoStore (storeAt_layout "/s" ltac:(done)) readyWorld)
    as (hs & total & H & Hn & _).
  - reflexivity.
  - apply readyWorld_ready.
  - exists hs. split; [exact H|exact Hn].
Defined.

(** ** Names that are not hexadecimal *)

(** Sixty-four bytes that leave the chunk directory. *)
Definition escapeName : string :=
  "sha256:../../../../../../../../../../../../../../../../../../etc/passwd".

Definition passwd : bytes := toBytes "root:x:0:0".

Definition etcWorld : world unit :=
  setDisk (setName ["etc"; "passwd"] (FileN 77) (setName ["etc"] DirN
    (setInode 77 (Inode passwd 420) (wdisk (NewChunkStore (X:=unit) "/var/lib/spider" emptyWorld).2))))
    emptyWorld.

(** C30. [parseHash] checks the length of a hash but not that it is
    hexadecimal, and the paths are built from it: there is a name it accepts
    for which [GetChunkReader] opens a file outside the store,
    [AppendPartial] appends to that file, and [CommitPartial] then deletes it. *)
Theorem hash_path_escape :
  exists h, (exists x, parseHash h = Ok x)
    /\ (exists f, let get := GetChunkReader (storeAt "/var/lib/spider") h etcWorld in
                  get.1 = Ok (f, blen passwd) /\ (readRest f get.2).1 = Ok (passwd, None))
    /\ let w1 := (AppendPartial (storeAt "/var/lib/spider") h (abc, None) etcWorld).2 in
       let w2 := (CommitPartial (storeAt "/var/lib/spider") h w1).2 in
       contentAt (wdisk w1) ["etc"; "passwd"] = Some (passwd ++ abc)
       /\ contentAt (wdisk w2) ["etc"; "passwd"] = None.
Proof.
  exists escapeName. split; [eexists; vm_compute; reflexivity|]. split.
  - exists (HFile 77 0). split; vm_compute; reflexivity.
  - split; vm_compute; reflexivity.
Qed.
