(* ===== verification/StoreRuns.v ===== *)
(** * The chunk store on a reliable disk, continued

    Runs of [HasChunk], [PutChunk] and [SaveManifest] when no system call fails:
    what the publisher and the engine rely on. *)

From S2P Require Import Prelude Digest GoPath Json Manifest GoFs Chunker ChunkStore.
Local Open Scope go_scope.

(** Reading a file on a reliable disk. *)
Lemma ReadFile_run {X} p data (w : world X) :
  reliable w -> contentAt (wdisk w) (key p) = Some data -> ReadFile p w = (Ok data, w).
Proof.
  intros Hr Hc. unfold contentAt in Hc. destruct (nodeAt (wdisk w) (key p)) as [[|i]|] eqn:E; try done. injection Hc as Hc.
  unfold ReadFile. rewrite (ioBind_ok _ _ w (HFile i 0) w) by (rewrite Open_reliable by done; unfold openK; by rewrite E).
  rewrite (ioBind_ok _ _ _ _ _ (readRest_reliable _ w Hr)).
  rewrite (ioBind_ok _ _ w tt w) by by rewrite ignore_eq, Close_reliable.
  cbn [contents]. by rewrite Hc.
Qed.

Section runs.
Context {D : Digest} {SS : SortSlice} {MC : ManifestCodec} {X : Type}.
Context (root : string) (c : ChunkStore X) (HL : storeLayout root c).
Implicit Types w : world X.

Lemma HasChunk_run w x :
  reliable w -> storeReady root (wdisk w) -> hexName x ->
  HasChunk c ("sha256:" +:+ x) w = (Ok (bool_decide (is_Some (chunkOf root (wdisk w) x))), w).
Proof.
  intros Hr HR Hx. destruct (chunkPath_good root c HL x Hx) as (q & Hq & Hk & _).
  unfold HasChunk. rewrite Hq. unfold chunkOf, contentAt.
  rewrite (ioBind_ok _ _ w (statK (key q) (wdisk w)).1 w)
    by by rewrite attempt_eq, Stat_reliable.
  rewrite Hk. unfold statK. destruct (nodeAt (wdisk w) (chunkKey root x)) as [[|i]|] eqn:E.
  - by destruct (ready_nodir _ _ HR x Hx) as [? _].
  - by rewrite bool_decide_eq_true_2 by eauto.
  - rewrite bool_decide_eq_false_2; [done|]. by intros [? ?].
Qed.

(** A chunk is put under its own hash. *)
Lemma PutChunk_committed w data :
  silentHook c -> reliable w -> storeReady root (wdisk w) ->
  exists d x, ComputeHash data = "sha256:" +:+ x /\ hexName x
    /\ PutChunk c (ComputeHash data) data w = (Ok tt, setDisk d w) /\ committed root x data (wdisk w) d.
Proof.
  intros Hc Hr HR. destruct (PutChunk_ok root c HL w data Hr HR) as (d & x & Hh & Hx & Hput & Hcom).
  exists d, x. split_and!; [done..| |done]. rewrite Hput. by apply afterCommit_silent.
Qed.

(** ** Saving a manifest *)

Lemma Validate_parse m : Validate m = Ok tt -> exists x, parseHash (ArtifactID m) = Ok x /\ hexName x.
Proof.
  intros Hv. apply Validate_iff, valid_id, ComputeID_shape in Hv as [d Hd].
  destruct (ComputeHash_good d) as (x & Hx & Hhex). exists x. split; [|done].
  apply parseHash_ok. split; [|apply Hhex]. rewrite Hd. exact Hx.
Qed.

Definition tmpKey (n : N) : list string := key root ++ ["tmp"; "manifest-" +:+ pretty n].
Definition manifestKey (x : string) : list string := key root ++ ["manifests"; x +:+ ".json"].

(** Everything but two names. *)
Record untouched (k1 k2 : list string) (d d' : disk) : Prop := {
  same_node : forall k, k <> k1 -> k <> k2 -> nodeAt d' k = nodeAt d k;
  same_data : forall k i, k <> k1 -> k <> k2 -> nodeAt d k = Some (FileN i) -> getInode d' i = getInode d i
}.

Lemma untouched_content k1 k2 d d' k :
  untouched k1 k2 d d' -> k <> k1 -> k <> k2 -> contentAt d' k = contentAt d k.
Proof.
  intros [Hn Hd] H1 H2. unfold contentAt. rewrite Hn by done.
  destruct (nodeAt d k) as [[|i]|] eqn:E; try done. by rewrite (Hd k).
Qed.

Lemma key_tmp n : key (Join [tmpDir c; "manifest-" +:+ pretty n]) = tmpKey n.
Proof.
  rewrite key_Join_names.
  - rewrite (layout_tmp _ _ HL), key_Join_names; [by unfold tmpKey; rewrite <- app_assoc|apply HL|names].
  - rewrite (layout_tmp _ _ HL). apply Join_nonempty, HL.
  - constructor; [|constructor]. apply isName_long.
    + by rewrite noSlash_app, noSlash_pretty.
    + rewrite str_length_app. simpl. lia.
Qed.

Lemma tmp_dir d : storeReady root d -> nodeAt d (key root ++ ["tmp"]) = Some DirN.
Proof.
  intros HR. assert (key root ++ ["tmp"] = take (S (length (key root))) (partialRoot root)) as ->.
  { unfold partialRoot. rewrite (app_assoc (key root) ["tmp"] ["partial"] : key root ++ ["tmp"; "partial"] = _).
    rewrite take_app_length'; [done|]. rewrite length_app. simpl. lia. }
  apply wf_prefix; [apply HR|rewrite (ready_partial _ _ HR); eauto|].
  unfold partialRoot. rewrite length_app. simpl. lia.
Qed.

Lemma createTemp_run draws w :
  reliable w -> storeReady root (wdisk w) ->
  (exists e, createTemp draws (tmpDir c) "manifest-" w = (Err e, w)
     /\ Forall (fun n => is_Some (nodeAt (wdisk w) (tmpKey n))) draws)
  \/ exists n rest, nodeAt (wdisk w) (tmpKey n) = None
     /\ createTemp draws (tmpDir c) "manifest-" w
        = (Ok (Join [tmpDir c; "manifest-" +:+ pretty n], HFile (freshIno (wdisk w)) 0),
           World (newFile (tmpKey n) 384 (wdisk w)) (faults w) rest (now w) (ext w)).
Proof.
  intros Hr HR. induction draws as [|n draws IH]; cbn [createTemp]; [left; eexists; by split|].
  rewrite (ioBind_ok _ _ w (nodeAt (wdisk w) (tmpKey n)) w) by by rewrite key_tmp.
  destruct (nodeAt (wdisk w) (tmpKey n)) as [nd|] eqn:E.
  - destruct IH as [(e & Hrun & Hall)|H]; [|by right]. left. exists e. split; [done|].
    constructor; [rewrite E; eauto|done].
  - right. exists n, draws. split; [done|].
    assert (parent (tmpKey n) = key root ++ ["tmp"]) as Hpar.
    { unfold tmpKey. change ["tmp"; "manifest-" +:+ pretty n] with (["tmp"] ++ ["manifest-" +:+ pretty n]).
      rewrite app_assoc. unfold parent. by rewrite removelast_last. }
    rewrite (ioBind_ok _ _ w (HFile (freshIno (wdisk w)) 0) (setDisk (newFile (tmpKey n) 384 (wdisk w)) w)); [done|].
    rewrite syscall_reliable by done. rewrite key_tmp. unfold openWriteK. by rewrite E, Hpar, tmp_dir.
Qed.

Lemma tmp_manifest_ne n x : tmpKey n <> manifestKey x.
Proof. unfold tmpKey, manifestKey. intros E%app_inv_head. discriminate. Qed.

(** The temporary file is written and moved into place, or removed. *)
(** The disk on which the temporary file holds [data]. *)
Definition tempDisk (n : N) (data : bytes) (d : disk) : disk :=
  writeInode (freshIno d) 0 data (newFile (tmpKey n) 384 d).

Lemma tmpKey_nonroot n : tmpKey n <> [].
Proof. unfold tmpKey. by destruct (key root). Qed.

Lemma manifestKey_nonroot x : manifestKey x <> [].
Proof. unfold manifestKey. by destruct (key root). Qed.

Lemma parent_manifestKey x : parent (manifestKey x) = key root ++ ["manifests"].
Proof.
  unfold manifestKey. change ["manifests"; x +:+ ".json"] with (["manifests"] ++ [x +:+ ".json"]).
  rewrite app_assoc. unfold parent. by rewrite removelast_last.
Qed.

Lemma nodeAt_tempDisk n data d k :
  nodeAt (tempDisk n data d) k = if bool_decide (tmpKey n = k) then Some (FileN (freshIno d)) else nodeAt d k.
Proof. unfold tempDisk, writeInode. by rewrite nodeAt_setInode, nodeAt_newFile by apply tmpKey_nonroot. Qed.

Lemma data_tempDisk n data d : idata (getInode (tempDisk n data d) (freshIno d)) = data.
Proof.
  unfold tempDisk, writeInode. rewrite getInode_setInode, bool_decide_eq_true_2 by done. cbn [idata].
  rewrite getInode_newFile. exact (pwrite_end data []).
Qed.

Lemma untouched_tempDisk n x data d : untouched (tmpKey n) (manifestKey x) d (tempDisk n data d).
Proof.
  split.
  - intros k H1 _. by rewrite nodeAt_tempDisk, bool_decide_eq_false_2.
  - intros k j H1 _ Hj. unfold tempDisk, writeInode. rewrite getInode_setInode.
    rewrite bool_decide_eq_false_2; [by eapply getInode_newFile_ne|]. intros <-. by apply freshIno_node in Hj.
Qed.

(** The rename succeeds when its target can be a file. *)
Lemma rename_tempDisk n x data d :
  nodeAt d (key root ++ ["manifests"]) = Some DirN -> nodeAt d (manifestKey x) <> Some DirN ->
  renameK (tmpKey n) (manifestKey x) (tempDisk n data d)
  = (Ok tt, setName (manifestKey x) (FileN (freshIno d)) (delName (tmpKey n) (tempDisk n data d))).
Proof.
  intros Hdir Hnodir. apply renameK_moves.
  - by rewrite nodeAt_tempDisk, bool_decide_eq_true_2.
  - rewrite nodeAt_tempDisk, bool_decide_eq_false_2 by apply tmp_manifest_ne. done.
  - rewrite nodeAt_tempDisk, bool_decide_eq_false_2 by apply tmp_manifest_ne. apply freshIno_node.
  - rewrite parent_manifestKey, nodeAt_tempDisk, bool_decide_eq_false_2; [done|].
    unfold tmpKey. intros E%app_inv_head. discriminate.
Qed.

Lemma saveTemp_run w n x data :
  let i := freshIno (wdisk w) in
  let name := Join [tmpDir c; "manifest-" +:+ pretty n] in
  let dest := Join [mfstDir c; x +:+ ".json"] in
  let w1 := setDisk (newFile (tmpKey n) 384 (wdisk w)) w in
  reliable w -> storeReady root (wdisk w) -> hexName x -> nodeAt (wdisk w) (tmpKey n) = None ->
  exists r d,
    (do r <- attempt
       (do wr <- attempt (Write (HFile i 0) data);
        match wr with
        | Err e => do_ ignore (Close (HFile i 0)); ioErr e
        | Ok f => do_ Close f; Rename name dest
        end);
     do_ ignore (Remove name);
     liftRes r) w1 = (r, setDisk d w)
    /\ untouched (tmpKey n) (manifestKey x) (wdisk w) d
    /\ (nodeAt (wdisk w) (key root ++ ["manifests"]) = Some DirN ->
        nodeAt (wdisk w) (manifestKey x) <> Some DirN ->
        r = Ok tt /\ contentAt d (manifestKey x) = Some data).
Proof.
  intros i name dest w1 Hr HR Hx Hfree. set (d0 := wdisk w) in *. set (d2 := tempDisk n data d0).
  pose proof (tmpKey_nonroot n) as Hne. pose proof (manifestKey_nonroot x) as Hne'.
  assert (key name = tmpKey n) as Hkn by apply key_tmp.
  assert (key dest = manifestKey x) as Hkd by by apply key_manifest.
  assert (nodeAt d2 (tmpKey n) = Some (FileN i)) as Hi2 by (unfold d2; by rewrite nodeAt_tempDisk, bool_decide_eq_true_2).
  destruct (untouched_tempDisk n x data d0) as [Hn2 Hd2].
  assert (attempt (do wr <- attempt (Write (HFile i 0) data);
      match wr with
      | Err e => do_ ignore (Close (HFile i 0)); ioErr e
      | Ok f => do_ Close f; Rename name dest
      end) w1
    = (Ok (renameK (tmpKey n) (manifestKey x) d2).1, setDisk (renameK (tmpKey n) (manifestKey x) d2).2 w)) as Hren.
  { rewrite attempt_eq.
    rewrite (ioBind_ok _ _ w1 (Ok (HFile i (0 + length data))) (setDisk d2 w)) by by rewrite attempt_eq, Write_reliable.
    rewrite (ioBind_ok _ _ _ _ _ (Close_reliable _ (setDisk d2 w) Hr)).
    unfold Rename. rewrite syscall_reliable by done. rewrite Hkn, Hkd. done. }
  rewrite (ioBind_ok _ _ _ _ _ Hren).
  destruct (renameK_cases (tmpKey n) (manifestKey x) d2) as [Hsame|(j & Hj & _ & Hnd & Hnf & _ & Hmv)].
  - rewrite Hsame. exists (renameK (tmpKey n) (manifestKey x) d2).1, (delName (tmpKey n) d2). split_and!.
    + rewrite (ioBind_ok _ _ _ tt (setDisk (delName (tmpKey n) d2) w)); [done|].
      rewrite ignore_eq, (Remove_file name _ i) by (rewrite ?Hkn; done). by rewrite Hkn.
    + split; [|done]. intros k H1 H2. rewrite nodeAt_delName, bool_decide_eq_false_2 by done. by apply Hn2.
    + intros Hdir Hnodir. exfalso. unfold d2 in Hsame. rewrite rename_tempDisk in Hsame by done. fold d2 in Hsame.
      apply (f_equal (fun d => nodeAt d (tmpKey n))) in Hsame. cbn [snd] in Hsame.
      rewrite Hi2, nodeAt_setName, nodeAt_delName, bool_decide_eq_false_2 in Hsame by (try done; apply not_eq_sym, tmp_manifest_ne).
      by rewrite bool_decide_eq_true_2 in Hsame.
  - rewrite Hi2 in Hj. injection Hj as <-. rewrite Hmv.
    exists (Ok tt), (setName (manifestKey x) (FileN i) (delName (tmpKey n) d2)). split_and!.
    + rewrite (ioBind_ok _ _ _ tt (setDisk (setName (manifestKey x) (FileN i) (delName (tmpKey n) d2)) w)); [done|].
      rewrite ignore_eq, Remove_missing; [done..|]. rewrite Hkn. simpl. rewrite nodeAt_setName, nodeAt_delName by done.
      rewrite bool_decide_eq_false_2 by apply not_eq_sym, tmp_manifest_ne. by rewrite bool_decide_eq_true_2.
    + split; [|done]. intros k H1 H2.
      rewrite nodeAt_setName, nodeAt_delName, !bool_decide_eq_false_2 by done. by apply Hn2.
    + intros _ _. split; [done|]. unfold contentAt. rewrite nodeAt_setName, bool_decide_eq_true_2 by done.
      exact (f_equal Some (data_tempDisk n data d0)).
Qed.

(** Which directory entries [SaveManifest] needs. *)
Definition manifestSlot (x : string) (d : disk) : Prop :=
  nodeAt d (key root ++ ["manifests"]) = Some DirN /\ nodeAt d (manifestKey x) <> Some DirN.

Lemma ready_untouched n x d d' :
  storeReady root d -> CacheInv root d' -> untouched (tmpKey n) (manifestKey x) d d' -> storeReady root d'.
Proof.
  intros [HI Hc Hp Hn] HI' [Hsame _].
  assert (forall k l, k = key root ++ l -> l <> ["tmp"; "manifest-" +:+ pretty n] ->
    l <> ["manifests"; x +:+ ".json"] -> nodeAt d' k = nodeAt d k) as Hk.
  { intros k l -> H1 H2. apply Hsame; unfold tmpKey, manifestKey; by intros E%app_inv_head. }
  split.
  - done.
  - by rewrite (Hk _ ["chunks"; "sha256"]).
  - rewrite (Hk _ ["tmp"; "partial"]); [done..|].
    intros E. simplify_eq/=.
  - intros y Hy. rewrite (Hk _ ["chunks"; "sha256"; strTake 2 y; y]), (Hk _ ["tmp"; "partial"; y]);
      [by apply Hn|..]; try done; unfold partialKey, partialRoot, chunkKey, chunkRoot; by rewrite <- app_assoc.
Qed.

(** A valid manifest is stored under its id and nothing else of the store
    changes, when the directory of manifests is there and [os.CreateTemp] draws
    a free name. *)
Lemma SaveManifest_run w m x data :
  reliable w -> storeReady root (wdisk w) -> Validate m = Ok tt -> parseHash (ArtifactID m) = Ok x ->
  MarshalIndent m = Ok data -> manifestSlot x (wdisk w) ->
  Exists (fun n => nodeAt (wdisk w) (tmpKey n) = None) (rands w) ->
  exists n rest d, SaveManifest c m w = (Ok tt, World d (faults w) rest (now w) (ext w))
    /\ storeReady root d /\ untouched (tmpKey n) (manifestKey x) (wdisk w) d
    /\ contentAt d (manifestKey x) = Some data.
Proof.
  intros Hr HR Hv Hp Hm [Hs1 Hs2] Hrand. pose proof (Validate_hexName m x Hv Hp) as Hx.
  destruct (createTemp_run (rands w) w Hr HR) as [(e & _ & Hall)|(n & rest & Hfree & Hct)].
  { apply Exists_exists in Hrand as (n & Hn & Hf). rewrite Forall_forall in Hall.
    destruct (Hall n Hn). congruence. }
  set (w0 := World (wdisk w) (faults w) rest (now w) (ext w)).
  destruct (saveTemp_run w0 n x data Hr HR Hx Hfree) as (r & d & Hrun & Hun & Hok).
  destruct (Hok Hs1 Hs2) as [-> Hcont].
  assert (SaveManifest c m w = (Ok tt, World d (faults w) rest (now w) (ext w))) as Hsave.
  { unfold SaveManifest. rewrite Hv.
    rewrite (ioBind_ok _ _ w tt w), Hp by done. rewrite bind_res_ok, Hm.
    rewrite (ioBind_ok _ _ w data w) by done. cbv zeta.
    rewrite (ioBind_ok (CreateTemp (tmpDir c) "manifest-") _ w _ _ Hct). exact Hrun. }
  exists n, rest, d. split_and!; [done| |done..]. eapply ready_untouched; [exact HR| |exact Hun].
  pose proof (keeps_SaveManifest root c HL m w (ready_inv _ _ HR)) as HI. by rewrite Hsave in HI.
Qed.

(** Whether it succeeds or not, [SaveManifest] touches nothing else. *)
Lemma SaveManifest_frame w m x :
  reliable w -> storeReady root (wdisk w) -> Validate m = Ok tt -> parseHash (ArtifactID m) = Ok x ->
  exists r n rest d, SaveManifest c m w = (r, World d (faults w) rest (now w) (ext w))
    /\ storeReady root d /\ untouched (tmpKey n) (manifestKey x) (wdisk w) d.
Proof.
  intros Hr HR Hv Hp. pose proof (Validate_hexName m x Hv Hp) as Hx.
  assert (exists r n rest d, SaveManifest c m w = (r, World d (faults w) rest (now w) (ext w))
    /\ untouched (tmpKey n) (manifestKey x) (wdisk w) d) as (r & n & rest & d & Hrun & Hun).
  2: { exists r, n, rest, d. split_and!; [done| |done]. eapply ready_untouched; [exact HR| |exact Hun].
       pose proof (keeps_SaveManifest root c HL m w (ready_inv _ _ HR)) as HI. by rewrite Hrun in HI. }
  assert (forall err : error, (Err err, w) = (Err err : res unit, World (wdisk w) (faults w) (rands w) (now w) (ext w))
    /\ untouched (tmpKey 0) (manifestKey x) (wdisk w) (wdisk w)) as Hsame by (intros err; split; [by destruct w|by split]).
  unfold SaveManifest. rewrite Hv, (ioBind_ok _ _ w tt w), Hp by done. rewrite bind_res_ok.
  destruct (MarshalIndent m) as [data|err]; [|by eexists _, 0%N, _, _; apply Hsame].
  rewrite (ioBind_ok _ _ w data w) by done. cbv zeta.
  destruct (createTemp_run (rands w) w Hr HR) as [(err & Hct & _)|(n & rest & Hfree & Hct)].
  { rewrite (ioBind_err (CreateTemp (tmpDir c) "manifest-") _ w _ _ Hct). by eexists _, 0%N, _, _; apply Hsame. }
  rewrite (ioBind_ok (CreateTemp (tmpDir c) "manifest-") _ w _ _ Hct).
  destruct (saveTemp_run (World (wdisk w) (faults w) rest (now w) (ext w)) n x data Hr HR Hx Hfree) as (r & d & Hrun & Hun & _).
  exists r, n, rest, d. split; [exact Hrun|exact Hun].
Qed.

(** A manifest on disk is read back through [ParseManifest]. *)
Lemma GetManifest_run w h x data :
  reliable w -> storeReady root (wdisk w) -> hexName x -> parseHash h = Ok x ->
  contentAt (wdisk w) (manifestKey x) = Some data ->
  GetManifest c h w = (ParseManifest data, w).
Proof.
  intros Hr HR Hx Hp Hc. unfold GetManifest. rewrite Hp, bind_res_ok.
  rewrite (ioBind_ok _ _ w data w); [by unfold liftRes|]. apply ReadFile_run; [done|].
  by rewrite (key_manifest root c HL x Hx).
Qed.

(** A stored chunk is valid when its size is the declared one. *)
Lemma HasValidCommittedChunk_run w x n :
  reliable w -> storeReady root (wdisk w) -> hexName x ->
  HasValidCommittedChunk c ("sha256:" +:+ x) n w
  = (Ok match chunkOf root (wdisk w) x with Some b => (n <=? 0)%Z || (blen b =? n)%Z | None => false end, w).
Proof.
  intros Hr HR Hx. unfold HasValidCommittedChunk. rewrite (ioBind_ok _ _ _ _ _ (HasChunk_run w x Hr HR Hx)).
  destruct (chunkPath_good root c HL x Hx) as (q & Hq & Hk & _).
  unfold chunkOf, contentAt. destruct (nodeAt (wdisk w) (chunkKey root x)) as [[|i]|] eqn:E; try done.
  cbn [is_Some]. rewrite bool_decide_eq_true_2 by eauto. simpl. destruct (n <=? 0)%Z; [done|].
  rewrite (ioBind_ok _ _ w (Some (blen (idata (getInode (wdisk w) i)))) w); [done|].
  unfold CommittedChunkSize. rewrite Hq. rewrite (ioBind_ok _ _ w (statK (key q) (wdisk w)).1 w)
    by by rewrite attempt_eq, Stat_reliable.
  rewrite Hk. unfold statK. by rewrite E.
Qed.

(** ** Changes to one chunk *)

(** Apart from the chunks and the partials. *)
Definition offStore (k : list string) : Prop :=
  ~ chunkRoot root `prefix_of` k /\ ~ partialRoot root `prefix_of` k.

(** A stored chunk has the hash it is stored under. *)
Lemma chunkOf_hash d x data :
  storeReady root d -> hexName x -> chunkOf root d x = Some data -> ComputeHash data = "sha256:" +:+ x.
Proof.
  intros HR Hx Hd. unfold chunkOf, contentAt in Hd.
  destruct (nodeAt d (chunkKey root x)) as [[|i]|] eqn:E; simplify_eq.
  destruct (inv_chunk _ _ (ready_inv _ _ HR) _ i (chunkKey_under root x) E) as (y & _ & Hy & Hh).
  by apply chunkKey_inj in Hy as <-.
Qed.

(** The names [SaveManifest] uses. *)
Lemma offStore_rest l :
  (forall t, l <> "chunks" :: t) -> (forall t, l <> "tmp" :: "partial" :: t) -> offStore (key root ++ l).
Proof.
  intros H1 H2. split; intros [t Ht]; unfold chunkRoot, partialRoot in Ht; rewrite <- app_assoc in Ht;
    apply app_inv_head in Ht; simpl in Ht; naive_solver.
Qed.

Lemma offStore_tmp n : offStore (tmpKey n).
Proof. apply offStore_rest; intros t E; simplify_eq/=. Qed.

(** Only the partial and the chunk of [x] change. *)
Record onlyChunk (x : string) (d d' : disk) : Prop := {
  oc_ready : storeReady root d';
  oc_partial : forall y, y <> x -> partialOf root d' y = partialOf root d y;
  oc_chunk : forall y, y <> x -> chunkOf root d' y = chunkOf root d y;
  oc_node : forall k, offStore k -> nodeAt d' k = nodeAt d k;
  oc_content : forall k, offStore k -> contentAt d' k = contentAt d k
}.

Lemma onlyChunk_refl x d : storeReady root d -> onlyChunk x d d.
Proof. by split. Qed.

Lemma onlyChunk_trans x d1 d2 d3 : onlyChunk x d1 d2 -> onlyChunk x d2 d3 -> onlyChunk x d1 d3.
Proof.
  intros [R1 P1 C1 N1 E1] [R2 P2 C2 N2 E2].
  split; [done|..]; intros y Hy; rewrite ?P2, ?C2, ?N2, ?E2 by done; auto.
Qed.

Lemma offStore_ne k x : offStore k -> k <> partialKey root x /\ k <> chunkKey root x.
Proof. intros [H1 H2]. split; intros ->; [apply H2; by eexists|apply H1, chunkKey_under]. Qed.

Lemma onlyChunk_frame x d d' : storeReady root d' -> frame (partialKey root x) d d' -> onlyChunk x d d'.
Proof.
  intros HR Hf. split; [done|..].
  - intros y Hy. apply (contentAt_frame _ _ _ _ Hf). by intros E%partialKey_inj.
  - intros y _. apply (contentAt_frame _ _ _ _ Hf). symmetry. apply partial_ne_chunk.
  - intros k Hk. apply (frame_node _ _ _ Hf). by apply offStore_ne.
  - intros k Hk. apply (contentAt_frame _ _ _ _ Hf). by apply offStore_ne.
Qed.

Lemma onlyChunk_committed x data d d' : committed root x data d d' -> onlyChunk x d d'.
Proof.
  intros [HR _ _ Ho Hn]. split; [done|..].
  - intros y Hy. apply Ho; [by intros E%partialKey_inj|apply partial_ne_chunk].
  - intros y Hy. apply Ho; [apply not_eq_sym, partial_ne_chunk|by intros E%chunkKey_inj].
  - intros k Hk. apply Hn; [apply Hk|by apply offStore_ne].
  - intros k Hk. by apply Ho; apply offStore_ne.
Qed.

Lemma PartialSize_run w x :
  reliable w -> storeReady root (wdisk w) -> hexName x ->
  PartialSize c ("sha256:" +:+ x) w = (Ok (blen (default [] (partialOf root (wdisk w) x))), w).
Proof.
  intros Hr HR Hx. destruct (partialPath_good root c HL x Hx) as (p & Hp & Hk & _).
  unfold PartialSize. rewrite Hp. unfold partialOf, contentAt.
  rewrite (ioBind_ok _ _ w (statK (key p) (wdisk w)).1 w) by by rewrite attempt_eq, Stat_reliable.
  rewrite Hk. unfold statK. destruct (nodeAt (wdisk w) (partialKey root x)) as [[|i]|] eqn:E; [|done|done].
  by destruct (ready_nodir _ _ HR x Hx) as [_ ?].
Qed.

End runs.

(** ** What the store leaves alone *)

(** A property of the disk that every operation of a download keeps, whatever
    fails. *)
Class StoreKeeps {D : Digest} {SS : SortSlice} {MC : ManifestCodec} {X : Type} (c : ChunkStore X) (P : disk -> Prop) := {
  sk_discard : forall h, wellNamed h -> keeps P (DiscardPartial c h);
  sk_append : forall h r, wellNamed h -> keeps P (AppendPartial c h r);
  sk_commit : forall h, wellNamed h -> keeps P (CommitPartial c h);
  sk_save : forall m, keeps P (SaveManifest c m)
}.

Section keeps.
Context {D : Digest} {SS : SortSlice} {MC : ManifestCodec} {X : Type}.
Context (root : string) (c : ChunkStore X) (HL : storeLayout root c).
Context (Hhook : forall fn, onCommit c = Some fn -> diskless fn).

#[export] Instance StoreKeeps_inv : StoreKeeps c (CacheInv root).
Proof.
  split.
  - intros h _. by apply (keeps_DiscardPartial root c).
  - intros h r Hh. by apply (keeps_AppendPartial root c HL).
  - intros h _. by apply (keeps_CommitPartial root c HL Hhook).
  - intros m. by apply (keeps_SaveManifest root c HL).
Qed.

(** No file at the keys of [S]. *)
Definition noFileAt (S : list string -> Prop) (d : disk) : Prop :=
  wfDisk d /\ forall k i, S k -> nodeAt d k <> Some (FileN i).

Context (S : list string -> Prop) (HS : forall k, S k -> ~ key root `prefix_of` k).

Lemma noFileAt_setDir d k :
  noFileAt S d -> nodeAt d k = None -> nodeAt d (parent k) = Some DirN -> noFileAt S (setName k DirN d).
Proof.
  intros [Hw Hn] Hk Hp. assert (k <> []) as Hne by by eapply nodeAt_none_nonroot. split; [by apply wf_setDir|].
  intros k' i Hs. rewrite nodeAt_setName by done. case_bool_decide; [done|by apply Hn].
Qed.

Lemma noFileAt_remove d k : noFileAt S d -> noFileAt S (removeK k d).2.
Proof.
  intros [Hw Hn]. split; [by apply wf_removeK|]. intros k' i Hs.
  destruct (removeK_cases k d) as [->|(Hne & -> & _)]; [by apply Hn|].
  simpl. rewrite nodeAt_delName by done. case_bool_decide; [done|by apply Hn].
Qed.

Lemma noFileAt_rename d k k' : key root `prefix_of` k' -> noFileAt S d -> noFileAt S (renameK k k' d).2.
Proof.
  intros Hk [Hw Hn]. split; [by apply wf_renameK|]. intros k0 i Hs.
  destruct (renameK_cases k k' d) as [->|(j & Hj & _ & Hnd & _ & _ & ->)]; [by apply Hn|]. simpl.
  rewrite nodeAt_setName by (intros ->; done). case_bool_decide; [subst; by destruct (HS k0 Hs)|].
  rewrite nodeAt_delName by by eapply nodeAt_file_nonroot. case_bool_decide; [done|by apply Hn].
Qed.

Lemma noFileAt_open trunc perm k d : key root `prefix_of` k -> noFileAt S d -> noFileAt S (openWriteK trunc perm k d).2.
Proof.
  intros Hk [Hw Hn]. unfold openWriteK. destruct (nodeAt d k) as [[|i]|] eqn:E; [done| |].
  - destruct trunc; simpl; [|done]. split; [by apply wf_setInode|done].
  - destruct (nodeAt d (parent k)) as [[|i]|] eqn:Ep; simpl; try done.
    assert (k <> []) as Hne by by eapply nodeAt_none_nonroot. change (noFileAt S (newFile k perm d)).
    split; [by apply wf_newFile|]. intros k' i Hs. rewrite nodeAt_newFile by done.
    case_bool_decide; [subst; by destruct (HS k' Hs)|by apply Hn].
Qed.

Lemma keeps_noFileAt_Write h b : keeps (X:=X) (noFileAt S) (Write h b).
Proof.
  intros w [Hw Hn]. unfold Write. destruct h as [|i off]; [done|].
  assert (forall b', noFileAt S (writeInode i off b' (wdisk w))) as H
    by (intros b'; split; [by apply wf_setInode|done]).
  destruct (faults w) as [|[|e|n e] fs]; simpl; try done; apply H.
Qed.

Lemma keeps_noFileAt_MkdirAll p : keeps (X:=X) (noFileAt S) (MkdirAll p).
Proof. apply keeps_MkdirAll. intros k d. apply noFileAt_setDir. Qed.

Lemma keeps_noFileAt_Remove p : keeps (X:=X) (noFileAt S) (Remove p).
Proof. apply keeps_syscall. intros d. apply noFileAt_remove. Qed.

#[local] Hint Resolve keeps_noFileAt_Write keeps_noFileAt_MkdirAll keeps_noFileAt_Remove : go.

Lemma keeps_noFileAt_Rename p q : key root `prefix_of` key q -> keeps (X:=X) (noFileAt S) (Rename p q).
Proof. intros Hq. apply keeps_syscall. intros d. by apply noFileAt_rename. Qed.

Lemma keeps_noFileAt_copyTo h r : keeps (X:=X) (noFileAt S) (copyTo h r).
Proof. unfold copyTo. apply keeps_bind; [auto with go|]. intros h'. destruct (r.2); auto with go. Qed.

Lemma keeps_noFileAt_Discard h : keeps (noFileAt S) (DiscardPartial c h).
Proof.
  unfold DiscardPartial. apply keeps_bind; [auto with go|]. intros p.
  apply keeps_bind; [auto with go|]. intros [?|e]; [|destruct (isNotExist e)]; auto with go.
Qed.

Lemma keeps_noFileAt_Append h r : wellNamed h -> keeps (noFileAt S) (AppendPartial c h r).
Proof.
  intros [(e & He)|(x & Hx & -> & Hn)]%wellNamed_cases; unfold AppendPartial.
  { rewrite He, bind_res_err. auto with go. }
  destruct (partialPath_good root c HL x Hn) as (p & Hp & Hk & _). rewrite Hx, Hp, !bind_res_ok.
  apply keeps_bind; [auto with go|intros _].
  apply keeps_bind; [|intros f].
  { apply keeps_wrapErr, keeps_syscall. intros d. apply noFileAt_open. rewrite Hk.
    unfold partialKey, partialRoot. rewrite <- app_assoc. by eexists. }
  apply keeps_bind; [apply keeps_attempt, keeps_noFileAt_copyTo|].
  intros [f'|e]; [|by apply keeps_bind; auto with go].
  apply keeps_bind; [auto with go|]. intros [?|e]; [auto with go|by apply keeps_bind; auto with go].
Qed.

Lemma keeps_noFileAt_Commit h : wellNamed h -> keeps (noFileAt S) (CommitPartial c h).
Proof.
  intros [(e & He)|(x & Hx & -> & Hn)]%wellNamed_cases; unfold CommitPartial.
  { rewrite He, bind_res_err. auto with go. }
  destruct (partialPath_good root c HL x Hn) as (p & Hp & _).
  destruct (chunkPath_good root c HL x Hn) as (q & Hq & Hk & _). rewrite Hx, Hp, Hq, !bind_res_ok.
  apply keeps_bind; [auto with go|intros f]. apply keeps_bind; [auto with go|intros r].
  apply keeps_bind; [auto with go|intros _]. apply keeps_bind; [auto with go|intros [actual n]].
  destruct (negb _); [apply keeps_bind; auto with go|].
  apply keeps_bind; [auto with go|intros _].
  apply keeps_bind; [apply keeps_wrapErr, keeps_noFileAt_Rename|intros _].
  { rewrite Hk. unfold chunkKey, chunkRoot. rewrite <- app_assoc. by eexists. }
  destruct (onCommit c) as [fn|] eqn:Ef; [|auto with go].
  apply keeps_bind; [auto with go|]. intros st. apply keeps_ignore. intros w Hw. by rewrite (Hhook fn eq_refl).
Qed.

Lemma keeps_noFileAt_Save m : keeps (noFileAt S) (SaveManifest c m).
Proof.
  unfold SaveManifest. destruct (Validate m) as [[]|e] eqn:Ev; [|by intros w].
  apply keeps_bind; [auto with go|intros _].
  destruct (parseHash (ArtifactID m)) as [x|e] eqn:Ex; [|by intros w].
  rewrite bind_res_ok. pose proof (Validate_hexName m x Ev Ex) as Hx.
  apply keeps_bind; [auto with go|intros data]. cbv zeta.
  apply keeps_bind.
  { intros w. unfold CreateTemp. generalize (rands w) as draws. intros draws. revert w.
    induction draws as [|n draws IH]; cbn [createTemp]; [by intros w|]. intros w Hw.
    rewrite (ioBind_ok _ _ w (nodeAt (wdisk w) (key (Join [tmpDir c; "manifest-" +:+ pretty n]))) w) by done.
    destruct (nodeAt _ _); [by apply IH|]. revert w Hw. apply keeps_bind; [|by intros h w].
    apply keeps_syscall. intros d. apply noFileAt_open. rewrite (key_tmp root c HL). by eexists. }
  intros [name h]. apply keeps_bind.
  - apply keeps_attempt, keeps_bind; [auto with go|]. intros [f|e]; [|apply keeps_bind; auto with go].
    apply keeps_bind; [auto with go|intros _]. apply keeps_noFileAt_Rename.
    rewrite (key_manifest root c HL) by done. by eexists.
  - intros r. apply keeps_bind; auto with go.
Qed.

#[export] Instance StoreKeeps_noFileAt : StoreKeeps c (noFileAt S).
Proof.
  split; auto using keeps_noFileAt_Discard, keeps_noFileAt_Append, keeps_noFileAt_Commit, keeps_noFileAt_Save.
Qed.

End keeps.

(** ** Queries change nothing *)

Section queries.
Context {D : Digest} {SS : SortSlice} {MC : ManifestCodec} {X : Type} (c : ChunkStore X) (P : disk -> Prop).

Lemma keeps_PartialSize h : keeps P (PartialSize c h).
Proof. unfold PartialSize. destruct (partialPath _ h); [|auto with go]. apply keeps_bind; auto with go. Qed.

Lemma keeps_HasChunk h : keeps P (HasChunk c h).
Proof. unfold HasChunk. destruct (chunkPath _ h); [|auto with go]. apply keeps_bind; auto with go. Qed.

Lemma keeps_CommittedChunkSize h : keeps P (CommittedChunkSize c h).
Proof. unfold CommittedChunkSize. destruct (chunkPath _ h); [|auto with go]. apply keeps_bind; auto with go. Qed.

Lemma keeps_HasValidCommittedChunk h n : keeps P (HasValidCommittedChunk c h n).
Proof.
  unfold HasValidCommittedChunk. apply keeps_bind; [apply keeps_HasChunk|]. intros [|]; simpl; [|auto with go].
  destruct (n <=? 0)%Z; [auto with go|]. apply keeps_bind; [apply keeps_CommittedChunkSize|auto with go].
Qed.

End queries.

(** ** Calls of the store leave the other components alone *)

Section extSame.
Context {D : Digest} {SS : SortSlice} {MC : ManifestCodec} {X : Type} (c : ChunkStore X).
Context (Hhook : forall fn h z, onCommit c = Some fn -> extSame (fn h z)).

Lemma extSame_PartialSize h : extSame (PartialSize c h).
Proof. unfold PartialSize. destruct (partialPath c h); auto with go. Qed.

Lemma extSame_HasChunk h : extSame (HasChunk c h).
Proof. unfold HasChunk. destruct (chunkPath c h); auto with go. Qed.

Lemma extSame_HasValidCommittedChunk h n : extSame (HasValidCommittedChunk c h n).
Proof.
  unfold HasValidCommittedChunk. apply extSame_bind; [apply extSame_HasChunk|]. intros [|]; simpl; [|auto with go].
  destruct (n <=? 0)%Z; [auto with go|]. apply extSame_bind; [|auto with go].
  unfold CommittedChunkSize. destruct (chunkPath c h); auto with go.
Qed.

Lemma extSame_DiscardPartial h : extSame (DiscardPartial c h).
Proof.
  unfold DiscardPartial. apply extSame_bind; [auto with go|]. intros p. apply extSame_bind; [auto with go|].
  intros [?|e]; [auto with go|destruct (isNotExist e); auto with go].
Qed.

Lemma extSame_AppendPartial h r : extSame (AppendPartial c h r).
Proof.
  unfold AppendPartial. apply extSame_bind; [auto with go|intros _]. apply extSame_bind; [auto with go|intros p].
  apply extSame_bind; [auto with go|intros _]. apply extSame_bind; [auto with go|intros f].
  apply extSame_bind; [auto with go|]. intros [f'|e]; [|auto with go].
  apply extSame_bind; [auto with go|]. intros [?|e]; auto with go.
Qed.

Lemma extSame_CommitPartial h : extSame (CommitPartial c h).
Proof.
  unfold CommitPartial. apply extSame_bind; [auto with go|intros _]. apply extSame_bind; [auto with go|intros p].
  apply extSame_bind; [auto with go|intros f]. apply extSame_bind; [auto with go|intros r].
  apply extSame_bind; [auto with go|intros _]. apply extSame_bind; [auto with go|intros [actual n]].
  destruct (negb _); [auto with go|].
  apply extSame_bind; [auto with go|intros q]. apply extSame_bind; [auto with go|intros _].
  apply extSame_bind; [auto with go|intros _]. destruct (onCommit c) as [fn|]; [|auto with go].
  apply extSame_bind; [auto with go|]. intros st. by apply extSame_ignore, Hhook.
Qed.

Lemma extSame_SaveManifest m : extSame (SaveManifest c m).
Proof.
  unfold SaveManifest. apply extSame_bind; [auto with go|intros _]. apply extSame_bind; [auto with go|intros x].
  apply extSame_bind; [auto with go|intros data]. cbv zeta. apply extSame_bind; [auto with go|intros [name h]].
  apply extSame_bind; [|auto with go]. apply extSame_attempt, extSame_bind; [auto with go|].
  intros [f|e]; auto with go.
Qed.

End extSame.

(** Of a commit the other components see the hook. *)
Lemma bind_ext {X A B} (J : X -> Prop) (m : IO X A) (k : A -> IO X B) w :
  extSame m -> (forall a w', J (ext w') -> J (ext (k a w').2)) -> J (ext w) -> J (ext (ioBind m k w).2).
Proof.
  intros Hm Hk Hw. unfold ioBind. specialize (Hm w). destruct (m w) as [[a|e] w']; simpl in *; [apply Hk|]; by rewrite Hm.
Qed.

Lemma CommitPartial_ext {D : Digest} {SS : SortSlice} {MC : ManifestCodec} {X} (c : ChunkStore X) (J : X -> Prop) h w :
  (forall fn z w', onCommit c = Some fn -> J (ext w') -> J (ext (fn h z w').2)) ->
  J (ext w) -> J (ext (CommitPartial c h w).2).
Proof.
  intros Hhook. unfold CommitPartial.
  apply bind_ext; [auto with go|intros _ w1]. apply bind_ext; [auto with go|intros p w2].
  apply bind_ext; [auto with go|intros f w3]. apply bind_ext; [auto with go|intros r w4].
  apply bind_ext; [auto with go|intros _ w5]. apply bind_ext; [auto with go|intros [actual n] w6].
  destruct (negb _); [apply bind_ext; [auto with go|done]|].
  apply bind_ext; [auto with go|intros q w7]. apply bind_ext; [auto with go|intros _ w8].
  apply bind_ext; [auto with go|intros _ w9]. destruct (onCommit c) as [fn|]; [|done].
  apply bind_ext; [auto with go|]. intros st w10. rewrite ignore_eq. cbn [snd]. by apply Hhook.
Qed.
