(* ===== verification/Materializer.v ===== *)
(** * Building files from cached chunks (pkg/materializer/materializer.go)

    [Materialize], [materializeFile] and [verifyCachedChunk].  The context is
    the error [ctx.Err()] gives at the check before each file. *)

From S2P Require Import Prelude Digest GoPath Json Manifest SafePath GoFs Chunker ChunkStore.
Local Open Scope go_scope.

Definition Strategy : Type := string.
Definition StrategyCopy : Strategy := "copy".
Definition StrategyHardLink : Strategy := "hardlink".

Record Options := mkOptions { Strat : Strategy; Overwrite : bool; PreservePerms : bool }.

Definition DefaultOptions : Options := mkOptions StrategyCopy true true.

Definition NewMaterializer (opts : Options) : Options :=
  if bool_decide (Strat opts = "") then mkOptions StrategyCopy (Overwrite opts) (PreservePerms opts)
  else opts.

(** [strconv.ParseUint(s, 8, 32)] *)
Definition octalDigit (a : Ascii.ascii) : option Z :=
  let n := Z.of_N (Ascii.N_of_ascii a) in
  if (48 <=? n)%Z && (n <=? 55)%Z then Some (n - 48)%Z else None.

Fixpoint parseOctalFrom (acc : Z) (s : string) : option Z :=
  match s with
  | EmptyString => Some acc
  | String a s' =>
      match octalDigit a with
      | Some d => let acc' := (acc * 8 + d)%Z in
                  if (acc' <? 2 ^ 32)%Z then parseOctalFrom acc' s' else None
      | None => None
      end
  end.

Definition ParseOctal (s : string) : option Z :=
  match s with EmptyString => None | _ => parseOctalFrom 0 s end.

(** [FileMode.Perm] *)
Definition Perm (mode : Z) : Z := Z.land mode 511.

(** The bits that [os.Chmod] passes on: a [FileMode] has its setuid, setgid and
    sticky bits at 23, 22 and 20, the system at 11, 10 and 9. *)
Definition syscallMode (mode : Z) : Z :=
  Z.lor (Perm mode)
    (Z.lor (if Z.testbit mode 23 then 2048 else 0)
       (Z.lor (if Z.testbit mode 22 then 1024 else 0) (if Z.testbit mode 20 then 512 else 0))).

Section materializer.
Context {D : Digest} {SS : SortSlice} {X : Type}.

(** The chunks of a file, copied in order; [bytesWritten] at the end. *)
Fixpoint copyChunks (c : ChunkStore X) (target : string) (out : handle) (bytesWritten : Z)
    (chunks : list ChunkRef) : IO X (handle * Z) :=
  match chunks with
  | [] => ioRet (out, bytesWritten)
  | ref :: rest =>
      do (r, _) <- wrapErr "missing chunk" (GetChunkReader c (Hash ref));
      do src <- readRest r;
      let lim := limit (Size ref) src in
      do n <- attempt (copyTo out lim);
      do_ ignore (Close r);
      match n with
      | Err e => ioErr (EWrap "failed writing chunk" e)
      | Ok out' =>
          let n := blen lim.1 in
          if negb (n =? Size ref)%Z then ioErr (EText "short write for chunk")
          else
            let actualHash := "sha256:" +:+ hexEncode (sum256 lim.1) in
            if negb (bool_decide (actualHash = Hash ref)) then
              do_ ignore (Close out');
              do_ ignore (Remove target);
              ioErr (EText "integrity check failed for chunk")
            else copyChunks c target out' (add64 bytesWritten n) rest
      end
  end.

Definition materializeFile (opts : Options) (entry : FileEntry) (c : ChunkStore X) (target : string)
    : IO X unit :=
  do_ (if Overwrite opts then ignore (Remove target) else ioRet tt);
  do outFile <- wrapErr "failed to open target file" (OpenTrunc target 420);
  do r <- attempt
    (do (_, bytesWritten) <- copyChunks c target outFile 0 (chunksOf entry);
     if negb (bytesWritten =? FSize entry)%Z then ioErr (EText "total file size mismatch")
     else ioRet tt);
  do_ ignore (Close outFile);
  liftRes r.

Definition verifyCachedChunk (c : ChunkStore X) (chunkHash : string) : IO X unit :=
  do (r, _) <- GetChunkReader c chunkHash;
  do src <- readRest r;
  do_ ignore (Close r);
  liftRes (VerifyHash src chunkHash).

(** The single-chunk hard link: [true] when the file is in place. *)
Definition tryHardLink (opts : Options) (entry : FileEntry) (c : ChunkStore X) (target : string)
    : IO X bool :=
  match chunksOf entry with
  | [ref] =>
      if bool_decide (Strat opts = StrategyHardLink) && (Size ref =? FSize entry)%Z then
        do_ wrapErr "refusing to hardlink unverified chunk" (verifyCachedChunk c (Hash ref));
        do p <- attempt (GetChunkPath c (Hash ref));
        match p with
        | Err _ => ioRet false
        | Ok chunkPath =>
            do_ (if Overwrite opts then ignore (Remove target) else ioRet tt);
            do l <- attempt (Link chunkPath target);
            ioRet match l with Ok _ => true | Err _ => false end
        end
      else ioRet false
  | _ => ioRet false
  end.

(** One round of the loop of [Materialize]. *)
Definition materializeEntry (opts : Options) (c : ChunkStore X) (destDir : string) (entry : FileEntry)
    : IO X unit :=
  do target <- liftRes (SafeJoin destDir (Path entry));
  do_ wrapErr "failed to create directory" (MkdirAll (Dir target));
  do linked <- tryHardLink opts entry c target;
  if linked then ioRet tt
  else
    do_ wrapErr "failed to materialize file" (materializeFile opts entry c target);
    if PreservePerms opts && negb (bool_decide (Mode entry = "")) then
      match ParseOctal (Mode entry) with
      | Some perm => ignore (Chmod target (syscallMode perm))
      | None => ioRet tt
      end
    else ioRet tt.

Fixpoint materializeAll (ctx : nat -> option error) (i : nat) (opts : Options) (c : ChunkStore X)
    (destDir : string) (fs : list FileEntry) : IO X unit :=
  match fs with
  | [] => ioRet tt
  | entry :: fs' =>
      match ctx i with
      | Some e => ioErr e
      | None =>
          do_ materializeEntry opts c destDir entry;
          materializeAll ctx (S i) opts c destDir fs'
      end
  end.

Definition Materialize (ctx : nat -> option error) (opts : Options) (manifest : ArtifactManifest)
    (c : ChunkStore X) (destDir : string) : IO X unit :=
  do_ wrapErr "invalid manifest" (liftRes (Validate manifest));
  do_ wrapErr "failed to create destination directory" (MkdirAll destDir);
  materializeAll ctx 0 opts c destDir (files manifest).

End materializer.

(** * Properties *)

Section properties.
Context {D : Digest} {SS : SortSlice} {X : Type}.

(** Bytes that a chunk reference describes. *)
Definition pieceMatches (ref : ChunkRef) (p : bytes) : Prop :=
  ComputeHash p = Hash ref /\ blen p = Size ref.

(** The contents a manifest entry describes, piece by piece. *)
Definition fileMatches (f : FileEntry) (data : bytes) : Prop :=
  exists ps, Forall2 pieceMatches (chunksOf f) ps /\ data = concat ps
             /\ FSize f = wrap64 (blen data).

Context (dest : string).

Definition targetKey (f : FileEntry) : list string := key dest ++ relComps (Path f).

(** The entries [dn] are in place. *)
Definition inPlace (dn : list FileEntry) (d : disk) : Prop :=
  forall f, f ∈ dn -> exists data, contentAt d (targetKey f) = Some data /\ fileMatches f data.

(** [dn] is in place and, with the keys [ks], all there is below [dest]. *)
Record matInv (dn : list FileEntry) (ks : list (list string)) (d : disk) : Prop := {
  mat_wf : wfDisk d;
  mat_done : inPlace dn d;
  mat_only : forall k i, key dest `prefix_of` k -> nodeAt d k = Some (FileN i) ->
    k ∈ map targetKey dn ++ ks
}.

(** [h] writes to the new file at [kt], which holds [written]. *)
Definition outOpen (dn : list FileEntry) (kt : list string) (written : bytes) (h : handle) (d : disk)
    : Prop :=
  matInv dn [kt] d /\ exists i, h = HFile i (length written) /\ nodeAt d kt = Some (FileN i)
    /\ idata (getInode d i) = written /\ forall k, nodeAt d k = Some (FileN i) -> k = kt.

Lemma inPlace_frame dn k d d' :
  inPlace dn d -> k ∉ map targetKey dn -> frame k d d' -> inPlace dn d'.
Proof.
  intros Hp Hk Hf f Hin. destruct (Hp f Hin) as (data & Hc & Hm). exists data. split; [|done].
  rewrite (contentAt_frame _ _ _ _ Hf); [done|]. intros <-. apply Hk.
  apply list_elem_of_fmap. eauto.
Qed.

Lemma matInv_setDir dn ks k d :
  matInv dn ks d -> nodeAt d k = None -> nodeAt d (parent k) = Some DirN -> matInv dn ks (setName k DirN d).
Proof.
  intros [Hw Hd Ho] Hk Hp. assert (k <> []) as Hne by by eapply nodeAt_none_nonroot.
  split; [by apply wf_setDir| |].
  - intros f Hin. destruct (Hd f Hin) as (data & Hc & Hm). exists data. split; [|done].
    unfold contentAt in *. rewrite nodeAt_setName by done.
    case_bool_decide as E; [subst k; by rewrite Hk in Hc|done].
  - intros k' i Hpre. rewrite nodeAt_setName by done. case_bool_decide; [done|]. by apply Ho.
Qed.

Lemma matInv_removeK dn ks k d :
  matInv dn ks d -> k ∉ map targetKey dn -> matInv dn ks (removeK k d).2.
Proof.
  intros [Hw Hd Ho] Hk. split; [by apply wf_removeK| |].
  - destruct (removeK_cases k d) as [->|(Hne & -> & _)]; [done|].
    eapply inPlace_frame; [done..|]. by apply frame_delName.
  - intros k' i Hpre. destruct (removeK_cases k d) as [->|(Hne & -> & _)]; [by apply Ho|].
    simpl. rewrite nodeAt_delName by done. case_bool_decide; [done|]. by apply Ho.
Qed.

Lemma okay_OpenTrunc dn target f :
  key target = targetKey f -> targetKey f ∉ map targetKey dn ->
  okay (X:=X) (matInv dn []) (OpenTrunc target 420) (outOpen dn (targetKey f) []).
Proof.
  intros Hk Hnew. apply okay_syscall. intros d h d' Hm Ho. unfold openWriteK in Ho. rewrite Hk in Ho.
  pose proof Hm as [Hw Hd Hon].
  destruct (nodeAt d (targetKey f)) as [[|i]|] eqn:E; [done| |].
  - exfalso. apply Hnew. rewrite <- (app_nil_r (map targetKey dn)). eapply Hon; [|exact E].
    by exists (relComps (Path f)).
  - destruct (nodeAt d (parent (targetKey f))) as [[|j]|] eqn:E'; try done. injection Ho as <- <-.
    assert (targetKey f <> []) as Hne by by eapply nodeAt_none_nonroot.
    change (outOpen dn (targetKey f) [] (HFile (freshIno d) 0) (newFile (targetKey f) 420 d)).
    split.
    + split; [by apply wf_newFile| |].
      * eapply inPlace_frame; [done..|]. by apply frame_newFile.
      * intros k i Hpre. rewrite nodeAt_newFile by done. case_bool_decide as Ek.
        { intros _. subst k. apply elem_of_app. right. by constructor. }
        intros Hi. apply elem_of_app. left. rewrite <- (app_nil_r (map targetKey dn)). by eapply Hon.
    + exists (freshIno d). split; [done|]. rewrite nodeAt_newFile, bool_decide_eq_true_2 by done.
      split; [done|]. split.
      * unfold newFile, getInode. simpl. by rewrite lookup_insert_eq.
      * intros k. rewrite nodeAt_newFile by done. case_bool_decide; [done|].
        intros Hf. by apply freshIno_node in Hf.
Qed.

Lemma outOpen_setInode dn kt wr i off d nd wr' :
  kt ∉ map targetKey dn ->
  outOpen dn kt wr (HFile i off) d -> idata nd = wr' ->
  outOpen dn kt wr' (HFile i (length wr')) (setInode i nd d).
Proof.
  intros Hk ([Hw Hd Ho] & i' & [= <- ->] & Hi & Hdata & Hu) Hnd. split.
  - split; [by apply wf_setInode| |].
    + eapply inPlace_frame; [done..|]. by apply frame_setInode.
    + intros k j Hpre. rewrite nodeAt_setInode. by apply Ho.
  - exists i. split; [done|]. rewrite nodeAt_setInode. split; [done|].
    rewrite getInode_setInode, bool_decide_eq_true_2 by done. split; [done|].
    intros k. rewrite nodeAt_setInode. apply Hu.
Qed.

Lemma okay_copyTo dn kt wr h r :
  kt ∉ map targetKey dn ->
  okay (X:=X) (outOpen dn kt wr h) (copyTo h r)
    (fun h' d => r.2 = None /\ outOpen dn kt (wr ++ r.1) h' d).
Proof.
  intros Hk. unfold copyTo. apply (okay_bind _ _ _ (fun h' => outOpen dn kt (wr ++ r.1) h')).
  - intros w Ho. pose proof Ho as (_ & i & -> & Hi & Hd & Hu). unfold Write.
    assert (outOpen dn kt (wr ++ r.1) (HFile i (length wr + length r.1))
              (writeInode i (length wr) r.1 (wdisk w))) as Hw.
    { rewrite <- length_app. unfold writeInode. eapply outOpen_setInode; [done|done|].
      simpl. rewrite Hd. apply pwrite_end. }
    by destruct (faults w) as [|[|e|n e] fs].
  - intros h'. destruct (r.2); [apply okay_err|]. by apply okay_ret.
Qed.

Lemma limit_none n r : (limit n r).2 = None -> (0 <= n)%Z -> blen (limit n r).1 = n ->
  r.2 = None \/ (n <= blen r.1)%Z.
Proof. unfold limit. destruct (Z.leb_spec n (blen r.1)); simpl; auto. Qed.

Lemma okay_copyChunks c target dn kt chunks : forall wr h bw,
  kt ∉ map targetKey dn -> bw = wrap64 (blen wr) ->
  okay (X:=X) (outOpen dn kt wr h) (copyChunks c target h bw chunks)
    (fun hn d => exists ps, Forall2 pieceMatches chunks ps
       /\ hn.2 = wrap64 (blen (wr ++ concat ps)) /\ outOpen dn kt (wr ++ concat ps) hn.1 d).
Proof.
  induction chunks as [|ref chunks IH]; intros wr h bw Hk Hbw; cbn [copyChunks].
  { apply okay_ret. intros d Hd. exists []. simpl. rewrite app_nil_r. split; [constructor|by subst]. }
  eapply okay_bind; [apply okay_wrapErr, okay_keeps, keeps_GetChunkReader|]. intros [r size].
  eapply okay_bind; [apply okay_keeps, keeps_readRest|]. intros src. cbv zeta.
  eapply okay_bind; [apply okay_attempt; by apply okay_copyTo|]. intros n.
  eapply okay_bind; [apply okay_keeps, keeps_ignore, keeps_Close|]. intros ?.
  destruct n as [h'|e]; [|apply okay_err].
  destruct (Z.eqb_spec (blen (limit (Size ref) src).1) (Size ref)) as [Hsz|]; cbn [negb]; [|apply okay_err].
  case_bool_decide as Hh; cbn [negb].
  2: { intros w _. unfold ioBind. rewrite ignore_eq. by rewrite ignore_eq. }
  eapply okay_conseq; [apply (IH (wr ++ (limit (Size ref) src).1)); [done|]|by intros d [_ Hd]|].
  - rewrite Hbw, blen_app. unfold add64. by rewrite wrap64_add_l.
  - intros hn d (ps & Hps & Hn & Ho). exists ((limit (Size ref) src).1 :: ps).
    split; [by constructor|]. cbn [concat]. by rewrite app_assoc.
Qed.

Lemma matInv_done dn f h data d :
  outOpen dn (targetKey f) data h d -> fileMatches f data -> matInv (f :: dn) [] d.
Proof.
  intros ([Hw Hd Ho] & i & -> & Hi & Hdata & _) Hm. split; [done| |].
  - intros g [->|Hg]%elem_of_cons; [|by apply Hd]. exists data. split; [|done].
    unfold contentAt. by rewrite Hi, Hdata.
  - intros k j Hpre Hj. rewrite app_nil_r. apply elem_of_cons.
    apply Ho in Hj; [|done]. apply elem_of_app in Hj as [Hj|Hj]; [by right|].
    apply list_elem_of_singleton in Hj. by left.
Qed.

Lemma okay_materializeFile opts f c target dn :
  key target = targetKey f -> targetKey f ∉ map targetKey dn ->
  okay (X:=X) (matInv dn []) (materializeFile opts f c target) (fun _ => matInv (f :: dn) []).
Proof.
  intros Hk Hnew. unfold materializeFile.
  eapply okay_bind.
  { apply okay_keeps. destruct (Overwrite opts); [|auto with go].
    apply keeps_ignore, keeps_syscall. intros d Hd. rewrite Hk. by apply matInv_removeK. }
  intros ?. eapply okay_bind; [by apply okay_wrapErr, okay_OpenTrunc|]. intros h.
  apply (okay_bind _ _ _ (fun r d => match r with Ok _ => matInv (f :: dn) [] d | Err _ => True end)).
  - apply (okay_attempt _ _ (fun _ => matInv (f :: dn) [])).
    eapply okay_bind; [by apply okay_copyChunks|]. intros [h' n]. cbn [fst snd app].
    destruct (Z.eqb_spec n (FSize f)) as [Hn|]; cbn [negb]; [|apply okay_err].
    apply okay_ret. intros d (ps & Hps & Hsz & Ho). eapply matInv_done; [exact Ho|].
    exists ps. split; [done|]. split; [done|]. congruence.
  - intros r. eapply okay_bind; [apply okay_keeps, keeps_ignore, keeps_Close|]. intros ?.
    apply okay_res. by intros ? d ->.
Qed.

Lemma okay_noLink opts f c target (P : disk -> Prop) :
  Strat opts <> StrategyHardLink ->
  okay (X:=X) P (tryHardLink opts f c target) (fun b d => b = false /\ P d).
Proof.
  intros Hs. unfold tryHardLink. destruct (chunksOf f) as [|ref [|]]; try by apply okay_ret.
  rewrite bool_decide_eq_false_2 by done. by apply okay_ret.
Qed.

(** A mode change leaves the contents. *)
Lemma matInv_chmodK dn ks perm k d : matInv dn ks d -> matInv dn ks (chmodK perm k d).2.
Proof.
  intros Hm. unfold chmodK. destruct (nodeAt d k) as [[|i]|]; [done| |done]. simpl.
  destruct Hm as [Hw Hd Ho]. split; [by apply wf_setInode| |].
  - intros f Hf. destruct (Hd f Hf) as (data & Hc & Hmt). exists data. split; [|done].
    unfold contentAt in *. rewrite nodeAt_setInode.
    destruct (nodeAt d (targetKey f)) as [[|j]|]; try done.
    rewrite getInode_setInode. by case_bool_decide; subst.
  - intros k' j Hpre. rewrite nodeAt_setInode. by apply Ho.
Qed.

Lemma okay_materializeEntry opts f c dn :
  Strat opts <> StrategyHardLink -> targetKey f ∉ map targetKey dn ->
  okay (X:=X) (matInv dn []) (materializeEntry opts c dest f) (fun _ => matInv (f :: dn) []).
Proof.
  intros Hs Hnew. unfold materializeEntry.
  destruct (SafeJoin dest (Path f)) as [target|e] eqn:Ej; [|rewrite bind_res_err; apply okay_err].
  rewrite bind_res_ok. destruct (key_SafeJoin _ _ _ Ej) as [Hk _].
  eapply okay_bind.
  { apply okay_keeps, keeps_wrapErr, keeps_MkdirAll. intros k d. apply matInv_setDir. }
  intros ?. eapply okay_bind; [by apply okay_noLink|]. intros linked.
  apply hoare_pull. intros ->.
  eapply okay_bind; [apply okay_wrapErr; by apply okay_materializeFile|]. intros ?.
  apply okay_keeps. destruct (PreservePerms opts && _); [|auto with go].
  destruct (ParseOctal (Mode f)); [|auto with go].
  apply keeps_ignore, keeps_syscall. intros d. apply matInv_chmodK.
Qed.

Lemma okay_materializeAll ctx opts c fs : forall i dn,
  Strat opts <> StrategyHardLink -> NoDup (map targetKey (rev fs ++ dn)) ->
  okay (X:=X) (matInv dn []) (materializeAll ctx i opts c dest fs) (fun _ => matInv (rev fs ++ dn) []).
Proof.
  induction fs as [|f fs IH]; intros i dn Hs Hnd; cbn [materializeAll]; [by apply okay_ret|].
  destruct (ctx i); [apply okay_err|]. simpl rev in *. rewrite <- app_assoc in *. simpl app in *.
  eapply okay_bind; [apply okay_materializeEntry; [done|]|].
  - rewrite fmap_app, NoDup_app in Hnd. destruct Hnd as (_ & _ & Hnd). simpl in Hnd.
    by apply NoDup_cons in Hnd as [? _].
  - intros ?. by apply IH.
Qed.

End properties.

(** No file below [dest], which is the state [Materialize] is used from. *)
Definition noFiles (dest : string) (d : disk) : Prop :=
  wfDisk d /\ forall k i, key dest `prefix_of` k -> nodeAt d k <> Some (FileN i).

Lemma Materialize_okay {D : Digest} {SS : SortSlice} {X : Type} ctx opts m (c : ChunkStore X) dest w w'
    (Hs : Strat opts <> StrategyHardLink)
    (Hnd : NoDup (map (fun f => relComps (Path f)) (files m)))
    (Hno : noFiles dest (wdisk w))
    (Hrun : Materialize ctx opts m c dest w = (Ok tt, w')) :
  (forall f, f ∈ files m ->
     exists data, contentAt (wdisk w') (targetKey dest f) = Some data /\ fileMatches f data)
  /\ (forall k i, key dest `prefix_of` k -> nodeAt (wdisk w') k = Some (FileN i) ->
        exists f, f ∈ files m /\ k = targetKey dest f).
Proof.
  assert (okay (matInv dest [] []) (Materialize ctx opts m c dest)
            (fun _ => matInv dest (rev (files m) ++ []) [])) as Ht.
  { unfold Materialize. eapply okay_bind; [apply okay_keeps; auto with go|]. intros ?.
    eapply okay_bind.
    { apply okay_keeps, keeps_wrapErr, keeps_MkdirAll. intros k d. apply matInv_setDir. }
    intros ?. apply okay_materializeAll; [done|]. rewrite app_nil_r.
    change (NoDup (targetKey dest <$> rev (files m))). rewrite <- Permutation_rev.
    assert (targetKey dest <$> files m
            = (fun k => key dest ++ k) <$> map (fun f => relComps (Path f)) (files m)) as ->
      by (symmetry; apply (map_map (fun f => relComps (Path f)))).
    apply NoDup_fmap_2; [|done]. intros k1 k2. apply app_inv_head. }
  destruct Hno as [Hw Hno].
  apply (okay_run _ _ _ w _ w' Ht) in Hrun as [_ Hd Ho].
  - rewrite app_nil_r in Hd, Ho. split.
    + intros f Hf. apply Hd. by rewrite <- Permutation_rev.
    + intros k i Hpre Hi. apply Ho in Hi; [|done]. rewrite app_nil_r in Hi.
      apply list_elem_of_fmap in Hi as (f & -> & Hf). exists f. by rewrite Permutation_rev.
  - split; [done|by intros f Hf%elem_of_nil|]. intros k i Hpre Hi. by destruct (Hno k i).
Qed.

(** C9. Materialisation is exact, whatever fails. If copying a manifest, no
    two of whose paths clean to the same file, into a directory without files
    returns without error, then every manifest entry is there with contents
    made of pieces that have the declared hashes and sizes, and there is no
    other file below the directory. This holds although system calls may fail
    or write short at any point, those whose errors the code ignores included.
    *)
Theorem Materialize_exact {D : Digest} {SS : SortSlice} {X : Type} ctx opts m (c : ChunkStore X) dest w w'
    (Hs : Strat opts <> StrategyHardLink)
    (Hnd : NoDup (map (fun f => relComps (Path f)) (files m)))
    (Hno : noFiles dest (wdisk w))
    (Hrun : Materialize ctx opts m c dest w = (Ok tt, w')) :
  (forall f, f ∈ files m ->
     exists data, contentAt (wdisk w') (targetKey dest f) = Some data /\ fileMatches f data)
  /\ (forall k i, key dest `prefix_of` k -> nodeAt (wdisk w') k = Some (FileN i) ->
        exists f, f ∈ files m /\ k = targetKey dest f).
Proof. by eapply Materialize_okay. Qed.

(** A run without error accepted every path. *)
Lemma materializeAll_joins {D : Digest} {SS : SortSlice} {X : Type} ctx opts (c : ChunkStore X) dest fs :
  forall i w w', materializeAll ctx i opts c dest fs w = (Ok tt, w') ->
  Forall (fun f => exists j, SafeJoin dest (Path f) = Ok j) fs.
Proof.
  induction fs as [|f fs IH]; intros i w w' Hrun; [constructor|]. cbn [materializeAll] in Hrun.
  destruct (ctx i); [done|]. apply ioBind_inv in Hrun as (u & w1 & He & Hrun).
  constructor; [|by eapply IH]. unfold materializeEntry in He.
  destruct (SafeJoin dest (Path f)) as [j|e]; [eauto|done].
Qed.

Lemma Materialize_joins {D : Digest} {SS : SortSlice} {X : Type} ctx opts m (c : ChunkStore X) dest w w' :
  Materialize ctx opts m c dest w = (Ok tt, w') ->
  Validate m = Ok tt /\ Forall (fun f => exists j, SafeJoin dest (Path f) = Ok j) (files m).
Proof.
  intros (u & w1 & Hv & Hrun)%ioBind_inv. split.
  - unfold wrapErr, liftRes in Hv. by destruct (Validate m) as [[]|e].
  - apply ioBind_inv in Hrun as (u' & w2 & _ & Hrun). by eapply materializeAll_joins.
Qed.

(** ** Materialisation succeeds *)

Section succeeds.
Context {D : Digest} {SS : SortSlice} {X : Type}.
Context (root : string) (c : ChunkStore X) (HL : storeLayout root c).
Context (dest : string) (d0 : disk) (all : list FileEntry).
Implicit Types w : world X.

(** The chunk [ref] names is in the store with the declared size. *)
Definition chunkReady (ref : ChunkRef) : Prop :=
  exists x data, Hash ref = "sha256:" +:+ x /\ hexName x /\ chunkOf root d0 x = Some data
                 /\ ComputeHash data = Hash ref /\ blen data = Size ref.

(** The bytes the store has for a reference, and for a manifest entry. *)
Definition stored (ref : ChunkRef) : bytes := default [] (chunkOf root d0 (strDrop 7 (Hash ref))).
Definition storedFile (f : FileEntry) : bytes := concat (map stored (chunksOf f)).

(** No path of the manifest is a directory of another. *)
Definition noNesting : Prop :=
  forall f g, f ∈ all -> g ∈ all -> relComps (Path f) `prefix_of` relComps (Path g) ->
              relComps (Path f) = relComps (Path g).

(** The chunk directory and the destination are apart. *)
Definition apart : Prop :=
  ~ key dest `prefix_of` chunkRoot root /\ ~ chunkRoot root `prefix_of` key dest.

Record matOK (dn : list FileEntry) (d : disk) : Prop := {
  ok_wf : wfDisk d;
  ok_dest : nodeAt d (key dest) = Some DirN;
  ok_below : forall k n, key dest `prefix_of` k -> k <> key dest -> nodeAt d k = Some n ->
    match n with
    | FileN _ => k ∈ map (targetKey dest) dn
    | DirN => exists g, g ∈ all /\ k `prefix_of` targetKey dest g /\ k <> targetKey dest g
    end;
  ok_chunks : forall x, contentAt d (chunkKey root x) = contentAt d0 (chunkKey root x);
  ok_content : forall f, f ∈ dn -> contentAt d (targetKey dest f) = Some (storedFile f)
}.

Lemma prefix_app_both {A} (a b k : list A) : a `prefix_of` k -> b `prefix_of` k ->
  a `prefix_of` b \/ b `prefix_of` a.
Proof. intros [x ->] [y E]. apply app_eq_app in E as (l & [[-> _]|[-> _]]); [right|left]; by eexists. Qed.

Lemma apart_chunkKey x k : apart -> key dest `prefix_of` k -> chunkKey root x <> k.
Proof.
  intros [H1 H2] Hp <-. destruct (prefix_app_both _ _ _ Hp (chunkKey_under root x)) as [?|?]; auto.
Qed.

Lemma matOK_frame dn k d d' ks :
  apart -> matOK dn d -> frame k d d' -> wfDisk d' -> key dest `prefix_of` k -> k <> key dest ->
  (forall n, nodeAt d' k = Some n -> (exists i, n = FileN i) /\ k ∈ map (targetKey dest) ks) ->
  (forall g, g ∈ dn -> g ∈ ks) ->
  (forall g, g ∈ ks -> contentAt d' (targetKey dest g) = Some (storedFile g)) -> matOK ks d'.
Proof.
  intros Hap [Hw Hd Hb Hc Ht] Hf Hw' Hp Hne Hk Hsub Hks. split; [done| | | |done].
  - rewrite (frame_node _ _ _ Hf); [done|]. by intros E.
  - intros k' n Hp' Hne' Hn. destruct (decide (k' = k)) as [->|Hkk].
    + by destruct (Hk n Hn) as [[i ->] ?].
    + rewrite (frame_node _ _ _ Hf) in Hn by done. specialize (Hb k' n Hp' Hne' Hn).
      destruct n; [done|]. apply list_elem_of_fmap in Hb as (g & -> & Hg).
      apply list_elem_of_fmap. eauto.
  - intros x. rewrite (contentAt_frame _ _ _ _ Hf); [done|]. by apply apart_chunkKey.
Qed.

Lemma matOK_dirsAdded dn d d' f :
  matOK dn d -> f ∈ all -> wfDisk d' -> relComps (Path f) <> [] ->
  dirsAdded (parent (targetKey dest f)) d d' -> matOK dn d'.
Proof.
  intros [Hw Hd Hb Hc Ht] Hf Hw' Hne Ha. split; [done|by eapply dirsAdded_mono| | |].
  - intros k n Hp Hk Hn. destruct (added_node _ _ _ Ha k) as [E|(_ & E & j & ->)].
    + rewrite E in Hn. by apply Hb.
    + rewrite E in Hn. injection Hn as <-. exists f. split; [done|].
      assert (take j (parent (targetKey dest f)) `prefix_of` parent (targetKey dest f)) as H1
        by (exists (drop j (parent (targetKey dest f))); by rewrite take_drop).
      assert (targetKey dest f <> []) as Hnn.
      { unfold targetKey. by destruct (key dest), (relComps (Path f)). }
      assert (parent (targetKey dest f) `prefix_of` targetKey dest f) as H2.
      { exists [List.last (targetKey dest f) ""]. unfold parent. by apply app_removelast_last. }
      split; [by trans (parent (targetKey dest f))|]. intros E2.
      apply prefix_length in H1. rewrite E2 in H1. unfold parent in H1.
      rewrite removelast_firstn_len, length_take in H1. destruct (targetKey dest f); [done|]. simpl in H1. lia.
  - intros x. rewrite (contentAt_dirsAdded _ _ _ _ Ha). apply Hc.
  - intros g. rewrite (contentAt_dirsAdded _ _ _ _ Ha). apply Ht.
Qed.

(** The file being written. *)
Record outFile (kt : list string) (i : positive) (wr : bytes) (d : disk) : Prop := {
  out_wf : wfDisk d;
  out_node : nodeAt d kt = Some (FileN i);
  out_data : idata (getInode d i) = wr;
  out_uniq : forall k, nodeAt d k = Some (FileN i) -> k = kt;
  out_chunks : forall x, contentAt d (chunkKey root x) = contentAt d0 (chunkKey root x)
}.

Lemma outFile_write kt i wr b d :
  (forall x, chunkKey root x <> kt) -> outFile kt i wr d ->
  outFile kt i (wr ++ b) (writeInode i (length wr) b d) /\ frame kt d (writeInode i (length wr) b d).
Proof.
  intros Hkt [Hw Hn Hd Hu Hc]. unfold writeInode.
  assert (frame kt d (setInode i (Inode (pwrite (length wr) b (idata (getInode d i)))
    (iperm (getInode d i))) d)) as Hf by by apply frame_setInode.
  split; [|done]. split.
  - by apply wf_setInode.
  - by rewrite nodeAt_setInode.
  - rewrite getInode_setInode, bool_decide_eq_true_2 by done. simpl. rewrite Hd. apply pwrite_end.
  - intros k. rewrite nodeAt_setInode. apply Hu.
  - intros x. by rewrite (contentAt_frame _ _ _ _ Hf).
Qed.

Lemma copyChunks_ok target kt i chunks : forall w wr bw,
  (forall x, chunkKey root x <> kt) -> reliable w -> outFile kt i wr (wdisk w) ->
  Forall chunkReady chunks -> bw = wrap64 (blen wr) ->
  exists d' h, copyChunks c target (HFile i (length wr)) bw chunks w
    = (Ok (h, wrap64 (blen wr + sumZ (map Size chunks))), setDisk d' w)
    /\ outFile kt i (wr ++ concat (map stored chunks)) d' /\ frame kt (wdisk w) d'.
Proof.
  induction chunks as [|ref chunks IH]; intros w wr bw Hkt Hr Ho Hch Hbw; cbn [copyChunks].
  { exists (wdisk w), (HFile i (length wr)). simpl. rewrite Z.add_0_r, setDisk_same, Hbw, app_nil_r.
    split; [done|]. split; [done|apply frame_refl]. }
  apply Forall_cons in Hch as [(x & data & Hh & Hx & Hd & Hc & Hsz) Hch]. rewrite Hh.
  destruct (GetChunkReader_ok root c HL w x data Hr Hx) as (f & Hg & Hrd).
  { unfold chunkOf. by rewrite (out_chunks _ _ _ _ Ho). }
  rewrite (ioBind_ok _ _ _ _ _ (wrapErr_ok _ _ _ _ _ Hg)), (ioBind_ok _ _ _ _ _ Hrd).
  assert (limit (Size ref) (data, None) = (data, None)) as ->.
  { unfold limit. cbn [fst]. rewrite <- Hsz, Z.leb_refl. unfold blen. by rewrite Nat2Z.id, firstn_all. }
  cbv zeta. cbn [fst snd].
  destruct (outFile_write kt i wr data (wdisk w) Hkt Ho) as [Ho' Hf].
  set (d1 := writeInode i (length wr) data (wdisk w)) in *.
  assert (attempt (copyTo (HFile i (length wr)) (data, None)) w
          = (Ok (Ok (HFile i (length wr + length data))), setDisk d1 w)) as Hcp.
  { rewrite attempt_eq. unfold copyTo. cbn [fst snd].
    by rewrite (ioBind_ok _ _ _ _ _ (Write_reliable i (length wr) data w Hr)). }
  rewrite (ioBind_ok _ _ _ _ _ Hcp).
  assert (ignore (Close f) (setDisk d1 w) = (Ok tt, setDisk d1 w)) as Hcl
    by by rewrite ignore_eq, Close_reliable.
  rewrite (ioBind_ok _ _ _ _ _ Hcl). rewrite Hsz, Z.eqb_refl. cbn [negb].
  rewrite bool_decide_eq_true_2 by (rewrite <- Hh; exact Hc). cbn [negb].
  rewrite <- length_app.
  destruct (IH (setDisk d1 w) (wr ++ data) (add64 bw (Size ref))) as (d' & h & H1 & H2 & H3);
    [done|done|done|done| |].
  { rewrite Hbw, <- Hsz, blen_app. unfold add64. by rewrite wrap64_add_l. }
  assert (stored ref = data) as Hst by (unfold stored; by rewrite Hh, (strDrop_app "sha256:"), Hd).
  exists d', h. split; [|split; [by simpl; rewrite Hst, app_assoc|]].
  - rewrite H1. rewrite setDisk_setDisk. cbn [map sumZ foldr]. rewrite blen_app, Hsz.
    do 4 f_equal. unfold sumZ. lia.
  - by eapply frame_trans.
Qed.

Lemma materializeFile_ok opts w f target kt :
  reliable w -> key target = kt -> (forall x, chunkKey root x <> kt) ->
  wfDisk (wdisk w) -> nodeAt (wdisk w) kt = None -> nodeAt (wdisk w) (parent kt) = Some DirN ->
  (forall x, contentAt (wdisk w) (chunkKey root x) = contentAt d0 (chunkKey root x)) ->
  Forall chunkReady (chunksOf f) -> FSize f = wrap64 (sumZ (sizes f)) ->
  exists d' i, materializeFile opts f c target w = (Ok tt, setDisk d' w)
    /\ frame kt (wdisk w) d' /\ wfDisk d' /\ nodeAt d' kt = Some (FileN i)
    /\ contentAt d' kt = Some (storedFile f).
Proof.
  intros Hr Hk Hkt Hw Hn Hp Hc Hch Hsz.
  assert (kt <> []) as Hne by by eapply nodeAt_none_nonroot.
  unfold materializeFile.
  assert ((if Overwrite opts then ignore (Remove target) else ioRet tt) w = (Ok tt, w)) as Hrm.
  { destruct (Overwrite opts); [|done]. rewrite ignore_eq, Remove_missing; [done|done|by rewrite Hk]. }
  rewrite (ioBind_ok _ _ _ _ _ Hrm).
  pose proof (OpenTrunc_new w target 420 Hr) as Ho. rewrite Hk in Ho. specialize (Ho Hn Hp).
  rewrite (ioBind_ok _ _ _ _ _ (wrapErr_ok _ _ _ _ _ Ho)).
  set (d1 := newFile kt 420 (wdisk w)) in *. set (i := freshIno (wdisk w)) in *.
  assert (frame kt (wdisk w) d1) as Hf1 by by apply frame_newFile.
  assert (outFile kt i [] d1) as Hout.
  { split.
    - by apply wf_newFile.
    - unfold d1. rewrite nodeAt_newFile by done. by rewrite bool_decide_eq_true_2.
    - unfold d1, i. by rewrite getInode_newFile.
    - intros k. unfold d1. rewrite nodeAt_newFile by done. case_bool_decide; [done|].
      intros Hbad. by apply freshIno_node in Hbad.
    - intros x. by rewrite (contentAt_frame _ _ _ _ Hf1). }
  destruct (copyChunks_ok target kt i (chunksOf f) (setDisk d1 w) [] 0 Hkt Hr Hout Hch)
    as (d2 & h & Hcp & Hout2 & Hf2); [done|].
  exists d2, i. split.
  - assert (attempt (do (_, bytesWritten) <- copyChunks c target (HFile i 0) 0 (chunksOf f);
      if negb (bytesWritten =? FSize f)%Z then ioErr (EText "total file size mismatch")
      else ioRet tt) (setDisk d1 w) = (Ok (Ok tt), setDisk d2 w)) as Hat.
    { rewrite attempt_eq. rewrite (ioBind_ok _ _ _ _ _ Hcp). cbn [blen length Z.of_nat].
      rewrite Z.add_0_l. change (map Size (chunksOf f)) with (sizes f).
      rewrite <- Hsz, Z.eqb_refl. done. }
    rewrite (ioBind_ok _ _ _ _ _ Hat).
    assert (ignore (Close (HFile i 0)) (setDisk d2 w) = (Ok tt, setDisk d2 w)) as Hcl
      by by rewrite ignore_eq, Close_reliable.
    by rewrite (ioBind_ok _ _ _ _ _ Hcl).
  - split_and!; [by eapply frame_trans|apply Hout2..|]. unfold contentAt.
    rewrite (out_node _ _ _ _ Hout2). f_equal. apply Hout2.
Qed.

Lemma targetKey_prefix f g :
  targetKey dest f `prefix_of` targetKey dest g -> relComps (Path f) `prefix_of` relComps (Path g).
Proof. unfold targetKey. apply prefix_app_inv. Qed.

(** The place of the next entry can be made. *)
Lemma place_free dn d f :
  noNesting -> matOK dn d -> f ∈ all -> (forall g, g ∈ dn -> g ∈ all) ->
  targetKey dest f ∉ map (targetKey dest) dn -> relComps (Path f) <> [] ->
  nodeAt d (targetKey dest f) = None
  /\ forall j, isFile (nodeAt d (take j (parent (targetKey dest f)))) = false.
Proof.
  intros Hnn [Hw Hd Hb _ _] Hf Hsub Hnew Hne.
  assert (length (key dest) < length (targetKey dest f)) as Hlen.
  { unfold targetKey. rewrite length_app. destruct (relComps (Path f)); [done|]. simpl. lia. }
  assert (key dest `prefix_of` targetKey dest f) as Hp by by exists (relComps (Path f)).
  split.
  - destruct (nodeAt d (targetKey dest f)) as [n|] eqn:E; [|done]. exfalso.
    specialize (Hb _ _ Hp ltac:(by intros E2; rewrite E2 in Hlen; lia) E). destruct n as [|i]; [|done].
    destruct Hb as (g & Hg & Hpre & Hneq). apply Hneq. unfold targetKey. f_equal.
    apply Hnn; [done..|]. by apply targetKey_prefix.
  - intros j. unfold parent. rewrite removelast_firstn_len, take_take.
    set (q := Init.Nat.min j (Init.Nat.pred (length (targetKey dest f)))).
    assert (q < length (targetKey dest f)) as Hq by (unfold q; lia).
    destruct (decide (q <= length (key dest))) as [Hle|Hgt].
    { unfold targetKey at 1. rewrite take_app_le by done. by apply wf_dir_nofile. }
    destruct (nodeAt d (take q (targetKey dest f))) as [[|i]|] eqn:E; try done. exfalso.
    assert (length (take q (targetKey dest f)) = q) as Hql by (rewrite length_take; lia).
    specialize (Hb (take q (targetKey dest f)) (FileN i)). cbn in Hb.
    apply list_elem_of_fmap in Hb as (g & Hg & Hin); [| | |done].
    + assert (relComps (Path g) = relComps (Path f)) as Heq.
      { apply Hnn; [by apply Hsub|done|]. apply targetKey_prefix. rewrite <- Hg.
        exists (drop q (targetKey dest f)). by rewrite take_drop. }
      rewrite Hg in Hql. unfold targetKey in Hql, Hq. rewrite Heq in Hql. lia.
    + unfold targetKey. rewrite take_app, take_ge by lia. by eexists.
    + intros E2. rewrite E2 in Hql. lia.
Qed.

Lemma tryHardLink_copy opts f target w :
  Strat opts <> StrategyHardLink -> tryHardLink opts f c target w = (Ok false, w).
Proof.
  intros Hs. unfold tryHardLink. destruct (chunksOf f) as [|ref [|]]; try done.
  by rewrite bool_decide_eq_false_2.
Qed.

(** [Chmod] on the written file changes no contents. *)
Lemma matOK_chmod dn perm k d : matOK dn d -> matOK dn (chmodK perm k d).2.
Proof.
  intros [Hw Hd Hb Hc Ht]. unfold chmodK. destruct (nodeAt d k) as [[|i]|]; [done| |done]. simpl.
  set (d' := setInode i _ d).
  assert (forall k', contentAt d' k' = contentAt d k') as Hsame.
  { intros k'. unfold contentAt, d'. rewrite nodeAt_setInode.
    destruct (nodeAt d k') as [[|j]|]; try done. rewrite getInode_setInode. by case_bool_decide; subst. }
  split; [by apply wf_setInode|done..| |].
  - intros x. by rewrite Hsame.
  - intros f. rewrite Hsame. apply Ht.
Qed.

(** One manifest entry, written into a fresh place. *)
Lemma materializeEntry_ok opts w dn f :
  reliable w -> apart -> noNesting -> Strat opts <> StrategyHardLink ->
  Clean dest <> "." -> Clean dest <> "/" ->
  matOK dn (wdisk w) -> f ∈ all -> (forall g, g ∈ dn -> g ∈ all) ->
  targetKey dest f ∉ map (targetKey dest) dn ->
  fileOk f -> Forall chunkReady (chunksOf f) ->
  exists d', materializeEntry opts c dest f w = (Ok tt, setDisk d' w) /\ matOK (f :: dn) d'.
Proof.
  intros Hr Hap Hnn Hs Hd1 Hd2 Hm Hf Hsub Hnew (Hvp & _ & _ & Hsz) Hch.
  apply validManifestPath_iff in Hvp as [Hl Hne].
  assert (exists target, SafeJoin dest (Path f) = Ok target) as [target Hj].
  { eexists. apply SafeJoin_ok. split; [done|]. split; [|done]. right. intros Hb.
    change (Clean dest) with (render (IsAbs dest) (baseComps dest)) in Hd1, Hd2.
    rewrite Hb in Hd1, Hd2. by destruct (IsAbs dest). }
  destruct (key_SafeJoin _ _ _ Hj) as [Hk _]. fold (targetKey dest f) in Hk.
  pose proof (key_Dir_SafeJoin _ _ _ Hj Hne) as Hkd. rewrite Hk in Hkd.
  change (removelast (targetKey dest f)) with (parent (targetKey dest f)) in Hkd.
  destruct (place_free dn (wdisk w) f Hnn Hm Hf Hsub Hnew Hne) as [_ Hpar].
  unfold materializeEntry. rewrite Hj, bind_res_ok.
  destruct (MkdirAll_ok w (Dir target) Hr) as (d1 & Hmk & Ha & Hpd).
  { intros j. rewrite Hkd. apply Hpar. }
  rewrite (ioBind_ok _ _ _ _ _ (wrapErr_ok _ _ _ _ _ Hmk)).
  rewrite Hkd in Ha, Hpd.
  assert (wfDisk d1) as Hw1.
  { assert (keeps (X:=X) wfDisk (MkdirAll (Dir target))) as Hkeep
      by (apply keeps_MkdirAll; intros k d; apply wf_setDir).
    specialize (Hkeep w (ok_wf _ _ Hm)). by rewrite Hmk in Hkeep. }
  assert (matOK dn d1) as Hm1 by by eapply matOK_dirsAdded.
  destruct (place_free dn d1 f Hnn Hm1 Hf Hsub Hnew Hne) as [Hnone _].
  rewrite (ioBind_ok _ _ _ _ _ (tryHardLink_copy opts f target (setDisk d1 w) Hs)).
  assert (key dest `prefix_of` targetKey dest f) as Hpre by by exists (relComps (Path f)).
  assert (targetKey dest f <> key dest) as Hneq.
  { intros E%(f_equal length). unfold targetKey in E. rewrite length_app in E.
    destruct (relComps (Path f)); [done|]. simpl in E. lia. }
  destruct (materializeFile_ok opts (setDisk d1 w) f target (targetKey dest f) Hr Hk)
    as (d2 & i & Hmf & Hfr & Hw2 & Hi & Hct); try done.
  { intros x. by apply apart_chunkKey. }
  { apply Hm1. }
  rewrite (ioBind_ok _ _ _ _ _ (wrapErr_ok _ _ _ _ _ Hmf)).
  assert (matOK (f :: dn) d2) as Hm2.
  { eapply (matOK_frame dn (targetKey dest f)); try done.
    - intros n Hn. rewrite Hi in Hn. injection Hn as <-. split; [eauto|by constructor].
    - intros g Hg. by constructor.
    - intros g [->|Hg]%elem_of_cons; [done|]. rewrite (contentAt_frame _ _ _ _ Hfr).
      + by apply Hm1.
      + intros E. apply Hnew. rewrite <- E. apply list_elem_of_fmap. eauto. }
  destruct (PreservePerms opts && _); [|by exists d2].
  destruct (ParseOctal (Mode f)) as [perm|]; [|by exists d2].
  rewrite ignore_eq. unfold Chmod. rewrite syscall_reliable by done. simpl.
  eexists. split; [reflexivity|]. by apply matOK_chmod.
Qed.

Lemma materializeAll_ok opts fs : forall w n dn,
  reliable w -> apart -> noNesting -> Strat opts <> StrategyHardLink ->
  Clean dest <> "." -> Clean dest <> "/" ->
  matOK dn (wdisk w) -> (forall g, g ∈ dn ++ fs -> g ∈ all) ->
  NoDup (map (targetKey dest) (dn ++ fs)) ->
  Forall fileOk fs -> Forall (fun f => Forall chunkReady (chunksOf f)) fs ->
  exists d', materializeAll (fun _ => None) n opts c dest fs w = (Ok tt, setDisk d' w)
             /\ matOK (rev fs ++ dn) d'.
Proof.
  induction fs as [|f fs IH]; intros w n dn Hr Hap Hnn Hs Hd1 Hd2 Hm Hall Hnd Hok Hch.
  { exists (wdisk w). by rewrite setDisk_same. }
  apply Forall_cons in Hok as [Hokf Hok]. apply Forall_cons in Hch as [Hchf Hch].
  assert (NoDup (map (targetKey dest) (f :: dn ++ fs))) as Hnd'.
  { change (NoDup (targetKey dest <$> (f :: dn ++ fs))). by rewrite Permutation_middle. }
  cbn [materializeAll].
  destruct (materializeEntry_ok opts w dn f) as (d1 & H1 & Hm1); try done.
  { apply Hall. set_solver. }
  { intros g Hg. apply Hall. set_solver. }
  { cbn in Hnd'. apply NoDup_cons in Hnd' as [Hni _]. intros Hin. apply Hni.
    change (targetKey dest f ∈ targetKey dest <$> (dn ++ fs)). rewrite fmap_app, elem_of_app. by left. }
  rewrite (ioBind_ok _ _ _ _ _ H1).
  destruct (IH (setDisk d1 w) (S n) (f :: dn)) as (d2 & H2 & Hm2); try done.
  { intros g Hg. apply Hall. set_solver. }
  exists d2. split; [done|]. simpl. by rewrite <- app_assoc.
Qed.

End succeeds.

Lemma vacant_noFiles dest d : vacant dest d -> noFiles dest d.
Proof.
  intros Hv. split; [apply Hv|]. intros k i Hp Hi.
  destruct (decide (k = key dest)) as [->|Hk].
  - pose proof (vac_path _ _ Hv (length (key dest))) as Hpth. rewrite firstn_all, Hi in Hpth. done.
  - by rewrite (vac_below _ _ Hv) in Hi.
Qed.

Section runs.
Context {D : Digest} {SS : SortSlice} {X : Type} (root : string) (c : ChunkStore X) (HL : storeLayout root c).
Implicit Types w : world X.

(** What a run without a fault needs of the manifest, the destination and the disk. *)
Record matReady (m : ArtifactManifest) (dest : string) (d : disk) : Prop := {
  mr_valid : Validate m = Ok tt;
  mr_chunks : forall f ref, f ∈ files m -> ref ∈ chunksOf f -> chunkReady root d ref;
  mr_nodup : NoDup (map (fun f => relComps (Path f)) (files m));
  mr_nonest : noNesting (files m);
  mr_apart : apart root dest;
  mr_dot : Clean dest <> ".";
  mr_root : Clean dest <> "/";
  mr_vacant : vacant dest d
}.

Lemma Materialize_run opts m dest w :
  reliable w -> Strat opts <> StrategyHardLink -> matReady m dest (wdisk w) ->
  exists d, Materialize (fun _ => None) opts m c dest w = (Ok tt, setDisk d w)
    /\ forall f, f ∈ files m -> contentAt d (targetKey dest f) = Some (storedFile root (wdisk w) f).
Proof.
  intros Hr Hs [Hv Hch Hnd Hnn Hap Hd1 Hd2 Hvac].
  unfold Materialize. rewrite Hv. rewrite (ioBind_ok _ _ w tt w) by done.
  destruct (MkdirAll_ok w dest Hr) as (d1 & Hmk & Ha & Hdir); [apply Hvac|].
  rewrite (ioBind_ok _ _ _ _ _ (wrapErr_ok _ _ _ _ _ Hmk)).
  assert (wfDisk d1) as Hw1.
  { assert (keeps (X:=X) wfDisk (MkdirAll dest)) as Hkeep
      by (apply keeps_MkdirAll; intros k d; apply wf_setDir).
    specialize (Hkeep w (vac_wf _ _ Hvac)). by rewrite Hmk in Hkeep. }
  destruct (materializeAll_ok root c HL dest (wdisk w) (files m) opts (files m) (setDisk d1 w) 0 [])
    as (d2 & H2 & Hm2); try done.
  - split; [done|done| | |by intros f Hf%elem_of_nil].
    + intros k n Hp Hk Hn. exfalso. simpl in Hn.
      destruct (added_node _ _ _ Ha k) as [E|(_ & _ & j & ->)].
      * rewrite E, (vac_below _ _ Hvac) in Hn by done. done.
      * apply prefix_length in Hp as Hl. rewrite length_take in Hl.
        apply Hk. rewrite take_ge; [done|lia].
    + intros x. by rewrite (contentAt_dirsAdded _ _ _ _ Ha).
  - assert (map (targetKey dest) (files m)
          = (fun k => key dest ++ k) <$> map (fun f => relComps (Path f)) (files m)) as E
      by (symmetry; apply (map_map (fun f => relComps (Path f)))).
    simpl app. rewrite E. apply NoDup_fmap_2; [|done]. intros k1 k2. apply app_inv_head.
  - by apply Validate_iff, valid_files in Hv.
  - apply Forall_forall. intros f Hf. apply Forall_forall. intros ref Href. by eapply Hch.
  - exists d2. split; [done|]. intros f Hf. apply (ok_content _ _ _ _ _ _ Hm2).
    rewrite app_nil_r. by rewrite <- Permutation_rev.
Qed.

End runs.

(** Materialisation succeeds.  On a reliable disk, for a valid manifest
    whose chunks are all in the store with the declared sizes, whose paths do
    not collide or nest, and a vacant destination apart from the store (not the
    root or the working directory), copying returns without error and every
    entry of the manifest is in place with the bytes of its chunks, which have
    the declared hashes and sizes. *)
Theorem Materialize_succeeds {D : Digest} {SS : SortSlice} {X : Type} root (c : ChunkStore X) opts m dest w
    (HL : storeLayout root c) (Hr : reliable w) (Hs : Strat opts <> StrategyHardLink)
    (Hm : matReady root m dest (wdisk w)) :
  exists w', Materialize (fun _ => None) opts m c dest w = (Ok tt, w')
    /\ forall f, f ∈ files m ->
         contentAt (wdisk w') (targetKey dest f) = Some (storedFile root (wdisk w) f)
         /\ fileMatches f (storedFile root (wdisk w) f).
Proof.
  destruct (Materialize_run root c HL opts m dest w Hr Hs Hm) as (d & Hrun & Hct).
  exists (setDisk d w). split; [done|]. intros f Hf. pose proof (Hct f Hf) as Hcf. split; [done|].
  destruct Hm. destruct (Materialize_okay _ _ _ _ _ _ _ Hs mr_nodup0 (vacant_noFiles _ _ mr_vacant0) Hrun) as [Hok _].
  destruct (Hok f Hf) as (data & Hd & Hfm). simpl in Hd. rewrite Hcf in Hd. by injection Hd as ->.
Qed.

(** ** A concrete run *)

Definition oneFile : ArtifactManifest :=
  withID (mkManifest 1 "" "demo" "1.0" 4 3
    (Slice [mkFileEntry "dir/a.txt" 3 "0600" (Slice [mkChunkRef abcHash 0 3])])).

Lemma abcWorld_vacant : vacant "/out" (wdisk abcWorld).
Proof. apply vacantb_sound; [vm_compute; reflexivity|done]. Qed.

Lemma abcWorld_chunk f ref :
  f ∈ files oneFile -> ref ∈ chunksOf f -> chunkReady "/s" (wdisk abcWorld) ref.
Proof.
  intros Hf%list_elem_of_singleton Hr. subst f. apply list_elem_of_singleton in Hr. subst ref.
  exists (strDrop 7 abcHash), abc. split; [done|]. split; [split; vm_compute; reflexivity|].
  split; [vm_compute; reflexivity|]. split; vm_compute; reflexivity.
Qed.

Lemma oneFile_ready : matReady "/s" oneFile "/out" (wdisk abcWorld).
Proof.
  split.
  - vm_compute. reflexivity.
  - exact abcWorld_chunk.
  - apply NoDup_singleton.
  - intros f g Hf%list_elem_of_singleton Hg%list_elem_of_singleton _. by subst.
  - split; intros [t Ht]; discriminate Ht.
  - by vm_compute.
  - by vm_compute.
  - exact abcWorld_vacant.
Qed.

Lemma Materialize_succeeds_witness :
  exists w', Materialize (fun _ => None) DefaultOptions oneFile demoStore "/out" abcWorld = (Ok tt, w').
Proof.
  destruct (Materialize_succeeds "/s" demoStore DefaultOptions oneFile "/out" abcWorld) as (w' & H & _).
  - by apply storeAt_layout.
  - vm_compute. reflexivity.
  - done.
  - exact oneFile_ready.
  - exists w'. exact H.
Defined.

Lemma Materialize_exact_witness :
  exists w' data, Materialize (fun _ => None) DefaultOptions oneFile demoStore "/out" abcWorld = (Ok tt, w')
    /\ contentAt (wdisk w') ["out"; "dir"; "a.txt"] = Some data.
Proof.
  assert ((Materialize (fun _ => None) DefaultOptions oneFile demoStore "/out" abcWorld).1 = Ok tt) as Hrun
    by (vm_compute; reflexivity).
  destruct (Materialize_exact (fun _ => None) DefaultOptions oneFile demoStore "/out" abcWorld _
    ltac:(done) (NoDup_singleton _) (vacant_noFiles _ _ abcWorld_vacant) (io_result _ _ _ Hrun))
    as [H _].
  destruct (H (mkFileEntry "dir/a.txt" 3 "0600" (Slice [mkChunkRef abcHash 0 3]))) as (data & Hd & _).
  - by constructor.
  - eexists _, data. split; [exact (io_result _ _ _ Hrun)|exact Hd].
Defined.

(** ** Hard links share the inode of the cache *)

Definition linkOptions (overwrite : bool) : Options := mkOptions StrategyHardLink overwrite true.

Definition linkedWorld : world unit :=
  (Materialize (fun _ => None) (linkOptions true) oneFile demoStore "/out" abcWorld).2.

Section relink.
Context {D : Digest} {SS : SortSlice} {X : Type} (root : string) (c : ChunkStore X) (HL : storeLayout root c).
Context (x : string) (Hx : hexName x) (ref : ChunkRef) (Href : Hash ref = "sha256:" +:+ x).
Implicit Types w : world X.

(** The chunk is verified, and the link is refused: there is a file. *)
Lemma tryHardLink_refused opts f target w i :
  reliable w -> chunksOf f = [ref] -> Strat opts = StrategyHardLink -> Overwrite opts = false -> Size ref = FSize f ->
  nodeAt (wdisk w) (chunkKey root x) = Some (FileN i) -> ComputeHash (idata (getInode (wdisk w) i)) = Hash ref ->
  is_Some (nodeAt (wdisk w) (key target)) ->
  tryHardLink opts f c target w = (Ok false, w).
Proof.
  intros Hr Hc Hs Ho Hz Hi Hh [n Hn]. unfold tryHardLink. rewrite Hc, bool_decide_eq_true_2, Hz, Z.eqb_refl, Ho, Href by done. simpl.
  assert (chunkOf root (wdisk w) x = Some (idata (getInode (wdisk w) i))) as Hck by (unfold chunkOf, contentAt; by rewrite Hi).
  destruct (GetChunkReader_ok root c HL w x _ Hr Hx Hck) as (h & Hg & Hrd).
  assert (verifyCachedChunk c ("sha256:" +:+ x) w = (Ok tt, w)) as Hv.
  { unfold verifyCachedChunk. rewrite (ioBind_ok _ _ _ _ _ Hg), (ioBind_ok _ _ _ _ _ Hrd).
    rewrite (ioBind_ok _ _ w tt w) by by rewrite ignore_eq, Close_reliable.
    unfold liftRes, VerifyHash. simpl. rewrite Href in Hh. unfold ComputeHash in Hh. rewrite Hh. by rewrite bool_decide_eq_true_2. }
  rewrite (ioBind_ok _ _ _ _ _ (wrapErr_ok _ _ _ _ _ Hv)).
  destruct (chunkPath_good root c HL x Hx) as (q & Hq & Hk & _).
  assert (GetChunkPath c ("sha256:" +:+ x) w = (Ok q, w)) as Hp.
  { unfold GetChunkPath. rewrite Hq, bind_res_ok.
    rewrite (ioBind_ok _ _ w (fileInfo (getInode (wdisk w) i)) w); [done|].
    unfold notFound. rewrite (ioBind_ok _ _ w (Ok (fileInfo (getInode (wdisk w) i))) w); [done|].
    rewrite attempt_eq, Stat_reliable by done. unfold statK. by rewrite Hk, Hi. }
  rewrite (ioBind_ok _ _ w (Ok q) w) by by rewrite attempt_eq, Hp.
  rewrite (ioBind_ok _ _ w tt w) by done.
  rewrite (ioBind_ok _ _ w (Err (ESys "link" EEXIST)) w); [done|].
  rewrite attempt_eq. unfold Link. rewrite syscall_reliable by done. unfold linkK. rewrite Hk, Hi, Hn. simpl. by rewrite setDisk_same.
Qed.

(** The copy empties the file that it reads from. *)
Lemma materializeFile_emptied opts f target w i :
  reliable w -> chunksOf f = [ref] -> Overwrite opts = false -> (0 < Size ref)%Z ->
  nodeAt (wdisk w) (chunkKey root x) = Some (FileN i) -> nodeAt (wdisk w) (key target) = Some (FileN i) ->
  exists e w', materializeFile opts f c target w = (Err e, w') /\ chunkOf root (wdisk w') x = Some [].
Proof.
  intros Hr Hc Ho Hz Hi Ht. unfold materializeFile. rewrite Ho, (ioBind_ok _ _ w tt w) by done.
  set (d := setInode i (Inode [] (iperm (getInode (wdisk w) i))) (wdisk w)).
  assert (OpenTrunc target 420 w = (Ok (HFile i 0), setDisk d w)) as Hopen.
  { unfold OpenTrunc. rewrite syscall_reliable by done. unfold openWriteK. by rewrite Ht. }
  rewrite (ioBind_ok _ _ _ _ _ (wrapErr_ok _ _ _ _ _ Hopen)), Hc.
  assert (getInode d i = Inode [] (iperm (getInode (wdisk w) i))) as Hgi
    by (unfold d; by rewrite getInode_setInode, bool_decide_eq_true_2).
  assert (chunkOf root d x = Some []) as Hck.
  { unfold chunkOf, contentAt. change (nodeAt d (chunkKey root x)) with (nodeAt (wdisk w) (chunkKey root x)). by rewrite Hi, Hgi. }
  destruct (GetChunkReader_ok root c HL (setDisk d w) x [] Hr Hx Hck) as (h & Hg & Hrd).
  set (d2 := writeInode i 0 [] d).
  assert (copyChunks c target (HFile i 0) 0 [ref] (setDisk d w)
          = (Err (EText "short write for chunk"), setDisk d2 w)) as Hcp.
  { cbn [copyChunks]. rewrite Href, (ioBind_ok _ _ _ _ _ (wrapErr_ok _ _ _ _ _ Hg)), (ioBind_ok _ _ _ _ _ Hrd). cbv zeta.
    assert (limit (Size ref) ([], None) = ([], None)) as ->.
    { unfold limit. destruct (Z.leb_spec (Size ref) (blen (([] : bytes), (None : option error)).1)) as [Hle|]; [|done].
      change (Size ref <= 0)%Z in Hle. lia. }
    rewrite (ioBind_ok _ _ (setDisk d w) (Ok (HFile i 0)) (setDisk d2 w)).
    2: { rewrite attempt_eq. unfold copyTo. cbn [fst snd]. by rewrite (ioBind_ok _ _ _ _ _ (Write_reliable i 0 [] (setDisk d w) Hr)). }
    rewrite (ioBind_ok _ _ (setDisk d2 w) tt (setDisk d2 w)) by by rewrite ignore_eq, Close_reliable.
    change (blen (([] : bytes), (None : option error)).1) with 0%Z.
    destruct (Z.eqb_spec 0 (Size ref)); [lia|done]. }
  rewrite (ioBind_ok _ _ (setDisk d w) (Err (EText "short write for chunk")) (setDisk d2 w)).
  2: { rewrite attempt_eq. by rewrite (ioBind_err _ _ _ _ _ Hcp). }
  rewrite (ioBind_ok _ _ (setDisk d2 w) tt (setDisk d2 w)) by by rewrite ignore_eq, Close_reliable.
  eexists _, _. split; [reflexivity|]. rewrite wdisk_setDisk. unfold chunkOf, contentAt, d2, writeInode.
  rewrite nodeAt_setInode. change (nodeAt d (chunkKey root x)) with (nodeAt (wdisk w) (chunkKey root x)).
  rewrite Hi, getInode_setInode, bool_decide_eq_true_2 by done. simpl. by rewrite Hgi.
Qed.

End relink.

(** C31. With hard links and without [Overwrite], materialising a manifest over a
    hard link that is already there destroys the chunk in the cache: on a
    reliable disk, when the first file of a valid manifest is a single chunk
    that the store has with the right hash and a positive size, and its
    target is another name of that chunk's file, the call fails and the
    committed chunk is empty afterwards. *)
Theorem hardlink_no_overwrite_truncates_cache {D : Digest} {SS : SortSlice} {X : Type} root (c : ChunkStore X) opts m f fs ref
    dest target (w : world X) x i
    (HL : storeLayout root c) (Hr : reliable w) (Hw : wfDisk (wdisk w))
    (Hs : Strat opts = StrategyHardLink) (Ho : Overwrite opts = false)
    (Hv : Validate m = Ok tt) (Hm : files m = f :: fs) (Hc : chunksOf f = [ref])
    (Hz : (0 < Size ref)%Z) (Hsz : Size ref = FSize f) (Href : Hash ref = "sha256:" +:+ x) (Hx : hexName x)
    (Hi : nodeAt (wdisk w) (chunkKey root x) = Some (FileN i))
    (Hh : ComputeHash (idata (getInode (wdisk w) i)) = Hash ref)
    (Hj : SafeJoin dest (Path f) = Ok target) (Ht : nodeAt (wdisk w) (targetKey dest f) = Some (FileN i)) :
  exists e w', Materialize (fun _ => None) opts m c dest w = (Err e, w') /\ chunkOf root (wdisk w') x = Some [].
Proof.
  assert (relComps (Path f) <> []) as Hne.
  { apply Validate_iff, valid_files in Hv. rewrite Hm in Hv. apply Forall_cons in Hv as [(Hp & _) _].
    by apply validManifestPath_iff in Hp as [_ ?]. }
  destruct (key_SafeJoin _ _ _ Hj) as [Hk _]. fold (targetKey dest f) in Hk.
  pose proof (key_Dir_SafeJoin _ _ _ Hj Hne) as Hkd. rewrite Hk in Hkd.
  assert (nodeAt (wdisk w) (key dest) = Some DirN) as Hdest.
  { rewrite <- (take_app_length (key dest) (relComps (Path f))). apply (wf_prefix _ (targetKey dest f)); [done|by rewrite Ht|].
    unfold targetKey. rewrite length_app. destruct (relComps (Path f)); [done|simpl; lia]. }
  assert (nodeAt (wdisk w) (key (Dir target)) = Some DirN) as Hdir.
  { rewrite Hkd. apply (wf_parent _ Hw); [by eapply nodeAt_file_nonroot|by rewrite Ht]. }
  assert (tryHardLink opts f c target w = (Ok false, w)) as Hlink.
  { apply (tryHardLink_refused root c HL x Hx ref Href) with (i:=i); try done. by rewrite Hk, Ht. }
  destruct (materializeFile_emptied root c HL x Hx ref Href opts f target w i) as (e & w' & Hmf & Hempty); try done; [by rewrite Hk|].
  exists (EWrap "failed to materialize file" e), w'. split; [|done].
  unfold Materialize. rewrite Hv, (ioBind_ok _ _ w tt w) by done.
  rewrite (ioBind_ok _ _ _ _ _ (wrapErr_ok _ _ _ _ _ (MkdirAll_exists w dest Hr Hdest))), Hm. cbn [materializeAll].
  apply ioBind_err. unfold materializeEntry. rewrite Hj, bind_res_ok.
  rewrite (ioBind_ok _ _ _ _ _ (wrapErr_ok _ _ _ _ _ (MkdirAll_exists w (Dir target) Hr Hdir))).
  rewrite (ioBind_ok _ _ _ _ _ Hlink). exact (ioBind_err _ _ _ _ _ (wrapErr_err _ _ _ _ _ Hmf)).
Qed.

(** The same manifest again, over the link that the first run made. *)
Lemma hardlink_no_overwrite_truncates_cache_witness :
  chunkOf "/s" (wdisk linkedWorld) (strDrop 7 abcHash) = Some abc
  /\ exists e w', Materialize (fun _ => None) (linkOptions false) oneFile demoStore "/out" linkedWorld = (Err e, w')
       /\ chunkOf "/s" (wdisk w') (strDrop 7 abcHash) = Some [].
Proof.
  split; [vm_compute; reflexivity|].
  apply (hardlink_no_overwrite_truncates_cache "/s" demoStore (linkOptions false) oneFile
    (mkFileEntry "dir/a.txt" 3 "0600" (Slice [mkChunkRef abcHash 0 3])) [] (mkChunkRef abcHash 0 3) "/out" "/out/dir/a.txt"
    linkedWorld (strDrop 7 abcHash) 2).
  - by apply storeAt_layout.
  - vm_compute. reflexivity.
  - apply wfDiskb_sound. vm_compute. reflexivity.
  - reflexivity.
  - reflexivity.
  - vm_compute. reflexivity.
  - reflexivity.
  - reflexivity.
  - reflexivity.
  - reflexivity.
  - vm_compute. reflexivity.
  - split; vm_compute; reflexivity.
  - vm_compute. reflexivity.
  - vm_compute. reflexivity.
  - vm_compute. reflexivity.
  - vm_compute. reflexivity.
Defined.

(** The chunk [abc] with a declared size of five bytes. *)
Definition wrongSize : ArtifactManifest :=
  withID (mkManifest 1 "" "demo" "1.0" 8 5
    (Slice [mkFileEntry "a" 5 "0644" (Slice [mkChunkRef abcHash 0 5])])).

(** The hard-link path checks the hash of the chunk and not its size: a
    valid manifest that declares the wrong size is materialised without error,
    while the copying strategy rejects it. *)
Theorem hardlink_skips_size_check :
  let linked := Materialize (fun _ => None) (linkOptions true) wrongSize demoStore "/out" abcWorld in
  let copied := Materialize (fun _ => None) DefaultOptions wrongSize demoStore "/out" abcWorld in
  Validate wrongSize = Ok tt /\ map FSize (files wrongSize) = [5%Z]
  /\ linked.1 = Ok tt /\ contentAt (wdisk linked.2) ["out"; "a"] = Some abc
  /\ exists e, copied.1 = Err e.
Proof.
  split; [vm_compute; reflexivity|]. split; [reflexivity|].
  split; [vm_compute; reflexivity|]. split; [vm_compute; reflexivity|].
  eexists. vm_compute. reflexivity.
Qed.
