(* ===== verification/Verifier.v ===== *)
(** * Integrity reports (pkg/verifier/verifier.go)

    [VerifyChunk], [VerifyCache] and [VerifyMaterializedDirectory] with the
    report they fill in.  The error text of a result is a value of
    [fileError], one constructor per message. *)

From S2P Require Import Prelude Digest GoPath Json Manifest SafePath GoFs Chunker ChunkStore Materializer.
Local Open Scope go_scope.

Inductive fileError :=
| JoinError (e : error)
| FileMissing
| StatError (e : error)
| SizeMismatch (expected actual : Z)
| OpenError (e : error)
| SeekError (ci : nat) (e : error)
| ReadError (ci : nat) (e : error)
| ChunkMismatch (ci : nat) (expected actual : string)
| PermNote (actual expected : Z).

Record FileVerificationResult := mkResult {
  rPath : string;
  rExpectedSize : Z;
  rActualSize : Z;
  rExpectedMode : string;
  rActualMode : string;
  rTotalChunks : nat;
  rVerifiedChunks : nat;
  rCorruptChunks : list string;
  rValid : bool;
  rError : option fileError
}.

Record VerificationReport := mkReport {
  vArtifactID : string;
  vArtifactName : string;
  vArtifactVersion : string;
  TotalFiles : nat;
  ValidFiles : nat;
  CorruptFiles : nat;
  MissingFiles : nat;
  TotalChunks : nat;
  VerifiedChunks : nat;
  CorruptChunks : nat;
  FileResults : list FileVerificationResult;
  AllValid : bool
}.

(** [fmt.Sprintf("%04o", perm)] for a permission below 01000. *)
Definition octalChar (n : Z) : Ascii.ascii := Ascii.ascii_of_N (Z.to_N (48 + n mod 8)).
Definition octal4 (p : Z) : string :=
  String (octalChar (p / 512)) (String (octalChar (p / 64))
    (String (octalChar (p / 8)) (String (octalChar p) EmptyString))).

Section verifier.
Context {D : Digest} {SS : SortSlice} {X : Type}.

Definition VerifyChunk (c : ChunkStore X) (chunkHash : string) : IO X bool :=
  do (r, _) <- wrapErr "failed to open chunk" (GetChunkReader c chunkHash);
  do src <- readRest r;
  do_ ignore (Close r);
  do_ wrapErr "chunk corruption" (liftRes (VerifyHash src chunkHash));
  ioRet true.

Fixpoint verifyEach (c : ChunkStore X) (verifiedCount : nat) (corruptHashes : list string)
    (chunks : list string) : IO X (nat * list string) :=
  match chunks with
  | [] => ioRet (verifiedCount, corruptHashes)
  | h :: hs =>
      do valid <- attempt (VerifyChunk c h);
      match valid with
      | Ok true => verifyEach c (S verifiedCount) corruptHashes hs
      | _ => verifyEach c verifiedCount (corruptHashes ++ [h]) hs
      end
  end.

Definition VerifyCache (c : ChunkStore X) : IO X (nat * list string) :=
  do (chunks, err) <- ListChunks c;
  match err with
  | Some e => ioErr e
  | None => verifyEach c 0 [] chunks
  end.

(** The counters that the chunk loop of one file updates: the result, the
    report's chunk counters and [fileValid]. *)
Record chunkState := mkChunkState {
  csVerified : nat;            (* res.VerifiedChunks *)
  csCorrupt : list string;     (* res.CorruptChunks *)
  csError : option fileError;  (* res.Error *)
  csTotal : nat;               (* added to report.TotalChunks *)
  csBad : nat;                 (* added to report.CorruptChunks *)
  csValid : bool               (* fileValid *)
}.

Fixpoint verifyChunks (f : handle) (ci : nat) (s : chunkState) (chunks : list ChunkRef)
    : IO X chunkState :=
  match chunks with
  | [] => ioRet s
  | ref :: rest =>
      let broken e := mkChunkState (csVerified s) (csCorrupt s ++ [Hash ref]) (Some e)
                        (S (csTotal s)) (csBad s) false in
      do sk <- attempt (Seek f (Offset ref));
      match sk with
      | Err e => ioRet (broken (SeekError ci e))
      | Ok f' =>
          do src <- readRest f';
          let '(buf, err, _) := ReadFull (Z.to_nat (Size ref)) src in
          match err with
          | ReadErr e => ioRet (broken (ReadError ci e))
          | _ =>
              let actualHash := ComputeHash buf in
              verifyChunks f (S ci)
                (if bool_decide (actualHash = Hash ref) then
                   mkChunkState (S (csVerified s)) (csCorrupt s) (csError s)
                     (S (csTotal s)) (csBad s) (csValid s)
                 else
                   mkChunkState (csVerified s) (csCorrupt s ++ [Hash ref])
                     (Some (ChunkMismatch ci (Hash ref) actualHash))
                     (S (csTotal s)) (S (csBad s)) false) rest
          end
      end
  end.

(** How one file ends: the result and what it adds to the report. *)
Inductive fileStatus := FileValid | FileCorrupt | FileIsMissing.

Record fileOutcome := mkOutcome {
  oResult : FileVerificationResult;
  oStatus : fileStatus;
  oChunks : nat;
  oVerified : nat;
  oBad : nat
}.

(** The note on a differing mode, only when there is no error yet. *)
Definition modeNote (entry : FileEntry) (perm : Z) (e : option fileError) : option fileError :=
  if bool_decide (Mode entry = "") then e
  else match ParseOctal (Mode entry) with
       | Some expected =>
           if (perm =? expected)%Z then e
           else match e with None => Some (PermNote perm expected) | Some _ => e end
       | None => e
       end.

Definition verifyFile (targetDir : string) (entry : FileEntry) : IO X fileOutcome :=
  let failed sz mode e st :=
    mkOutcome (mkResult (Path entry) (FSize entry) sz (Mode entry) mode (length (chunksOf entry))
                 0 [] false (Some e)) st 0 0 0 in
  match SafeJoin targetDir (Path entry) with
  | Err e => ioRet (failed 0%Z "" (JoinError e) FileCorrupt)
  | Ok filePath =>
      do info <- attempt (Stat filePath);
      match info with
      | Err e =>
          if isNotExist e then ioRet (failed 0%Z "" FileMissing FileIsMissing)
          else ioRet (failed 0%Z "" (StatError e) FileCorrupt)
      | Ok fi =>
          let mode := octal4 (Perm (fiPerm fi)) in
          if negb (fiSize fi =? FSize entry)%Z then
            ioRet (failed (fiSize fi) mode (SizeMismatch (FSize entry) (fiSize fi)) FileCorrupt)
          else
            do f <- attempt (Open filePath);
            match f with
            | Err e => ioRet (failed (fiSize fi) mode (OpenError e) FileCorrupt)
            | Ok f =>
                do s <- verifyChunks f 0 (mkChunkState 0 [] None 0 0 true) (chunksOf entry);
                do_ ignore (Close f);
                ioRet (mkOutcome
                  (mkResult (Path entry) (FSize entry) (fiSize fi) (Mode entry) mode
                     (length (chunksOf entry)) (csVerified s) (csCorrupt s) (csValid s)
                     (modeNote entry (Perm (fiPerm fi)) (csError s)))
                  (if csValid s then FileValid else FileCorrupt) (csTotal s) (csVerified s) (csBad s))
            end
      end
  end.

Definition addOutcome (r : VerificationReport) (o : fileOutcome) : VerificationReport :=
  let st s := match oStatus o, s with
              | FileValid, FileValid | FileCorrupt, FileCorrupt | FileIsMissing, FileIsMissing => 1
              | _, _ => 0 end in
  {| vArtifactID := vArtifactID r; vArtifactName := vArtifactName r;
     vArtifactVersion := vArtifactVersion r; TotalFiles := TotalFiles r;
     ValidFiles := ValidFiles r + st FileValid;
     CorruptFiles := CorruptFiles r + st FileCorrupt;
     MissingFiles := MissingFiles r + st FileIsMissing;
     TotalChunks := TotalChunks r + oChunks o;
     VerifiedChunks := VerifiedChunks r + oVerified o;
     CorruptChunks := CorruptChunks r + oBad o;
     FileResults := FileResults r ++ [oResult o];
     AllValid := AllValid r && match oStatus o with FileValid => true | _ => false end |}.

Fixpoint verifyFiles (ctx : nat -> option error) (i : nat) (targetDir : string)
    (r : VerificationReport) (fs : list FileEntry) : IO X VerificationReport :=
  match fs with
  | [] => ioRet r
  | entry :: fs' =>
      match ctx i with
      | Some e => ioErr e
      | None =>
          do o <- verifyFile targetDir entry;
          verifyFiles ctx (S i) targetDir (addOutcome r o) fs'
      end
  end.

Definition VerifyMaterializedDirectory (ctx : nat -> option error) (manifest : ArtifactManifest)
    (targetDir : string) : IO X VerificationReport :=
  do_ wrapErr "invalid manifest" (liftRes (Validate manifest));
  verifyFiles ctx 0 targetDir
    (mkReport (ArtifactID manifest) (Name manifest) (Version manifest) (length (files manifest))
       0 0 0 0 0 0 [] true)
    (files manifest).

End verifier.

(** * Properties *)

(** ** Reading a report leaves the disk alone *)

Section properties.
Context {D : Digest} {SS : SortSlice} {X : Type}.

Lemma keeps_verifyChunks (P : disk -> Prop) f chunks : forall ci s,
  keeps (X:=X) P (verifyChunks f ci s chunks).
Proof.
  induction chunks as [|ref chunks IH]; intros ci s; cbn [verifyChunks]; [auto with go|].
  apply keeps_bind; [auto with go|]. intros [f'|e]; [|auto with go].
  apply keeps_bind; [auto with go|]. intros src.
  destruct (ReadFull (Z.to_nat (Size ref)) src) as [[buf err] r']. destruct err; auto with go.
Qed.

Lemma keeps_verifyFile (P : disk -> Prop) dir f : keeps (X:=X) P (verifyFile dir f).
Proof.
  unfold verifyFile. destruct (SafeJoin dir (Path f)); [|auto with go].
  apply keeps_bind; [auto with go|]. intros [fi|e]; [|destruct (isNotExist e); auto with go].
  destruct (negb _); [auto with go|].
  apply keeps_bind; [auto with go|]. intros [h|e]; [|auto with go].
  apply keeps_bind; [apply keeps_verifyChunks|]. intros s. apply keeps_bind; auto with go.
Qed.

Lemma keeps_verifyFiles (P : disk -> Prop) ctx dir fs : forall i r,
  keeps (X:=X) P (verifyFiles ctx i dir r fs).
Proof.
  induction fs as [|f fs IH]; intros i r; cbn [verifyFiles]; [auto with go|].
  destruct (ctx i); [auto with go|]. apply keeps_bind; [apply keeps_verifyFile|auto].
Qed.

(** ** The counters of a report *)

Definition isValid (o : fileOutcome) : bool :=
  match oStatus o with FileValid => true | _ => false end.

Record reportOK (n : nat) (r : VerificationReport) : Prop := {
  rep_files : ValidFiles r + CorruptFiles r + MissingFiles r = n;
  rep_results : length (FileResults r) = n;
  rep_valid : AllValid r = true <-> ValidFiles r = n;
  rep_chunks : VerifiedChunks r + CorruptChunks r <= TotalChunks r
}.

Lemma addOutcome_ok n r o :
  reportOK n r -> oVerified o + oBad o <= oChunks o -> reportOK (S n) (addOutcome r o).
Proof.
  intros [H1 H2 H3 H4] Ho. unfold addOutcome.
  split; simpl; [destruct (oStatus o); lia|rewrite length_app; simpl; lia| |lia].
  rewrite andb_true_iff, H3. destruct (oStatus o); split; [intros [? _]; lia|intros; split; [lia|done]|..];
    try (intros [_ [=]]); intros; lia.
Qed.

Lemma verifyChunks_counts f chunks : forall ci s (w : world X) s' w',
  verifyChunks f ci s chunks w = (Ok s', w') ->
  csVerified s + csBad s <= csTotal s -> csVerified s' + csBad s' <= csTotal s'.
Proof.
  induction chunks as [|ref chunks IH]; intros ci s w s' w' Hrun Hs; cbn [verifyChunks] in Hrun.
  { by injection Hrun as <- _. }
  apply ioBind_inv in Hrun as (sk & w1 & _ & Hrun). destruct sk as [f'|e].
  2: { injection Hrun as <- _. simpl. lia. }
  apply ioBind_inv in Hrun as (src & w2 & _ & Hrun).
  destruct (ReadFull (Z.to_nat (Size ref)) src) as [[buf err] r'].
  destruct err; try (injection Hrun as <- _; simpl; lia).
  all: eapply IH; [exact Hrun|]; case_bool_decide; simpl; lia.
Qed.

Lemma verifyFile_counts dir f (w : world X) o w' :
  verifyFile dir f w = (Ok o, w') -> oVerified o + oBad o <= oChunks o.
Proof.
  unfold verifyFile. destruct (SafeJoin dir (Path f)); [|by intros [= <- _]].
  intros (info & w1 & _ & Hrun)%ioBind_inv. destruct info as [fi|e].
  2: by destruct (isNotExist e); injection Hrun as <- _.
  destruct (negb _); [by injection Hrun as <- _|].
  apply ioBind_inv in Hrun as (h & w2 & _ & Hrun). destruct h as [h|e]; [|by injection Hrun as <- _].
  apply ioBind_inv in Hrun as (s & w3 & Hs & Hrun).
  apply ioBind_inv in Hrun as (? & w4 & _ & Hrun). injection Hrun as <- _. simpl.
  eapply verifyChunks_counts; [exact Hs|done].
Qed.

Lemma verifyFiles_counts ctx dir fs : forall i r (w : world X) r' w' n,
  verifyFiles ctx i dir r fs w = (Ok r', w') -> reportOK n r ->
  reportOK (n + length fs) r' /\ TotalFiles r' = TotalFiles r.
Proof.
  induction fs as [|f fs IH]; intros i r w r' w' n Hrun Hr; cbn [verifyFiles] in Hrun.
  { injection Hrun as <- _. by rewrite Nat.add_0_r. }
  destruct (ctx i); [done|]. apply ioBind_inv in Hrun as (o & w1 & Ho & Hrun).
  apply verifyFile_counts in Ho. destruct (IH _ _ _ _ _ (S n) Hrun) as [H1 H2]; [by apply addOutcome_ok|].
  simpl. rewrite Nat.add_succ_r. done.
Qed.

(** A report accounts for every file exactly once: valid, corrupt and
    missing files add up to the files of the manifest, there is one result per
    file, [AllValid] holds exactly when every file is valid, and verified and
    corrupt chunks are at most the chunks examined. *)
Theorem report_accounts ctx m dir (w : world X) r w'
    (Hrun : VerifyMaterializedDirectory ctx m dir w = (Ok r, w')) :
  TotalFiles r = length (files m)
  /\ ValidFiles r + CorruptFiles r + MissingFiles r = TotalFiles r
  /\ length (FileResults r) = TotalFiles r
  /\ (AllValid r = true <-> ValidFiles r = TotalFiles r)
  /\ VerifiedChunks r + CorruptChunks r <= TotalChunks r.
Proof.
  apply ioBind_inv in Hrun as (u & w1 & _ & Hrun).
  destruct (verifyFiles_counts _ _ _ _ _ _ _ _ 0 Hrun) as [[H1 H2 H3 H4] Ht]; [by split|].
  simpl in *. by rewrite Ht.
Qed.

(** ** What a valid result means *)

(** The range of [data] a reference describes has the declared hash. *)
Definition rangeOk (data : bytes) (ref : ChunkRef) : Prop :=
  (0 <= Offset ref)%Z
  /\ ComputeHash (take (Z.to_nat (Size ref)) (drop (Z.to_nat (Offset ref)) data)) = Hash ref.

(** The file of an entry is on disk with the declared size and hashes. *)
Definition fileVerified (dir : string) (f : FileEntry) (d : disk) : Prop :=
  exists j data, SafeJoin dir (Path f) = Ok j /\ contentAt d (key j) = Some data
                 /\ blen data = FSize f /\ Forall (rangeOk data) (chunksOf f).

(** An entry without bytes for which there is a directory that the file system
    reports with the size 0: the code does not look whether it is a file. *)
Definition emptyDirectory (dir : string) (f : FileEntry) (d : disk) : Prop :=
  FSize f = 0%Z /\ exists j, SafeJoin dir (Path f) = Ok j /\ nodeAt d (key j) = Some DirN
                             /\ dirSize d (names d) (key j) = 0%Z.

Definition entryVerified (dir : string) (f : FileEntry) (d : disk) : Prop :=
  fileVerified dir f d \/ emptyDirectory dir f d.

Lemma ReadFull_bytes n r buf err r' :
  ReadFull n r = (buf, err, r') -> (forall e, err <> ReadErr e) -> buf = take n r.1 /\ (n = 0 \/ r.2 = None \/ n <= length r.1).
Proof.
  unfold ReadFull. case_bool_decide as H; intros [= <- <- _] He.
  - auto.
  - rewrite take_ge by lia. split; [done|]. destruct (r.2) as [e|]; [by destruct (He e)|auto].
Qed.

Lemma Seek_inv h off (w : world X) h' w' :
  Seek h off w = (Ok h', w') ->
  (0 <= off)%Z /\ wdisk w' = wdisk w
  /\ h' = match h with HDir k => HDir k | HFile i _ => HFile i (Z.to_nat off) end.
Proof.
  intros H%syscall_inv. destruct (Z.ltb_spec off 0); [done|]. injection H as <- ->. done.
Qed.

Lemma verifyChunks_sound f chunks : forall ci s (w : world X) s' w',
  verifyChunks f ci s chunks w = (Ok s', w') -> csValid s' = true ->
  csValid s = true /\
  match f with
  | HFile i _ => Forall (rangeOk (idata (getInode (wdisk w) i))) chunks
  | HDir _ => Forall (fun ref => Size ref <= 0)%Z chunks
  end.
Proof.
  induction chunks as [|ref chunks IH]; intros ci s w s' w' Hrun Hv; cbn [verifyChunks] in Hrun.
  { injection Hrun as <- _. split; [done|]. destruct f; constructor. }
  apply ioBind_inv in Hrun as (sk & w1 & Hsk & Hrun). apply attempt_inv in Hsk.
  destruct sk as [f'|e]; [|injection Hrun as <- _; done].
  apply Seek_inv in Hsk as (Hoff & Hw1 & Hf').
  apply ioBind_inv in Hrun as (src & w2 & Hsrc & Hrun).
  pose proof (hoare_readRest (fun d => d = wdisk w1) f' w1 eq_refl) as Hrd. rewrite Hsrc in Hrd.
  simpl in Hrd. destruct Hrd as [Hw2 Hrd].
  destruct (ReadFull (Z.to_nat (Size ref)) src) as [[buf err] r'] eqn:Erf.
  assert ((forall e, err <> ReadErr e) /\
    verifyChunks f (S ci)
      (if bool_decide (ComputeHash buf = Hash ref) then
         mkChunkState (S (csVerified s)) (csCorrupt s) (csError s) (S (csTotal s)) (csBad s) (csValid s)
       else mkChunkState (csVerified s) (csCorrupt s ++ [Hash ref])
              (Some (ChunkMismatch ci (Hash ref) (ComputeHash buf))) (S (csTotal s)) (S (csBad s)) false)
      chunks w2 = (Ok s', w')) as [Hne Hrun'].
  { destruct err; try (split; [congruence|exact Hrun]). injection Hrun as <- _. done. }
  destruct (IH _ _ _ _ _ Hrun' Hv) as [Hs Hrest].
  case_bool_decide as Hh; [|done]. simpl in Hs. split; [done|].
  destruct (ReadFull_bytes _ _ _ _ _ Erf Hne) as [-> Hsize].
  destruct f as [|i off]; subst f'.
  - constructor; [|done]. destruct Hsize as [?|[Hnone|Hlen]]; [lia| |].
    + rewrite (Hrd Hnone) in Hnone. done.
    + assert (src.1 = []) as Hnil.
      { clear -Hsrc. unfold readRest in Hsrc. simpl in Hsrc.
        destruct (faults w1) as [|[| |n ?]]; injection Hsrc as <- _; try done. by destruct n. }
      rewrite Hnil in Hlen. simpl in Hlen. lia.
  - rewrite Hw2, Hw1 in Hrest. constructor; [|done]. split; [done|].
    rewrite <- Hh. f_equal.
    assert (src.1 = drop (Z.to_nat (Offset ref)) (idata (getInode (wdisk w) i))
            \/ exists n, src.1 = take n (drop (Z.to_nat (Offset ref)) (idata (getInode (wdisk w) i)))) as Hd.
    { unfold readRest in Hsrc. simpl in Hsrc. rewrite Hw1 in Hsrc.
      destruct (faults w1) as [|[| |n ?]]; injection Hsrc as <- _; simpl; auto.
      - right. by exists 0.
      - right. by exists n. }
    destruct Hd as [->|[n Hd]]; [done|].
    destruct Hsize as [->|[Hnone|Hlen]]; [done| |].
    + rewrite (Hrd Hnone). simpl. by rewrite Hw2, Hw1.
    + rewrite Hd. rewrite Hd, length_take in Hlen. rewrite take_take. f_equal. lia.
Qed.

(** A valid entry whose chunks have no bytes is empty. *)
Lemma no_bytes f : fileOk f -> Forall (fun ref => Size ref <= 0)%Z (chunksOf f) -> FSize f = 0%Z.
Proof.
  intros (_ & Hn & _ & Hs) He. rewrite Hs. assert (sumZ (sizes f) = 0)%Z as ->; [|done]. unfold sizes.
  clear Hs. induction (chunksOf f) as [|ref cs IH]; [done|]. simpl.
  apply Forall_cons in He as [H1 He]. apply Forall_cons in Hn as [(_ & _ & H2) Hn]. rewrite (IH Hn He). lia.
Qed.

Lemma verifyFile_sound dir f (w : world X) o w' :
  fileOk f -> verifyFile dir f w = (Ok o, w') -> isValid o = true -> entryVerified dir f (wdisk w).
Proof.
  intros Hok Hrun Hv. unfold verifyFile in Hrun.
  destruct (SafeJoin dir (Path f)) as [j|e] eqn:Ej; [|injection Hrun as <- _; done].
  apply ioBind_inv in Hrun as (info & w1 & Hst & Hrun). apply attempt_inv in Hst.
  destruct info as [fi|e]; [|by destruct (isNotExist e); injection Hrun as <- _].
  apply syscall_inv in Hst.
  destruct (Z.eqb_spec (fiSize fi) (FSize f)) as [Hsz|]; cbn [negb] in Hrun; [|injection Hrun as <- _; done].
  apply ioBind_inv in Hrun as (h & w2 & Ho & Hrun). apply attempt_inv in Ho.
  destruct h as [h|e]; [|injection Hrun as <- _; done]. apply syscall_inv in Ho.
  apply ioBind_inv in Hrun as (s & w3 & Hc & Hrun).
  apply ioBind_inv in Hrun as (? & w4 & _ & Hrun). injection Hrun as <- _. unfold isValid in Hv.
  simpl in Hv. destruct (csValid s) eqn:Es; [|done].
  destruct (verifyChunks_sound _ _ _ _ _ _ _ Hc Es) as [_ Hr].
  assert (wdisk w1 = wdisk w) as Hw1.
  { change (wdisk w1) with (Ok fi, wdisk w1).2. rewrite <- Hst. apply statK_readonly. }
  assert (wdisk w2 = wdisk w1) as Hw2.
  { change (wdisk w2) with (Ok h, wdisk w2).2. rewrite <- Ho. apply openK_readonly. }
  rewrite Hw2, Hw1 in Hr. rewrite Hw1 in Ho. unfold statK in Hst. unfold openK in Ho.
  destruct (nodeAt (wdisk w) (key j)) as [[|i]|] eqn:E; [| |done].
  - injection Hst as <- _. injection Ho as <- _. simpl in Hsz. right.
    assert (FSize f = 0)%Z as Hz by by apply no_bytes. split; [done|]. exists j. by rewrite Hsz, Hz.
  - left. injection Hst as <- _. injection Ho as <- _. exists j, (idata (getInode (wdisk w) i)).
    split; [done|]. split; [unfold contentAt; by rewrite E|]. done.
Qed.

Lemma verifyFiles_sound ctx dir fs : forall i r (w : world X) r' w',
  Forall fileOk fs ->
  verifyFiles ctx i dir r fs w = (Ok r', w') -> AllValid r' = true ->
  AllValid r = true /\ Forall (fun f => entryVerified dir f (wdisk w)) fs.
Proof.
  induction fs as [|f fs IH]; intros i r w r' w' Hf Hrun Hv; cbn [verifyFiles] in Hrun.
  { injection Hrun as <- _. done. }
  apply Forall_cons in Hf as [Hf1 Hf].
  destruct (ctx i); [done|]. apply ioBind_inv in Hrun as (o & w1 & Ho & Hrun).
  destruct (IH _ _ _ _ _ Hf Hrun Hv) as [Ha Hrest]. simpl in Ha. apply andb_true_iff in Ha as [Ha Hoi].
  assert (wdisk w1 = wdisk w) as Hw1.
  { rewrite <- (keeps_disk (verifyFile dir f) w); [by rewrite Ho|intros; apply keeps_verifyFile]. }
  rewrite Hw1 in Hrest. split; [done|]. constructor; [|done].
  by eapply verifyFile_sound.
Qed.

(** ** A complete file is reported valid *)

Lemma verifyChunks_complete i o chunks : forall ci s (w : world X),
  reliable w -> Forall (rangeOk (idata (getInode (wdisk w) i))) chunks ->
  exists s', verifyChunks (HFile i o) ci s chunks w = (Ok s', w) /\ csValid s' = csValid s.
Proof.
  induction chunks as [|ref chunks IH]; intros ci s w Hr Hc; cbn [verifyChunks]; [by exists s|].
  apply Forall_cons in Hc as [[Hoff Hh] Hc].
  assert (attempt (Seek (HFile i o) (Offset ref)) w
          = (Ok (Ok (HFile i (Z.to_nat (Offset ref)))), w)) as Hsk
    by by rewrite attempt_eq, Seek_reliable.
  rewrite (ioBind_ok _ _ _ _ _ Hsk).
  rewrite (ioBind_ok _ _ _ _ _ (readRest_reliable _ w Hr)). cbn [contents].
  set (rest := drop (Z.to_nat (Offset ref)) (idata (getInode (wdisk w) i))) in *.
  destruct (ReadFull (Z.to_nat (Size ref)) (rest, None)) as [[buf err] r'] eqn:E.
  assert (forall e, err <> ReadErr e) as Hne.
  { unfold ReadFull in E. simpl in E. repeat case_bool_decide; by injection E as _ <- _. }
  destruct (ReadFull_bytes _ _ _ _ _ E Hne) as [Hbuf _]. simpl in Hbuf. rewrite <- Hbuf in Hh.
  rewrite bool_decide_eq_true_2 by done.
  destruct (IH (S ci) (mkChunkState (S (csVerified s)) (csCorrupt s) (csError s) (S (csTotal s))
    (csBad s) (csValid s)) w Hr Hc) as (s' & H1 & H2).
  exists s'. split; [|done]. destruct err; try done. by destruct (Hne e).
Qed.

Lemma verifyFile_complete dir f (w : world X) :
  reliable w -> fileVerified dir f (wdisk w) ->
  exists o, verifyFile dir f w = (Ok o, w) /\ isValid o = true.
Proof.
  intros Hr (j & data & Hj & Hd & Hsz & Hc). unfold verifyFile. rewrite Hj.
  unfold contentAt in Hd. destruct (nodeAt (wdisk w) (key j)) as [[|i]|] eqn:E; try done.
  injection Hd as Hd.
  assert (attempt (Stat j) w = (Ok (Ok (fileInfo (getInode (wdisk w) i))), w)) as Hst.
  { rewrite attempt_eq, Stat_reliable by done. unfold statK. by rewrite E. }
  rewrite (ioBind_ok _ _ _ _ _ Hst). cbn [fiSize fileInfo]. rewrite Hd, Hsz, Z.eqb_refl. cbn [negb].
  assert (attempt (Open j) w = (Ok (Ok (HFile i 0)), w)) as Ho
    by by rewrite attempt_eq, (Open_file j w i).
  rewrite (ioBind_ok _ _ _ _ _ Ho).
  destruct (verifyChunks_complete i 0 (chunksOf f) 0 (mkChunkState 0 [] None 0 0 true) w Hr)
    as (s & Hs & Hv); [by rewrite Hd|].
  rewrite (ioBind_ok _ _ _ _ _ Hs).
  assert (ignore (Close (HFile i 0)) w = (Ok tt, w)) as Hcl by by rewrite ignore_eq, Close_reliable.
  rewrite (ioBind_ok _ _ _ _ _ Hcl). simpl in Hv. rewrite Hv.
  eexists. split; [reflexivity|]. done.
Qed.

Lemma verifyFiles_complete dir fs : forall i r (w : world X),
  reliable w -> AllValid r = true -> Forall (fun f => fileVerified dir f (wdisk w)) fs ->
  exists r', verifyFiles (fun _ => None) i dir r fs w = (Ok r', w) /\ AllValid r' = true.
Proof.
  induction fs as [|f fs IH]; intros i r w Hr Ha Hf; cbn [verifyFiles]; [by exists r|].
  apply Forall_cons in Hf as [Hf1 Hf].
  destruct (verifyFile_complete dir f w Hr Hf1) as (o & Ho & Hv).
  rewrite (ioBind_ok _ _ _ _ _ Ho). apply IH; [done| |done].
  unfold addOutcome, isValid in *. simpl. by rewrite Ha, Hv.
Qed.

Lemma VerifyMaterializedDirectory_files ctx m dir (w : world X) r w'
    (Hrun : VerifyMaterializedDirectory ctx m dir w = (Ok r, w')) (Hv : AllValid r = true) :
  forall f, f ∈ files m -> entryVerified dir f (wdisk w).
Proof.
  apply ioBind_inv in Hrun as (u & w1 & Hval & Hrun).
  assert (Validate m = Ok tt /\ w1 = w) as [Hval' ->].
  { unfold wrapErr, liftRes in Hval. destruct (Validate m) as [[]|e]; [|done]. by injection Hval as _ ->. }
  apply Validate_iff, valid_files in Hval'.
  destruct (verifyFiles_sound _ _ _ _ _ _ _ _ Hval' Hrun Hv) as [_ Hf].
  by apply Forall_forall.
Qed.

(** Reports are sound: when [VerifyMaterializedDirectory] reports
    [AllValid], whatever system calls failed on the way, every entry of the
    manifest is a regular file of the declared size whose byte ranges have the
    declared hashes, or an empty entry with a directory of size 0 in its place. *)
Theorem VerifyMaterializedDirectory_sound ctx m dir (w : world X) r w'
    (Hrun : VerifyMaterializedDirectory ctx m dir w = (Ok r, w')) (Hv : AllValid r = true) :
  forall f, f ∈ files m -> entryVerified dir f (wdisk w).
Proof. by eapply VerifyMaterializedDirectory_files. Qed.

(** Reports are complete: on a reliable disk, when every entry of a valid
    manifest is in place, the report says [AllValid]. *)
Theorem VerifyMaterializedDirectory_complete m dir (w : world X)
    (Hr : reliable w) (Hval : Validate m = Ok tt)
    (Hf : forall f, f ∈ files m -> fileVerified dir f (wdisk w)) :
  exists r, VerifyMaterializedDirectory (fun _ => None) m dir w = (Ok r, w) /\ AllValid r = true.
Proof.
  unfold VerifyMaterializedDirectory. rewrite Hval. rewrite (ioBind_ok _ _ w tt w) by done.
  apply verifyFiles_complete; [done|done|by apply Forall_forall].
Qed.

(** ** From materialised pieces to verified ranges *)

Lemma pieces_rangeOk refs ps : forall pre off,
  Forall2 pieceMatches refs ps -> Forall chunkNamed refs ->
  off = blen pre -> (off + sumZ (map Size refs) < 2 ^ 63)%Z -> alignedFrom off refs ->
  Forall (rangeOk (pre ++ concat ps)) refs.
Proof.
  intros pre off Hps. revert pre off. induction Hps as [|ref p refs ps [Hh Hsz] Hps IH];
    intros pre off Hn Hoff Hb Ha; [constructor|].
  apply Forall_cons in Hn as [(_ & _ & Hpos) Hn]. apply alignedFrom_cons in Ha as [Ho Ha].
  assert (0 <= sumZ (map Size refs))%Z as Hnn.
  { apply sumZ_nonneg. rewrite Forall_fmap. eapply Forall_impl; [exact Hn|]. by intros r (_ & _ & ?). }
  simpl in Hb. pose proof (blen_nonneg pre).
  rewrite wrap64_id in Ho by (unfold int64_range; lia).
  constructor.
  - split; [lia|]. rewrite Ho, Hoff, <- Hsz. unfold blen. rewrite !Nat2Z.id, drop_app_length.
    simpl. by rewrite take_app_length.
  - simpl. rewrite app_assoc. apply (IH (pre ++ p) (off + Size ref)%Z); try done.
    + rewrite blen_app. lia.
    + lia.
Qed.

Lemma fileMatches_verified dir f data d j :
  fileOk f -> (sumZ (sizes f) < 2 ^ 63)%Z -> SafeJoin dir (Path f) = Ok j ->
  contentAt d (key j) = Some data -> fileMatches f data -> fileVerified dir f d.
Proof.
  intros (_ & Hn & Hal & Hs) Hb Hj Hd (ps & Hps & -> & Hsz).
  assert (blen (concat ps) = sumZ (sizes f)) as Hlen.
  { rewrite blen_concat. unfold sizes. clear -Hps. induction Hps as [|ref p refs ps [_ Hp] _ IH]; [done|].
    simpl. by rewrite Hp, IH. }
  assert (Forall (fun z => 0 <= z)%Z (sizes f)) as Hpos.
  { unfold sizes. rewrite Forall_fmap. eapply Forall_impl; [exact Hn|]. by intros r (_ & _ & ?). }
  apply sumZ_nonneg in Hpos.
  exists j, (concat ps). split; [done|]. split; [done|]. split.
  - rewrite Hs, Hlen, wrap64_id; [done|]. unfold int64_range. lia.
  - apply (pieces_rangeOk _ _ [] 0 Hps Hn); [done|done|].
    intros i ref Hi. by rewrite Z.add_0_l, (Hal i ref Hi).
Qed.

End properties.

(** C22. What was materialised verifies: after a successful copy (no hard
    links) of a manifest, no two of whose paths clean to the same file and
    whose chunk sizes sum to less than 2^63 in each file, into a directory
    without files, whatever calls failed before, a later report on a reliable
    disk with the same contents says [AllValid]. *)
Theorem materialize_then_verify {D : Digest} {SS : SortSlice} {X : Type} ctx opts m (c : ChunkStore X)
    dest w w' (w2 : world X)
    (Hs : Strat opts <> StrategyHardLink)
    (Hnd : NoDup (map (fun f => relComps (Path f)) (files m)))
    (Hb : Forall (fun f => sumZ (sizes f) < 2 ^ 63)%Z (files m))
    (Hno : noFiles dest (wdisk w))
    (Hrun : Materialize ctx opts m c dest w = (Ok tt, w'))
    (Hdisk : wdisk w2 = wdisk w') (Hr : reliable w2) :
  exists r, VerifyMaterializedDirectory (fun _ => None) m dest w2 = (Ok r, w2) /\ AllValid r = true.
Proof.
  destruct (Materialize_joins _ _ _ _ _ _ _ Hrun) as [Hval Hj].
  destruct (Materialize_okay _ _ _ _ _ _ _ Hs Hnd Hno Hrun) as [Hin _].
  unfold VerifyMaterializedDirectory. rewrite Hval. rewrite (ioBind_ok _ _ w2 tt w2) by done.
  apply verifyFiles_complete; [done|done|]. rewrite Hdisk.
  apply Validate_iff, valid_files in Hval. rewrite Forall_forall in Hval, Hj, Hb |- *.
  intros f Hf. destruct (Hj f Hf) as [j Hjf]. destruct (Hin f Hf) as (data & Hd & Hm).
  eapply fileMatches_verified; [by apply Hval|by apply Hb|exact Hjf| |exact Hm].
  destruct (key_SafeJoin _ _ _ Hjf) as [-> _]. exact Hd.
Qed.

Section verifyCache.
Context {D : Digest} {SS : SortSlice} {X : Type}.
Context (root : string) (c : ChunkStore X) (HL : storeLayout root c).

Lemma VerifyChunk_reliable x data (w : world X) :
  reliable w -> hexName x -> chunkOf root (wdisk w) x = Some data ->
  exists r, VerifyChunk c ("sha256:" +:+ x) w = (r, w)
    /\ if bool_decide (ComputeHash data = "sha256:" +:+ x) then r = Ok true else exists e, r = Err e.
Proof.
  intros Hr Hx Hd. destruct (GetChunkReader_ok root c HL w x data Hr Hx Hd) as (f & Hg & Hrd).
  unfold VerifyChunk.
  rewrite (ioBind_ok _ _ _ _ _ (wrapErr_ok _ _ _ _ _ Hg)), (ioBind_ok _ _ _ _ _ Hrd).
  assert (ignore (Close f) w = (Ok tt, w)) as Hcl by by rewrite ignore_eq, Close_reliable.
  rewrite (ioBind_ok _ _ _ _ _ Hcl).
  assert (VerifyHash (data, None) ("sha256:" +:+ x)
    = if bool_decide (ComputeHash data = "sha256:" +:+ x) then Ok tt else Err (EText "hash mismatch")) as ->
    by done.
  case_bool_decide; eexists; (split; [reflexivity|]); eauto.
Qed.

Lemma verifyEach_ok l : forall n bad (w : world X),
  reliable w -> Forall (fun xd => hexName xd.1 /\ chunkOf root (wdisk w) xd.1 = Some xd.2) l ->
  exists n' bad', verifyEach c n bad (map (fun xd => "sha256:" +:+ xd.1) l) w = (Ok (n', bad'), w)
    /\ (forall h, h ∈ bad' <-> h ∈ bad \/ exists xd, xd ∈ l /\ h = "sha256:" +:+ xd.1
                                                       /\ ComputeHash xd.2 <> h)
    /\ n' + length bad' = n + length bad + length l.
Proof.
  induction l as [|[x data] l IH]; intros n bad w Hr Hl; cbn [map verifyEach].
  { exists n, bad. split; [done|]. split; [|simpl; lia]. set_solver. }
  apply Forall_cons in Hl as [[Hx Hd] Hl]. cbn [fst snd] in *.
  destruct (VerifyChunk_reliable x data w Hr Hx Hd) as (r & Hv & Hres).
  assert (attempt (VerifyChunk c ("sha256:" +:+ x)) w = (Ok r, w)) as Hat by by rewrite attempt_eq, Hv.
  rewrite (ioBind_ok _ _ _ _ _ Hat). case_bool_decide as Hh.
  - subst r. destruct (IH (S n) bad w Hr Hl) as (n' & bad' & H1 & H2 & H3).
    exists n', bad'. split; [done|]. split; [|simpl; lia]. intros h. rewrite H2.
    setoid_rewrite elem_of_cons. split; [naive_solver|].
    intros [?|(xd & [->|Hin] & -> & Hne)]; [by left|done|right; eauto].
  - destruct Hres as [e ->]. destruct (IH n (bad ++ ["sha256:" +:+ x]) w Hr Hl) as (n' & bad' & H1 & H2 & H3).
    exists n', bad'. split; [done|]. split.
    + intros h. rewrite H2, elem_of_app, list_elem_of_singleton. setoid_rewrite elem_of_cons.
      split; [|naive_solver]. intros [[?| ->]|(xd & Hin & ?)]; [by left| |right; eauto].
      right. exists (x, data). auto.
    + rewrite length_app in H3. simpl in *. lia.
Qed.

End verifyCache.

(** Bit rot is found: on a reliable disk [VerifyCache] returns as corrupt
    exactly the committed names whose contents no longer hash to them, counts
    the others, and nothing else. *)
Theorem VerifyCache_finds_corruption {D : Digest} {SS : SortSlice} {X : Type} root (c : ChunkStore X) w
    (HL : storeLayout root c) (Hr : reliable w) (HS : cacheShape root (wdisk w)) :
  exists n bad, VerifyCache c w = (Ok (n, bad), w)
    /\ (forall h, h ∈ bad <-> exists x data, h = "sha256:" +:+ x /\ hexName x
          /\ chunkOf root (wdisk w) x = Some data /\ ComputeHash data <> h)
    /\ n + length bad = length (committedIn root (wdisk w)).
Proof.
  destruct (verifyEach_ok root c HL (committedIn root (wdisk w)) 0 [] w Hr) as (n & bad & Hrun & Hbad & Hn).
  { apply Forall_forall. intros [x data] Hin. by apply elem_of_committedIn in Hin. }
  exists n, bad. split; [|split].
  - unfold VerifyCache. by rewrite (ioBind_ok _ _ _ _ _ (ListChunks_ok root c HL w Hr HS)).
  - intros h. rewrite Hbad. split.
    + intros [H|([x data] & Hin & -> & Hh)]; [by apply elem_of_nil in H|].
      apply elem_of_committedIn in Hin as [Hx Hd]; [|done]. exists x, data. done.
    + intros (x & data & -> & Hx & Hd & Hh). right. exists (x, data).
      split; [by apply elem_of_committedIn|done].
  - simpl in Hn. lia.
Qed.

(** ** Concrete runs *)

Lemma report_accounts_witness :
  exists r, (VerifyMaterializedDirectory (fun _ => None) oneFile "/out" linkedWorld).1 = Ok r
            /\ TotalFiles r = 1 /\ ValidFiles r + CorruptFiles r + MissingFiles r = TotalFiles r.
Proof.
  eexists. split; [vm_compute; reflexivity|]. split; [reflexivity|].
  assert ((VerifyMaterializedDirectory (X:=unit) (fun _ => None) oneFile "/out" linkedWorld).1 = Ok _) as Hrun
    by (vm_compute; reflexivity).
  exact (proj1 (proj2 (report_accounts _ _ _ _ _ _ (io_result _ _ _ Hrun)))).
Defined.

Lemma VerifyMaterializedDirectory_sound_witness :
  entryVerified "/out" (mkFileEntry "dir/a.txt" 3 "0600" (Slice [mkChunkRef abcHash 0 3]))
    (wdisk linkedWorld).
Proof.
  assert ((VerifyMaterializedDirectory (X:=unit) (fun _ => None) oneFile "/out" linkedWorld).1 = Ok _) as Hrun
    by (vm_compute; reflexivity).
  refine (VerifyMaterializedDirectory_sound _ _ _ _ _ _ (io_result _ _ _ Hrun) _ _ _).
  - reflexivity.
  - by constructor.
Defined.

Definition outWorld : world unit :=
  (Materialize (fun _ => None) DefaultOptions oneFile demoStore "/out" abcWorld).2.

Lemma materialize_then_verify_witness :
  exists r, VerifyMaterializedDirectory (fun _ => None) oneFile "/out" outWorld = (Ok r, outWorld)
            /\ AllValid r = true.
Proof.
  assert ((Materialize (fun _ => None) DefaultOptions oneFile demoStore "/out" abcWorld).1 = Ok tt) as Hrun
    by (vm_compute; reflexivity).
  apply (materialize_then_verify (fun _ => None) DefaultOptions oneFile demoStore "/out" abcWorld outWorld).
  - done.
  - apply NoDup_singleton.
  - constructor; [vm_compute; reflexivity|constructor].
  - apply vacant_noFiles, abcWorld_vacant.
  - exact (io_result _ _ _ Hrun).
  - reflexivity.
  - vm_compute. reflexivity.
Defined.

Lemma VerifyMaterializedDirectory_complete_witness :
  exists r, VerifyMaterializedDirectory (fun _ => None) oneFile "/out" outWorld = (Ok r, outWorld)
            /\ AllValid r = true.
Proof.
  apply (VerifyMaterializedDirectory_complete oneFile "/out" outWorld).
  - vm_compute. reflexivity.
  - vm_compute. reflexivity.
  - intros f Hf%list_elem_of_singleton. subst f. eexists "/out/dir/a.txt", abc.
    split; [vm_compute; reflexivity|]. split; [vm_compute; reflexivity|]. split; [vm_compute; reflexivity|].
    constructor; [|constructor]. split; [done|vm_compute; reflexivity].
Defined.

Lemma VerifyCache_finds_corruption_witness :
  exists n bad, VerifyCache demoStore readyWorld = (Ok (n, bad), readyWorld).
Proof.
  destruct (VerifyCache_finds_corruption "/s" demoStore readyWorld) as (n & bad & H & _).
  - by apply storeAt_layout.
  - vm_compute. reflexivity.
  - apply ready_shape, readyWorld_ready.
  - exists n, bad. exact H.
Defined.
