(* ===== verification/Quota.v ===== *)
(** * Disk quota and eviction (pkg/cache/manager.go, pkg/cache/reconcile.go)

    The [QuotaManager]: an index of chunk sizes, access times and reference
    counts with the pinned artifacts, kept in memory and saved to
    [index.json].  The manager's fields that change are part of the world's
    [ext] state through [HasQuota], so that [Touch] can be the commit hook of
    the chunk store.  The mutex of the manager makes each operation atomic. *)

From S2P Require Import Prelude GoFloat Digest GoPath Json Manifest GoFs Chunker ChunkStore.
Local Open Scope go_scope.

Record chunkMeta := mkMeta { mHash : string; mSize : Z; LastAccess : Z; mRefCount : Z }.

(** The zero value a missing map key reads as. *)
Definition zeroMeta : chunkMeta := mkMeta "" 0 0 0.

Record indexFile := mkIndex {
  iChunks : gmap string chunkMeta;
  iPins : gmap string (list string)
}.

Record qstate := mkQ { idx : indexFile; dirty : bool }.

(** Where the manager's state is in the state of the process. *)
Class HasQuota (X : Type) := {
  getQ : X -> qstate;
  setQ : qstate -> X -> X;
  getQ_setQ : forall q x, getQ (setQ q x) = q
}.

#[export] Program Instance qstate_HasQuota : HasQuota qstate :=
  {| getQ := fun q => q; setQ := fun q _ => q |}.
Next Obligation. done. Qed.

(** [json.MarshalIndent] and [json.Unmarshal] on an [indexFile]; the latter
    fills in a struct and may stop half way. *)
Class IndexCodec := {
  marshalIndex : indexFile -> res bytes;
  unmarshalIndex : bytes -> indexFile -> indexFile * option error
}.

Record QuotaManager (X : Type) := mkManager {
  qcache : ChunkStore X;
  maxBytes : Z;
  lowWatermark : float64;
  highWatermark : float64;
  qpath : string
}.
Arguments qcache {X}.
Arguments maxBytes {X}.
Arguments lowWatermark {X}.
Arguments highWatermark {X}.
Arguments qpath {X}.
Arguments mkManager {X}.

Section quota.
Context {D : Digest} {SS : SortSlice} {MC : ManifestCodec} {IC : IndexCodec}.
Context {X : Type} {HQ : HasQuota X}.
Implicit Types m : QuotaManager X.

Definition getIdx : IO X indexFile := do x <- getExt; ioRet (idx (getQ x)).

Definition putIdx (i : indexFile) : IO X unit :=
  do x <- getExt; putExt (setQ (mkQ i (dirty (getQ x))) x).

Definition putDirty (b : bool) : IO X unit :=
  do x <- getExt; putExt (setQ (mkQ (idx (getQ x)) b) x).

(** [time.Now().Unix()] *)
Definition unixNow : IO X Z := do t <- getNow; ioRet (t / 1000000000)%Z.

Definition load m : IO X unit :=
  do data <- ReadFile (qpath m);
  do i <- getIdx;
  let '(i', err) := unmarshalIndex data i in
  do_ putIdx i';
  match err with None => ioRet tt | Some e => ioErr e end.

Definition save m : IO X unit :=
  do i <- getIdx;
  do data <- liftRes (marshalIndex i);
  let tmp := qpath m +:+ ".tmp" in
  do_ WriteFile tmp data 420;
  do_ Rename tmp (qpath m);
  putDirty false.

Definition lookupMeta (i : indexFile) (h : string) : chunkMeta := default zeroMeta (iChunks i !! h).

Definition setMeta (h : string) (meta : chunkMeta) (i : indexFile) : indexFile :=
  mkIndex (<[h := meta]> (iChunks i)) (iPins i).

Fixpoint reconcileEach m (now : Z) (hashes : list string) : IO X unit :=
  match hashes with
  | [] => ioRet tt
  | h :: hs =>
      do i <- getIdx;
      do_ (if bool_decide (is_Some (iChunks i !! h)) then ioRet tt
           else
             do p <- attempt (GetChunkPath (qcache m) h);
             match p with
             | Err _ => ioRet tt
             | Ok p =>
                 do st <- attempt (Stat p);
                 match st with
                 | Err _ => ioRet tt
                 | Ok fi => putIdx (setMeta h (mkMeta h (fiSize fi) now 0) i)
                 end
             end);
      reconcileEach m now hs
  end.

Definition reconcileFromDisk m : IO X unit :=
  do (hashes, err) <- ListChunks (qcache m);
  match err with
  | Some e => ioErr e
  | None =>
      do now <- unixNow;
      do_ reconcileEach m now hashes;
      save m
  end.

Definition NewQuotaManager (c : ChunkStore X) (max : Z) (low high : float64) : IO X (QuotaManager X) :=
  let m := mkManager c
    (if (max <=? 0)%Z then 500 * 1024 * 1024 * 1024 else max)%Z
    (if fleb low fzero then literal 4 5 else low)
    (if fleb high fzero then literal 9 10 else high)
    (Join [rootDir c; "index.json"]) in
  do_ putIdx (mkIndex ∅ ∅);
  do_ putDirty false;
  do_ ignore (load m);
  do_ ignore (reconcileFromDisk m);
  ioRet m.

Definition Flush m : IO X unit :=
  do x <- getExt;
  if negb (dirty (getQ x)) then ioRet tt else save m.

Definition CloseManager m : IO X unit := Flush m.

Definition Touch (hash : string) (size : Z) : IO X unit :=
  do i <- getIdx;
  let meta := lookupMeta i hash in
  do now <- unixNow;
  do_ putIdx (setMeta hash (mkMeta hash (if (0 <? size)%Z then size else mSize meta) now (mRefCount meta)) i);
  putDirty true.

Definition fillSizeLocked m (hash : string) (meta : chunkMeta) : IO X chunkMeta :=
  if (0 <? mSize meta)%Z then ioRet meta
  else
    do sz <- CommittedChunkSize (qcache m) hash;
    ioRet match sz with
          | Some z => mkMeta (mHash meta) z (LastAccess meta) (mRefCount meta)
          | None => meta
          end.

Fixpoint pinEach m (hashes : list string) : IO X unit :=
  match hashes with
  | [] => ioRet tt
  | h :: hs =>
      do i <- getIdx;
      let meta := lookupMeta i h in
      do meta <- fillSizeLocked m h (mkMeta h (mSize meta) (LastAccess meta) (mRefCount meta));
      do_ putIdx (setMeta h (mkMeta (mHash meta) (mSize meta) (LastAccess meta) (mRefCount meta + 1)) i);
      pinEach m hs
  end.

Definition Pin m (manifest : ArtifactManifest) : IO X unit :=
  do i <- getIdx;
  if bool_decide (is_Some (iPins i !! ArtifactID manifest)) then save m
  else
    let hashes := AllChunkHashes manifest in
    do_ putIdx (mkIndex (iChunks i) (<[ArtifactID manifest := hashes]> (iPins i)));
    do_ pinEach m hashes;
    save m.

Definition unpinOne (i : indexFile) (h : string) : indexFile :=
  let meta := lookupMeta i h in
  setMeta h (mkMeta (mHash meta) (mSize meta) (LastAccess meta)
               (if (0 <? mRefCount meta)%Z then mRefCount meta - 1 else mRefCount meta)%Z) i.

Definition Unpin m (artifactID : string) : IO X unit :=
  do i <- getIdx;
  let hashes := default [] (iPins i !! artifactID) in
  do_ putIdx (fold_left unpinOne hashes (mkIndex (iChunks i) (delete artifactID (iPins i))));
  save m.

Definition Pinned : IO X (list string) :=
  do i <- getIdx;
  ioRet (sliceStable strLt (map_to_list (iPins i)).*1).

Definition RefCount (hash : string) : IO X Z :=
  do i <- getIdx;
  ioRet (mRefCount (lookupMeta i hash)).

(** The sum of the recorded sizes, in [int64] arithmetic. *)
Definition usedOf (i : indexFile) : Z :=
  fold_left add64 (map (fun hm => mSize hm.2) (map_to_list (iChunks i))) 0%Z.

Definition UsedBytes : IO X Z := do i <- getIdx; ioRet (usedOf i).

(** [int64(float64(maxBytes) * watermark)] *)
Definition mark m (w : float64) : Z := toInt64 (fmul (ofInt64 (maxBytes m)) w).

Definition evictLess (a b : string * chunkMeta) : bool := (LastAccess a.2 <? LastAccess b.2)%Z.

(** The unpinned chunks, in the order of the map, before they are sorted. *)
Definition candidates (i : indexFile) : list (string * chunkMeta) :=
  List.filter (fun hm => negb (0 <? mRefCount hm.2)%Z) (map_to_list (iChunks i)).

Fixpoint evictLoop m (target used : Z) (evicted : nat) (l : list (string * chunkMeta)) : IO X nat :=
  match l with
  | [] => ioRet evicted
  | (h, meta) :: l' =>
      if (used <=? target)%Z then ioRet evicted
      else
        do r <- attempt (DeleteChunk (qcache m) h);
        let deleted := match r with Ok _ => true | Err e => isNotExist e end in
        if deleted then
          do i <- getIdx;
          do_ putIdx (mkIndex (delete h (iChunks i)) (iPins i));
          evictLoop m target (sub64 used (mSize meta)) (S evicted) l'
        else evictLoop m target used evicted l'
  end.

Definition MaybeEvict m : IO X nat :=
  do i <- getIdx;
  let used := usedOf i in
  if (used <? mark m (highWatermark m))%Z then ioRet 0
  else
    let target := mark m (lowWatermark m) in
    do evicted <- evictLoop m target used 0 (sortSlice evictLess (candidates i));
    do_ ignore (save m);
    ioRet evicted.

(** ** reconcile.go *)

Fixpoint cachedRefs (c : ChunkStore X) (seen : gset string) (refs : list ChunkRef) : IO X (list string) :=
  match refs with
  | [] => ioRet []
  | ref :: rest =>
      if bool_decide (Hash ref ∈ seen) then cachedRefs c seen rest
      else
        do valid <- HasValidCommittedChunk c (Hash ref) (Size ref);
        if valid then
          do out <- cachedRefs c ({[Hash ref]} ∪ seen) rest;
          ioRet (Hash ref :: out)
        else cachedRefs c seen rest
  end.

Definition ManifestCachedHashes (c : ChunkStore X) (manifest : ArtifactManifest) : IO X (list string) :=
  cachedRefs c ∅ (concat (map chunksOf (files manifest))).

Fixpoint reconcilePinned (c : ChunkStore X) (out : list string) (ids : list string) : IO X (list string) :=
  match ids with
  | [] => ioRet out
  | id :: ids' =>
      do mf <- attempt (GetManifest c id);
      match mf with
      | Err _ => reconcilePinned c out ids'
      | Ok manifest =>
          do hs <- ManifestCachedHashes c manifest;
          reconcilePinned c (out ++ dedupFrom (list_to_set out) hs) ids'
      end
  end.

Definition StartupReconcileHashes (c : ChunkStore X) (pinnedArtifactIDs : list string)
    : IO X (list string * option error) :=
  if bool_decide (pinnedArtifactIDs = []) then ListChunks c
  else do out <- reconcilePinned c [] pinnedArtifactIDs; ioRet (out, None).

End quota.

(** * Properties *)

Section properties.
Context {D : Digest} {SS : SortSlice} {MC : ManifestCodec} {IC : IndexCodec}.
Context {X : Type} {HQ : HasQuota X}.
Implicit Types w : world X.

Definition cur w : indexFile := idx (getQ (ext w)).

Definition rc (i : indexFile) (h : string) : Z := mRefCount (lookupMeta i h).

(** How many pinned artifacts hold the chunk. *)
Definition pinCount (pins : gmap string (list string)) (h : string) : nat :=
  size (filter (fun kl => h ∈ kl.2) pins).

(** Reference counts are exact. *)
Record quotaInv (i : indexFile) : Prop := {
  q_nodup : forall id l, iPins i !! id = Some l -> NoDup l;
  q_count : forall h, rc i h = Z.of_nat (pinCount (iPins i) h)
}.

(** ** Running the index operations *)

Lemma getIdx_run w : getIdx w = (Ok (cur w), w).
Proof. done. Qed.

Lemma putIdx_cur i w : cur (putIdx i w).2 = i.
Proof. unfold cur, putIdx, ioBind, getExt, putExt. simpl. by rewrite getQ_setQ. Qed.

Lemma putIdx_run i w : putIdx i w = (Ok tt, (putIdx i w).2).
Proof. done. Qed.

Lemma putDirty_cur b w : cur (putDirty b w).2 = cur w.
Proof. unfold cur, putDirty, ioBind, getExt, putExt. simpl. by rewrite getQ_setQ. Qed.

Lemma extSame_cur {A} (m : IO X A) w : extSame m -> cur (m w).2 = cur w.
Proof. intros H. unfold cur. by rewrite H. Qed.

Lemma extSame_CommittedChunkSize (c : ChunkStore X) h : extSame (CommittedChunkSize c h).
Proof. unfold CommittedChunkSize. destruct (chunkPath c h); auto with go. Qed.

Lemma extSame_GetChunkPath (c : ChunkStore X) h : extSame (GetChunkPath c h).
Proof.
  apply extSame_bind; [auto with go|]. intros p. apply extSame_bind; [|auto with go].
  apply extSame_bind; [auto with go|]. intros [?|e]; [auto with go|destruct (isNotExist e); auto with go].
Qed.

Lemma extSame_DeleteChunk (c : ChunkStore X) h : extSame (DeleteChunk c h).
Proof. apply extSame_bind; auto with go. Qed.

Lemma save_cur m w : cur (save m w).2 = cur w.
Proof.
  unfold save. rewrite (ioBind_ok _ _ _ _ _ (getIdx_run w)).
  unfold ioBind. destruct (liftRes (marshalIndex (cur w)) w) as [[data|e] w1] eqn:E1.
  2: { by injection E1 as _ <-. }
  assert (w1 = w) as -> by (by injection E1 as _ <-).
  pose proof (extSame_cur (WriteFile (qpath m +:+ ".tmp") data 420) w (extSame_WriteFile _ _ _)) as H1.
  destruct (WriteFile _ data 420 w) as [[u|e] w2]; simpl in H1; [|done].
  pose proof (extSame_cur (Rename (qpath m +:+ ".tmp") (qpath m)) w2 (extSame_Rename _ _)) as H2.
  destruct (Rename _ _ w2) as [[u'|e] w3]; cbn [snd] in *; [|by rewrite H2].
  rewrite putDirty_cur. congruence.
Qed.

(** ** Reference counts *)

Lemma rc_setMeta h meta i h' :
  rc (setMeta h meta i) h' = if bool_decide (h = h') then mRefCount meta else rc i h'.
Proof.
  unfold rc, lookupMeta, setMeta. simpl. case_bool_decide; subst.
  - by rewrite lookup_insert_eq.
  - by rewrite lookup_insert_ne.
Qed.

Lemma quotaInv_sameCounts i i' :
  quotaInv i -> iPins i' = iPins i -> (forall h, rc i' h = rc i h) -> quotaInv i'.
Proof.
  intros [Hn Hc] Hp Hr. split.
  - intros id l. rewrite Hp. apply Hn.
  - intros h. by rewrite Hr, Hp.
Qed.

Lemma pinCount_insert pins id l h :
  pins !! id = None ->
  pinCount (<[id := l]> pins) h = pinCount pins h + (if bool_decide (h ∈ l) then 1 else 0).
Proof.
  intros Hn. unfold pinCount. case_bool_decide as Hh.
  - rewrite map_filter_insert_True by done. rewrite map_size_insert_None; [lia|].
    by apply map_lookup_filter_None_2; left.
  - rewrite map_filter_insert_False by done. rewrite delete_id by done. lia.
Qed.

Lemma pinCount_delete pins id l h :
  pins !! id = Some l ->
  pinCount pins h = pinCount (delete id pins) h + (if bool_decide (h ∈ l) then 1 else 0).
Proof.
  intros Hl. rewrite <- (pinCount_insert (delete id pins) id l h) by apply lookup_delete_eq.
  by rewrite insert_delete_eq, insert_id.
Qed.

Lemma fillSizeLocked_run m h meta w :
  exists meta' w', fillSizeLocked m h meta w = (Ok meta', w') /\ mRefCount meta' = mRefCount meta
                   /\ cur w' = cur w.
Proof.
  unfold fillSizeLocked. destruct (0 <? mSize meta)%Z; [by exists meta, w|].
  pose proof (extSame_cur _ w (extSame_CommittedChunkSize (qcache m) h)) as Hc. unfold ioBind.
  assert (exists sz w', CommittedChunkSize (qcache m) h w = (Ok sz, w')) as (sz & w' & E).
  { unfold CommittedChunkSize. destruct (chunkPath (qcache m) h); [|by eexists _, _].
    unfold ioBind. rewrite attempt_eq. by eexists _, _. }
  rewrite E in Hc |- *. simpl in Hc. destruct sz; by eexists _, w'.
Qed.

Lemma pinEach_run m hs : forall w,
  exists w', pinEach m hs w = (Ok tt, w') /\ iPins (cur w') = iPins (cur w)
    /\ (NoDup hs -> forall h, rc (cur w') h = (rc (cur w) h + if bool_decide (h ∈ hs) then 1 else 0)%Z).
Proof.
  induction hs as [|h hs IH]; intros w; cbn [pinEach].
  { exists w. split; [done|]. split; [done|]. intros _ h. rewrite bool_decide_eq_false_2; [lia|set_solver]. }
  rewrite (ioBind_ok _ _ _ _ _ (getIdx_run w)). cbv zeta.
  set (meta0 := mkMeta h (mSize (lookupMeta (cur w) h)) (LastAccess (lookupMeta (cur w) h))
                  (mRefCount (lookupMeta (cur w) h))).
  destruct (fillSizeLocked_run m h meta0 w) as (meta & w1 & H1 & Hrc & Hcur).
  rewrite (ioBind_ok _ _ _ _ _ H1). rewrite (ioBind_ok _ _ _ _ _ (putIdx_run _ w1)).
  set (i' := setMeta h (mkMeta (mHash meta) (mSize meta) (LastAccess meta) (mRefCount meta + 1)) (cur w)).
  destruct (IH (putIdx i' w1).2) as (w2 & H2 & Hp & Hc). rewrite putIdx_cur in Hp, Hc.
  exists w2. split; [done|]. split; [done|].
  intros Hnd h'. apply NoDup_cons in Hnd as [Hni Hnd]. rewrite (Hc Hnd h'). unfold i'. rewrite rc_setMeta.
  simpl. rewrite Hrc. unfold meta0. simpl.
  destruct (decide (h = h')) as [<-|Hne].
  - rewrite (bool_decide_eq_true_2 (h = h)), bool_decide_eq_false_2, bool_decide_eq_true_2;
      [unfold rc; lia|set_solver|done|done].
  - rewrite bool_decide_eq_false_2 by done. by rewrite (bool_decide_ext (h' ∈ hs) (h' ∈ h :: hs)) by set_solver.
Qed.

Lemma unpin_fold hs : forall i,
  iPins (fold_left unpinOne hs i) = iPins i
  /\ (NoDup hs -> (forall h, h ∈ hs -> 0 < rc i h)%Z ->
      forall h, rc (fold_left unpinOne hs i) h = (rc i h - if bool_decide (h ∈ hs) then 1 else 0)%Z).
Proof.
  induction hs as [|h hs IH]; intros i; simpl.
  { split; [done|]. intros _ _ h. lia. }
  destruct (IH (unpinOne i h)) as [Hp Hc]. split; [done|].
  intros [Hni Hnd]%NoDup_cons Hpos h'.
  assert (forall k, rc (unpinOne i h) k = if bool_decide (h = k) then (rc i h - 1)%Z else rc i k) as Hone.
  { intros k. unfold unpinOne. rewrite rc_setMeta. case_bool_decide; [|done]. simpl.
    specialize (Hpos h ltac:(by constructor)). unfold rc in *. destruct (Z.ltb_spec 0 (mRefCount (lookupMeta i h))); lia. }
  rewrite Hc; [|done|].
  - rewrite Hone. destruct (decide (h = h')) as [<-|Hne].
    + rewrite (bool_decide_eq_true_2 (h = h)), bool_decide_eq_false_2, bool_decide_eq_true_2;
        [lia|set_solver|done|done].
    + rewrite (bool_decide_eq_false_2 (h = h')) by done.
      by rewrite (bool_decide_ext (h' ∈ hs) (h' ∈ h :: hs)) by set_solver.
  - intros k Hk. rewrite Hone, bool_decide_eq_false_2 by (intros ->; done). apply Hpos. by constructor.
Qed.

(** ** The invariant *)

Lemma save_inv m w : quotaInv (cur w) -> quotaInv (cur (save m w).2).
Proof. by rewrite save_cur. Qed.

Lemma Touch_inv h sz w : quotaInv (cur w) -> quotaInv (cur (Touch h sz w).2).
Proof.
  intros Hi. unfold Touch. rewrite (ioBind_ok _ _ _ _ _ (getIdx_run w)). cbv zeta.
  rewrite (ioBind_ok _ _ w (now w / 1000000000)%Z w) by done.
  rewrite (ioBind_ok _ _ _ _ _ (putIdx_run _ w)). rewrite putDirty_cur, putIdx_cur.
  eapply quotaInv_sameCounts; [done|done|]. intros h'. rewrite rc_setMeta. case_bool_decide; by subst.
Qed.

Lemma Pin_inv m manifest w : quotaInv (cur w) -> quotaInv (cur (Pin m manifest w).2).
Proof.
  intros Hi. unfold Pin. rewrite (ioBind_ok _ _ _ _ _ (getIdx_run w)).
  case_bool_decide as Hp; [by rewrite save_cur|]. cbv zeta.
  rewrite (ioBind_ok _ _ _ _ _ (putIdx_run _ w)).
  match goal with |- context [putIdx ?i w] => destruct (pinEach_run m (AllChunkHashes manifest) (putIdx i w).2)
    as (w' & Hrun & Hpins & Hcnt) end.
  rewrite (ioBind_ok _ _ _ _ _ Hrun), save_cur. rewrite putIdx_cur in Hpins, Hcnt.
  assert (NoDup (AllChunkHashes manifest)) as Hnd by apply AllChunkHashes_NoDup.
  apply eq_None_not_Some in Hp. destruct Hi as [Hn Hc]. split.
  - intros id l. rewrite Hpins. simpl. intros [[<- <-]|[_ Hl]]%lookup_insert_Some; [done|eauto].
  - intros h. rewrite (Hcnt Hnd), Hpins. simpl. rewrite pinCount_insert by done.
    change (rc {| iChunks := iChunks (cur w); iPins := _ |} h) with (rc (cur w) h). rewrite Hc.
    case_bool_decide; lia.
Qed.

Lemma Unpin_inv m id w : quotaInv (cur w) -> quotaInv (cur (Unpin m id w).2).
Proof.
  intros Hi. unfold Unpin. rewrite (ioBind_ok _ _ _ _ _ (getIdx_run w)). cbv zeta.
  rewrite (ioBind_ok _ _ _ _ _ (putIdx_run _ w)), save_cur, putIdx_cur.
  destruct Hi as [Hn Hc]. destruct (iPins (cur w) !! id) as [l|] eqn:Hl; simpl.
  - destruct (unpin_fold l (mkIndex (iChunks (cur w)) (delete id (iPins (cur w))))) as [Hp Hr]. simpl in Hp.
    split.
    + intros id' l'. rewrite Hp. intros [_ Hl']%lookup_delete_Some. eauto.
    + intros h. rewrite Hr, Hp; [|by eauto|].
      * change (rc {| iChunks := iChunks (cur w); iPins := _ |} h) with (rc (cur w) h).
        rewrite Hc, (pinCount_delete _ _ _ h Hl). case_bool_decide; lia.
      * intros h' Hh'. change (rc {| iChunks := iChunks (cur w); iPins := _ |} h') with (rc (cur w) h').
        rewrite Hc, (pinCount_delete _ _ _ h' Hl), bool_decide_eq_true_2 by done. lia.
  - rewrite delete_id by done. by split.
Qed.

(** ** Triples on the index *)

Lemma triple_getIdx {B} (P : world X -> Prop) (k : indexFile -> IO X B) Q :
  (forall i, triple (fun w => cur w = i /\ P w) (k i) Q) -> triple P (ioBind getIdx k) Q.
Proof. intros H w Hw. rewrite (ioBind_ok _ _ _ _ _ (getIdx_run w)). by apply H. Qed.

Lemma triple_putIdx (P : world X -> Prop) i (I : indexFile -> Prop) :
  I i -> triple P (putIdx i) (fun _ w => I (cur w)).
Proof. intros H w _. by rewrite putIdx_cur. Qed.

Lemma triple_cur {A} (m : IO X A) (I : indexFile -> Prop) :
  extSame m -> triple (fun w => I (cur w)) m (fun _ w => I (cur w)).
Proof. intros H w Hw. by rewrite extSame_cur. Qed.

(** Adding an entry with no references changes no count. *)
Lemma quotaInv_addEntry i h meta :
  quotaInv i -> iChunks i !! h = None -> mRefCount meta = 0%Z -> quotaInv (setMeta h meta i).
Proof.
  intros Hi Hn H0. eapply quotaInv_sameCounts; [done|done|]. intros h'. rewrite rc_setMeta.
  case_bool_decide; [subst|done]. unfold rc, lookupMeta. by rewrite Hn.
Qed.

(** An invariant that such entries keep is kept by the reconciliation. *)
Section reconcile.
Context (I : indexFile -> Prop).
Context (Hadd : forall i h meta, I i -> iChunks i !! h = None -> mRefCount meta = 0%Z -> I (setMeta h meta i)).

Lemma reconcileEach_keeps m t hs :
  triple (fun w => I (cur w)) (reconcileEach m t hs) (fun _ w => I (cur w)).
Proof.
  induction hs as [|h hs IH]; [by intros w|]. cbn [reconcileEach].
  apply triple_getIdx. intros i. eapply (triple_bind _ _ _ (fun _ w => I (cur w)));
    [|intros _; exact IH|done].
  case_bool_decide as Hh; [by apply triple_ret; intros w [_ ?]|]. apply eq_None_not_Some in Hh.
  apply (triple_conseq (fun w => I i /\ cur w = i) _ _ (fun _ w => I (cur w)));
    [|intros w [<- ?]; done|done].
  apply triple_pull. intros Hi. assert (forall r : res unit, triple (fun w => cur w = i) (liftRes r)
    (fun _ w => I (cur w))) as Hret by (intros r w Hw; simpl; by rewrite Hw).
  eapply (triple_bind _ _ _ (fun _ w => cur w = i)); [apply (triple_cur _ (fun j => j = i));
    apply extSame_attempt, extSame_GetChunkPath| |intros e w Hw; by rewrite Hw].
  intros [p|e]; [|apply (Hret (Ok tt))].
  eapply (triple_bind _ _ _ (fun _ w => cur w = i)); [apply (triple_cur _ (fun j => j = i)); auto with go|
    |intros e w Hw; by rewrite Hw].
  intros [fi|e]; [|apply (Hret (Ok tt))]. apply triple_putIdx. by apply Hadd.
Qed.

Lemma extSame_ListChunks (c : ChunkStore X) : extSame (ListChunks c).
Proof. unfold ListChunks. auto with go. Qed.

Lemma reconcileFromDisk_keeps m :
  triple (fun w => I (cur w)) (reconcileFromDisk m) (fun _ w => I (cur w)).
Proof.
  eapply (triple_bind _ _ _ (fun _ w => I (cur w))); [apply triple_cur, extSame_ListChunks| |done].
  intros [hs [e|]]; [by intros w|].
  eapply (triple_bind _ _ _ (fun _ w => I (cur w))); [apply triple_cur; unfold unixNow; auto with go| |done].
  intros t. eapply (triple_bind _ _ _ (fun _ w => I (cur w))); [apply reconcileEach_keeps| |done].
  intros _ w. by rewrite save_cur.
Qed.

End reconcile.

Lemma reconcileFromDisk_inv m :
  triple (fun w => quotaInv (cur w)) (reconcileFromDisk m) (fun _ w => quotaInv (cur w)).
Proof. apply reconcileFromDisk_keeps, quotaInv_addEntry. Qed.

Lemma Flush_inv m : triple (fun w => quotaInv (cur w)) (Flush m) (fun _ w => quotaInv (cur w)).
Proof.
  unfold Flush. eapply (triple_bind _ _ _ (fun _ w => quotaInv (cur w))); [apply triple_cur; auto with go| |done].
  intros x. destruct (negb _); [by intros w|intros w; apply save_inv].
Qed.

End properties.

(** ** A file that the saving of the index does not touch *)

Section apart.
Context {X : Type}.

(** The file at [k] has contents [v], and is not the same file as [kt]. *)
Record apartFile (kt k : list string) (v : option bytes) (d : disk) : Prop := {
  apart_content : contentAt d k = v;
  apart_ino : forall i, nodeAt d kt = Some (FileN i) -> nodeAt d k <> Some (FileN i)
}.

Lemma contentAt_setInode i nd d k :
  nodeAt d k <> Some (FileN i) -> contentAt (setInode i nd d) k = contentAt d k.
Proof.
  intros Hk. unfold contentAt. rewrite nodeAt_setInode. destruct (nodeAt d k) as [[|j]|]; try done.
  rewrite getInode_setInode, bool_decide_eq_false_2; [done|]. congruence.
Qed.

Lemma apart_removeK kt k v k' d : k' <> k -> apartFile kt k v d -> apartFile kt k v (removeK k' d).2.
Proof.
  intros Hk [Hc Hi]. destruct (removeK_cases k' d) as [->|(Hne & -> & _)]; [by split|]. simpl.
  split.
  - rewrite <- Hc. eapply contentAt_frame; [by apply frame_delName|done].
  - intros i. rewrite !nodeAt_delName by done. rewrite (bool_decide_eq_false_2 (k' = k)) by done.
    case_bool_decide; [done|apply Hi].
Qed.

Lemma apart_renameK kt kq k v d : kt <> k -> kq <> k -> apartFile kt k v d -> apartFile kt k v (renameK kt kq d).2.
Proof.
  intros Ht Hq [Hc Hi]. destruct (renameK_cases kt kq d) as [->|(i & Hk & Hne & Hnd & Hni & _ & ->)]; [by split|].
  simpl. assert (kt <> []) as Hk0 by by eapply nodeAt_file_nonroot. assert (kq <> []) as Hq0 by by intros ->.
  assert (forall k0, k0 <> kt -> k0 <> kq -> nodeAt (setName kq (FileN i) (delName kt d)) k0 = nodeAt d k0) as Hn.
  { intros k0 H1 H2. rewrite nodeAt_setName, nodeAt_delName by done.
    by rewrite !bool_decide_eq_false_2 by congruence. }
  split.
  - rewrite <- Hc. unfold contentAt. by rewrite Hn by congruence.
  - intros j. rewrite nodeAt_setName, nodeAt_delName by done.
    rewrite (bool_decide_eq_false_2 (kq = kt)), (bool_decide_eq_true_2 (kt = kt)) by congruence. done.
Qed.

Lemma hoare_WriteFile_apart p k v b perm :
  key p <> k -> keeps (X:=X) (apartFile (key p) k v) (WriteFile p b perm).
Proof.
  intros Hk. unfold WriteFile.
  apply (hoare_bind _ _ _ (fun r d => apartFile (key p) k v d /\
    match r with Ok (HFile i _) => nodeAt d k <> Some (FileN i) | _ => True end)).
  - apply hoare_syscall; [|done]. intros d Ha. pose proof Ha as [Hc Hi]. unfold openWriteK.
    destruct (nodeAt d (key p)) as [[|i]|] eqn:E; [by split| |].
    + simpl. split; [split|].
      * rewrite contentAt_setInode; [done|by apply Hi].
      * intros j. rewrite !nodeAt_setInode. intros Hj. apply Hi. congruence.
      * rewrite nodeAt_setInode. by apply Hi.
    + destruct (nodeAt d (parent (key p))) as [[|j]|] eqn:E'; [|by split..].
      assert (key p <> []) as Hne by by eapply nodeAt_none_nonroot.
      change (apartFile (key p) k v (newFile (key p) perm d) /\ nodeAt (newFile (key p) perm d) k
        <> Some (FileN (freshIno d))).
      assert (nodeAt (newFile (key p) perm d) k <> Some (FileN (freshIno d))) as Hf.
      { rewrite nodeAt_newFile, bool_decide_eq_false_2 by done. apply freshIno_node. }
      split; [|done]. split.
      * rewrite <- Hc. eapply contentAt_frame; [by apply frame_newFile|done].
      * intros i. rewrite (nodeAt_newFile _ _ _ (key p)), bool_decide_eq_true_2 by done. by intros [= <-].
  - intros h. apply (hoare_bind _ _ _ (fun _ => apartFile (key p) k v)); [| |done].
    + eapply hoare_attempt; [|intros r d H; exact H]. intros w [Ha Hh].
      assert (forall i off b', h = HFile i off -> apartFile (key p) k v (writeInode i off b' (wdisk w))) as Hw.
      { intros i off b' ->. unfold writeInode. destruct Ha as [Hc Hi]. split.
        - by rewrite contentAt_setInode.
        - intros j. rewrite !nodeAt_setInode. apply Hi. }
      unfold Write. destruct h as [|i off]; [done|].
      destruct (faults w) as [|[|e|n e] fs]; simpl; try done; by apply Hw.
    + intros r. apply keeps_bind; [auto with go|]. intros cl. destruct r; auto with go.
  - by intros e d [H _].
Qed.

End apart.

(** ** Eviction *)

Section eviction.
Context {D : Digest} {SS : SortSlice} {MC : ManifestCodec} {IC : IndexCodec}.
Context {X : Type} {HQ : HasQuota X}.
Implicit Types w : world X.
Implicit Types m : QuotaManager X.

Lemma elem_of_candidates i h meta :
  (h, meta) ∈ candidates i <-> iChunks i !! h = Some meta /\ (mRefCount meta <= 0)%Z.
Proof.
  unfold candidates. rewrite elem_of_filterb, elem_of_map_to_list. simpl.
  destruct (Z.ltb_spec 0 (mRefCount meta)); simpl; split; intros []; split; (done || lia).
Qed.

Lemma evictLoop_step m target used ev h meta l w :
  (target < used)%Z ->
  let r := DeleteChunk (qcache m) h w in
  evictLoop m target used ev ((h, meta) :: l) w =
    (if match r.1 with Ok _ => true | Err e => isNotExist e end
     then evictLoop m target (sub64 used (mSize meta)) (S ev) l
            (putIdx (mkIndex (delete h (iChunks (cur w))) (iPins (cur w))) r.2).2
     else evictLoop m target used ev l r.2).
Proof.
  intros Hu r. cbn [evictLoop]. rewrite (proj2 (Z.leb_gt _ _)) by done.
  unfold ioBind at 1. rewrite attempt_eq. fold r. cbv zeta.
  destruct (match r.1 with Ok _ => true | Err e => isNotExist e end); [|done].
  rewrite (ioBind_ok _ _ _ _ _ (getIdx_run r.2)), (ioBind_ok _ _ _ _ _ (putIdx_run _ r.2)).
  unfold r. by rewrite (extSame_cur _ w (extSame_DeleteChunk (qcache m) h)).
Qed.

Lemma evictLoop_stop m target used ev l w :
  (used <= target)%Z -> evictLoop m target used ev l w = (Ok ev, w).
Proof. intros Hu. destruct l as [|[h meta] l]; [done|]. cbn [evictLoop]. by rewrite (proj2 (Z.leb_le _ _)). Qed.

(** Whatever fails, only listed entries leave the index. *)
Lemma evictLoop_cur m target l : forall used ev w,
  let w' := (evictLoop m target used ev l w).2 in
  iPins (cur w') = iPins (cur w)
  /\ forall h, iChunks (cur w') !! h = iChunks (cur w) !! h
               \/ (h ∈ l.*1 /\ iChunks (cur w') !! h = None).
Proof.
  induction l as [|[h meta] l IH]; intros used ev w; [split; [done|by left]|].
  destruct (Z.le_gt_cases used target) as [Hu|Hu].
  { rewrite evictLoop_stop by done. split; [done|by left]. }
  rewrite evictLoop_step by lia. cbv zeta.
  pose proof (extSame_cur _ w (extSame_DeleteChunk (qcache m) h)) as Hd.
  set (r := DeleteChunk (qcache m) h w) in *.
  destruct (match r.1 with Ok _ => true | Err e => isNotExist e end).
  - match goal with |- context [evictLoop m target ?u ?e l ?w1] => specialize (IH u e w1) end.
    cbv zeta in IH. rewrite putIdx_cur in IH. destruct IH as [Hp Hc]. split; [done|].
    intros h'. simpl in Hc. destruct (Hc h') as [He|[He1 He2]].
    + destruct (decide (h = h')) as [<-|Hne].
      * right. rewrite lookup_delete_eq in He. split; [by left|done].
      * left. by rewrite lookup_delete_ne in He.
    + right. split; [by right|done].
  - specialize (IH used ev r.2). cbv zeta in IH. rewrite Hd in IH. destruct IH as [Hp Hc]. split; [done|].
    intros h'. destruct (Hc h') as [?|[??]]; [by left|right]. split; [by right|done].
Qed.

Lemma evictLoop_ok m target l : forall used ev w, exists n, (evictLoop m target used ev l w).1 = Ok n.
Proof.
  induction l as [|[h meta] l IH]; intros used ev w; [by eexists|].
  destruct (Z.le_gt_cases used target) as [Hu|Hu].
  { rewrite evictLoop_stop by done. by eexists. }
  rewrite evictLoop_step by lia. cbv zeta. by destruct (match _ with Ok _ => true | Err e => isNotExist e end).
Qed.

(** [MaybeEvict] in its two cases. *)
Lemma MaybeEvict_below m w :
  (usedOf (cur w) < mark m (highWatermark m))%Z -> MaybeEvict m w = (Ok 0, w).
Proof.
  intros H. unfold MaybeEvict. rewrite (ioBind_ok _ _ _ _ _ (getIdx_run w)). cbv zeta.
  by rewrite (proj2 (Z.ltb_lt _ _)).
Qed.

Lemma MaybeEvict_above m w :
  (mark m (highWatermark m) <= usedOf (cur w))%Z ->
  let r := evictLoop m (mark m (lowWatermark m)) (usedOf (cur w)) 0
             (sortSlice evictLess (candidates (cur w))) w in
  MaybeEvict m w = (r.1, (save m r.2).2).
Proof.
  intros H r. unfold MaybeEvict. rewrite (ioBind_ok _ _ _ _ _ (getIdx_run w)). cbv zeta.
  rewrite (proj2 (Z.ltb_ge _ _)) by done. fold r.
  destruct (evictLoop_ok m (mark m (lowWatermark m)) (sortSlice evictLess (candidates (cur w)))
    (usedOf (cur w)) 0 w) as [n Hn]. fold r in Hn.
  rewrite (ioBind_ok _ _ w n r.2) by by rewrite <- Hn, <- surjective_pairing.
  unfold ioBind. rewrite ignore_eq. by rewrite Hn.
Qed.

Lemma MaybeEvict_cur m w :
  let w' := (MaybeEvict m w).2 in
  iPins (cur w') = iPins (cur w)
  /\ forall h, iChunks (cur w') !! h = iChunks (cur w) !! h
               \/ ((rc (cur w) h <= 0)%Z /\ iChunks (cur w') !! h = None).
Proof.
  cbv zeta. destruct (Z.lt_ge_cases (usedOf (cur w)) (mark m (highWatermark m))) as [H|H].
  { rewrite MaybeEvict_below by done. split; [done|by left]. }
  rewrite MaybeEvict_above by done. cbn [snd]. rewrite save_cur.
  pose proof (evictLoop_cur m (mark m (lowWatermark m)) (sortSlice evictLess (candidates (cur w)))
    (usedOf (cur w)) 0 w) as [Hp Hc].
  split; [done|]. intros h. destruct (Hc h) as [?|[Hin Hn]]; [by left|right]. split; [|done].
  apply list_elem_of_fmap in Hin as ([h' meta] & -> & Hin). rewrite sortSlice_perm in Hin.
  apply elem_of_candidates in Hin as [Hl Hr]. unfold rc, lookupMeta. simpl. by rewrite Hl.
Qed.

Lemma MaybeEvict_inv m w : quotaInv (cur w) -> quotaInv (cur (MaybeEvict m w).2).
Proof.
  intros [Hn Hc]. pose proof (MaybeEvict_cur m w) as [Hp He]. split.
  - intros id l. rewrite Hp. apply Hn.
  - intros h. rewrite Hp, <- Hc. unfold rc, lookupMeta. destruct (He h) as [->|[Hr ->]]; [done|].
    change (0%Z = rc (cur w) h). rewrite Hc in Hr |- *. lia.
Qed.

(** What can happen to the manager: its operations, and anything that leaves
    its state alone (the other components, the passing of time). *)
Inductive quotaStep m : world X -> world X -> Prop :=
| step_Touch w h size : quotaStep m w (Touch h size w).2
| step_Pin w manifest : quotaStep m w (Pin m manifest w).2
| step_Unpin w id : quotaStep m w (Unpin m id w).2
| step_MaybeEvict w : quotaStep m w (MaybeEvict m w).2
| step_Flush w : quotaStep m w (Flush m w).2
| step_reconcile w : quotaStep m w (reconcileFromDisk m w).2
| step_other w w' : cur w' = cur w -> quotaStep m w w'.

Lemma quotaSteps_inv m w w' : rtc (quotaStep m) w w' -> quotaInv (cur w) -> quotaInv (cur w').
Proof.
  induction 1 as [|w1 w2 w3 Hs _ IH]; [done|]. intros Hi. apply IH. destruct Hs.
  - by apply Touch_inv.
  - by apply Pin_inv.
  - by apply Unpin_inv.
  - by apply MaybeEvict_inv.
  - by apply Flush_inv.
  - by apply reconcileFromDisk_inv.
  - congruence.
Qed.

Lemma quotaInv_empty : quotaInv (mkIndex ∅ ∅).
Proof.
  split.
  - intros id l. simpl. by rewrite lookup_empty.
  - intros h. unfold rc, lookupMeta, pinCount. simpl. by rewrite lookup_empty, map_filter_empty, map_size_empty.
Qed.

Lemma pinned_rc i id l h : quotaInv i -> iPins i !! id = Some l -> h ∈ l -> (0 < rc i h)%Z.
Proof.
  intros [_ Hc] Hl Hh. rewrite Hc, (pinCount_delete _ _ _ h Hl), bool_decide_eq_true_2 by done. lia.
Qed.

(** *** The chunks on disk *)

Context (root : string).

Lemma DeleteChunk_apart (c : ChunkStore X) kt h x v :
  storeLayout root c -> wellNamed h -> h <> "sha256:" +:+ x ->
  keeps (apartFile kt (chunkKey root x) v) (DeleteChunk c h).
Proof.
  intros HL Hh Hne. unfold DeleteChunk.
  destruct (wellNamed_cases h Hh) as [(e & He)|(y & Hy & -> & Hn)].
  { unfold chunkPath. rewrite He. by intros w. }
  destruct (chunkPath_good root c HL y Hn) as (q & -> & Hk & _). rewrite bind_res_ok.
  apply keeps_syscall. intros d. apply apart_removeK. rewrite Hk. intros E%chunkKey_inj. by subst.
Qed.

Lemma evictLoop_keeps m (P : disk -> Prop) target l :
  (forall h, h ∈ l.*1 -> keeps P (DeleteChunk (qcache m) h)) ->
  forall used ev w, P (wdisk w) -> P (wdisk (evictLoop m target used ev l w).2).
Proof.
  induction l as [|[h meta] l IH]; intros Hl used ev w Ha; [done|].
  destruct (Z.le_gt_cases used target) as [Hu|Hu]; [by rewrite evictLoop_stop|].
  rewrite evictLoop_step by lia. cbv zeta. pose proof (Hl h ltac:(by left) w Ha) as Hd.
  assert (forall h, h ∈ l.*1 -> keeps P (DeleteChunk (qcache m) h)) as Hl' by (intros; apply Hl; by right).
  destruct (match _ with Ok _ => true | Err e => isNotExist e end); by apply IH.
Qed.

Lemma save_apart m k v :
  key (qpath m +:+ ".tmp") <> k -> key (qpath m) <> k ->
  keeps (apartFile (key (qpath m +:+ ".tmp")) k v) (save m).
Proof.
  intros H1 H2. unfold save. apply keeps_bind; [by intros w|]. intros i.
  apply keeps_bind; [auto with go|]. intros data.
  apply keeps_bind; [by apply hoare_WriteFile_apart|]. intros ?.
  apply keeps_bind; [apply keeps_syscall; intros d; by apply apart_renameK|]. intros ?.
  by intros w.
Qed.

Lemma index_keys x :
  root <> "" ->
  key (Join [root; "index.json"] +:+ ".tmp") <> chunkKey root x /\ key (Join [root; "index.json"]) <> chunkKey root x.
Proof.
  intros Hr. assert (forall y, key root ++ [y] <> chunkKey root x) as H.
  { intros y. unfold chunkKey, chunkRoot. rewrite <- app_assoc. intros E%app_inv_head. done. }
  split; [rewrite key_Join_suffix by done|rewrite key_Join_names by (done || by repeat constructor)]; apply H.
Qed.

(** Pinned chunks stay, whatever fails. *)
Lemma MaybeEvict_keeps m id l x v w :
  storeLayout root (qcache m) -> qpath m = Join [root; "index.json"] ->
  quotaInv (cur w) -> (forall h, is_Some (iChunks (cur w) !! h) -> wellNamed h) ->
  iPins (cur w) !! id = Some l -> "sha256:" +:+ x ∈ l ->
  apartFile (key (qpath m +:+ ".tmp")) (chunkKey root x) v (wdisk w) ->
  apartFile (key (qpath m +:+ ".tmp")) (chunkKey root x) v (wdisk (MaybeEvict m w).2).
Proof.
  intros HL Hq Hi Hn Hl Hx Ha. pose proof (pinned_rc _ _ _ _ Hi Hl Hx) as Hrc.
  destruct (Z.lt_ge_cases (usedOf (cur w)) (mark m (highWatermark m))) as [H|H];
    [by rewrite MaybeEvict_below|]. rewrite MaybeEvict_above by done. cbn [snd].
  destruct (index_keys x (layout_root _ _ HL)) as [Hk1 Hk2]. rewrite <- Hq in Hk1, Hk2.
  apply save_apart; [done..|]. apply evictLoop_keeps; [|done].
  intros h ([h' meta] & -> & Hin)%list_elem_of_fmap. rewrite sortSlice_perm in Hin.
  apply elem_of_candidates in Hin as [Hm Hr]. simpl. apply DeleteChunk_apart; [done|apply Hn; eauto|].
  intros ->. unfold rc, lookupMeta in Hrc. rewrite Hm in Hrc. simpl in Hrc. lia.
Qed.

Lemma MaybeEvict_apart m id l x w :
  storeLayout root (qcache m) -> qpath m = Join [root; "index.json"] ->
  quotaInv (cur w) -> (forall h, is_Some (iChunks (cur w) !! h) -> wellNamed h) ->
  iPins (cur w) !! id = Some l -> "sha256:" +:+ x ∈ l ->
  (forall i, nodeAt (wdisk w) (key (qpath m +:+ ".tmp")) = Some (FileN i) ->
             nodeAt (wdisk w) (chunkKey root x) <> Some (FileN i)) ->
  contentAt (wdisk (MaybeEvict m w).2) (chunkKey root x) = contentAt (wdisk w) (chunkKey root x)
  /\ iChunks (cur (MaybeEvict m w).2) !! ("sha256:" +:+ x) = iChunks (cur w) !! ("sha256:" +:+ x).
Proof.
  intros HL Hq Hi Hn Hl Hx Hino. split.
  - eapply apart_content, MaybeEvict_keeps; try done.
  - pose proof (pinned_rc _ _ _ _ Hi Hl Hx) as Hrc.
    destruct (MaybeEvict_cur m w) as [_ Hc]. destruct (Hc ("sha256:" +:+ x)) as [?|[? _]]; [done|lia].
Qed.

(** *** What an eviction removes on a reliable disk *)

Definition dropEntry (i : indexFile) (hm : string * chunkMeta) : indexFile :=
  mkIndex (delete hm.1 (iChunks i)) (iPins i).

(** The index without the entries of a list. *)
Definition dropAll (E : list (string * chunkMeta)) (i : indexFile) : indexFile := fold_left dropEntry E i.

Lemma lookup_dropAll E : forall i h,
  iChunks (dropAll E i) !! h = if bool_decide (h ∈ E.*1) then None else iChunks i !! h.
Proof.
  induction E as [|[h' meta] E IH]; intros i h; [done|]. simpl. rewrite IH. simpl.
  destruct (decide (h = h')) as [->|Hne];
    [rewrite lookup_delete_eq|rewrite lookup_delete_ne by congruence]; repeat case_bool_decide; set_solver.
Qed.

Lemma usedOf_sum i : usedOf i = wrap64 (sumZ (map (fun hm => mSize hm.2) (map_to_list (iChunks i)))).
Proof. unfold usedOf. by rewrite <- (wrap64_id 0), fold_add64. Qed.

Lemma usedOf_drop i h meta :
  iChunks i !! h = Some meta -> usedOf (dropEntry i (h, meta)) = sub64 (usedOf i) (mSize meta).
Proof.
  intros Hl. rewrite !usedOf_sum. unfold sub64. simpl.
  rewrite <- (sumZ_perm _ _ (Permutation_map (fun hm => mSize hm.2) (map_to_list_delete _ _ _ Hl))). simpl.
  rewrite <- Z.add_opp_r, wrap64_add_l. f_equal. lia.
Qed.

Lemma DeleteChunk_ok (c : ChunkStore X) x w :
  storeLayout root c -> reliable w -> storeReady root (wdisk w) -> hexName x ->
  exists r d, DeleteChunk c ("sha256:" +:+ x) w = (r, setDisk d w)
    /\ match r with Ok _ => true | Err e => isNotExist e end = true
    /\ storeReady root d /\ nodeAt d (chunkKey root x) = None /\ frame (chunkKey root x) (wdisk w) d.
Proof.
  intros HL Hr HR Hx. destruct (chunkPath_good root c HL x Hx) as (p & Hp & Hk & _).
  pose proof (keeps_DeleteChunk root c ("sha256:" +:+ x) w (ready_inv _ _ HR)) as Hkeep. revert Hkeep.
  unfold DeleteChunk. rewrite Hp, bind_res_ok. pose proof (chunkKey_nonroot root x) as Hne.
  destruct (nodeAt (wdisk w) (chunkKey root x)) as [[|i]|] eqn:E.
  - by destruct (ready_nodir _ _ HR x Hx) as [? _].
  - rewrite (Remove_file p w i) by (try done; by rewrite Hk). cbn [snd]. rewrite wdisk_setDisk, Hk. intros HI.
    eexists _, _. split; [reflexivity|]. split; [done|]. pose proof (frame_delName _ (wdisk w) Hne) as Hf.
    assert (nodeAt (delName (chunkKey root x) (wdisk w)) (chunkKey root x) = None) as Hnone.
    { rewrite nodeAt_delName by done. by rewrite bool_decide_eq_true_2. }
    split; [|by split]. destruct HR as [_ Hc Hq Hd]. split; [done| | |].
    + rewrite (frame_node _ _ _ Hf); [done|]. unfold chunkKey. intros Eq%(f_equal length).
      rewrite length_app in Eq. simpl in Eq. lia.
    + rewrite (frame_node _ _ _ Hf); [done|]. unfold partialRoot, chunkKey, chunkRoot. rewrite <- app_assoc.
      by intros Eq%app_inv_head.
    + intros y Hy. destruct (decide (y = x)) as [->|Hxy].
      * rewrite Hnone. split; [done|]. rewrite (frame_node _ _ _ Hf); [by apply Hd|apply partial_ne_chunk].
      * rewrite !(frame_node _ _ _ Hf); [by apply Hd|apply partial_ne_chunk|]. intros ?%chunkKey_inj. done.
  - intros _. rewrite (Remove_missing p w) by (try done; by rewrite Hk).
    exists (Err (ESys "remove" (lookErr (wdisk w) (key p)))), (wdisk w). rewrite setDisk_same.
    split; [done|]. split; [|by split; [|split; [|apply frame_refl]]].
    rewrite Hk, lookErr_enoent; [done|]. intros j.
    destruct (decide (j <= length (chunkRoot root ++ [strTake 2 x]))) as [Hj|Hj].
    + unfold chunkKey. change [strTake 2 x; x] with ([strTake 2 x] ++ [x]). rewrite app_assoc, take_app_le by lia.
      by apply shard_nofile.
    + rewrite take_ge; [by rewrite E|]. unfold chunkKey. rewrite !length_app in *. simpl in *. lia.
Qed.

Lemma keeps_DeleteChunk_gone (c : ChunkStore X) h k : keeps (fun d => nodeAt d k = None) (DeleteChunk c h).
Proof.
  unfold DeleteChunk. apply keeps_bind; [auto with go|]. intros p. apply keeps_syscall. intros d Hd.
  destruct (removeK_cases (key p) d) as [->|(Hne & -> & _)]; [done|]. simpl.
  rewrite nodeAt_delName by done. by case_bool_decide.
Qed.

(** The loop on a reliable disk: it stops at the first moment the target is
    met, and takes the head of the list. *)
Lemma evictLoop_run m target l : forall ev w,
  storeLayout root (qcache m) -> reliable w -> storeReady root (wdisk w) ->
  NoDup l.*1 -> (forall h meta, (h, meta) ∈ l -> goodHash h /\ iChunks (cur w) !! h = Some meta) ->
  exists E R w', l = E ++ R /\ evictLoop m target (usedOf (cur w)) ev l w = (Ok (ev + length E), w')
    /\ reliable w' /\ cur w' = dropAll E (cur w)
    /\ (R = [] \/ (usedOf (cur w') <= target)%Z)
    /\ (forall E0 e E1, E = E0 ++ e :: E1 -> (target < usedOf (dropAll E0 (cur w)))%Z)
    /\ (forall x, "sha256:" +:+ x ∈ E.*1 -> nodeAt (wdisk w') (chunkKey root x) = None).
Proof.
  intros ev w HL. revert ev w. induction l as [|[h meta] l IH]; intros ev w Hr HR Hnd Hl.
  { exists [], [], w. rewrite Nat.add_0_r. repeat (split; [done|]). split; [by left|]. split; [|set_solver].
    by intros [|??]. }
  destruct (Z.le_gt_cases (usedOf (cur w)) target) as [Hu|Hu].
  { exists [], ((h, meta) :: l), w. rewrite evictLoop_stop, Nat.add_0_r by done. repeat (split; [done|]).
    split; [by right|]. split; [|set_solver]. by intros [|??]. }
  destruct (Hl h meta) as [(x & -> & Hx) Hm]; [by left|]. apply NoDup_cons in Hnd as [Hni Hnd].
  destruct (DeleteChunk_ok (qcache m) x w HL Hr HR Hx) as (r & d & Hd & Hok & HR' & Hnone & Hfr).
  rewrite evictLoop_step by done. cbv zeta. rewrite Hd. cbn [fst snd]. rewrite Hok.
  set (i1 := dropEntry (cur w) ("sha256:" +:+ x, meta)).
  change (mkIndex (delete ("sha256:" +:+ x) (iChunks (cur w))) (iPins (cur w))) with i1.
  set (w1 := (putIdx i1 (setDisk d w)).2).
  assert (cur w1 = i1) as Hc1 by apply putIdx_cur.
  rewrite <- (usedOf_drop (cur w) _ meta Hm). fold i1. rewrite <- Hc1.
  destruct (IH (S ev) w1) as (E & R & w' & -> & Hrun & Hr' & Hcur & Hstop & Hmin & Hgone).
  - done.
  - done.
  - done.
  - intros h' meta' Hin. destruct (Hl h' meta') as [Hg Hm']; [by right|]. split; [done|].
    rewrite Hc1. simpl. rewrite lookup_delete_ne; [done|]. intros <-. apply Hni.
    apply list_elem_of_fmap. by exists ("sha256:" +:+ x, meta').
  - rewrite Hc1 in Hcur, Hmin. exists (("sha256:" +:+ x, meta) :: E), R, w'. split; [done|].
    split; [rewrite Hrun; simpl; by rewrite Nat.add_succ_r|]. split; [done|]. split; [done|]. split; [done|].
    split.
    + intros [|e0 E0] e E1 HE; injection HE as <- HE; [done|].
      by apply (Hmin E0 e E1).
    + intros y [Hy|Hy]%elem_of_cons; [|by apply Hgone].
      apply (f_equal (strDrop 7)) in Hy. rewrite !(strDrop_app "sha256:") in Hy. subst y.
      replace w' with (evictLoop m target (usedOf (cur w1)) (S ev) (E ++ R) w1).2 by by rewrite Hrun.
      apply (evictLoop_keeps m (fun d => nodeAt d (chunkKey root x) = None)); [|done].
      intros h' _. apply keeps_DeleteChunk_gone.
Qed.

(** The whole of [MaybeEvict] on a reliable disk. *)
Lemma MaybeEvict_run m w :
  storeLayout root (qcache m) -> qpath m = Join [root; "index.json"] -> reliable w ->
  storeReady root (wdisk w) -> (forall h, is_Some (iChunks (cur w) !! h) -> goodHash h) ->
  (mark m (highWatermark m) <= usedOf (cur w))%Z ->
  exists E R, sortSlice evictLess (candidates (cur w)) = E ++ R
    /\ (MaybeEvict m w).1 = Ok (length E)
    /\ cur (MaybeEvict m w).2 = dropAll E (cur w)
    /\ (R = [] \/ (usedOf (dropAll E (cur w)) <= mark m (lowWatermark m))%Z)
    /\ (forall E0 e E1, E = E0 ++ e :: E1 -> (mark m (lowWatermark m) < usedOf (dropAll E0 (cur w)))%Z)
    /\ (forall e r, e ∈ E -> r ∈ R -> (LastAccess e.2 <= LastAccess r.2)%Z)
    /\ (forall x, "sha256:" +:+ x ∈ E.*1 -> contentAt (wdisk (MaybeEvict m w).2) (chunkKey root x) = None).
Proof.
  intros HL Hq Hr HR Hg Hu. rewrite MaybeEvict_above by done.
  set (l := sortSlice evictLess (candidates (cur w))).
  assert (forall h meta, (h, meta) ∈ l -> goodHash h /\ iChunks (cur w) !! h = Some meta) as Hl.
  { intros h meta. unfold l. rewrite sortSlice_perm. intros [Hm _]%elem_of_candidates. eauto. }
  assert (NoDup l.*1) as Hnd.
  { unfold l. rewrite sortSlice_perm. unfold candidates. apply NoDup_map_filter, NoDup_fst_map_to_list. }
  destruct (evictLoop_run m (mark m (lowWatermark m)) l 0 w HL Hr HR Hnd Hl)
    as (E & R & w' & HE & Hrun & Hr' & Hc & Hstop & Hmin & Hgone).
  rewrite Hrun. cbn [fst snd]. exists E, R. split; [done|]. split; [done|].
  rewrite save_cur. split; [done|]. rewrite <- Hc. split; [done|]. split; [done|]. split.
  - assert (sortedBy evictLess l) as Hs.
    { apply sortSlice_sorted. exact (Zlt_key_weak (fun hm => LastAccess hm.2)). }
    intros e r He Hr0. unfold sortedBy in Hs. rewrite HE in Hs.
    pose proof (StronglySorted_app_1_elem_of _ _ _ _ _ Hs He Hr0) as Hle. unfold evictLess in Hle.
    by apply Z.ltb_ge in Hle.
  - intros x Hx. destruct (index_keys x (layout_root _ _ HL)) as [Hk1 Hk2]. rewrite <- Hq in Hk1, Hk2.
    apply (apart_content (key (qpath m +:+ ".tmp"))), save_apart; [done..|].
    pose proof (Hgone x Hx) as Hn. split; [unfold contentAt|intros i]; by rewrite Hn.
Qed.

End eviction.

Section claims.
Context {D : Digest} {SS : SortSlice} {MC : ManifestCodec} {IC : IndexCodec}.
Context {X : Type} {HQ : HasQuota X}.
Implicit Types w : world X.
Implicit Types m : QuotaManager X.

(** [Touch], the commit hook of the daemon, leaves the disk alone, as the
    chunk store asks of its hook. *)
Lemma Touch_diskless : diskless (X:=X) Touch.
Proof. by intros h z w. Qed.

(** C24. Over any history of the quota manager's operations, interleaved with
    anything else and with any system calls failing, the reference count of
    a chunk is the number of pinned artifacts whose manifest lists it. *)
Theorem RefCount_exact m w w' h :
  quotaInv (cur w) -> rtc (quotaStep m) w w' ->
  RefCount h w' = (Ok (Z.of_nat (pinCount (iPins (cur w')) h)), w').
Proof. intros Hi Hs. by rewrite <- (q_count _ (quotaSteps_inv m w w' Hs Hi) h). Qed.

(** Eviction never removes a pinned chunk: its file has the same bytes
    after [MaybeEvict] and its index entry is kept, whatever system calls
    fail on the way. *)
Theorem evict_spares_pinned root m w id l x :
  storeLayout root (qcache m) -> qpath m = Join [root; "index.json"] ->
  quotaInv (cur w) -> (forall h, is_Some (iChunks (cur w) !! h) -> wellNamed h) ->
  iPins (cur w) !! id = Some l -> "sha256:" +:+ x ∈ l ->
  (forall i, nodeAt (wdisk w) (key (qpath m +:+ ".tmp")) = Some (FileN i) ->
             nodeAt (wdisk w) (chunkKey root x) <> Some (FileN i)) ->
  contentAt (wdisk (MaybeEvict m w).2) (chunkKey root x) = contentAt (wdisk w) (chunkKey root x)
  /\ iChunks (cur (MaybeEvict m w).2) !! ("sha256:" +:+ x) = iChunks (cur w) !! ("sha256:" +:+ x).
Proof. apply MaybeEvict_apart. Qed.

(** C26. On a reliable disk [MaybeEvict] does nothing below the high watermark;
    otherwise it evicts unpinned chunks, least recently used first, no more
    than needed, until the recorded size is at most the low watermark or no
    unpinned chunk is left, removing their files and their index entries and
    returning their number. *)
Theorem evict_lru root m w :
  storeLayout root (qcache m) -> qpath m = Join [root; "index.json"] -> reliable w ->
  storeReady root (wdisk w) -> (forall h, is_Some (iChunks (cur w) !! h) -> goodHash h) ->
  if (usedOf (cur w) <? mark m (highWatermark m))%Z then MaybeEvict m w = (Ok 0, w)
  else exists E R,
    E ++ R ≡ₚ candidates (cur w)
    /\ (MaybeEvict m w).1 = Ok (length E)
    /\ cur (MaybeEvict m w).2 = dropAll E (cur w)
    /\ (R = [] \/ (usedOf (dropAll E (cur w)) <= mark m (lowWatermark m))%Z)
    /\ (forall E0 e E1, E = E0 ++ e :: E1 -> (mark m (lowWatermark m) < usedOf (dropAll E0 (cur w)))%Z)
    /\ (forall e r, e ∈ E -> r ∈ R -> (LastAccess e.2 <= LastAccess r.2)%Z)
    /\ (forall x, "sha256:" +:+ x ∈ E.*1 -> contentAt (wdisk (MaybeEvict m w).2) (chunkKey root x) = None).
Proof.
  intros HL Hq Hr HR Hg. destruct (Z.ltb_spec (usedOf (cur w)) (mark m (highWatermark m))) as [Hu|Hu].
  - by apply MaybeEvict_below.
  - destruct (MaybeEvict_run root m w HL Hq Hr HR Hg Hu) as (E & R & HE & Hrest). exists E, R.
    split; [|done]. by rewrite <- HE, sortSlice_perm.
Qed.

End claims.

(** ** Concrete states *)

Definition noIndexCodec : IndexCodec :=
  {| marshalIndex := fun _ => Ok []; unmarshalIndex := fun _ i => (i, Some (EText "not JSON")) |}.

Definition demoQuota : QuotaManager qstate :=
  mkManager (storeAt "/s") 3 (literal 4 5) (literal 9 10) (Join ["/s"; "index.json"]).

(** A ready store and the index given. *)
Definition quotaWorld (i : indexFile) : world qstate :=
  World (wdisk readyWorld) [] [] 0 (mkQ i false).

Lemma cur_quotaWorld i : cur (quotaWorld i) = i.
Proof. reflexivity. Qed.

Definition pinnedIndex : indexFile :=
  mkIndex {[ abcHash := mkMeta abcHash 3 0 1 ]} {[ "artifact" := [abcHash] ]}.

Definition unpinnedIndex : indexFile := mkIndex {[ abcHash := mkMeta abcHash 3 0 0 ]} ∅.

Lemma pinnedIndex_inv : quotaInv pinnedIndex.
Proof.
  split.
  - intros id l. simpl. rewrite lookup_singleton_Some. intros [_ <-]. apply NoDup_singleton.
  - intros h. unfold pinnedIndex. rewrite <- (insert_empty (M:=gmap string) "artifact" [abcHash]). simpl.
    rewrite pinCount_insert by apply lookup_empty.
    unfold rc, lookupMeta, pinCount. simpl. rewrite map_filter_empty, map_size_empty.
    destruct (decide (h = abcHash)) as [->|Hne].
    + by rewrite lookup_singleton_eq, bool_decide_eq_true_2 by by left.
    + rewrite lookup_singleton_ne, bool_decide_eq_false_2 by (congruence || set_solver). done.
Qed.

Lemma RefCount_exact_witness :
  RefCount (HQ:=qstate_HasQuota) abcHash (Pin (IC:=noIndexCodec) demoQuota demo (quotaWorld (mkIndex ∅ ∅))).2
  = (Ok (Z.of_nat (pinCount (iPins (cur (Pin (IC:=noIndexCodec) demoQuota demo (quotaWorld (mkIndex ∅ ∅))).2)) abcHash)),
     (Pin (IC:=noIndexCodec) demoQuota demo (quotaWorld (mkIndex ∅ ∅))).2).
Proof.
  apply (RefCount_exact (IC:=noIndexCodec) demoQuota (quotaWorld (mkIndex ∅ ∅))); [apply quotaInv_empty|].
  apply rtc_once, step_Pin.
Defined.

Lemma evict_spares_pinned_witness :
  contentAt (wdisk (MaybeEvict (IC:=noIndexCodec) demoQuota (quotaWorld pinnedIndex)).2) (chunkKey "/s" (strDrop 7 abcHash))
  = contentAt (wdisk (quotaWorld pinnedIndex)) (chunkKey "/s" (strDrop 7 abcHash))
  /\ iChunks (cur (MaybeEvict (IC:=noIndexCodec) demoQuota (quotaWorld pinnedIndex)).2)
       !! ("sha256:" +:+ strDrop 7 abcHash) = iChunks (cur (quotaWorld pinnedIndex)) !! ("sha256:" +:+ strDrop 7 abcHash).
Proof.
  apply (evict_spares_pinned (IC:=noIndexCodec) "/s" demoQuota (quotaWorld pinnedIndex) "artifact" [abcHash]
    (strDrop 7 abcHash)).
  - by apply storeAt_layout.
  - done.
  - apply pinnedIndex_inv.
  - intros h [meta Hm]. apply goodHash_wellNamed. change (({[ abcHash := mkMeta abcHash 3 0 1 ]} : gmap string chunkMeta) !! h = Some meta) in Hm.
    apply lookup_singleton_Some in Hm as [<- _]. apply abcHash_good.
  - rewrite cur_quotaWorld. unfold pinnedIndex. cbn [iPins]. apply lookup_singleton_eq.
  - apply list_elem_of_singleton. reflexivity.
  - assert (nodeAt (wdisk (quotaWorld pinnedIndex)) (key (qpath demoQuota +:+ ".tmp")) = None) as Hn
      by (vm_compute; reflexivity).
    intros i Hi. rewrite Hn in Hi. discriminate.
Defined.

Lemma evict_lru_witness :
  let w := quotaWorld unpinnedIndex in
  let r := MaybeEvict (SS:=insertionSort) (IC:=noIndexCodec) demoQuota w in
  if (usedOf (cur w) <? mark demoQuota (highWatermark demoQuota))%Z then r = (Ok 0, w)
  else exists E R, E ++ R ≡ₚ candidates (cur w) /\ r.1 = Ok (length E) /\ cur r.2 = dropAll E (cur w).
Proof.
  pose proof (evict_lru (SS:=insertionSort) (IC:=noIndexCodec) "/s" demoQuota (quotaWorld unpinnedIndex)) as H.
  cbv zeta. destruct (_ <? _)%Z in H |- *.
  - apply H; [by apply storeAt_layout|done|done|apply readyWorld_ready|].
    intros h [meta Hm]. rewrite cur_quotaWorld in Hm. unfold unpinnedIndex in Hm. cbn [iChunks] in Hm.
    apply lookup_singleton_Some in Hm as [<- _]. apply abcHash_good.
  - destruct H as (E & R & H1 & H2 & H3 & _); [by apply storeAt_layout|done|done|apply readyWorld_ready| |].
    { intros h [meta Hm]. rewrite cur_quotaWorld in Hm. unfold unpinnedIndex in Hm. cbn [iChunks] in Hm.
      apply lookup_singleton_Some in Hm as [<- _]. apply abcHash_good. }
    exists E, R. split; [exact H1|]. split; [exact H2|exact H3].
Defined.
