(* ===== verification/Retain.v ===== *)
(** * What keeps a chunk on the disk (pkg/cache, pkg/materializer)

    A store is sealed when its chunks hold the bytes of their names and no file
    outside the chunk directory is a hard link to one of them; the chunk [x] is
    kept when the store is sealed and has it.  Section [kept] shows that each
    system call the daemon makes leaves a kept chunk kept, wherever it writes
    outside the chunk directory, and then the operations: appends to partials,
    commits, discards, manifests, the deletion of other chunks, the index, and
    the copying materializer in a directory apart from the store. *)

From S2P Require Import Prelude Digest GoPath Manifest SafePath GoFs ChunkStore StoreRuns Materializer Quota.

Local Open Scope go_scope.

Section kept.
Context {D : Digest} {SS : SortSlice} {MC : ManifestCodec} {X : Type}.
Context (root : string).
Implicit Types (d : disk) (k : list string).

(** The chunk files have no other names. *)
Record sealed d : Prop := {
  se_inv : CacheInv root d;
  se_sole : forall k k' i, chunkRoot root `prefix_of` k ->
    nodeAt d k = Some (FileN i) -> nodeAt d k' = Some (FileN i) -> k' = k
}.

(** The store is sealed and has the chunk [x]. *)
Definition kept (x : string) d : Prop := sealed d /\ isFile (nodeAt d (chunkKey root x)) = true.

(** A kept chunk has the bytes of its name. *)
Lemma kept_chunk x d :
  kept x d -> exists data, chunkOf root d x = Some data /\ ComputeHash data = "sha256:" +:+ x.
Proof.
  intros [[HI _] Hf]. destruct (nodeAt d (chunkKey root x)) as [[|i]|] eqn:E; try done.
  destruct (inv_chunk _ _ HI _ _ (chunkKey_under root x) E) as (y & Hy & Hk & Hh).
  apply chunkKey_inj in Hk as ->. exists (idata (getInode d i)). unfold chunkOf, contentAt. by rewrite E.
Qed.

(** ** Disks *)

Context (x : string).

(** Outside the chunks and the partials. *)
Definition foreign k : Prop := ~ chunkRoot root `prefix_of` k /\ forall y, k <> partialKey root y.

Lemma kept_setDir d k :
  kept x d -> nodeAt d k = None -> nodeAt d (parent k) = Some DirN -> kept x (setName k DirN d).
Proof.
  intros [[HI Hs] Hx] Hk Hp. assert (k <> []) as Hne by by eapply nodeAt_none_nonroot.
  split; [split|].
  - by apply CacheInv_setDir.
  - intros k1 k2 i H1. rewrite !nodeAt_setName by done. case_bool_decide; [done|]. case_bool_decide; [done|]. by apply Hs.
  - rewrite nodeAt_setName by done. case_bool_decide as E; [|done]. subst k. by rewrite Hk in Hx.
Qed.

Lemma kept_removeK d k : k <> chunkKey root x -> kept x d -> kept x (removeK k d).2.
Proof.
  intros Hk [[HI Hs] Hx]. split; [split; [by apply CacheInv_removeK|]|];
    destruct (removeK_cases k d) as [->|(Hne & -> & _)]; try done; simpl.
  - intros k1 k2 i H1. rewrite !nodeAt_delName by done. case_bool_decide; [done|]. case_bool_decide; [done|]. by apply Hs.
  - by rewrite nodeAt_delName, bool_decide_eq_false_2.
Qed.

(** No name of a chunk stands for the inode. *)
Definition loose (i : positive) d : Prop := forall k, chunkRoot root `prefix_of` k -> nodeAt d k <> Some (FileN i).

Lemma kept_setInode d i nd : loose i d -> kept x d -> kept x (setInode i nd d).
Proof. intros Hi [[HI Hs] Hx]. split; [split|done]; [by apply CacheInv_write|done]. Qed.

(** A file outside the chunk directory is not a chunk under another name. *)
Lemma sealed_loose d k i : sealed d -> ~ chunkRoot root `prefix_of` k -> nodeAt d k = Some (FileN i) -> loose i d.
Proof. intros [_ Hs] Hk Hi k' Hk' Hi'. apply Hk. by rewrite (Hs _ _ _ Hk' Hi' Hi). Qed.

Lemma kept_newFile d k perm :
  ~ chunkRoot root `prefix_of` k -> nodeAt d k = None -> nodeAt d (parent k) = Some DirN -> kept x d ->
  kept x (newFile k perm d).
Proof.
  intros Hout Hk Hp [[HI Hs] Hx]. assert (k <> []) as Hne by by eapply nodeAt_none_nonroot.
  split; [split|].
  - by apply CacheInv_newFile.
  - intros k1 k2 i H1. rewrite !nodeAt_newFile by done. case_bool_decide; [by subst|].
    case_bool_decide; [|by apply Hs]. intros H2 [= <-]. by apply freshIno_node in H2.
  - rewrite nodeAt_newFile by done. by case_bool_decide.
Qed.

Lemma kept_chmodK d k perm : ~ chunkRoot root `prefix_of` k -> kept x d -> kept x (chmodK perm k d).2.
Proof.
  intros Hout Hd. unfold chmodK. destruct (nodeAt d k) as [[|i]|] eqn:E; try done.
  apply kept_setInode; [|done]. eapply sealed_loose; [apply Hd|exact Hout|exact E].
Qed.

(** Where a rename leaves the other names. *)
Lemma nodeAt_moved d k k' i k0 :
  nodeAt d k = Some (FileN i) -> k' <> [] ->
  nodeAt (setName k' (FileN i) (delName k d)) k0
  = if bool_decide (k' = k0) then Some (FileN i) else if bool_decide (k = k0) then None else nodeAt d k0.
Proof.
  intros Hi Hk'. rewrite nodeAt_setName by done. case_bool_decide; [done|].
  by rewrite nodeAt_delName by by eapply nodeAt_file_nonroot.
Qed.

Lemma kept_renameK d k k' : foreign k -> foreign k' -> kept x d -> kept x (renameK k k' d).2.
Proof.
  intros [Ho Hp] [Ho' Hp'] [[HI Hs] Hx]. split; [split; [apply CacheInv_renameK; auto|]|];
    destruct (renameK_cases k k' d) as [->|(i & Hi & Hne & Hnd & _ & _ & ->)]; try done; simpl.
  all: assert (k' <> []) as Hk' by by intros ->.
  - intros k1 k2 j H1. rewrite !(nodeAt_moved d k k' i) by done.
    case_bool_decide as E1; [by subst|]. case_bool_decide as E2; [done|]. case_bool_decide as E3.
    + intros Hj [= <-]. destruct Ho. by rewrite (Hs _ _ _ H1 Hj Hi).
    + case_bool_decide; [done|]. by apply Hs.
  - pose proof (chunkKey_under root x) as Hu. rewrite (nodeAt_moved d k k' i) by done.
    rewrite !bool_decide_eq_false_2; [done|by intros ->..].
Qed.

(** A complete partial moves into place. *)
Lemma kept_commit d y i :
  kept x d -> hexName y -> nodeAt d (partialKey root y) = Some (FileN i) ->
  ComputeHash (idata (getInode d i)) = "sha256:" +:+ y ->
  kept x (renameK (partialKey root y) (chunkKey root y) d).2.
Proof.
  intros [[HI Hs] Hx] Hy Hi Hh. split; [split; [by eapply CacheInv_commit|]|];
    destruct (renameK_cases (partialKey root y) (chunkKey root y) d) as [->|(j & Hj & Hne & Hnd & _ & _ & ->)]; try done; simpl.
  all: assert (chunkKey root y <> []) as Hk' by by intros E; rewrite E in Hnd.
  - intros k1 k2 j' H1. rewrite !(nodeAt_moved d _ _ j) by done.
    destruct (decide (chunkKey root y = k1)) as [<- | E1].
    + rewrite bool_decide_eq_true_2 by done. intros [= <-]. case_bool_decide; [done|].
      case_bool_decide as E3; [done|]. intros H2. by rewrite (inv_partial _ _ HI y k2 j Hj H2) in E3.
    + rewrite bool_decide_eq_false_2 by done. case_bool_decide as E2; [done|]. intros H2. case_bool_decide.
      * intros [= <-]. by rewrite (inv_partial _ _ HI y k1 j Hj H2) in E2.
      * case_bool_decide; [done|]. by apply Hs.
  - rewrite (nodeAt_moved d _ _ j) by done. case_bool_decide; [done|]. rewrite bool_decide_eq_false_2; [done|].
    intros E. by apply (partialKey_not_chunk root y _ (chunkKey_under root x)).
Qed.

Lemma commitSafe_kept : commitSafe root (kept x).
Proof. split; [apply kept_setDir|apply kept_commit]. Qed.

(** ** System calls *)

(** The handle writes to a file that is no chunk. *)
Definition writing (h : handle) d : Prop :=
  kept x d /\ match h with HFile i _ => loose i d | HDir _ => True end.

(** A handle, or an error. *)
Definition opened {A} (f : A -> handle) (r : res A) d : Prop :=
  match r with Ok a => writing (f a) d | Err _ => kept x d end.

Lemma keeps_kept_MkdirAll p : keeps (X:=X) (kept x) (MkdirAll p).
Proof. apply keeps_MkdirAll. intros k d. apply kept_setDir. Qed.

Lemma keeps_kept_Remove p : key p <> chunkKey root x -> keeps (X:=X) (kept x) (Remove p).
Proof. intros Hp. apply keeps_syscall. intros d. by apply kept_removeK. Qed.

Lemma keeps_kept_Rename p q : foreign (key p) -> foreign (key q) -> keeps (X:=X) (kept x) (Rename p q).
Proof. intros Hp Hq. apply keeps_syscall. intros d. by apply kept_renameK. Qed.

Lemma keeps_kept_Chmod p perm : ~ chunkRoot root `prefix_of` key p -> keeps (X:=X) (kept x) (Chmod p perm).
Proof. intros Hp. apply keeps_syscall. intros d. by apply kept_chmodK. Qed.

Lemma hoare_open trunc perm op p :
  ~ chunkRoot root `prefix_of` key p ->
  hoare (X:=X) (kept x) (syscall op (openWriteK trunc perm (key p))) (opened id).
Proof.
  intros Hp. apply hoare_syscall; [|done]. intros d Hd. unfold openWriteK.
  destruct (nodeAt d (key p)) as [[|i]|] eqn:E; [done| |].
  - assert (loose i d) as Hi by (eapply sealed_loose; [apply Hd|exact Hp|exact E]).
    destruct trunc; [|by split]. split; [by apply kept_setInode|done].
  - destruct (nodeAt d (parent (key p))) as [[|j]|] eqn:E'; try done.
    assert (key p <> []) as Hne by by eapply nodeAt_none_nonroot.
    change (writing (HFile (freshIno d) 0) (newFile (key p) perm d)).
    split; [by apply kept_newFile|]. intros k Hk. rewrite nodeAt_newFile by done.
    case_bool_decide; [by subst|]. apply freshIno_node.
Qed.

Lemma hoare_Write_loose h b : hoare (X:=X) (writing h) (Write h b) (opened id).
Proof.
  intros w [Hd Hi]. unfold Write. destruct h as [|i off]; [done|].
  assert (forall b' o, writing (HFile i o) (writeInode i off b' (wdisk w))) as Hw
    by (intros b' o; split; [by apply kept_setInode|done]).
  destruct (faults w) as [|[|e|n e] fs]; simpl; first [done | exact (proj1 (Hw _ 0)) | apply Hw].
Qed.

Lemma opened_kept h d : writing h d -> kept x d.
Proof. by intros [? _]. Qed.

Lemma hoare_copyTo_loose h r : hoare (X:=X) (writing h) (copyTo h r) (opened id).
Proof.
  unfold copyTo. eapply hoare_bind; [apply hoare_Write_loose| |done].
  intros h'. destruct (r.2); [apply hoare_err|apply hoare_ret]; [apply opened_kept|done].
Qed.

(** After the last write only the disk matters. *)
Lemma hoare_kept {A} h (m : IO X A) : hoare (kept x) m (fun _ => kept x) -> hoare (writing h) m (fun _ => kept x).
Proof. intros Hm. eapply hoare_conseq; [exact Hm|apply opened_kept|done]. Qed.

Lemma opened_any {A} (f : A -> handle) r d : opened f r d -> kept x d.
Proof. destruct r; [apply opened_kept|done]. Qed.

Lemma keeps_kept_WriteFile p b perm : ~ chunkRoot root `prefix_of` key p -> keeps (X:=X) (kept x) (WriteFile p b perm).
Proof.
  intros Hp. unfold WriteFile. eapply hoare_bind; [by apply hoare_open| |done]. intros h.
  eapply (hoare_bind _ _ _ (fun _ => kept x)); [|intros r|done].
  - eapply hoare_attempt; [apply hoare_Write_loose|]. intros r d. apply opened_any.
  - apply keeps_bind; [auto with go|]. intros cl. destruct r; auto with go.
Qed.

Lemma hoare_createTemp_kept dir prefix draws :
  (forall n : N, foreign (key (Join [dir; prefix +:+ pretty n]))) ->
  hoare (X:=X) (kept x) (createTemp draws dir prefix)
    (fun r d => match r with Ok (name, h) => foreign (key name) /\ writing h d | Err _ => kept x d end).
Proof.
  intros Hn. induction draws as [|n ns IH]; cbn [createTemp]; [by apply hoare_err|].
  intros w Hd. rewrite (ioBind_ok _ _ w (nodeAt (wdisk w) (key (Join [dir; prefix +:+ pretty n]))) w) by done.
  destruct (nodeAt _ _) as [nd|]; [by apply (IH w)|].
  pose proof (hoare_open false 384 "open" _ (proj1 (Hn n)) w Hd) as Ho. unfold ioBind.
  destruct (syscall "open" _ w) as [[h|e] w']; [by split|done].
Qed.

Lemma hoare_CreateTemp_kept dir prefix :
  (forall n : N, foreign (key (Join [dir; prefix +:+ pretty n]))) ->
  hoare (X:=X) (kept x) (CreateTemp dir prefix)
    (fun r d => match r with Ok (name, h) => foreign (key name) /\ writing h d | Err _ => kept x d end).
Proof. intros Hn w. exact (hoare_createTemp_kept dir prefix (rands w) Hn w). Qed.

End kept.

(** ** Operations *)

Section operations.
Context {D : Digest} {SS : SortSlice} {MC : ManifestCodec} {X : Type}.
Context (root : string) (c : ChunkStore X) (HL : storeLayout root c) (x : string).
Abbreviation K := (kept root x).

#[local] Hint Resolve keeps_kept_MkdirAll : go.

Lemma partialKey_other y : partialKey root y <> chunkKey root x.
Proof. intros E. by apply (partialKey_not_chunk root y _ (chunkKey_under root x)). Qed.

(** The directories of the store beside the chunks and the partials. *)
Lemma foreign_below a t : a <> "chunks" -> (a = "tmp" -> forall y, t <> ["partial"; y]) -> foreign root (key root ++ a :: t).
Proof.
  intros Ha Ht. split.
  - intros [u H]. unfold chunkRoot in H. rewrite <- app_assoc in H. apply app_inv_head in H. by injection H.
  - intros y H. unfold partialKey, partialRoot in H. rewrite <- app_assoc in H. apply app_inv_head in H.
    injection H as -> ->. by apply (Ht eq_refl y).
Qed.

Lemma keeps_kept_DiscardPartial h : wellNamed h -> keeps K (DiscardPartial c h).
Proof.
  intros [(e & He)|(y & Hy & -> & Hn)]%wellNamed_cases; unfold DiscardPartial.
  { unfold partialPath. rewrite He. by intros w. }
  destruct (partialPath_good root c HL y Hn) as (p & Hp & Hk & _). rewrite Hp, bind_res_ok.
  apply keeps_bind; [|intros [?|e]; [|destruct (isNotExist e)]; auto with go].
  apply keeps_attempt, keeps_kept_Remove. rewrite Hk. apply partialKey_other.
Qed.

Lemma keeps_kept_AppendPartial h r : wellNamed h -> keeps K (AppendPartial c h r).
Proof.
  intros [(e & He)|(y & Hy & -> & Hn)]%wellNamed_cases; unfold AppendPartial.
  { rewrite He, bind_res_err. auto with go. }
  destruct (partialPath_good root c HL y Hn) as (p & Hp & Hk & _). rewrite Hy, Hp, !bind_res_ok.
  assert (~ chunkRoot root `prefix_of` key p) as Hout.
  { rewrite Hk. intros Hpre. by apply (partialKey_not_chunk root y _ Hpre). }
  apply keeps_bind; [auto with go|intros _].
  eapply hoare_bind; [by eapply hoare_wrapErr_split, hoare_open| |done]. intros f.
  apply (hoare_bind _ _ _ (fun _ => K)); [| |done].
  { eapply hoare_attempt; [apply hoare_copyTo_loose|]. intros ? ?. apply opened_any. }
  intros [f'|e]; [|by apply keeps_bind; auto with go].
  apply keeps_bind; [auto with go|]. intros [?|e]; [auto with go|by apply keeps_bind; auto with go].
Qed.

Lemma keeps_kept_CommitPartial h :
  (forall fn, onCommit c = Some fn -> diskless fn) -> wellNamed h -> keeps K (CommitPartial c h).
Proof.
  intros Hhook Hh. apply (keeps_commit root c HL Hhook); [apply commitSafe_kept|]. intros p Hp.
  apply keeps_kept_Remove. destruct (wellNamed_cases h Hh) as [(e & He)|(y & Hy & -> & Hn)].
  - unfold partialPath in Hp. by rewrite He in Hp.
  - destruct (partialPath_good root c HL y Hn) as (p' & Hp' & Hk & _). assert (p' = p) as -> by congruence.
    rewrite Hk. apply partialKey_other.
Qed.

Lemma manifestTmp_foreign (n : N) : foreign root (key (Join [tmpDir c; "manifest-" +:+ pretty n])).
Proof.
  rewrite key_Join_names.
  - rewrite (layout_tmp _ _ HL), key_Join_names; [|apply HL|names]. rewrite <- app_assoc. by apply foreign_below.
  - rewrite (layout_tmp _ _ HL). apply Join_nonempty, HL.
  - constructor; [|constructor]. apply isName_long; [by rewrite noSlash_app, noSlash_pretty|].
    rewrite str_length_app. simpl. lia.
Qed.

Lemma keeps_kept_SaveManifest m : keeps K (SaveManifest c m).
Proof.
  unfold SaveManifest. destruct (Validate m) as [[]|e] eqn:Ev; [|by intros w].
  apply keeps_bind; [auto with go|intros _].
  destruct (parseHash (ArtifactID m)) as [y|e] eqn:Ex; [|by intros w].
  rewrite bind_res_ok. pose proof (Validate_hexName m y Ev Ex) as Hy.
  apply keeps_bind; [auto with go|intros data].
  assert (foreign root (key (Join [mfstDir c; y +:+ ".json"]))) as Hdest
    by (rewrite (key_manifest root c HL) by done; by apply foreign_below).
  eapply hoare_bind; [apply hoare_CreateTemp_kept, manifestTmp_foreign| |done].
  intros [name h]. apply hoare_pull. intros Hn.
  assert (key name <> chunkKey root x) as Hne.
  { intros E. apply (proj1 Hn). rewrite E. apply chunkKey_under. }
  pose proof (keeps_kept_Remove (X:=X) root x name Hne) as Hrm.
  apply (hoare_bind _ _ _ (fun _ => K)); [| |done].
  - eapply hoare_attempt; [|intros r d H; exact H]. apply (hoare_bind _ _ _ (fun _ => K)); [| |done].
    { eapply hoare_attempt; [apply hoare_Write_loose|]. intros ? ?. apply opened_any. }
    intros [f|e]; [|apply keeps_bind; auto with go].
    apply keeps_bind; [auto with go|intros _]. by apply keeps_kept_Rename.
  - intros r. apply keeps_bind; auto with go.
Qed.

Lemma keeps_kept_DeleteChunk h : wellNamed h -> h <> "sha256:" +:+ x -> keeps K (DeleteChunk c h).
Proof.
  intros Hh Hne. unfold DeleteChunk. destruct (wellNamed_cases h Hh) as [(e & He)|(y & Hy & -> & Hn)].
  { unfold chunkPath. rewrite He. by intros w. }
  destruct (chunkPath_good root c HL y Hn) as (q & -> & Hk & _). rewrite bind_res_ok.
  apply keeps_kept_Remove. rewrite Hk. intros E%chunkKey_inj. by subst.
Qed.

(** The calls of a download keep the chunk. *)
Lemma StoreKeeps_kept : (forall fn, onCommit c = Some fn -> diskless fn) -> StoreKeeps c K.
Proof.
  intros Hhook. split; intros.
  - by apply keeps_kept_DiscardPartial.
  - by apply keeps_kept_AppendPartial.
  - by apply keeps_kept_CommitPartial.
  - by apply keeps_kept_SaveManifest.
Qed.

(** *** The materializer *)

Context (dest : string) (Hroot : ~ key root `prefix_of` key dest) (Hdest : ~ key dest `prefix_of` key root).

Lemma dest_outside t : ~ chunkRoot root `prefix_of` key dest ++ t.
Proof.
  intros H. destruct (prefix_weak_total (key root) (key dest) (key dest ++ t)) as [?|?]; [|by apply prefix_app_r|done..].
  etransitivity; [|exact H]. by apply prefix_app_r.
Qed.

Lemma hoare_copyChunks_loose target chunks : forall out n,
  ~ chunkRoot root `prefix_of` key target ->
  hoare (writing root x out) (copyChunks c target out n chunks) (fun _ => K).
Proof.
  induction chunks as [|ref chunks IH]; intros out n Ht; cbn [copyChunks]; [apply hoare_ret; intros d; apply opened_kept|].
  assert (key target <> chunkKey root x) as Hne by (intros E; apply Ht; rewrite E; apply chunkKey_under).
  pose proof (keeps_kept_Remove (X:=X) root x target Hne) as Hrm.
  eapply (hoare_bind _ _ _ (fun _ => writing root x out)); [| |intros e d; apply opened_kept].
  { apply keeps_wrapErr, keeps_GetChunkReader. }
  intros [r sz]. eapply (hoare_bind _ _ _ (fun _ => writing root x out)); [apply keeps_readRest| |intros e d; apply opened_kept].
  intros src. cbv zeta.
  eapply (hoare_bind _ _ _ (fun r d => match r with Ok r' => opened root x id r' d | Err _ => K d end)); [| |done].
  { eapply hoare_attempt; [apply hoare_copyTo_loose|done]. }
  intros [out'|e]; simpl.
  - eapply (hoare_bind _ _ _ (fun _ => writing root x out')); [by apply keeps_ignore, keeps_Close| |intros e d; apply opened_kept].
    intros _. destruct (negb _); [apply hoare_err; intros d; apply opened_kept|].
    destruct (negb _); [|by apply IH]. apply hoare_kept. repeat (apply keeps_bind; [auto with go|intros _]). auto with go.
  - apply keeps_bind; auto with go.
Qed.

Lemma keeps_kept_materializeFile opts entry target :
  ~ chunkRoot root `prefix_of` key target -> keeps K (materializeFile opts entry c target).
Proof.
  intros Ht. assert (key target <> chunkKey root x) as Hne by (intros E; apply Ht; rewrite E; apply chunkKey_under).
  pose proof (keeps_kept_Remove (X:=X) root x target Hne) as Hrm. unfold materializeFile.
  apply keeps_bind; [destruct (Overwrite opts); auto with go|]. intros _.
  eapply hoare_bind; [by eapply hoare_wrapErr_split, hoare_open| |done]. intros out.
  apply (hoare_bind _ _ _ (fun _ => K)); [| |done].
  - eapply hoare_attempt; [|intros r d H; exact H].
    apply (hoare_bind _ _ _ (fun _ => K)); [by apply hoare_copyChunks_loose| |done].
    intros [h n]. destruct (negb _); [apply keeps_err|apply keeps_ret].
  - intros r. apply keeps_bind; auto with go.
Qed.

Lemma copy_noLink opts f target :
  Strat opts <> StrategyHardLink -> tryHardLink opts f c target = ioRet false.
Proof.
  intros Hs. unfold tryHardLink. destruct (chunksOf f) as [|ref [|]]; try done. by rewrite bool_decide_eq_false_2.
Qed.

(** Whatever manifest is copied to [dest], and whatever fails. *)
Lemma keeps_kept_Materialize ctx opts m :
  Strat opts <> StrategyHardLink -> keeps K (Materialize ctx opts m c dest).
Proof.
  intros Hs. unfold Materialize. apply keeps_bind; [auto with go|]. intros _.
  apply keeps_bind; [auto with go|]. intros _. generalize 0%nat.
  induction (files m) as [|f fs IH]; intros i; cbn [materializeAll]; [auto with go|].
  destruct (ctx i); [auto with go|]. apply keeps_bind; [|intros _; apply IH]. unfold materializeEntry.
  destruct (SafeJoin dest (Path f)) as [target|e] eqn:Ej; [|rewrite bind_res_err; auto with go].
  rewrite bind_res_ok. destruct (key_SafeJoin _ _ _ Ej) as [Hk _].
  assert (~ chunkRoot root `prefix_of` key target) as Ht by (rewrite Hk; apply dest_outside).
  apply keeps_bind; [auto with go|]. intros _.
  rewrite copy_noLink by done. apply keeps_bind; [auto with go|]. intros [|]; [auto with go|].
  apply keeps_bind; [by apply keeps_wrapErr, keeps_kept_materializeFile|]. intros _.
  destruct (PreservePerms opts && _); [|auto with go]. destruct (ParseOctal (Mode f)); [|auto with go].
  by apply keeps_ignore, keeps_kept_Chmod.
Qed.

Lemma extSame_GetChunkReader h : extSame (GetChunkReader c h).
Proof.
  apply extSame_bind; [auto with go|]. intros p. apply extSame_bind.
  - apply extSame_bind; [auto with go|]. intros [a|e]; [|destruct (isNotExist e)]; auto with go.
  - intros f. apply extSame_bind; [auto with go|]. intros [fi|e]; [auto with go|]. apply extSame_bind; auto with go.
Qed.

Lemma extSame_copyChunks target chunks : forall out n, extSame (copyChunks c target out n chunks).
Proof.
  induction chunks as [|ref chunks IH]; intros out n; cbn [copyChunks]; [auto with go|].
  apply extSame_bind; [apply extSame_wrapErr, extSame_GetChunkReader|]. intros [r sz].
  apply extSame_bind; [auto with go|]. intros src. cbv zeta.
  apply extSame_bind; [auto with go|]. intros [out'|e]; (apply extSame_bind; [auto with go|intros _]); [|auto with go].
  destruct (negb _); [auto with go|]. destruct (negb _); [|apply IH].
  repeat (apply extSame_bind; [auto with go|intros _]). auto with go.
Qed.

Lemma extSame_Materialize ctx opts m :
  Strat opts <> StrategyHardLink -> extSame (Materialize ctx opts m c dest).
Proof.
  intros Hs. unfold Materialize. apply extSame_bind; [auto with go|]. intros _.
  apply extSame_bind; [auto with go|]. intros _. generalize 0%nat.
  induction (files m) as [|f fs IH]; intros i; cbn [materializeAll]; [auto with go|].
  destruct (ctx i); [auto with go|]. apply extSame_bind; [|intros _; apply IH]. unfold materializeEntry.
  apply extSame_bind; [auto with go|]. intros target. apply extSame_bind; [auto with go|]. intros _.
  rewrite copy_noLink by done. apply extSame_bind; [auto with go|]. intros [|]; [auto with go|].
  apply extSame_bind; [|intros _].
  - apply extSame_wrapErr. unfold materializeFile. apply extSame_bind; [destruct (Overwrite opts); auto with go|]. intros _.
    apply extSame_bind; [auto with go|]. intros out. apply extSame_bind; [|intros r; apply extSame_bind; auto with go].
    apply extSame_attempt, extSame_bind; [apply extSame_copyChunks|]. intros [h n]. destruct (negb _); auto with go.
  - destruct (PreservePerms opts && _); [|auto with go]. destruct (ParseOctal (Mode f)); [|auto with go].
    apply extSame_ignore, extSame_syscall.
Qed.

End operations.

(** ** The quota manager *)

Section index.
Context {D : Digest} {SS : SortSlice} {MC : ManifestCodec} {IC : IndexCodec} {X : Type} {HQ : HasQuota X}.
Context (root : string) (m : QuotaManager X) (HL : storeLayout root (qcache m)) (Hq : qpath m = Join [root; "index.json"]).
Context (x : string).

Lemma keeps_kept_save : keeps (kept root x) (save m).
Proof.
  assert (foreign root (key (qpath m +:+ ".tmp"))) as Ht
    by (rewrite Hq, key_Join_suffix by (done || apply HL); by apply foreign_below).
  assert (foreign root (key (qpath m))) as Hp
    by (rewrite Hq, key_Join_names by (apply HL || by repeat constructor); by apply foreign_below).
  unfold save. apply keeps_bind; [by intros w|]. intros i. apply keeps_bind; [auto with go|]. intros data.
  apply keeps_bind; [by apply keeps_kept_WriteFile, Ht|]. intros _.
  apply keeps_bind; [by apply keeps_kept_Rename|]. intros _. by intros w.
Qed.

(** An eviction leaves the chunks of pinned artifacts, whatever fails. *)
Lemma kept_MaybeEvict id l w :
  quotaInv (cur w) -> (forall h, is_Some (iChunks (cur w) !! h) -> wellNamed h) ->
  iPins (cur w) !! id = Some l -> "sha256:" +:+ x ∈ l ->
  kept root x (wdisk w) -> kept root x (wdisk (MaybeEvict m w).2).
Proof.
  intros Hi Hn Hl Hx Ha. pose proof (pinned_rc _ _ _ _ Hi Hl Hx) as Hrc.
  destruct (Z.lt_ge_cases (usedOf (cur w)) (mark m (highWatermark m))) as [H|H];
    [by rewrite MaybeEvict_below|]. rewrite MaybeEvict_above by done. cbn [snd].
  apply keeps_kept_save, evictLoop_keeps; [|done].
  intros h ([h' meta] & -> & Hin)%list_elem_of_fmap. rewrite sortSlice_perm in Hin.
  apply elem_of_candidates in Hin as [Hm Hr]. simpl. apply (keeps_kept_DeleteChunk root); [done|apply Hn; eauto|].
  intros ->. unfold rc, lookupMeta in Hrc. rewrite Hm in Hrc. simpl in Hrc. lia.
Qed.

Lemma keeps_pinEach (P : disk -> Prop) hs : keeps P (pinEach m hs).
Proof.
  induction hs as [|h hs IH]; cbn [pinEach]; [by intros w|]. apply keeps_bind; [by intros w|]. intros i.
  apply keeps_bind; [|intros meta; apply keeps_bind; [by intros w|done]].
  unfold fillSizeLocked. destruct (0 <? _)%Z; [by intros w|]. apply keeps_bind; [|by intros ? w].
  unfold CommittedChunkSize. destruct (chunkPath (qcache m) h); auto with go.
Qed.

Lemma keeps_kept_Pin manifest : keeps (kept root x) (Pin m manifest).
Proof.
  unfold Pin. apply keeps_bind; [by intros w|]. intros i. case_bool_decide; [apply keeps_kept_save|].
  apply keeps_bind; [by intros w|]. intros _. apply keeps_bind; [apply keeps_pinEach|]. intros _. apply keeps_kept_save.
Qed.

End index.
