(* ===== verification/IndexFile.v ===== *)
(** * The index file of the quota manager

    What [save] has written when it reports success, and what a process that
    starts later reads back (pkg/cache/manager.go).  Two processes share the
    disk and not the index in memory. *)

From S2P Require Import Prelude GoFloat Digest GoPath Json Manifest GoFs Chunker ChunkStore StoreRuns Materializer Quota.
Local Open Scope go_scope.

(** ** Writing a file *)

Section files.
Context {X : Type}.

(** The open file at [k], with the bytes written so far. *)
Definition writing (k : list string) (b : bytes) (h : handle) (d : disk) : Prop :=
  exists i, h = HFile i (length b) /\ nodeAt d k = Some (FileN i) /\ idata (getInode d i) = b.

Lemma okay_OpenTrunc_writing p perm : okay (X:=X) (fun _ => True) (OpenTrunc p perm) (writing (key p) []).
Proof.
  apply okay_syscall. intros d h d' _. unfold openWriteK.
  destruct (nodeAt d (key p)) as [[|i]|] eqn:E; [done| |].
  - intros [= <- <-]. exists i. split; [done|]. rewrite nodeAt_setInode. split; [done|].
    by rewrite getInode_setInode, bool_decide_eq_true_2.
  - destruct (nodeAt d (parent (key p))) as [[|j]|]; try done. intros [= <- <-].
    change (writing (key p) [] (HFile (freshIno d) 0) (newFile (key p) perm d)).
    exists (freshIno d). split; [done|]. apply nodeAt_none_nonroot in E.
    rewrite nodeAt_newFile, bool_decide_eq_true_2 by done. split; [done|]. by rewrite getInode_newFile.
Qed.

Lemma okay_Write_writing k b b' h : okay (X:=X) (writing k b h) (Write h b') (writing k (b ++ b')).
Proof.
  intros w (i & -> & Hn & Hd). unfold Write.
  assert (writing k (b ++ b') (HFile i (length b + length b')) (writeInode i (length b) b' (wdisk w))) as Hc.
  { exists i. rewrite length_app. split; [done|]. unfold writeInode. rewrite nodeAt_setInode. split; [done|].
    rewrite getInode_setInode, bool_decide_eq_true_2 by done. cbn [idata]. rewrite Hd. apply pwrite_end. }
  by destruct (faults w) as [|[|e|n e] fs].
Qed.

Lemma writing_content k b h d : writing k b h d -> contentAt d k = Some b.
Proof. intros (i & _ & Hn & Hd). unfold contentAt. by rewrite Hn, Hd. Qed.

Lemma okay_WriteFile_content p b perm :
  okay (X:=X) (fun _ => True) (WriteFile p b perm) (fun _ d => contentAt d (key p) = Some b).
Proof.
  eapply okay_bind; [apply okay_OpenTrunc_writing|]. intros h.
  eapply okay_bind; [apply okay_attempt, okay_Write_writing|]. intros [h'|e].
  - eapply okay_bind; [apply okay_keeps; auto with go|]. intros c. apply okay_res. intros a d _. apply writing_content.
  - eapply okay_bind; [apply (okay_keeps (fun _ => True)); auto with go|]. intros c. apply okay_err.
Qed.

Lemma okay_Rename_content p q b :
  okay (X:=X) (fun d => contentAt d (key p) = Some b) (Rename p q) (fun _ d => contentAt d (key q) = Some b).
Proof.
  apply okay_syscall. intros d [] d' Hc. unfold contentAt in Hc. unfold renameK.
  destruct (nodeAt d (key p)) as [[|i]|] eqn:E; try done. injection Hc as Hc.
  assert (forall n, nodeAt d (key q) = n -> (exists j, n = Some (FileN j)) \/ n = None ->
    contentAt (setName (key q) (FileN i) (delName (key p) d)) (key q) = Some b) as Hnew.
  { intros n Hn Hq. assert (key q <> []) as Hne by (destruct Hq as [[j ->] | ->]; by destruct (key q)).
    unfold contentAt. rewrite nodeAt_setName, bool_decide_eq_true_2 by done.
    change (getInode (setName (key q) (FileN i) (delName (key p) d)) i) with (getInode d i). by rewrite Hc. }
  destruct (nodeAt d (key q)) as [[|j]|] eqn:E'; try done.
  - case_bool_decide as Hij.
    + intros [= <-]. subst j. unfold contentAt. by rewrite E', Hc.
    + intros [= <-]. apply (Hnew _ eq_refl). eauto.
  - destruct (nodeAt d (parent (key q))) as [[|j]|]; try done. intros [= <-]. apply (Hnew _ eq_refl). by right.
Qed.

End files.

(** ** Saving and loading *)

(** Text that survives JSON. *)
Definition textIndex (i : indexFile) : Prop :=
  (forall h meta, iChunks i !! h = Some meta -> utf8Valid h = true /\ utf8Valid (mHash meta) = true)
  /\ forall id l, iPins i !! id = Some l -> utf8Valid id = true /\ Forall (fun h => utf8Valid h = true) l.

(** [json.Unmarshal] into an empty index gives back what [json.MarshalIndent]
    was given. *)
Class IndexCodecLaws {IC : IndexCodec} : Prop :=
  index_decode : forall i data, textIndex i -> marshalIndex i = Ok data -> unmarshalIndex data (mkIndex ∅ ∅) = (i, None).

Section index.
Context {D : Digest} {SS : SortSlice} {MC : ManifestCodec} {IC : IndexCodec} {IL : IndexCodecLaws}.
Context {X Y : Type} {HX : HasQuota X} {HY : HasQuota Y}.

Lemma save_content (m : QuotaManager X) w w' :
  save m w = (Ok tt, w') ->
  exists data, marshalIndex (cur w) = Ok data /\ contentAt (wdisk w') (key (qpath m)) = Some data.
Proof.
  unfold save. rewrite (ioBind_ok _ _ _ _ _ (getIdx_run w)). intros Hrun.
  apply ioBind_inv in Hrun as (data & w1 & Hm & Hrun). injection Hm as Hm <-. exists data. split; [done|].
  apply ioBind_inv in Hrun as (u1 & w2 & H1 & Hrun). apply ioBind_inv in Hrun as (u2 & w3 & H2 & Hrun).
  pose proof (okay_run _ _ _ _ _ _ (okay_WriteFile_content _ _ _) I H1) as Hc.
  pose proof (okay_run _ _ _ _ _ _ (okay_Rename_content _ _ _) Hc H2) as Hc'.
  by injection Hrun as <-.
Qed.

(** A flush with changes to write that reports success. *)
Lemma Flush_content (m : QuotaManager X) w w' :
  dirty (getQ (ext w)) = true -> Flush m w = (Ok tt, w') ->
  exists data, marshalIndex (cur w) = Ok data /\ contentAt (wdisk w') (key (qpath m)) = Some data.
Proof.
  intros Hd. unfold Flush. rewrite (ioBind_ok _ _ w (ext w) w) by done. rewrite Hd. apply save_content.
Qed.

(** A new process: what its manager starts from. *)
Lemma NewQuotaManager_loads (c : ChunkStore Y) max low high w i data :
  reliable w -> textIndex i -> marshalIndex i = Ok data ->
  contentAt (wdisk w) (key (Join [rootDir c; "index.json"])) = Some data ->
  exists m w', NewQuotaManager c max low high w = (Ok m, w') /\ iPins (cur w') = iPins i
    /\ forall h meta, iChunks i !! h = Some meta -> iChunks (cur w') !! h = Some meta.
Proof.
  intros Hr Ht Hm Hc. unfold NewQuotaManager. set (m := mkManager _ _ _ _ _).
  rewrite (ioBind_ok _ _ _ _ _ (putIdx_run _ w)). set (w1 := (putIdx (mkIndex ∅ ∅) w).2).
  rewrite (ioBind_ok _ _ w1 tt (putDirty false w1).2) by done. set (w2 := (putDirty false w1).2).
  assert (cur w2 = mkIndex ∅ ∅) as Hc2 by (unfold w2, w1; by rewrite putDirty_cur, putIdx_cur).
  rewrite (ioBind_ok _ _ _ _ _ (ignore_eq _ _)).
  assert ((load m w2).2 = (putIdx i w2).2) as ->.
  { unfold load. rewrite (ioBind_ok _ _ w2 data w2) by by apply ReadFile_run.
    rewrite (ioBind_ok _ _ _ _ _ (getIdx_run w2)), Hc2, (index_decode i data Ht Hm).
    by rewrite (ioBind_ok _ _ _ _ _ (putIdx_run _ w2)). }
  rewrite (ioBind_ok _ _ _ _ _ (ignore_eq _ _)). eexists _, _. split; [done|].
  pose proof (reconcileFromDisk_keeps (fun j => iPins j = iPins i
    /\ forall h meta, iChunks i !! h = Some meta -> iChunks j !! h = Some meta)) as Hk.
  apply Hk; [|by rewrite putIdx_cur]. intros j h meta [Hp Hj] Hn _. split; [done|]. intros h' meta' Hi. simpl.
  rewrite lookup_insert_ne; [by apply Hj|]. intros ->. apply Hj in Hi. congruence.
Qed.

(** C25. The index survives a restart: when a flush of a changed index, all of
    whose names are UTF-8, reports success, whatever failed before it, a
    manager that is created later on that disk, while the disk is reliable,
    has the same pins and has every entry of the index. (A manager that cannot
    read the file starts without pins: [NewQuotaManager] drops that error.) *)
Theorem index_survives_restart (m : QuotaManager X) w w' (c : ChunkStore Y) max low high v :
  dirty (getQ (ext w)) = true -> textIndex (cur w) -> Flush m w = (Ok tt, w') ->
  qpath m = Join [rootDir c; "index.json"] -> reliable v -> wdisk v = wdisk w' ->
  exists m' v', NewQuotaManager c max low high v = (Ok m', v') /\ iPins (cur v') = iPins (cur w)
    /\ forall h meta, iChunks (cur w) !! h = Some meta -> iChunks (cur v') !! h = Some meta.
Proof.
  intros Hd Ht Hf Hq Hr Hv. destruct (Flush_content m w w' Hd Hf) as (data & Hm & Hc).
  apply (NewQuotaManager_loads c max low high v (cur w) data); try done. by rewrite Hv, <- Hq.
Qed.

End index.

(** ** A concrete index *)

Definition metaTuple (m : chunkMeta) := (mHash m, mSize m, LastAccess m, mRefCount m).
Definition tupleMeta t : chunkMeta := let '(a, b, c, d) := t in mkMeta a b c d.

Definition demoIndexCodec : IndexCodec := {|
  marshalIndex := fun i => Ok (countEncode (metaTuple <$> iChunks i, iPins i));
  unmarshalIndex := fun data old =>
    match countDecode data with
    | Some (cs, pins) => (mkIndex (tupleMeta <$> cs) pins, None)
    | None => (old, Some (EText "not JSON"))
    end
|}.

Lemma demoIndexCodec_laws : IndexCodecLaws (IC:=demoIndexCodec).
Proof.
  intros [cs pins] data _ [= <-]. cbn [unmarshalIndex demoIndexCodec]. rewrite countDecode_encode. simpl.
  rewrite <- map_fmap_compose, (map_fmap_ext _ id), map_fmap_id; [done|]. by intros h [].
Qed.

(** An index with changes that are not on the disk. *)
Definition dirtyWorld (i : indexFile) : world qstate := World (wdisk abcWorld) [] [] 0 (mkQ i true).

Lemma abcHash_text : utf8Valid abcHash = true.
Proof. vm_compute. reflexivity. Qed.

Lemma unpinnedIndex_text : textIndex unpinnedIndex.
Proof.
  split.
  - intros h meta Hm. change (({[ abcHash := mkMeta abcHash 3 0 0 ]} : gmap string chunkMeta) !! h = Some meta) in Hm.
    apply lookup_singleton_Some in Hm as [<- <-]. split; apply abcHash_text.
  - intros id l. simpl. by rewrite lookup_empty.
Qed.

Definition flushed : res unit * world qstate := Flush (IC:=demoIndexCodec) demoQuota (dirtyWorld unpinnedIndex).

Lemma flushed_ok : flushed.1 = Ok tt.
Proof. vm_compute. reflexivity. Qed.

Lemma flushed_reliable : reliable flushed.2.
Proof. vm_compute. reflexivity. Qed.

Lemma flushed_run : Flush (IC:=demoIndexCodec) demoQuota (dirtyWorld unpinnedIndex) = (Ok tt, flushed.2).
Proof. rewrite <- flushed_ok. apply surjective_pairing. Qed.

Lemma index_survives_restart_witness :
  exists m' v', NewQuotaManager (IC:=demoIndexCodec) (storeAt "/s") 0 fzero fzero flushed.2 = (Ok m', v')
    /\ iPins (cur v') = iPins unpinnedIndex /\ iChunks (cur v') !! abcHash = Some (mkMeta abcHash 3 0 0).
Proof.
  destruct (index_survives_restart (IL:=demoIndexCodec_laws) demoQuota (dirtyWorld unpinnedIndex) flushed.2
    (storeAt "/s") 0 fzero fzero flushed.2) as (m' & v' & Hn & Hp & Hc);
    [reflexivity|exact unpinnedIndex_text|exact flushed_run|reflexivity|exact flushed_reliable|reflexivity|].
  exists m', v'. split; [exact Hn|]. split; [exact Hp|]. apply Hc.
  change (({[ abcHash := mkMeta abcHash 3 0 0 ]} : gmap string chunkMeta) !! abcHash = Some (mkMeta abcHash 3 0 0)).
  apply lookup_singleton_eq.
Defined.
