(* ===== verification/Peer.v ===== *)
(** * Chunk transfers between peers (pkg/peer/server.go, client.go)

    [GetChunk] of the server makes a stream of messages, [DownloadChunkTo] of
    the client consumes one.  What the outside decides - how much a read gives,
    when a context ends, whether a message can be sent - is an argument. *)

From S2P Require Import Prelude GoFloat Digest GoPath Json Manifest GoFs Chunker ChunkStore.
Local Open Scope go_scope.

(** ** Messages (api/v1/proto/peer.pb.go) *)

Record ChunkDataChunk := mkData { Payload : bytes; dOffset : Z; TotalSize : Z; IsEof : bool }.

Record GetChunkRequest := mkGet { gChunkHash : string; gOffset : Z }.

Definition StreamSliceSize : Z := 64 * 1024.

(** ** The language and its libraries *)

Definition digitVal (a : Ascii.ascii) : option Z :=
  let n := Z.of_nat (Ascii.nat_of_ascii a) in
  if (48 <=? n)%Z && (n <=? 57)%Z then Some (n - 48)%Z else None.

Fixpoint digitsFrom (acc : Z) (s : string) : option Z :=
  match s with
  | EmptyString => Some acc
  | String a s => match digitVal a with Some d => digitsFrom (10 * acc + d)%Z s | None => None end
  end.

(** [strconv.ParseInt(s, 10, 64)] *)
Definition parseInt64 (s : string) : option Z :=
  let '(neg, ds) := match s with
                    | String a r => if bool_decide (a = Ascii.ascii_of_nat 45) then (true, r)
                                    else if bool_decide (a = Ascii.ascii_of_nat 43) then (false, r) else (false, s)
                    | EmptyString => (false, s)
                    end in
  if bool_decide (ds = "") then None
  else match digitsFrom 0 ds with
       | None => None
       | Some v => let v := if neg then (- v)%Z else v in
                   if (- 2 ^ 63 <=? v)%Z && (v <? 2 ^ 63)%Z then Some v else None
       end.

(** [status.FromContextError(err).Err()] *)
Definition fromContextError (e : error) : error :=
  if errorsIs e ContextDeadlineExceeded then EStatus CDeadlineExceeded "context deadline exceeded"
  else if errorsIs e ContextCanceled then EStatus CCanceled "context canceled"
  else EStatus CUnknown "context error".

(** ** The server *)

(** Bandwidth: the wait before a slice of [n] bytes, when [active] streams
    share [bytesPerSec]. *)
Definition bandwidthDelay (bytesPerSec : float64) (active n : Z) : Z :=
  let active := if (active <? 1)%Z then 1%Z else active in
  let share := fdiv bytesPerSec (ofInt64 active) in
  if fltb fzero share then toInt64 (fmul (fdiv (ofInt64 n) share) (ofInt64 1000000000)) else 0%Z.

(** [done d] is the error of the context when it ends before [d] has passed.
    Without a bandwidth there is no limiter either. *)
Definition waitBandwidth (bytesPerSec : float64) (active : Z) (done : Z -> option error) (n : Z) : res unit :=
  if (n <=? 0)%Z then Ok tt
  else if fltb fzero bytesPerSec then
    let delay := bandwidthDelay bytesPerSec active n in
    if (0 <? delay)%Z then match done delay with Some e => Err e | None => Ok tt end else Ok tt
  else Ok tt.

(** What the outside decides of one stream: the offset in the metadata of the
    call, the bytes that the i-th read gives, the streams active at the i-th
    slice, the end of the context during a wait and the error of a send. *)
Record Stream := mkStream {
  sMetadata : option string;
  sRead : nat -> nat;
  sActive : nat -> Z;
  sDone : nat -> Z -> option error;
  sSend : nat -> option error
}.

Record UploadLimits := mkLimits { MaxConcurrency : Z; MaxQueueSize : Z; MaxBandwidthMbps : Z }.

(** The job status messages of the sync handler. *)
Record SyncJobStatus := mkJobStatus {
  jsJobId : string; jsArtifactId : string; jsStatus : string; jsTotalChunks : Z; jsDownloadedChunks : Z;
  jsPeerChunks : Z; jsOriginChunks : Z; jsErrorMessage : string; jsSkippedChunks : Z; jsPeerBytes : Z; jsOriginBytes : Z
}.

Record GetNodeStatusResponse := mkNodeStatus {
  nsNodeId : string; nsCachedChunks : Z; nsTotalBytesCached : Z; nsActiveJobs : list SyncJobStatus
}.

Record SyncHandler (X : Type) := mkHandler {
  HandleSync : string -> string -> string -> string -> IO X string;
  GetStatus : string -> IO X GetNodeStatusResponse
}.
Arguments HandleSync {X}.
Arguments GetStatus {X}.

Record Server (X : Type) := mkServer {
  nodeID : string;
  cache : ChunkStore X;
  syncHandler : option (SyncHandler X);
  slots : Z;
  maxQueue : Z;
  bytesPerSec : float64
}.
Arguments mkServer {X}.
Arguments nodeID {X}.
Arguments cache {X}.
Arguments syncHandler {X}.
Arguments slots {X}.
Arguments maxQueue {X}.
Arguments bytesPerSec {X}.

Section server.
Context {D : Digest} {SS : SortSlice} {MC : ManifestCodec} {X : Type}.

Definition NewServerWithLimits (node : string) (c : ChunkStore X) (h : option (SyncHandler X)) (lim : UploadLimits)
    : Server X :=
  let conc := if (MaxConcurrency lim <=? 0)%Z then 16%Z else MaxConcurrency lim in
  let queue := if (MaxQueueSize lim <? 0)%Z then 0%Z else MaxQueueSize lim in
  let bps := if (0 <? MaxBandwidthMbps lim)%Z
             then fdiv (fmul (fmul (ofInt64 (MaxBandwidthMbps lim)) (ofInt64 1024)) (ofInt64 1024)) (ofInt64 8)
             else fzero in
  mkServer node c h conc queue bps.

Definition NewServer (node : string) (c : ChunkStore X) (h : option (SyncHandler X)) : Server X :=
  NewServerWithLimits node c h (mkLimits 16 100 0).

(** The loop that reads slices and sends them, from the [i]-th on: the messages
    sent and the error it ends with. *)
Fixpoint sendLoop (fuel : nat) (st : Stream) (bps : float64) (total : Z) (i : nat) (cur : Z) (r : reader)
    : list ChunkDataChunk * option error :=
  match fuel with
  | O => ([], None)
  | S fuel =>
      match r.1 with
      | [] => ([], match r.2 with
                   | None => None
                   | Some _ => Some (EStatus CInternal "error reading chunk file")
                   end)
      | _ :: _ =>
          let payload := take (Z.to_nat (Z.min StreamSliceSize (Z.max 1 (Z.of_nat (sRead st i))))) r.1 in
          match waitBandwidth bps (sActive st i) (sDone st i) (blen payload) with
          | Err e => ([], Some (fromContextError e))
          | Ok _ =>
              match sSend st i with
              | Some _ => ([], Some (EStatus CCanceled "failed to send chunk slice"))
              | None =>
                  let next := add64 cur (blen payload) in
                  let '(ms, e) := sendLoop fuel st bps total (S i) next (drop (length payload) r.1, r.2) in
                  (mkData payload cur total (total <=? next)%Z :: ms, e)
              end
          end
      end
  end.

(** The offset of the request, or the one of the metadata. *)
Definition requestOffset (req : GetChunkRequest) (st : Stream) : Z :=
  if (gOffset req =? 0)%Z then
    match sMetadata st with
    | Some v => match parseInt64 v with Some n => n | None => gOffset req end
    | None => gOffset req
    end
  else gOffset req.

(** [acquired] is the result of [acquireUpload]. *)
Definition GetChunk (srv : Server X) (acquired : res unit) (req : GetChunkRequest) (st : Stream)
    : IO X (list ChunkDataChunk * option error) :=
  match acquired with
  | Err e => ioRet ([], Some e)
  | Ok _ =>
      if bool_decide (gChunkHash req = "") then ioRet ([], Some (EStatus CInvalidArgument "chunk_hash is required"))
      else
        do r <- attempt (GetChunkReader (cache srv) (gChunkHash req));
        match r with
        | Err _ => ioRet ([], Some (EStatus CNotFound "chunk not found in local cache"))
        | Ok (f, totalSize) =>
            let offset := requestOffset req st in
            do out <-
              (if (offset <? 0)%Z then ioRet ([], Some (EStatus CInvalidArgument "offset must be >= 0"))
               else if (totalSize <? offset)%Z then ioRet ([], Some (EStatus COutOfRange "offset past chunk size"))
               else
                 do f' <- (if (0 <? offset)%Z then attempt (Seek f offset) else ioRet (Ok f));
                 match f' with
                 | Err _ => ioRet ([], Some (EStatus CInternal "seek chunk"))
                 | Ok f' =>
                     do data <- readRest f';
                     ioRet (sendLoop (S (length data.1)) st (bytesPerSec srv) totalSize 0 offset data)
                 end);
            do_ ignore (Close f);
            ioRet out
        end
  end.

(** The response of [SyncArtifact]: accepted, job, message. *)
Definition SyncArtifact (srv : Server X) (errText : error -> string) (manifestJSON destPath originType originURI : string)
    : IO X (bool * string * string) :=
  match syncHandler srv with
  | None => ioRet (false, "", "sync handler not configured")
  | Some h =>
      do r <- attempt (HandleSync h manifestJSON destPath originType originURI);
      ioRet match r with
            | Err e => (false, "", errText e)
            | Ok jobID => (true, jobID, "sync started successfully")
            end
  end.

Definition GetNodeStatus (srv : Server X) (jobID : string) : IO X GetNodeStatusResponse :=
  match syncHandler srv with
  | Some h => GetStatus h jobID
  | None =>
      do chunks <- ListChunks (cache srv);
      do totalBytes <- TotalCachedBytes (cache srv);
      ioRet (mkNodeStatus (nodeID srv) (Z.of_nat (length chunks.1)) totalBytes.1 [])
  end.

End server.

(** ** The client *)

Section client.
Context {W : Type} (write : bytes -> W -> res W).

(** The receive loop over the messages of a stream and its final status: the
    result with its error, and the writer. *)
Fixpoint recvLoop (offset : Z) (final : option error) (msgs : list ChunkDataChunk)
    (totalSize skipped downloaded : Z) (w : W) : (Z * option error) * W :=
  match msgs with
  | [] => match final with
          | None => ((totalSize, None), w)
          | Some e => ((downloaded, Some (EWrap "error reading chunk stream" e)), w)
          end
  | m :: ms =>
      let totalSize := if (0 <? TotalSize m)%Z then TotalSize m else totalSize in
      let deliver payload skipped :=
        match (if bool_decide (payload = []) then Ok w else write payload w) with
        | Err e => ((downloaded, Some (EWrap "failed to write chunk stream" e)), w)
        | Ok w' =>
            if IsEof m then ((totalSize, None), w')
            else recvLoop offset final ms totalSize skipped (add64 downloaded (blen payload)) w'
        end in
      if (0 <? offset)%Z && (dOffset m =? 0)%Z && (skipped <? offset)%Z then
        let need := sub64 offset skipped in
        if (blen (Payload m) <=? need)%Z then
          if IsEof m then ((totalSize, None), w)
          else recvLoop offset final ms totalSize (add64 skipped (blen (Payload m))) downloaded w
        else deliver (drop (Z.to_nat need) (Payload m)) offset
      else deliver (Payload m) skipped
  end.

(** [client] is the error of [GetClient], [rpc] what the call of the remote
    [GetChunk] gives for the request. *)
Definition DownloadChunkTo (client : option error) (rpc : GetChunkRequest -> res (list ChunkDataChunk * option error))
    (chunkHash : string) (offset : Z) (w : W) : (Z * option error) * W :=
  match client with
  | Some e => ((0%Z, Some e), w)
  | None =>
      match rpc (mkGet chunkHash offset) with
      | Err e => ((0%Z, Some (EWrap "peer GetChunk RPC failed" e)), w)
      | Ok (msgs, final) => recvLoop offset final msgs 0 0 0 w
      end
  end.

End client.

(** Writing to memory. *)
Definition bufWrite (b buf : bytes) : res bytes := Ok (buf ++ b).

Section download.
Context {D : Digest}.

Definition DownloadChunk (client : option error) (rpc : GetChunkRequest -> res (list ChunkDataChunk * option error))
    (chunkHash : string) : res bytes :=
  match DownloadChunkTo bufWrite client rpc chunkHash 0 [] with
  | ((_, Some e), _) => Err e
  | ((_, None), buf) =>
      let actualHash := "sha256:" +:+ hexEncode (sum256 buf) in
      if negb (bool_decide (actualHash = chunkHash)) then Err (EText "chunk corruption detected from peer")
      else Ok buf
  end.

End download.

(** * Properties *)

(** ** The stream of the server *)

(** The slice of one read. *)
Lemma slice_split (k : nat) b (data : bytes) :
  let payload := take (Z.to_nat (Z.min StreamSliceSize (Z.max 1 (Z.of_nat k)))) (b :: data) in
  payload <> [] /\ (0 < blen payload <= StreamSliceSize)%Z /\ b :: data = payload ++ drop (length payload) (b :: data).
Proof.
  intros payload. set (n := Z.to_nat _) in payload.
  assert (0 < n) as Hn by (unfold n, StreamSliceSize; lia).
  assert (Z.of_nat n <= StreamSliceSize)%Z as Hn' by (unfold n, StreamSliceSize; lia).
  assert (length payload = n `min` S (length data)) as Hl by (unfold payload; by rewrite length_take).
  split_and!; [by unfold payload; destruct n; [lia|]|unfold blen; lia|unfold blen; lia|].
  rewrite Hl. unfold payload. destruct (Nat.min_spec n (S (length data))) as [[? ->]|[? ->]].
  - by rewrite take_drop.
  - rewrite take_ge, drop_ge, app_nil_r by (simpl; lia). done.
Qed.

Section stream.
Context (st : Stream) (bps : float64) (total : Z).

(** The loop sends slices of the data, in order and contiguous, the last of
    them marked. *)
Inductive slices : Z -> bytes -> list ChunkDataChunk -> Prop :=
  | slices_stop cur data : slices cur data []
  | slices_send cur payload rest ms :
      payload <> [] -> (blen payload <= StreamSliceSize)%Z -> slices (cur + blen payload) rest ms ->
      slices cur (payload ++ rest)
        (mkData payload cur total (total <=? cur + blen payload)%Z :: ms).

Lemma sendLoop_slices fuel : forall i cur data err,
  length data < fuel -> (0 <= cur)%Z -> (cur + blen data < 2 ^ 63)%Z ->
  slices cur data (sendLoop fuel st bps total i cur (data, err)).1.
Proof.
  induction fuel as [|fuel IH]; intros i cur data err Hf Hc Hm; [constructor|]. cbn [sendLoop fst snd].
  destruct data as [|b data]; [constructor|].
  destruct (slice_split (sRead st i) b data) as (Hp & Hl & Hsplit).
  set (payload := take _ (b :: data)) in *.
  destruct (waitBandwidth _ _ _ _); [|constructor]. destruct (sSend st i); [constructor|].
  assert (blen (b :: data) = blen payload + blen (drop (length payload) (b :: data)))%Z as Hb
    by (rewrite Hsplit at 1; apply blen_app).
  assert (add64 cur (blen payload) = cur + blen payload)%Z as Hadd.
  { apply wrap64_id. unfold int64_range. pose proof (blen_nonneg payload). pose proof (blen_nonneg (drop (length payload) (b :: data))). lia. }
  rewrite Hadd. specialize (IH (S i) (cur + blen payload)%Z (drop (length payload) (b :: data)) err).
  destruct (sendLoop fuel st bps total (S i) _ _) as [ms e]. simpl in *. rewrite Hsplit at 1.
  apply slices_send; [done|lia|]. apply IH; [|lia|lia].
  change (length (drop (length payload) (b :: data)) < fuel). rewrite length_drop. unfold blen in Hl. simpl in *. lia.
Qed.

End stream.

(** ** The client on such a stream *)

Section receive.
Context (total : Z).

Lemma slices_prefix cur data ms ms' : slices total cur data ms -> ms' `prefix_of` ms -> slices total cur data ms'.
Proof.
  intros Hs. revert ms'. induction Hs as [cur data|cur payload rest ms Hp Hl Hs IH]; intros ms' Hpre.
  - apply prefix_nil_inv in Hpre as ->. constructor.
  - destruct ms' as [|m ms']; [constructor|]. apply prefix_cons_inv_1 in Hpre as Hm. subst m.
    apply prefix_cons_inv_2 in Hpre. by constructor; [..|apply IH].
Qed.

(** Whatever arrives of the stream, the client writes a prefix of the data. *)
Lemma recvLoop_prefix offset final ms : forall cur data ts dl buf,
  slices total cur data ms -> ((0 < offset)%Z -> (0 < cur)%Z) -> (0 <= cur)%Z ->
  exists r k, recvLoop bufWrite offset final ms ts 0 dl buf = (r, buf ++ take k data).
Proof.
  induction ms as [|m ms IH]; intros cur data ts dl buf Hs Hoff Hcur.
  { destruct final; eexists _, 0; by rewrite take_0, app_nil_r. }
  inversion Hs as [|? payload rest ? Hp Hl Hs']; subst. cbn [recvLoop dOffset Payload IsEof TotalSize].
  assert ((0 <? offset)%Z && (cur =? 0)%Z && (0 <? offset)%Z = false) as ->.
  { destruct (Z.ltb_spec 0 offset); [|done]. destruct (Z.eqb_spec cur 0); [lia|done]. }
  rewrite bool_decide_eq_false_2 by done. cbn [bufWrite].
  destruct (total <=? cur + blen payload)%Z.
  - eexists _, (length payload). by rewrite take_app_length.
  - pose proof (blen_nonneg payload).
    destruct (IH (cur + blen payload)%Z rest (if (0 <? total)%Z then total else ts) (add64 dl (blen payload)) (buf ++ payload) Hs')
      as (r & k & ->); [lia|lia|].
    eexists r, (length payload + k). by rewrite take_app_add, app_assoc.
Qed.

End receive.

(** ** A stream that nothing interrupts *)

Definition clean (st : Stream) : Prop := (forall i, sSend st i = None) /\ (forall i d, sDone st i d = None).

Lemma sendLoop_clean st bps total offset fuel : clean st -> forall i cur data,
  length data < fuel -> (0 <= cur)%Z -> (cur + blen data = total)%Z -> (total < 2 ^ 63)%Z -> ((0 < offset)%Z -> (0 < cur)%Z) ->
  let out := sendLoop fuel st bps total i cur (data, None) in
  out.2 = None /\ forall ts dl buf, recvLoop bufWrite offset None out.1 ts 0 dl buf
    = ((if bool_decide (data = []) then ts else total, None), buf ++ data).
Proof.
  intros [Hsend Hdone]. induction fuel as [|fuel IH]; intros i cur data Hf Hc Ht Hm Hoff; [lia|]. cbn [sendLoop fst snd].
  destruct data as [|b data]; [by split; [|intros; rewrite app_nil_r]|].
  destruct (slice_split (sRead st i) b data) as (Hp & Hl & Hsplit). set (payload := take _ (b :: data)) in *.
  assert (waitBandwidth bps (sActive st i) (sDone st i) (blen payload) = Ok tt) as ->.
  { unfold waitBandwidth. rewrite Hdone. repeat case_match; done. }
  rewrite Hsend.
  assert (blen (b :: data) = blen payload + blen (drop (length payload) (b :: data)))%Z as Hb
    by (rewrite Hsplit at 1; apply blen_app).
  set (rest := drop (length payload) (b :: data)) in *. pose proof (blen_nonneg rest).
  assert (add64 cur (blen payload) = cur + blen payload)%Z as -> by (apply wrap64_id; unfold int64_range; lia).
  assert (length rest < fuel) as Hf' by (unfold rest; rewrite length_drop; unfold blen in Hl; simpl in *; lia).
  specialize (IH (S i) (cur + blen payload)%Z rest Hf'). destruct (sendLoop fuel st bps total (S i) _ _) as [ms e].
  simpl in *. destruct IH as [-> Hrec]; [lia|lia|lia|lia|]. split; [done|]. intros ts dl buf.
  cbn [recvLoop dOffset Payload IsEof TotalSize].
  assert ((0 <? offset)%Z && (cur =? 0)%Z && (0 <? offset)%Z = false) as ->.
  { destruct (Z.ltb_spec 0 offset); [|done]. destruct (Z.eqb_spec cur 0); [lia|done]. }
  rewrite bool_decide_eq_false_2 by done. cbn [bufWrite]. rewrite (proj2 (Z.ltb_lt 0 total)) by lia.
  destruct (Z.leb_spec total (cur + blen payload)).
  - assert (rest = []) as Hr by (destruct rest; [done|unfold blen in *; simpl in *; lia]).
    by rewrite Hsplit, Hr, app_nil_r.
  - rewrite Hrec, Hsplit, app_assoc. by case_bool_decide.
Qed.

(** ** Transfers *)

Section transfer.
Context {D : Digest} {SS : SortSlice} {MC : ManifestCodec} {X : Type}.
Context (root : string) (srv : Server X) (HL : storeLayout root (cache srv)).

(** A request for a chunk of the store, from an offset inside it. *)
Lemma GetChunk_run w x data o st :
  reliable w -> hexName x -> chunkOf root (wdisk w) x = Some data -> (blen data < 2 ^ 63)%Z ->
  requestOffset (mkGet ("sha256:" +:+ x) o) st = o -> (0 <= o <= blen data)%Z ->
  GetChunk srv (Ok tt) (mkGet ("sha256:" +:+ x) o) st w
  = (Ok (sendLoop (S (length (drop (Z.to_nat o) data))) st (bytesPerSec srv) (blen data) 0 o (drop (Z.to_nat o) data, None)), w).
Proof.
  intros Hr Hx Hd Hm Ho Hrange. destruct (GetChunkReader_file root (cache srv) HL w x data Hr Hx Hd) as (i & Hg & Hi).
  unfold GetChunk. cbn [gChunkHash]. rewrite bool_decide_eq_false_2 by done.
  rewrite (ioBind_ok _ _ w (Ok (HFile i 0, blen data)) w) by by rewrite attempt_eq, Hg. rewrite Ho.
  rewrite (proj2 (Z.ltb_ge o 0)), (proj2 (Z.ltb_ge (blen data) o)) by lia.
  assert ((if (0 <? o)%Z then attempt (Seek (HFile i 0) o) else ioRet (Ok (HFile i 0))) w
    = (Ok (Ok (HFile i (Z.to_nat o))), w)) as Hs.
  { destruct (Z.ltb_spec 0 o); [by rewrite attempt_eq, Seek_reliable by (done || lia)|]. by replace o with 0%Z by lia. }
  erewrite ioBind_ok.
  2: { erewrite ioBind_ok by exact Hs. cbn beta iota. erewrite ioBind_ok by by apply readRest_reliable.
       simpl. rewrite Hi. reflexivity. }
  erewrite ioBind_ok; [reflexivity|]. by rewrite ignore_eq, Close_reliable.
Qed.

(** A transfer between peers.  A server that holds a chunk, asked for it from
    an offset inside it, sends its bytes from there on.  Whatever part of the
    stream reaches the client and however it ends, the client writes a prefix
    of those bytes; when nothing interrupts the stream, it writes all of them
    and returns the size of the chunk (or zero when there was nothing to send). *)
Theorem peer_transfer_exact w x data o st
    (Hr : reliable w) (Hx : hexName x) (Hd : chunkOf root (wdisk w) x = Some data) (Hm : (blen data < 2 ^ 63)%Z)
    (Ho : requestOffset (mkGet ("sha256:" +:+ x) o) st = o) (Hrange : (0 <= o <= blen data)%Z) :
  exists msgs status, GetChunk srv (Ok tt) (mkGet ("sha256:" +:+ x) o) st w = (Ok (msgs, status), w)
    /\ (forall part final buf, part `prefix_of` msgs -> exists r k,
          DownloadChunkTo bufWrite None (fun _ => Ok (part, final)) ("sha256:" +:+ x) o buf
          = (r, buf ++ take k (drop (Z.to_nat o) data)))
    /\ (clean st -> status = None /\ forall buf,
          DownloadChunkTo bufWrite None (fun _ => Ok (msgs, None)) ("sha256:" +:+ x) o buf
          = ((if (o <? blen data)%Z then blen data else 0%Z, None), buf ++ drop (Z.to_nat o) data)).
Proof.
  assert (o + blen (drop (Z.to_nat o) data) = blen data)%Z as Hlen by (unfold blen in *; rewrite length_drop; lia).
  pose proof (GetChunk_run w x data o st Hr Hx Hd Hm Ho Hrange) as Hg.
  match type of Hg with _ = (Ok ?out, _) => exists out.1, out.2 end.
  split; [by rewrite Hg, <- surjective_pairing|]. split.
  - intros part final buf Hp. apply (recvLoop_prefix (blen data) o final part o); [|done|lia].
    eapply slices_prefix; [|exact Hp]. apply sendLoop_slices; [lia..|]. rewrite Hlen. lia.
  - intros Hc. destruct (sendLoop_clean st (bytesPerSec srv) (blen data) o
      (S (length (drop (Z.to_nat o) data))) Hc 0 o (drop (Z.to_nat o) data)) as [Hs Hrec]; [lia..|done|].
    split; [done|]. intros buf. unfold DownloadChunkTo. rewrite Hrec. do 3 f_equal.
    destruct (Z.ltb_spec o (blen data)); case_bool_decide as Hn; try done.
    + rewrite Hn in Hlen. unfold blen in *. simpl in *. lia.
    + destruct (drop (Z.to_nat o) data); [done|]. unfold blen in *. simpl in *. lia.
Qed.

(** What [DownloadChunk] returns has the hash it was asked for, whatever the
    peer sends. *)
Lemma DownloadChunk_sound client rpc h b : DownloadChunk client rpc h = Ok b -> ComputeHash b = h.
Proof.
  unfold DownloadChunk. destruct (DownloadChunkTo _ _ _ _ _ _) as [[n [e|]] buf]; [done|].
  case_bool_decide as Hh; [|done]. intros [= <-]. done.
Qed.

End transfer.

(** ** One chunk *)

Definition demoServer : Server unit := NewServer "n1" demoStore None.

(** A stream whose reads give two bytes at a time. *)
Definition demoStream : Stream :=
  mkStream None (fun _ => 2) (fun _ => 1%Z) (fun _ _ => None) (fun _ => None).

Lemma peer_transfer_exact_witness :
  exists msgs, GetChunk demoServer (Ok tt) (mkGet abcHash 1) demoStream abcWorld = (Ok (msgs, None), abcWorld)
    /\ DownloadChunkTo bufWrite None (fun _ => Ok (msgs, None)) abcHash 1 [] = ((3%Z, None), drop 1 abc).
Proof.
  destruct (peer_transfer_exact "/s" demoServer (storeAt_layout "/s" ltac:(done)) abcWorld (strDrop 7 abcHash) abc 1 demoStream)
    as (msgs & status & Hg & _ & Hc).
  - vm_compute. reflexivity.
  - split; vm_compute; reflexivity.
  - vm_compute. reflexivity.
  - vm_compute. reflexivity.
  - vm_compute. reflexivity.
  - vm_compute. split; discriminate.
  - destruct Hc as [-> Hd]; [by split|]. exists msgs. split; [exact Hg|]. exact (Hd []).
Defined.

Example demo_messages :
  (GetChunk demoServer (Ok tt) (mkGet abcHash 0) demoStream abcWorld).1
  = Ok ([mkData (take 2 abc) 0 3 false; mkData (drop 2 abc) 2 3 true], None).
Proof. vm_compute. reflexivity. Qed.

(** A server that sends the chunk from the start, with the offsets of the
    slices, although it was asked for an offset: only slices with offset zero
    are skipped, so the bytes before the offset that a later slice holds are
    written again. *)
Example resume_from_old_server :
  DownloadChunkTo bufWrite None
    (fun _ => Ok ([mkData [x01] 0 3 false; mkData [x02] 1 3 false; mkData [x03] 2 3 true], None)) abcHash 2 [x01; x02]
  = ((3%Z, None), [x01; x02; x02; x03]).
Proof. vm_compute. reflexivity. Qed.
