(* ===== verification/PeerLimits.v ===== *)
(** * Limits of a peer (pkg/peer/client.go, server.go)

    The pool of client connections and the upload slots of the server.  The
    operations are the critical sections and atomic accesses of the code, so a
    history of them is an interleaving of concurrent calls. *)

From S2P Require Import Prelude Peer.
Local Open Scope go_scope.

(** ** The connection pool *)

Module Pool.

Record PoolConfig := mkConfig { MaxConnections : Z; IdleTimeout : Z }.

Definition DefaultPoolConfig : PoolConfig := mkConfig 64 (2 * 60 * 1000000000)%Z.

(** A connection is known by a number. *)
Record pooledConn := mkPooled { conn : nat; lastUsed : Z }.

(** [closedConns] are the connections on which [Close] was called. *)
Record ClientPool := mkPool {
  conns : gmap string pooledConn;
  maxConns : Z;
  idleTimeout : Z;
  stopped : bool;
  closedConns : gset nat
}.

Definition NewClientPoolWithConfig (cfg : PoolConfig) : ClientPool :=
  mkPool ∅ (if (MaxConnections cfg <=? 0)%Z then 64 else MaxConnections cfg)%Z
    (if (IdleTimeout cfg <=? 0)%Z then 2 * 60 * 1000000000 else IdleTimeout cfg)%Z false ∅.

Definition NewClientPool : ClientPool := NewClientPoolWithConfig DefaultPoolConfig.

(** Close and remove the connections that [keep] does not hold of. *)
Definition keepOnly (keep : string * pooledConn -> Prop) `{!forall x, Decision (keep x)} (p : ClientPool) : ClientPool :=
  mkPool (filter keep (conns p)) (maxConns p) (idleTimeout p) (stopped p)
    (closedConns p ∪ list_to_set ((map_to_list (filter (fun x => ~ keep x) (conns p))).*2 ≫= fun pc => [conn pc])).

Definition setConns (cs : gmap string pooledConn) (p : ClientPool) : ClientPool :=
  mkPool cs (maxConns p) (idleTimeout p) (stopped p) (closedConns p).

Definition evictIdle (now : Z) (p : ClientPool) : ClientPool :=
  keepOnly (fun x => (timeSub now (Some (lastUsed x.2)) < idleTimeout p)%Z) p.

(** The loop of [evictOldestLocked]. *)
Definition oldest (l : list (string * pooledConn)) (acc : string * Z) : string * Z :=
  fold_left (fun '(addr, t) '(a, pc) =>
    if bool_decide (addr = "") || (lastUsed pc <? t)%Z then (a, lastUsed pc) else (addr, t)) l acc.

Definition evictOldestLocked (p : ClientPool) : ClientPool :=
  let addr := (oldest (map_to_list (conns p)) ("", 0%Z)).1 in
  if bool_decide (addr = "") then p else keepOnly (fun x => x.1 <> addr) p.

Definition makeRoom (p : ClientPool) : ClientPool :=
  if (maxConns p <=? Z.of_nat (size (conns p)))%Z then evictOldestLocked p else p.

(** The critical section of [GetClient] before it dials. *)
Definition lookupConn (now : Z) (addr : string) (p : ClientPool) : option nat * ClientPool :=
  match conns p !! addr with
  | Some pc => (Some (conn pc), setConns (<[addr := mkPooled (conn pc) now]> (conns p)) p)
  | None => (None, makeRoom p)
  end.

(** The critical section after it has dialled connection [c]. *)
Definition storeConn (now : Z) (addr : string) (c : nat) (p : ClientPool) : nat * ClientPool :=
  match conns p !! addr with
  | Some pc =>
      (conn pc, mkPool (<[addr := mkPooled (conn pc) now]> (conns p)) (maxConns p) (idleTimeout p) (stopped p)
                  ({[c]} ∪ closedConns p))
  | None =>
      let p := makeRoom p in
      (c, setConns (<[addr := mkPooled c now]> (conns p)) p)
  end.

(** [others] is what other calls do to the pool while this one dials. *)
Definition GetClient (now now' : Z) (addr : string) (dial : res nat) (others : ClientPool -> ClientPool) (p : ClientPool)
    : res nat * ClientPool :=
  match lookupConn now addr p with
  | (Some c, p) => (Ok c, p)
  | (None, p) =>
      let p := others p in
      match dial with
      | Err e => (Err (EWrap "failed to dial peer" e), p)
      | Ok c => let '(c, p) := storeConn now' addr c p in (Ok c, p)
      end
  end.

Definition RemovePeer (addr : string) (p : ClientPool) : ClientPool := keepOnly (fun x => x.1 <> addr) p.

Definition Len (p : ClientPool) : Z := Z.of_nat (size (conns p)).

Definition Close (p : ClientPool) : ClientPool :=
  if stopped p then p
  else
    let p := keepOnly (fun _ => False) p in
    mkPool (conns p) (maxConns p) (idleTimeout p) true (closedConns p).

End Pool.

(** ** Upload slots *)

Module Uploads.

(** [slots] is the number of elements in the channel of that name. *)
Record Uploads := mkUploads { slots : Z; cap : Z; queued : Z; maxQueue : Z; activeStreams : Z }.

Definition newUploads (cap maxQueue : Z) : Uploads := mkUploads 0 cap 0 maxQueue 0.

Definition setSlots (n : Z) (u : Uploads) : Uploads := mkUploads n (cap u) (queued u) (maxQueue u) (activeStreams u).
Definition setQueued (n : Z) (u : Uploads) : Uploads := mkUploads (slots u) (cap u) n (maxQueue u) (activeStreams u).
Definition setActive (n : Z) (u : Uploads) : Uploads := mkUploads (slots u) (cap u) (queued u) (maxQueue u) n.

(** Where a call of [GetChunk] is. *)
Inductive phase :=
  | Start                     (* at the first select of acquireUpload *)
  | Full                      (* no slot was free, before the queue counter *)
  | Waiting                   (* at the second select *)
  | Granted                   (* has a slot, the queue counter still to decrease *)
  | Rejected (e : error)      (* gives up, the queue counter still to decrease *)
  | Holding                   (* acquireUpload has returned *)
  | Serving                   (* counted as an active stream *)
  | Releasing                 (* no longer active, before releaseUpload *)
  | Ended (r : res unit).

(** [case s.slots <- struct{}{}] *)
Definition trySlot (u : Uploads) : option Uploads :=
  if (slots u <? cap u)%Z then Some (setSlots (slots u + 1) u) else None.

Definition releaseUpload (u : Uploads) : Uploads :=
  if (0 <? slots u)%Z then setSlots (slots u - 1) u else u.

(** The next atomic step of a call; [ctx] is the error of its context, [pick]
    the choice of a select whose cases are both ready.  [None]: it blocks. *)
Definition advance (u : Uploads) (ph : phase) (ctx : option error) (pick : bool) : option (Uploads * phase) :=
  match ph with
  | Start =>
      match trySlot u with
      | Some u => Some (u, Holding)
      | None =>
          if (maxQueue u =? 0)%Z then Some (u, Ended (Err (EStatus CResourceExhausted "upload concurrency limit reached")))
          else Some (u, Full)
      end
  | Full =>
      let q := (queued u + 1)%Z in
      Some (setQueued q u,
            if (maxQueue u <? q)%Z then Rejected (EStatus CResourceExhausted "upload queue full") else Waiting)
  | Waiting =>
      match trySlot u, ctx with
      | Some u', None => Some (u', Granted)
      | Some u', Some e => Some (if pick then (u', Granted) else (u, Rejected (fromContextError e)))
      | None, Some e => Some (u, Rejected (fromContextError e))
      | None, None => None
      end
  | Granted => Some (setQueued (queued u - 1) u, Holding)
  | Rejected e => Some (setQueued (queued u - 1) u, Ended (Err e))
  | Holding => Some (setActive (activeStreams u + 1) u, Serving)
  | Serving => Some (setActive (activeStreams u - 1) u, Releasing)
  | Releasing => Some (releaseUpload u, Ended (Ok tt))
  | Ended _ => None
  end.

(** All calls of a server. *)
Inductive step : Uploads * list phase -> Uploads * list phase -> Prop :=
  | step_call u calls : step (u, calls) (u, calls ++ [Start])
  | step_advance u u' before after ph ph' ctx pick :
      advance u ph ctx pick = Some (u', ph') -> step (u, before ++ ph :: after) (u', before ++ ph' :: after).

End Uploads.

(** * Properties *)

(** ** Upload slots *)

Section uploads.
Import Uploads.

Definition holds (ph : phase) : bool := match ph with Granted | Holding | Serving | Releasing => true | _ => false end.
Definition inQueue (ph : phase) : bool := match ph with Waiting | Granted | Rejected _ => true | _ => false end.
Definition waits (ph : phase) : bool := match ph with Waiting => true | _ => false end.
Definition serving (ph : phase) : bool := match ph with Serving => true | _ => false end.

Definition count (P : phase -> bool) (calls : list phase) : Z := Z.of_nat (length (List.filter P calls)).

Lemma count_mid P before ph after :
  count P (before ++ ph :: after) = (count P before + (if P ph then 1 else 0) + count P after)%Z.
Proof. unfold count. rewrite List.filter_app, length_app. simpl. destruct (P ph); simpl; lia. Qed.

Lemma count_nonneg P calls : (0 <= count P calls)%Z.
Proof. unfold count. lia. Qed.

(** The counters count the calls, and the bounds hold. *)
Record upInv (c q : Z) (s : Uploads * list phase) : Prop := {
  up_cap : cap s.1 = c;
  up_max : maxQueue s.1 = q;
  up_slots : slots s.1 = count holds s.2;
  up_queued : queued s.1 = count inQueue s.2;
  up_active : activeStreams s.1 = count serving s.2;
  up_bound : (slots s.1 <= c)%Z;
  up_waits : (count waits s.2 <= q)%Z
}.

Lemma count_mono (P Q : phase -> bool) calls :
  (forall ph, P ph = true -> Q ph = true) -> (count P calls <= count Q calls)%Z.
Proof.
  intros HPQ. unfold count. induction calls as [|ph calls IH]; [done|]. simpl.
  specialize (HPQ ph). destruct (P ph), (Q ph); simpl; lia.
Qed.

Lemma upInv_step c q s s' : upInv c q s -> step s s' -> upInv c q s'.
Proof.
  intros [Hc Hm Hs Hq Ha Hb Hw] Hst. destruct Hst as [u calls|u u' before after ph ph' ctx pick Hadv]; simpl in *.
  - assert (forall P, P Start = false -> count P (calls ++ [Start]) = count P calls) as Hadd.
    { intros P HP. rewrite count_mid, HP. unfold count at 2. simpl. lia. }
    split; simpl; rewrite ?Hadd by done; done.
  - pose proof (count_mono waits inQueue before ltac:(by intros [])).
    pose proof (count_mono waits inQueue after ltac:(by intros [])).
    pose proof (count_nonneg holds before). pose proof (count_nonneg holds after).
    rewrite count_mid in Hs, Hq, Ha, Hw.
    destruct ph; cbn [advance] in Hadv; unfold trySlot in Hadv; repeat (case_match; simplify_eq/=);
      unfold releaseUpload; repeat case_match; split; simpl in *; rewrite ?count_mid; simpl; lia.
Qed.

(** C37. Upload slots under concurrent requests.  In every reachable state of a
    server the slots in use are the requests that hold one and never exceed the
    concurrency limit, no more requests wait than the queue allows, and the
    queue counter and the active stream counter count exactly the requests in
    the queue and the ones being served: nothing leaks when calls end, are
    rejected or are cancelled. *)
Theorem uploads_bounded c q u calls
    (Hc : (0 <= c)%Z) (Hq : (0 <= q)%Z) (Hreach : rtc step (newUploads c q, []) (u, calls)) :
  slots u = count holds calls /\ (slots u <= c)%Z
  /\ queued u = count inQueue calls /\ (count waits calls <= q)%Z
  /\ activeStreams u = count serving calls /\ (activeStreams u <= slots u)%Z.
Proof.
  assert (upInv c q (u, calls)) as [_ _ Hs Hqu Ha Hb Hw].
  { eapply (rtc_ind_inv (upInv c q)); [apply upInv_step|exact Hreach|]. by split. }
  split_and!; try done. simpl in *. rewrite Hs, Ha. apply count_mono. by intros [].
Qed.

End uploads.

(** ** The connection pool *)

Section pool.
Import Pool.
Implicit Types p : ClientPool.

Lemma keepOnly_conns (keep : string * pooledConn -> Prop) `{!forall x, Decision (keep x)} p a pc :
  conns (keepOnly keep p) !! a = Some pc <-> conns p !! a = Some pc /\ keep (a, pc).
Proof. simpl. by rewrite map_lookup_filter_Some. Qed.

Lemma keepOnly_closed (keep : string * pooledConn -> Prop) `{!forall x, Decision (keep x)} p id :
  id ∈ closedConns (keepOnly keep p)
  <-> id ∈ closedConns p \/ exists a pc, conns p !! a = Some pc /\ ~ keep (a, pc) /\ conn pc = id.
Proof.
  simpl. rewrite elem_of_union, elem_of_list_to_set, list_elem_of_bind. split.
  - intros [?|(pc & Hid & Hpc)]; [by left|]. apply list_elem_of_singleton in Hid as ->.
    apply list_elem_of_fmap in Hpc as ([a pc'] & -> & Hin). apply elem_of_map_to_list, map_lookup_filter_Some in Hin.
    right. exists a, pc'. naive_solver.
  - intros [?|(a & pc & Ha & Hk & <-)]; [by left|]. right. exists pc. split; [by apply list_elem_of_singleton|].
    apply list_elem_of_fmap. exists (a, pc). split; [done|]. by apply elem_of_map_to_list, map_lookup_filter_Some.
Qed.

Lemma keepOnly_size (keep : string * pooledConn -> Prop) `{!forall x, Decision (keep x)} p :
  size (conns (keepOnly keep p)) <= size (conns p).
Proof. apply map_subseteq_size, map_filter_subseteq. Qed.

(** [opened] are the connections that were dialled.  Each is in the pool, under
    one address, or closed, and not both. *)
Record poolInv (max : Z) (s : ClientPool * gset nat) : Prop := {
  pool_max : maxConns s.1 = max;
  pool_size : (Z.of_nat (size (conns s.1)) <= max)%Z;
  pool_names : conns s.1 !! "" = None;
  pool_open : forall a pc, conns s.1 !! a = Some pc -> conn pc ∈ s.2 /\ conn pc ∉ closedConns s.1;
  pool_inj : forall a a' pc pc', conns s.1 !! a = Some pc -> conns s.1 !! a' = Some pc' -> conn pc = conn pc' -> a = a';
  pool_leak : forall id, id ∈ s.2 -> id ∈ closedConns s.1 \/ exists a pc, conns s.1 !! a = Some pc /\ conn pc = id;
  pool_closed : closedConns s.1 ⊆ s.2
}.

Lemma poolInv_keepOnly (keep : string * pooledConn -> Prop) `{!forall x, Decision (keep x)} max p o :
  poolInv max (p, o) -> poolInv max (keepOnly keep p, o).
Proof.
  intros [Hm Hs Hn Ho Hi Hl Hc]. cbn [fst snd] in *. split; cbn [fst snd]; [done|..].
  - pose proof (keepOnly_size keep p). lia.
  - apply eq_None_not_Some. intros [pc [Hpc _]%keepOnly_conns]. congruence.
  - intros a pc [Ha Hk]%keepOnly_conns. destruct (Ho a pc Ha) as [? Hcl]. split; [done|].
    intros [?|(a' & pc' & Ha' & Hk' & Hid)]%keepOnly_closed; [done|].
    assert (a' = a) as -> by by eapply Hi. congruence.
  - intros a a' pc pc' [Ha _]%keepOnly_conns [Ha' _]%keepOnly_conns. by apply Hi.
  - intros id Hid. destruct (Hl id Hid) as [?|(a & pc & Ha & Hpc)]; [left; apply keepOnly_closed; by left|].
    destruct (decide (keep (a, pc))).
    + right. exists a, pc. by rewrite keepOnly_conns.
    + left. apply keepOnly_closed. right. eauto.
  - intros id [?|(a & pc & Ha & _ & <-)]%keepOnly_closed; [by apply Hc|]. by apply (Ho a pc).
Qed.

Lemma oldest_spec l : forall addr t,
  addr <> "" -> (forall a pc, (a, pc) ∈ l -> a <> "") ->
  let r := oldest l (addr, t) in
  (r = (addr, t) \/ exists pc, (r.1, pc) ∈ l /\ r.2 = lastUsed pc) /\ (r.2 <= t)%Z
  /\ forall a pc, (a, pc) ∈ l -> (r.2 <= lastUsed pc)%Z.
Proof.
  induction l as [|[a pc] l IH]; intros addr t Hne Hl r; [split_and!; [by left|unfold r; simpl; lia|set_solver]|].
  subst r. cbn [oldest fold_left]. rewrite bool_decide_eq_false_2 by done. cbn [orb].
  destruct (Z.ltb_spec (lastUsed pc) t) as [Hlt|Hge].
  - destruct (IH a (lastUsed pc)) as (H1 & H2 & H3); [by eapply Hl; left|intros ? ? ?; eapply Hl; by right|].
    cbv zeta in *. unfold oldest in *. split_and!.
    + right. destruct H1 as [->|(pc' & Hin & He)]; [exists pc; split; [by left|done]|]. exists pc'. split; [by right|done].
    + lia.
    + intros a' pc' [E|Hin]%elem_of_cons; [by simplify_eq|eauto].
  - destruct (IH addr t) as (H1 & H2 & H3); [done|intros ? ? ?; eapply Hl; by right|].
    cbv zeta in *. unfold oldest in *. split_and!; [|lia|].
    + destruct H1 as [->|(pc' & Hin & He)]; [by left|]. right. exists pc'. split; [by right|done].
    + intros a' pc' [E|Hin]%elem_of_cons; [simplify_eq; lia|eauto].
Qed.

(** The connection that is evicted has been unused for longest. *)
Lemma evictOldest_spec p :
  conns p <> ∅ -> conns p !! "" = None ->
  exists addr pc, conns p !! addr = Some pc /\ evictOldestLocked p = keepOnly (fun x => x.1 <> addr) p
    /\ forall a pc', conns p !! a = Some pc' -> (lastUsed pc <= lastUsed pc')%Z.
Proof.
  intros Hne Hnone. unfold evictOldestLocked.
  assert (forall a pc, (a, pc) ∈ map_to_list (conns p) -> a <> "") as Hnames.
  { intros a pc Hin%elem_of_map_to_list ->. congruence. }
  assert (forall a pc, (a, pc) ∈ map_to_list (conns p) <-> conns p !! a = Some pc) as Hlist
    by (intros; apply elem_of_map_to_list).
  destruct (map_to_list (conns p)) as [|[a0 pc0] l] eqn:El; [by apply map_to_list_empty_iff in El|].
  cbn [oldest fold_left]. destruct (oldest_spec l a0 (lastUsed pc0)) as (H1 & H2 & H3).
  { by eapply Hnames; left. }
  { intros ? ? ?. eapply Hnames. by right. }
  cbv zeta in *. unfold oldest in *. rewrite (bool_decide_eq_true_2 ("" = "")) by done. cbn [orb].
  set (r := fold_left _ l (a0, lastUsed pc0)) in *.
  assert (exists pc, (r.1, pc) ∈ (a0, pc0) :: l /\ r.2 = lastUsed pc) as (pc & Hin & Hr).
  { destruct H1 as [->|(pc' & Hin & He)]; [exists pc0; split; [by left|done]|]. exists pc'. split; [by right|done]. }
  exists r.1, pc. split; [by apply Hlist|]. rewrite bool_decide_eq_false_2 by by eapply Hnames. split; [done|].
  intros a pc' Ha. apply Hlist in Ha as [E|Hin']%elem_of_cons; [simplify_eq; lia|]. rewrite <- Hr. eauto.
Qed.

Lemma poolInv_makeRoom max p o :
  (0 < max)%Z -> poolInv max (p, o) ->
  poolInv max (makeRoom p, o) /\ (Z.of_nat (size (conns (makeRoom p))) < max)%Z
  /\ forall a, conns p !! a = None -> conns (makeRoom p) !! a = None.
Proof.
  intros Hpos Hinv. pose proof Hinv as [Hm Hs Hn _ _ _ _]. cbn [fst snd] in *. unfold makeRoom. rewrite Hm.
  destruct (Z.leb_spec max (Z.of_nat (size (conns p)))) as [Hge|Hlt]; [|done].
  destruct (evictOldest_spec p) as (addr & pc & Ha & -> & _); [|done|].
  { intros He. rewrite He, map_size_empty in Hge. lia. }
  split; [by apply poolInv_keepOnly|]. split.
  - assert (conns (keepOnly (fun x => x.1 <> addr) p) ⊂ conns p) as Hsub%map_subset_size; [|lia].
    split; [apply map_filter_subseteq|]. intros Hsup. eapply lookup_weaken in Hsup; [|exact Ha].
    by apply keepOnly_conns in Hsup as [_ ?].
  - intros a Hnone. apply eq_None_not_Some. intros [pc' [? _]%keepOnly_conns]. congruence.
Qed.

(** The critical sections of the pool, in any order. *)
Inductive poolStep : ClientPool * gset nat -> ClientPool * gset nat -> Prop :=
  | step_lookup now addr p o : poolStep (p, o) ((lookupConn now addr p).2, o)
  | step_store now addr c p o : addr <> "" -> c ∉ o -> poolStep (p, o) ((storeConn now addr c p).2, {[c]} ∪ o)
  | step_idle now p o : poolStep (p, o) (evictIdle now p, o)
  | step_remove addr p o : poolStep (p, o) (RemovePeer addr p, o)
  | step_close p o : poolStep (p, o) (Close p, o).

(** A connection that is in the pool is used. *)
Lemma poolInv_touch max p o addr pc now :
  poolInv max (p, o) -> conns p !! addr = Some pc ->
  poolInv max (setConns (<[addr := mkPooled (conn pc) now]> (conns p)) p, o).
Proof.
  intros [Hm Hs Hn Ho Hi Hl Hc] Ha. cbn [fst snd] in *.
  assert (forall a pc', <[addr := mkPooled (conn pc) now]> (conns p) !! a = Some pc' ->
    exists pc0, conns p !! a = Some pc0 /\ conn pc0 = conn pc') as Hback.
  { intros a pc'. intros [[<- <-]|[_ ?]]%lookup_insert_Some; eauto. }
  split; cbn [fst snd setConns conns maxConns closedConns]; [done|..].
  - by rewrite map_size_insert_Some by eauto.
  - rewrite lookup_insert_ne by congruence. done.
  - intros a pc' (pc0 & H0 & Hpc)%Hback. rewrite <- Hpc. eauto.
  - intros a a' pc1 pc2 (q1 & H1 & Hq1)%Hback (q2 & H2 & Hq2)%Hback E. eapply Hi; [done..|congruence].
  - intros id Hid. destruct (Hl id Hid) as [?|(a & pc' & Ha' & <-)]; [by left|]. right.
    destruct (decide (a = addr)) as [->|Hne].
    + exists addr, (mkPooled (conn pc) now). rewrite lookup_insert_eq. split; [done|]. simpl. congruence.
    + exists a, pc'. by rewrite lookup_insert_ne.
  - done.
Qed.

(** A new connection enters the pool. *)
Lemma poolInv_add max p o addr c now :
  poolInv max (p, o) -> conns p !! addr = None -> addr <> "" -> c ∉ o -> (Z.of_nat (size (conns p)) < max)%Z ->
  poolInv max (setConns (<[addr := mkPooled c now]> (conns p)) p, {[c]} ∪ o).
Proof.
  intros [Hm Hs Hn Ho Hi Hl Hc] Ha Hne Hfresh Hlt. cbn [fst snd] in *.
  split; cbn [fst snd setConns conns maxConns closedConns]; [done|..].
  - rewrite map_size_insert_None by done. lia.
  - by rewrite lookup_insert_ne.
  - intros a pc. intros [[<- <-]|[_ H']]%lookup_insert_Some; simpl; [set_solver|]. destruct (Ho a pc H'). set_solver.
  - intros a a' pc pc'. intros [[<- <-]|[_ H1]]%lookup_insert_Some [[<- <-]|[_ H2]]%lookup_insert_Some E; simpl in *.
    + done.
    + destruct (Ho _ _ H2). congruence.
    + destruct (Ho _ _ H1). congruence.
    + eauto.
  - intros id [->%elem_of_singleton|Hid]%elem_of_union.
    + right. exists addr, (mkPooled c now). by rewrite lookup_insert_eq.
    + destruct (Hl id Hid) as [?|(a & pc & Ha' & Hpc)]; [by left|]. right. exists a, pc.
      rewrite lookup_insert_ne by congruence. done.
  - set_solver.
Qed.

(** A connection that is not needed is closed at once. *)
Lemma poolInv_spare max p o c :
  poolInv max (p, o) -> c ∉ o ->
  poolInv max (mkPool (conns p) (maxConns p) (idleTimeout p) (stopped p) ({[c]} ∪ closedConns p), {[c]} ∪ o).
Proof.
  intros [Hm Hs Hn Ho Hi Hl Hc] Hfresh. cbn [fst snd] in *. split; cbn [fst snd conns maxConns closedConns]; try done.
  - intros a pc Ha. destruct (Ho a pc Ha). set_solver.
  - intros id [->%elem_of_singleton|Hid]%elem_of_union; [set_solver|]. destruct (Hl id Hid) as [?|?]; [set_solver|by right].
  - set_solver.
Qed.

Lemma poolInv_step max s s' : (0 < max)%Z -> poolInv max s -> poolStep s s' -> poolInv max s'.
Proof.
  intros Hpos Hinv Hst. destruct Hst as [now addr p o|now addr c p o Hne Hfresh|now p o|addr p o|p o].
  - unfold lookupConn. destruct (conns p !! addr) as [pc|] eqn:E; [by apply poolInv_touch|by apply poolInv_makeRoom].
  - unfold storeConn. destruct (conns p !! addr) as [pc|] eqn:E.
    + exact (poolInv_spare max _ o c (poolInv_touch max p o addr pc now Hinv E) Hfresh).
    + destruct (poolInv_makeRoom max p o Hpos Hinv) as (Hinv' & Hlt & Hnone).
      apply (poolInv_add max (makeRoom p)); auto.
  - by apply poolInv_keepOnly.
  - by apply poolInv_keepOnly.
  - unfold Close. destruct (stopped p); [done|]. destruct (poolInv_keepOnly (fun _ => False) max p o Hinv). by split.
Qed.

(** C38. The connection pool under concurrent calls.  After any interleaving of
    the critical sections of [GetClient], [RemovePeer], [Close] and the idle
    eviction, the pool holds at most the configured number of connections,
    none of them closed or held twice, and every connection that was dialled is
    in the pool or has been closed. *)
Theorem pool_bounded_no_leak cfg p opened
    (Hreach : rtc poolStep (NewClientPoolWithConfig cfg, ∅) (p, opened)) :
  (Z.of_nat (size (conns p)) <= maxConns (NewClientPoolWithConfig cfg))%Z
  /\ (forall a pc, conns p !! a = Some pc -> conn pc ∉ closedConns p)
  /\ (forall a a' pc pc', conns p !! a = Some pc -> conns p !! a' = Some pc' -> conn pc = conn pc' -> a = a')
  /\ (forall c, c ∈ opened <-> c ∈ closedConns p \/ exists a pc, conns p !! a = Some pc /\ conn pc = c).
Proof.
  set (max := maxConns (NewClientPoolWithConfig cfg)) in *.
  assert (0 < max)%Z as Hpos by (unfold max; simpl; destruct (Z.leb_spec (MaxConnections cfg) 0); lia).
  assert (poolInv max (p, opened)) as [_ Hs _ Ho Hi Hl Hc].
  { eapply (rtc_ind_inv (poolInv max)); [intros; by eapply poolInv_step|exact Hreach|].
    split; cbn [fst snd NewClientPoolWithConfig conns closedConns]; try done. rewrite map_size_empty. lia. }
  cbn [fst snd] in *. split_and!; [done| |done|].
  - intros a pc Ha. by apply (Ho a pc).
  - intros c. split; [by apply Hl|]. intros [?|(a & pc & Ha & <-)]; [by apply Hc|by apply (Ho a pc)].
Qed.

End pool.

(** ** Small histories *)

(** One slot and a queue of one: the first call is served, the second waits. *)
Lemma uploads_bounded_witness :
  let u := Uploads.mkUploads 1 1 1 1 1 in
  let calls := [Uploads.Serving; Uploads.Waiting] in
  rtc Uploads.step (Uploads.newUploads 1 1, []) (u, calls)
  /\ (Uploads.slots u <= 1)%Z /\ (count waits calls <= 1)%Z.
Proof.
  intros u calls. assert (rtc Uploads.step (Uploads.newUploads 1 1, []) (u, calls)) as Hr.
  { eapply rtc_l; [apply Uploads.step_call|].
    eapply rtc_l; [eapply (Uploads.step_advance _ _ [] [] Uploads.Start _ None true); reflexivity|].
    eapply rtc_l; [eapply (Uploads.step_advance _ _ [] [] Uploads.Holding _ None true); reflexivity|].
    eapply rtc_l; [apply Uploads.step_call|].
    eapply rtc_l; [eapply (Uploads.step_advance _ _ [Uploads.Serving] [] Uploads.Start _ None true); reflexivity|].
    apply rtc_once. apply (Uploads.step_advance _ _ [Uploads.Serving] [] Uploads.Full _ None true). reflexivity. }
  destruct (uploads_bounded 1 1 u calls ltac:(lia) ltac:(lia) Hr) as (_ & H1 & _ & H2 & _).
  split; [exact Hr|]. split; [exact H1|exact H2].
Defined.

(** Room for one connection: the second address takes the place of the first. *)
Lemma pool_bounded_no_leak_witness :
  let p0 := Pool.NewClientPoolWithConfig (Pool.mkConfig 1 0) in
  let p := (Pool.storeConn 2 "b:1" 7 (Pool.storeConn 1 "a:1" 6 p0).2).2 in
  (Z.of_nat (size (Pool.conns p)) <= 1)%Z /\ Pool.conns p !! "b:1" = Some (Pool.mkPooled 7 2) /\ 6 ∈ Pool.closedConns p.
Proof.
  intros p0 p. destruct (pool_bounded_no_leak (Pool.mkConfig 1 0) p ({[7]} ∪ ({[6]} ∪ ∅))) as (H1 & _ & _ & _).
  - eapply rtc_l; [apply (step_store 1 "a:1" 6)|]; [done|set_solver|].
    apply rtc_once, (step_store 2 "b:1" 7); [done|set_solver].
  - split; [exact H1|]. split; [vm_compute; reflexivity|].
    apply (bool_decide_unpack _). vm_compute. exact I.
Defined.
