(* ===== verification/Config.v ===== *)
(** * Configuration (pkg/config/config.go, pool.go)

    The configuration shared by the tracker and the daemon, its defaults, the
    overlay of the environment and its validation.  The YAML decoder and the
    URL parser are parameters. *)

From S2P Require Import Prelude GoFloat Json GoPath Manifest GoFs.
Local Open Scope go_scope.

Definition millisecond : Z := 1000000.
Definition second : Z := 1000000000.
Definition minute : Z := 60 * second.

Definition DefaultDataDir : string := "/var/lib/spider".

(** ** Data *)

Record PoolConfig := mkPoolConfig {
  MaxOpenConns : Z; MaxIdleConns : Z; MinIdleConns : Z; ConnMaxLifetime : Z; ConnMaxIdleTime : Z;
  DialTimeout : Z; ReadTimeout : Z; WriteTimeout : Z; PoolTimeout : Z
}.
Definition zeroPool : PoolConfig := mkPoolConfig 0 0 0 0 0 0 0 0 0.

Record StoreConfig := mkStoreConfig { sDriver : string; sDSN : string; sPool : PoolConfig }.

Record RedisConfig := mkRedis {
  rURL : string; rAddr : string; rPassword : string; rDB : Z; rPrefix : string; rPool : PoolConfig
}.

Record MetaCacheConfig := mkMetaCache { mcDriver : string; mcTTL : Z; mcRedis : RedisConfig }.

Record ChunkCacheConfig := mkChunkCache {
  ccDir : string; ccMaxBytes : Z; ccLowWatermark : float64; ccHighWatermark : float64; ccPinned : list string
}.

Record NodeConfig := mkNode {
  nID : string; nPort : Z; nAdvertiseAddr : string; nTrackerAddr : string; nRegion : string; nZone : string;
  nRack : string; nHost : string; nHTTPAddr : string
}.

Record AdvertisementConfig := mkAdvertisement {
  BatchSize : Z; Interval : Z; MaxRetries : Z; RetryBackoff : Z; MaxRetryBackoff : Z
}.

Record PeerDiscoveryConfig := mkDiscovery { RefreshInterval : Z }.

Record DownloadConfig := mkDownload { dMaxConcurrency : Z; dMaxConcurrencyPerPeer : Z }.

Record OriginConfig := mkOrigin { oMaxConcurrency : Z }.

Record UploadConfig := mkUpload { uMaxConcurrency : Z; uMaxBandwidthMbps : Z; uMaxQueueSize : Z }.

Record PeerClientConfig := mkPeerClient { pcMaxConnections : Z; pcIdleTimeout : Z }.

Record BackoffConfig := mkBackoff { bInitial : Z; bMax : Z }.

Record RetryConfig := mkRetry { MaxAttempts : Z; Backoff : BackoffConfig }.

Record Config := mkConfig {
  HTTPAddr : string;
  LogFormat : string;
  cStore : StoreConfig;
  MetaCache : MetaCacheConfig;
  Cache : MetaCacheConfig;
  ChunkCache : ChunkCacheConfig;
  DiskCache : ChunkCacheConfig;
  Node : NodeConfig;
  Advertisement : AdvertisementConfig;
  PeerDiscovery : PeerDiscoveryConfig;
  Download : DownloadConfig;
  Origin : OriginConfig;
  Upload : UploadConfig;
  PeerClient : PeerClientConfig;
  Retry : RetryConfig
}.

(** The sections of a file that [LoadFile] looks at. *)
Record fileConfig := mkFileConfig { fMetaCache : option MetaCacheConfig; fChunkCache : option ChunkCacheConfig }.

(** Decoding YAML into a value that has defaults already, and into the
    sections that are present. *)
Class YamlCodec := {
  unmarshalConfig : bytes -> Config -> res Config;
  unmarshalFileConfig : bytes -> res fileConfig
}.

(** [net/url]: the parts the code reads and [u.Redacted()]. *)
Record URL := mkURL { Scheme : string; Host : string; User : option string; Rest : string }.
Class NetURL := {
  parseURL : string -> option URL;
  redacted : URL -> string
}.

(** ** Defaults *)

Definition syncAliases (c : Config) : Config :=
  mkConfig (HTTPAddr c) (LogFormat c) (cStore c) (MetaCache c) (MetaCache c) (ChunkCache c) (ChunkCache c) (Node c)
    (Advertisement c) (PeerDiscovery c) (Download c) (Origin c) (Upload c) (PeerClient c) (Retry c).

Definition zeroRedis : RedisConfig := mkRedis "" "" "" 0 "" zeroPool.
Definition zeroMetaCache : MetaCacheConfig := mkMetaCache "" 0 zeroRedis.
Definition zeroChunkCache : ChunkCacheConfig := mkChunkCache "" 0 fzero fzero [].

Definition Defaults : Config :=
  syncAliases (mkConfig ":9090" "text"
    (mkStoreConfig "sqlite" (DefaultDataDir +:+ "/tracker.db") zeroPool)
    (mkMetaCache "memory" (10 * second) (mkRedis "" "127.0.0.1:6379" "" 0 "spider:" zeroPool))
    zeroMetaCache
    (mkChunkCache DefaultDataDir (500 * 1024 * 1024 * 1024) (literal 80 100) (literal 90 100) [])
    zeroChunkCache
    (mkNode "" 50052 "" "127.0.0.1:50051" "us-east-1" "zone-a" "rack-1" "" "")
    (mkAdvertisement 16 (100 * millisecond) 5 (100 * millisecond) (5 * second))
    (mkDiscovery (500 * millisecond))
    (mkDownload 8 4)
    (mkOrigin 4)
    (mkUpload 16 0 100)
    (mkPeerClient 64 (2 * minute))
    (mkRetry 3 (mkBackoff (100 * millisecond) (2 * second)))).

(** [if v <= 0 { v = d }] for floats *)
Definition positiveOrF (d v : float64) : float64 := if fleb v fzero then d else v.

Definition applyZeroDefaults (c : Config) : Config :=
  let mc := MetaCache c in
  let ad := Advertisement c in
  let cc := ChunkCache c in
  mkConfig (HTTPAddr c) (LogFormat c)
    (mkStoreConfig (nonemptyOr "sqlite" (sDriver (cStore c))) (sDSN (cStore c)) (sPool (cStore c)))
    (mkMetaCache (nonemptyOr "memory" (mcDriver mc)) (if (mcTTL mc =? 0)%Z then 10 * second else mcTTL mc)%Z (mcRedis mc))
    (Cache c)
    (mkChunkCache (nonemptyOr DefaultDataDir (ccDir cc)) (positiveOr (500 * 1024 * 1024 * 1024) (ccMaxBytes cc))
       (positiveOrF (literal 80 100) (ccLowWatermark cc)) (positiveOrF (literal 90 100) (ccHighWatermark cc)) (ccPinned cc))
    (DiskCache c)
    (Node c)
    (mkAdvertisement (positiveOr 16 (BatchSize ad)) (positiveOr (100 * millisecond) (Interval ad))
       (positiveOr 5 (MaxRetries ad)) (positiveOr (100 * millisecond) (RetryBackoff ad))
       (positiveOr (5 * second) (MaxRetryBackoff ad)))
    (mkDiscovery (positiveOr (500 * millisecond) (RefreshInterval (PeerDiscovery c))))
    (mkDownload (positiveOr 8 (dMaxConcurrency (Download c))) (positiveOr 4 (dMaxConcurrencyPerPeer (Download c))))
    (mkOrigin (positiveOr 4 (oMaxConcurrency (Origin c))))
    (mkUpload (positiveOr 16 (uMaxConcurrency (Upload c))) (uMaxBandwidthMbps (Upload c)) (uMaxQueueSize (Upload c)))
    (mkPeerClient (positiveOr 64 (pcMaxConnections (PeerClient c))) (positiveOr (2 * minute) (pcIdleTimeout (PeerClient c))))
    (mkRetry (positiveOr 3 (MaxAttempts (Retry c)))
       (mkBackoff (positiveOr (100 * millisecond) (bInitial (Backoff (Retry c))))
                  (positiveOr (2 * second) (bMax (Backoff (Retry c)))))).

(** ** The environment *)

(** [os.Getenv]: an unset variable is empty. *)
Definition environ : Type := string -> string.

Definition ascNum (a : Ascii.ascii) : Z := Z.of_nat (Ascii.nat_of_ascii a).

Definition between (a b : Z) (n : Z) : bool := (a <=? n)%Z && (n <=? b)%Z.

(** [isShellSpecialVar]: * # $ @ ! ? - and the digits. *)
Definition isShellSpecialVar (a : Ascii.ascii) : bool :=
  let n := ascNum a in
  bool_decide (n ∈ [42; 35; 36; 64; 33; 63; 45]%Z) || between 48 57 n.

Definition isAlphaNum (a : Ascii.ascii) : bool :=
  let n := ascNum a in (n =? 95)%Z || between 48 57 n || between 97 122 n || between 65 90 n.

(** The longest prefix of such characters, and the rest. *)
Fixpoint spanString (f : Ascii.ascii -> bool) (s : string) : string * string :=
  match s with
  | EmptyString => ("", "")
  | String a r => if f a then let '(x, y) := spanString f r in (String a x, y) else ("", s)
  end.

Definition isChar (n : Z) (a : Ascii.ascii) : bool := (ascNum a =? n)%Z.

(** [os.Expand] at a dollar sign: what replaces it, and the number of bytes
    after it that it takes. *)
Definition expandName (env : environ) (s : string) : string * nat :=
  match s with
  | EmptyString => ("$", 0)
  | String a r =>
      if isChar 123 a then
        match r with
        | String b (String c _) =>
            if isShellSpecialVar b && isChar 125 c then (env (String b ""), 3)
            else
              let '(x, y) := spanString (fun ch => negb (isChar 125 ch)) r in
              if bool_decide (y = "") then ("", 1) else if bool_decide (x = "") then ("", 2)
              else (env x, String.length x + 2)
        | _ =>
            let '(x, y) := spanString (fun ch => negb (isChar 125 ch)) r in
            if bool_decide (y = "") then ("", 1) else if bool_decide (x = "") then ("", 2)
            else (env x, String.length x + 2)
        end
      else if isShellSpecialVar a then (env (String a ""), 1)
      else
        let '(x, _) := spanString isAlphaNum s in
        if bool_decide (x = "") then ("$", 0) else (env x, String.length x)
  end.

(** [os.ExpandEnv]; [skip] counts the bytes of a name still to pass over. *)
Fixpoint expandFrom (env : environ) (skip : nat) (s : string) : string :=
  match s with
  | EmptyString => ""
  | String a r =>
      match skip with
      | S k => expandFrom env k r
      | O => if isChar 36 a then let '(v, n) := expandName env r in v +:+ expandFrom env n r
             else String a (expandFrom env 0 r)
      end
  end.

Definition osExpandEnv (env : environ) (s : string) : string := expandFrom env 0 s.

Definition withStore (st : StoreConfig) (mc : MetaCacheConfig) (c : Config) : Config :=
  mkConfig (HTTPAddr c) (LogFormat c) st mc (Cache c) (ChunkCache c) (DiskCache c) (Node c)
    (Advertisement c) (PeerDiscovery c) (Download c) (Origin c) (Upload c) (PeerClient c) (Retry c).

Definition ExpandEnv (env : environ) (c : Config) : Config :=
  let ex := osExpandEnv env in
  let r := mcRedis (MetaCache c) in
  withStore (mkStoreConfig (sDriver (cStore c)) (ex (sDSN (cStore c))) (sPool (cStore c)))
    (mkMetaCache (mcDriver (MetaCache c)) (mcTTL (MetaCache c))
       (mkRedis (ex (rURL r)) (ex (rAddr r)) (ex (rPassword r)) (rDB r) (ex (rPrefix r)) (rPool r))) c.

(** [if v := os.Getenv(name); v != "" { x = v }] *)
Definition overlay (env : environ) (name x : string) : string := nonemptyOr x (env name).

Definition ApplyEnv (env : environ) (c : Config) : Config :=
  let r := mcRedis (MetaCache c) in
  withStore (mkStoreConfig (overlay env "SPIDER_STORE_DRIVER" (sDriver (cStore c)))
               (overlay env "SPIDER_STORE_DSN" (sDSN (cStore c))) (sPool (cStore c)))
    (mkMetaCache (overlay env "SPIDER_CACHE_DRIVER" (mcDriver (MetaCache c))) (mcTTL (MetaCache c))
       (mkRedis (overlay env "SPIDER_CACHE_REDIS_URL" (rURL r)) (overlay env "SPIDER_CACHE_REDIS_ADDR" (rAddr r))
          (overlay env "SPIDER_CACHE_REDIS_PASSWORD" (rPassword r)) (rDB r) (rPrefix r) (rPool r))) c.

(** ** Validation *)

Definition rejectIf (b : bool) (msg : string) : res unit := if b then Err (EText msg) else Ok tt.

Definition Validate (c : Config) : res unit :=
  let? _ := rejectIf (BatchSize (Advertisement c) <? 1)%Z "advertisement.batchSize must be >= 1" in
  let? _ := rejectIf (dMaxConcurrency (Download c) <? 1)%Z "download.maxConcurrency must be >= 1" in
  let? _ := rejectIf (dMaxConcurrencyPerPeer (Download c) <? 1)%Z "download.maxConcurrencyPerPeer must be >= 1" in
  let? _ := rejectIf (uMaxConcurrency (Upload c) <? 1)%Z "upload.maxConcurrency must be >= 1" in
  let? _ := rejectIf (MaxAttempts (Retry c) <? 1)%Z "retry.maxAttempts must be >= 1" in
  rejectIf (fltb (ccLowWatermark (ChunkCache c)) fzero || fltb (ccHighWatermark (ChunkCache c)) fzero)
    "chunkCache watermarks must be >= 0".

(** ** Loading *)

Section load.
Context {YC : YamlCodec} {X : Type} (env : environ).

(** The configuration without a file. *)
Definition withoutFile : res Config :=
  let cfg := syncAliases (ApplyEnv env (ExpandEnv env Defaults)) in
  let? _ := Validate cfg in Ok cfg.

(** The configuration of a file that was read. *)
Definition fromData (data : bytes) : res Config :=
  let? cfg := match unmarshalConfig data Defaults with Ok c => Ok c | Err e => Err (EWrap "parse config" e) end in
  let? raw := match unmarshalFileConfig data with Ok r => Ok r | Err e => Err (EWrap "parse config" e) end in
  let mc := match fMetaCache raw with Some m => m | None => Cache cfg end in
  let cc := match fChunkCache raw with Some m => m | None => DiskCache cfg end in
  let cfg := mkConfig (HTTPAddr cfg) (LogFormat cfg) (cStore cfg) mc (Cache cfg) cc (DiskCache cfg) (Node cfg)
    (Advertisement cfg) (PeerDiscovery cfg) (Download cfg) (Origin cfg) (Upload cfg) (PeerClient cfg) (Retry cfg) in
  let cfg := syncAliases (applyZeroDefaults (ApplyEnv env (ExpandEnv env cfg))) in
  let? _ := Validate cfg in Ok cfg.

Definition LoadFile (path : string) : IO X Config :=
  if bool_decide (path = "") then liftRes withoutFile
  else
    do r <- attempt (ReadFile path);
    match r with
    | Err e => if isNotExist e then liftRes withoutFile else ioErr (EWrap "read config" e)
    | Ok data => liftRes (fromData data)
    end.

End load.

(** ** What is written to logs *)

Section urls.
Context {NU : NetURL}.

(** The bytes from the first [@] on. *)
Definition fromAt (s : string) : option string :=
  let '(_, y) := spanString (fun ch => negb (isChar 64 ch)) s in
  if bool_decide (y = "") then None else Some y.

Definition maskUser (u : URL) : URL :=
  match User u with Some _ => mkURL (Scheme u) (Host u) (Some "***") (Rest u) | None => u end.

Definition RedactedDSN (dsn : string) : string :=
  if bool_decide (dsn = "") then ""
  else
    let plain := match fromAt dsn with Some r => "***" +:+ r | None => dsn end in
    match parseURL dsn with
    | Some u => if bool_decide (Scheme u = "") || bool_decide (Host u = "") then plain else redacted (maskUser u)
    | None => plain
    end.

Definition RedisEndpoint (r : RedisConfig) : string :=
  if bool_decide (rURL r = "") then rAddr r
  else match parseURL (rURL r) with Some u => redacted (maskUser u) | None => "(redis url)" end.

End urls.

(** ** Connection pools *)

Definition ApplySQLDefaults (driver : string) (p : PoolConfig) : PoolConfig :=
  if bool_decide (driver = "sqlite") then
    let open := positiveOr 8 (MaxOpenConns p) in
    mkPoolConfig open (positiveOr open (MaxIdleConns p)) (MinIdleConns p) (ConnMaxLifetime p) (ConnMaxIdleTime p)
      (DialTimeout p) (ReadTimeout p) (WriteTimeout p) (PoolTimeout p)
  else
    mkPoolConfig (positiveOr 25 (MaxOpenConns p)) (positiveOr 5 (MaxIdleConns p)) (MinIdleConns p)
      (if (ConnMaxLifetime p =? 0)%Z then 5 * minute else ConnMaxLifetime p)%Z
      (if (ConnMaxIdleTime p =? 0)%Z then minute else ConnMaxIdleTime p)%Z
      (DialTimeout p) (ReadTimeout p) (WriteTimeout p) (PoolTimeout p).

Definition ApplyCacheDefaults (p : PoolConfig) : PoolConfig :=
  let open := positiveOr 16 (MaxOpenConns p) in
  let minIdle := positiveOr 2 (MinIdleConns p) in
  mkPoolConfig open
    (if (MaxIdleConns p <=? 0)%Z then Z.max (Z.quot open 2) minIdle else MaxIdleConns p)
    minIdle (ConnMaxLifetime p) (positiveOr (5 * minute) (ConnMaxIdleTime p))
    (positiveOr (3 * second) (DialTimeout p)) (positiveOr (2 * second) (ReadTimeout p))
    (positiveOr (2 * second) (WriteTimeout p)) (positiveOr (4 * second) (PoolTimeout p)).

(** * Properties *)

(** What the components rely on: limits of at least one, and positive periods
    for the tickers, which panic otherwise. *)
Record safeConfig (c : Config) : Prop := {
  safe_batch : (1 <= BatchSize (Advertisement c))%Z;
  safe_interval : (0 < Interval (Advertisement c))%Z;
  safe_retries : (1 <= MaxRetries (Advertisement c))%Z;
  safe_backoff : (0 < RetryBackoff (Advertisement c))%Z /\ (0 < MaxRetryBackoff (Advertisement c))%Z;
  safe_refresh : (0 < RefreshInterval (PeerDiscovery c))%Z;
  safe_download : (1 <= dMaxConcurrency (Download c))%Z /\ (1 <= dMaxConcurrencyPerPeer (Download c))%Z;
  safe_origin : (1 <= oMaxConcurrency (Origin c))%Z;
  safe_upload : (1 <= uMaxConcurrency (Upload c))%Z;
  safe_client : (1 <= pcMaxConnections (PeerClient c))%Z /\ (0 < pcIdleTimeout (PeerClient c))%Z;
  safe_retry : (1 <= MaxAttempts (Retry c))%Z /\ (0 < bInitial (Backoff (Retry c)))%Z /\ (0 < bMax (Backoff (Retry c)))%Z;
  safe_cache : (0 < ccMaxBytes (ChunkCache c))%Z /\ ccDir (ChunkCache c) <> "";
  safe_marks : fleb (ccLowWatermark (ChunkCache c)) fzero = false /\ fleb (ccHighWatermark (ChunkCache c)) fzero = false;
  safe_drivers : sDriver (cStore c) <> "" /\ mcDriver (MetaCache c) <> "";
  safe_ttl : mcTTL (MetaCache c) <> 0%Z
}.

Lemma positiveOrF_pos d v : fleb d fzero = false -> fleb (positiveOrF d v) fzero = false.
Proof. unfold positiveOrF. by destruct (fleb v fzero) eqn:E. Qed.

Lemma applyZeroDefaults_safe c : safeConfig (syncAliases (applyZeroDefaults c)).
Proof.
  assert (forall d v, (0 < d)%Z -> (0 < positiveOr d v)%Z /\ (1 <= positiveOr d v)%Z) as Hp.
  { intros d v Hd. pose proof (positiveOr_pos d v Hd). lia. }
  split; cbn; try (by apply Hp); repeat split; try (by apply Hp); try by apply nonemptyOr_ne.
  - by apply positiveOrF_pos; vm_compute.
  - by apply positiveOrF_pos; vm_compute.
  - destruct (Z.eqb_spec (mcTTL (MetaCache c)) 0); done.
Qed.

Lemma overlay_wins env name x : env name <> "" -> overlay env name x = env name.
Proof. intros H. unfold overlay, nonemptyOr. by case_bool_decide. Qed.

Lemma overlay_ne env name x : x <> "" -> overlay env name x <> "".
Proof. intros H. unfold overlay, nonemptyOr. by case_bool_decide. Qed.

(** The variables that the environment overrides. *)
Definition envWins (env : environ) (c : Config) : Prop :=
  (env "SPIDER_STORE_DRIVER" <> "" -> sDriver (cStore c) = env "SPIDER_STORE_DRIVER")
  /\ (env "SPIDER_STORE_DSN" <> "" -> sDSN (cStore c) = env "SPIDER_STORE_DSN")
  /\ (env "SPIDER_CACHE_DRIVER" <> "" -> mcDriver (MetaCache c) = env "SPIDER_CACHE_DRIVER")
  /\ (env "SPIDER_CACHE_REDIS_URL" <> "" -> rURL (mcRedis (MetaCache c)) = env "SPIDER_CACHE_REDIS_URL")
  /\ (env "SPIDER_CACHE_REDIS_PASSWORD" <> "" -> rPassword (mcRedis (MetaCache c)) = env "SPIDER_CACHE_REDIS_PASSWORD")
  /\ (env "SPIDER_CACHE_REDIS_ADDR" <> "" -> rAddr (mcRedis (MetaCache c)) = env "SPIDER_CACHE_REDIS_ADDR").

Lemma ApplyEnv_wins env c : envWins env (ApplyEnv env c).
Proof. unfold envWins. split_and!; intros H; simpl; by rewrite overlay_wins. Qed.

Lemma applyZeroDefaults_wins env c : envWins env c -> envWins env (syncAliases (applyZeroDefaults c)).
Proof.
  intros (H1 & H2 & H3 & H4). unfold envWins. simpl. unfold nonemptyOr. split; [|split; [done|split; [|done]]].
  - intros H. rewrite (H1 H). by case_bool_decide.
  - intros H. rewrite (H3 H). by case_bool_decide.
Qed.

Lemma withoutFile_safe env cfg :
  withoutFile env = Ok cfg -> safeConfig cfg /\ envWins env cfg /\ Cache cfg = MetaCache cfg /\ DiskCache cfg = ChunkCache cfg.
Proof.
  unfold withoutFile. destruct (Validate _); [|done]. intros [= <-]. split; [|by split; [apply (ApplyEnv_wins env)|]].
  split; cbn; try lia; try done.
  split; by apply overlay_ne.
Qed.

Section loading.
Context {YC : YamlCodec} {X : Type} (env : environ).

Lemma fromData_safe data cfg :
  fromData env data = Ok cfg -> safeConfig cfg /\ envWins env cfg /\ Cache cfg = MetaCache cfg /\ DiskCache cfg = ChunkCache cfg.
Proof.
  unfold fromData. destruct (unmarshalConfig data Defaults) as [c|]; [|done]. destruct (unmarshalFileConfig data) as [raw|]; [|done].
  simpl. destruct (Validate _); [|done]. intros [= <-].
  split; [apply applyZeroDefaults_safe|]. split; [|done]. apply applyZeroDefaults_wins, ApplyEnv_wins.
Qed.

(** C39. Whatever the file, the decoder and the environment give, a configuration
    that [LoadFile] returns has a batch size, numbers of attempts and limits on
    concurrency and connections of at least one (the length of the upload
    queue is not among them), positive intervals, backoffs and idle timeout, a
    positive cache size, a cache directory, the names of both drivers, a TTL
    of the metadata cache that is not zero (it may be negative) and
    watermarks of the chunk cache that do not compare less than or equal to
    zero (a NaN does not either); its two pairs of aliases are in step, and
    each of the six variables SPIDER_STORE_DRIVER, SPIDER_STORE_DSN,
    SPIDER_CACHE_DRIVER, SPIDER_CACHE_REDIS_URL, SPIDER_CACHE_REDIS_ADDR and
    SPIDER_CACHE_REDIS_PASSWORD that is set in the environment wins over the
    file. *)
Theorem LoadFile_safe path (w w' : world X) cfg :
  LoadFile env path w = (Ok cfg, w') ->
  safeConfig cfg /\ envWins env cfg /\ Cache cfg = MetaCache cfg /\ DiskCache cfg = ChunkCache cfg.
Proof.
  unfold LoadFile. case_bool_decide; [intros H0; by apply withoutFile_safe, (f_equal fst H0)|].
  intros (r & w1 & _ & H1)%ioBind_inv. destruct r as [data|e].
  - apply (fromData_safe data), (f_equal fst H1).
  - destruct (isNotExist e); [|done]. apply withoutFile_safe, (f_equal fst H1).
Qed.

End loading.

(** ** Examples *)

Definition demoEnv : environ := fun v => if bool_decide (v = "DBPASS") then "s3cret" else
  if bool_decide (v = "SPIDER_STORE_DRIVER") then "postgres" else "".

(** A decoder of one file: a [metaCache] section with a driver only. *)
Definition demoYaml : YamlCodec := {|
  unmarshalConfig := fun _ c => Ok c;
  unmarshalFileConfig := fun _ => Ok (mkFileConfig (Some (mkMetaCache "redis" 0 zeroRedis)) None)
|}.

Definition fileWorld : world unit :=
  World (Disk {[ ["c.yaml"] := FileN 1 ]} {[ 1%positive := Inode (toBytes "metaCache: {driver: redis}") 420 ]} ext4) [] [] 0 tt.

(** The file names a driver and no TTL; the environment names another store. *)
Lemma LoadFile_safe_witness :
  exists cfg w', LoadFile (YC:=demoYaml) demoEnv "/c.yaml" fileWorld = (Ok cfg, w')
    /\ safeConfig cfg /\ sDriver (cStore cfg) = "postgres" /\ mcDriver (MetaCache cfg) = "redis".
Proof.
  assert (match (LoadFile (YC:=demoYaml) demoEnv "/c.yaml" fileWorld).1 with
          | Ok cfg => mcDriver (MetaCache cfg) | Err _ => "" end = "redis") as Hd by (vm_compute; reflexivity).
  destruct (LoadFile (YC:=demoYaml) demoEnv "/c.yaml" fileWorld) as [[cfg|e] w'] eqn:Hl; [|discriminate Hd].
  destruct (LoadFile_safe (YC:=demoYaml) demoEnv "/c.yaml" _ _ _ Hl) as (Hs & (He & _) & _).
  exists cfg, w'. split; [reflexivity|]. split; [exact Hs|]. split; [exact (He ltac:(discriminate))|exact Hd].
Defined.

Example ExpandEnv_ex :
  osExpandEnv demoEnv "postgres://u:${DBPASS}@db/x?a=$NONE$" = "postgres://u:s3cret@db/x?a=$".
Proof. vm_compute. reflexivity. Qed.

(** A [metaCache] section replaces the default Redis address and prefix. *)
Example metaCache_section_drops_redis_defaults :
  rPrefix (mcRedis (MetaCache Defaults)) = "spider:"
  /\ match fromData (YC:=demoYaml) demoEnv [] with
     | Ok cfg => rPrefix (mcRedis (MetaCache cfg)) = "" /\ rAddr (mcRedis (MetaCache cfg)) = ""
     | Err _ => False
     end.
Proof. split; [reflexivity|]. vm_compute. split; reflexivity. Qed.

(** A connection string of key=value pairs is not a URL and has no [@]: it is
    logged with its password. *)
Example RedactedDSN_key_value (NU : NetURL) :
  parseURL "host=db user=u password=s3cret" = Some (mkURL "" "" None "host=db user=u password=s3cret") ->
  RedactedDSN "host=db user=u password=s3cret" = "host=db user=u password=s3cret".
Proof. intros H. unfold RedactedDSN. rewrite H. reflexivity. Qed.
