(* ===== verification/Advertise.v ===== *)
(** * Advertisement of chunks (pkg/advertise/advertise.go)

    The queue, the batch and the retries of the background advertiser.  The
    events are what its goroutines do: an [Enqueue], and one turn of the loop
    for a received hash, a tick or the stop.  The answer of the tracker to the
    i-th report is an argument. *)

From S2P Require Import Prelude Config.
Local Open Scope go_scope.

Record retryEntry := mkRetryEntry { rHash : string; rAttempt : Z; rNextAt : Z }.

(** [buf] is the local variable of the loop; [depth], [failures] and [success]
    are the metrics; [calls], [reported] and [dropped] are what the world sees:
    the number of reports made, the hashes the tracker accepted and the ones
    given up. *)
Record Advertiser := mkAdvertiser {
  hasClient : bool;
  batchSize : Z;
  interval : Z;
  maxRetries : Z;
  retryInitial : Z;
  retryMax : Z;
  ch : list string;
  retry : list retryEntry;
  buf : list string;
  finished : bool;
  depth : Z;
  failures : Z;
  success : Z;
  calls : nat;
  reported : list string;
  dropped : list string
}.

Definition New (client : bool) (cfg : AdvertisementConfig) : Advertiser :=
  mkAdvertiser client (BatchSize cfg) (Interval cfg) (MaxRetries cfg) (RetryBackoff cfg)
    (if (MaxRetryBackoff cfg <=? 0)%Z then 5 * second else MaxRetryBackoff cfg)%Z [] [] [] false 0 0 0 0 [] [].

Definition chanCap : Z := 1024.
Definition maxRetryQueue : Z := 4096.

(** ** Updates *)

Definition setCh (l : list string) (d : Z) (a : Advertiser) : Advertiser :=
  mkAdvertiser (hasClient a) (batchSize a) (interval a) (maxRetries a) (retryInitial a) (retryMax a)
    l (retry a) (buf a) (finished a) d (failures a) (success a) (calls a) (reported a) (dropped a).

Definition setRetry (l : list retryEntry) (a : Advertiser) : Advertiser :=
  mkAdvertiser (hasClient a) (batchSize a) (interval a) (maxRetries a) (retryInitial a) (retryMax a)
    (ch a) l (buf a) (finished a) (depth a) (failures a) (success a) (calls a) (reported a) (dropped a).

Definition addRetry (e : retryEntry) (a : Advertiser) : Advertiser :=
  mkAdvertiser (hasClient a) (batchSize a) (interval a) (maxRetries a) (retryInitial a) (retryMax a)
    (ch a) (retry a ++ [e]) (buf a) (finished a) (depth a + 1) (failures a) (success a) (calls a) (reported a) (dropped a).

Definition setBuf (l : list string) (a : Advertiser) : Advertiser :=
  mkAdvertiser (hasClient a) (batchSize a) (interval a) (maxRetries a) (retryInitial a) (retryMax a)
    (ch a) (retry a) l (finished a) (depth a) (failures a) (success a) (calls a) (reported a) (dropped a).

Definition giveUp (hs : list string) (a : Advertiser) : Advertiser :=
  mkAdvertiser (hasClient a) (batchSize a) (interval a) (maxRetries a) (retryInitial a) (retryMax a)
    (ch a) (retry a) (buf a) (finished a) (depth a) (failures a + Z.of_nat (length hs)) (success a) (calls a)
    (reported a) (dropped a ++ hs).

Definition accept (hs : list string) (a : Advertiser) : Advertiser :=
  mkAdvertiser (hasClient a) (batchSize a) (interval a) (maxRetries a) (retryInitial a) (retryMax a)
    (ch a) (retry a) (buf a) (finished a) (depth a - Z.of_nat (length hs)) (failures a)
    (success a + Z.of_nat (length hs)) (calls a) (reported a ++ hs) (dropped a).

Definition called (a : Advertiser) : Advertiser :=
  mkAdvertiser (hasClient a) (batchSize a) (interval a) (maxRetries a) (retryInitial a) (retryMax a)
    (ch a) (retry a) (buf a) (finished a) (depth a) (failures a) (success a) (S (calls a)) (reported a) (dropped a).

Definition finish (a : Advertiser) : Advertiser :=
  mkAdvertiser (hasClient a) (batchSize a) (interval a) (maxRetries a) (retryInitial a) (retryMax a)
    (ch a) (retry a) (buf a) true (depth a) (failures a) (success a) (calls a) (reported a) (dropped a).

(** ** Operations *)

(** The doubling loop of [scheduleRetry]. *)
Fixpoint doubled (n : nat) (max backoff : Z) : Z :=
  match n with
  | O => backoff
  | S n => let b := wrap64 (backoff * 2) in if (max <? b)%Z then max else doubled n max b
  end.

Definition backoffOf (a : Advertiser) (attempt : Z) : Z :=
  if (0 <? attempt)%Z then doubled (Z.to_nat (attempt - 1)) (retryMax a) (retryInitial a) else retryInitial a.

Definition queueRetry (nextAt attempt : Z) (a : Advertiser) (h : string) : Advertiser :=
  if (maxRetryQueue <=? Z.of_nat (length (retry a)))%Z then giveUp [h] a else addRetry (mkRetryEntry h attempt nextAt) a.

Definition scheduleRetry (now : Z) (hashes : list string) (attempt : Z) (a : Advertiser) : Advertiser :=
  fold_left (queueRetry (now + backoffOf a attempt) attempt) hashes a.

Definition Enqueue (now : Z) (hash : string) (a : Advertiser) : Advertiser :=
  if negb (hasClient a) || bool_decide (hash = "") then a
  else if (Z.of_nat (length (ch a)) <? chanCap)%Z then setCh (ch a ++ [hash]) (depth a + 1) a
  else scheduleRetry now [hash] 0 a.

(** The hashes of [Reconcile], without empty ones and repetitions. *)
Definition Reconcile (now : Z) (hashes : list string) (a : Advertiser) : Advertiser :=
  fold_left (fun a h => Enqueue now h a) (dedupFrom ∅ (List.filter (fun h => negb (bool_decide (h = ""))) hashes)) a.

Section loop.
Context (tracker : nat -> list string -> option error).

Definition flush (now : Z) (hashes : list string) (attempt : Z) (a : Advertiser) : Advertiser :=
  if negb (hasClient a) || bool_decide (hashes = []) then a
  else
    match tracker (calls a) hashes with
    | Some _ =>
        if (attempt + 1 <? maxRetries a)%Z then scheduleRetry now hashes (attempt + 1) (called a)
        else giveUp hashes (called a)
    | None => accept hashes (called a)
    end.

(** [flush] of the loop: the batch. *)
Definition flushBuf (now : Z) (a : Advertiser) : Advertiser :=
  if bool_decide (buf a = []) then a else setBuf [] (flush now (buf a) 0 a).

Definition due (now : Z) (force : bool) (e : retryEntry) : bool := force || (rNextAt e <=? now)%Z.

Definition flushRetries (now : Z) (force : bool) (a : Advertiser) : Advertiser :=
  let ready := List.filter (due now force) (retry a) in
  let a := setRetry (List.filter (fun e => negb (due now force e)) (retry a)) a in
  fold_left (fun a e => flush now [rHash e] (rAttempt e) a) ready a.

(** One turn of the loop for each case of its select. *)
Definition onHash (now : Z) (a : Advertiser) : Advertiser :=
  match ch a with
  | [] => a
  | h :: rest =>
      let a := setBuf (buf a ++ [h]) (setCh rest (depth a) a) in
      if (batchSize a <=? Z.of_nat (length (buf a)))%Z then flushBuf now a else a
  end.

Definition onTick (now : Z) (a : Advertiser) : Advertiser := flushRetries now false (flushBuf now a).

Definition onStop (now : Z) (a : Advertiser) : Advertiser :=
  let a := setBuf (buf a ++ ch a) (setCh [] (depth a) a) in
  finish (flushRetries now true (flushBuf now a)).

(** What the goroutines do, with the hashes enqueued so far. *)
Inductive step : Advertiser * list string -> Advertiser * list string -> Prop :=
  | step_enqueue now h a q :
      step (a, q) (Enqueue now h a, if negb (hasClient a) || bool_decide (h = "") then q else q ++ [h])
  | step_hash now a q : finished a = false -> step (a, q) (onHash now a, q)
  | step_tick now a q : finished a = false -> step (a, q) (onTick now a, q)
  | step_stop now a q : finished a = false -> step (a, q) (onStop now a, q).

End loop.

(** * Properties *)

(** Every hash is in one place: the channel, the batch, the retry queue, the
    tracker or the failures. *)
Definition everywhere (a : Advertiser) : list string :=
  ch a ++ buf a ++ map rHash (retry a) ++ reported a ++ dropped a.

(** The channel and the batch: what the loop has still to send. *)
Definition pending (a : Advertiser) : list string * list string := (ch a, buf a).

Lemma pending_fold {A} (f : Advertiser -> A -> Advertiser) (l : list A) : forall a,
  (forall a x, pending (f a x) = pending a) -> pending (fold_left f l a) = pending a.
Proof. induction l as [|x l IH]; intros a Hf; simpl; [done|]. by rewrite IH, Hf. Qed.

Lemma pending_flush tracker now hs n a : pending (flush tracker now hs n a) = pending a.
Proof.
  unfold flush. destruct (_ || _); [done|]. destruct (tracker _ _); [|done]. destruct (_ <? _)%Z; [|done].
  unfold scheduleRetry. rewrite pending_fold; [done|]. intros a' x. unfold queueRetry. by destruct (_ <=? _)%Z.
Qed.

(** When the loop ends it has sent both. *)
Lemma onStop_drains tracker now a : pending (onStop tracker now a) = ([], []).
Proof.
  change (pending (flushRetries tracker now true (flushBuf tracker now (setBuf (buf a ++ ch a) (setCh [] (depth a) a)))) = ([], [])).
  unfold flushRetries. cbv zeta. rewrite pending_fold by (intros; apply pending_flush). change (pending (setRetry ?l ?x)) with (pending x).
  unfold flushBuf. case_bool_decide as E.
  - unfold pending. by rewrite E.
  - match goal with |- context [flush ?t ?n ?h ?k ?x] => pose proof (pending_flush t n h k x) as Hf end.
    unfold pending in *. simpl. by injection Hf as -> _.
Qed.

(** [hand] are the hashes that an operation is moving. *)
Record adInv (max : Z) (hand q : list string) (a : Advertiser) : Prop := {
  ad_max : maxRetries a = max;
  ad_all : q ≡ₚ everywhere a ++ hand;
  ad_success : success a = Z.of_nat (length (reported a));
  ad_failures : failures a = Z.of_nat (length (dropped a));
  ad_ch : (Z.of_nat (length (ch a)) <= chanCap)%Z;
  ad_retry : (Z.of_nat (length (retry a)) <= maxRetryQueue)%Z;
  ad_attempts : Forall (fun e => 0 <= rAttempt e < Z.max 1 max)%Z (retry a);
  ad_client : hasClient a = false -> q = []
}.

Section invariant.
Context (max : Z) (q : list string).

Lemma adInv_giveUp hs hand a : adInv max (hs ++ hand) q a -> adInv max hand q (giveUp hs a).
Proof.
  intros [H1 H2 H3 H4 H5 H6 H7 H8]. split; simpl; try done.
  - rewrite H2. unfold everywhere. simpl. by rewrite <- !app_assoc.
  - rewrite length_app. lia.
Qed.

Lemma adInv_accept hs hand a : adInv max (hs ++ hand) q a -> adInv max hand q (accept hs a).
Proof.
  intros [H1 H2 H3 H4 H5 H6 H7 H8]. split; simpl; try done.
  - rewrite H2. unfold everywhere. simpl. solve_Permutation.
  - rewrite length_app. lia.
Qed.

Lemma adInv_queueRetry nextAt attempt h hand a :
  (0 <= attempt < Z.max 1 max)%Z -> adInv max (h :: hand) q a -> adInv max hand q (queueRetry nextAt attempt a h).
Proof.
  intros Ha Hinv. unfold queueRetry. destruct (Z.leb_spec maxRetryQueue (Z.of_nat (length (retry a)))) as [Hl|Hl]; [by apply (adInv_giveUp [h])|].
  destruct Hinv as [H1 H2 H3 H4 H5 H6 H7 H8]. split; simpl; try done.
  - rewrite H2. unfold everywhere. simpl. rewrite map_app. simpl. solve_Permutation.
  - rewrite length_app. simpl. lia.
  - apply Forall_app. split; [done|]. by constructor.
Qed.

Lemma adInv_scheduleRetry now attempt hs : forall hand a,
  (0 <= attempt < Z.max 1 max)%Z -> adInv max (hs ++ hand) q a -> adInv max hand q (scheduleRetry now hs attempt a).
Proof.
  intros hand a Ha. unfold scheduleRetry. generalize (now + backoffOf a attempt)%Z as t. intros t. revert a.
  induction hs as [|h hs IH]; intros a Hinv; [done|]. simpl. by apply IH, adInv_queueRetry.
Qed.

Lemma adInv_flush tracker now attempt hs hand a :
  (0 <= attempt < Z.max 1 max)%Z -> adInv max (hs ++ hand) q a -> adInv max hand q (flush tracker now hs attempt a).
Proof.
  intros Ha Hinv. unfold flush. destruct (hasClient a) eqn:Ec; cbn [negb orb].
  - case_bool_decide as Hn; [by subst|].
    assert (adInv max (hs ++ hand) q (called a)) as Hinv' by by destruct Hinv.
    destruct (tracker (calls a) hs); [|by apply adInv_accept].
    destruct (Z.ltb_spec (attempt + 1) (maxRetries a)); [|by apply adInv_giveUp].
    apply adInv_scheduleRetry; [|done]. rewrite (ad_max _ _ _ _ Hinv) in *. lia.
  - destruct Hinv as [H1 H2 H3 H4 H5 H6 H7 H8]. specialize (H8 Ec). rewrite H8 in H2.
    symmetry in H2. apply Permutation_nil_r in H2. apply app_eq_nil in H2 as [H2 [-> ->]%app_eq_nil].
    split; try done. by rewrite H8, H2.
Qed.

Lemma adInv_flushEach tracker now es : forall a,
  Forall (fun e => 0 <= rAttempt e < Z.max 1 max)%Z es -> adInv max (map rHash es) q a ->
  adInv max [] q (fold_left (fun a e => flush tracker now [rHash e] (rAttempt e) a) es a).
Proof.
  induction es as [|e es IH]; intros a Hes Hinv; [done|]. simpl. apply Forall_cons in Hes as [He Hes].
  apply IH; [done|]. by apply adInv_flush.
Qed.

Lemma scheduleRetry_setBuf now attempt l hs : forall a,
  scheduleRetry now hs attempt (setBuf l a) = setBuf l (scheduleRetry now hs attempt a).
Proof.
  intros a. unfold scheduleRetry. change (backoffOf (setBuf l a) attempt) with (backoffOf a attempt).
  generalize (now + backoffOf a attempt)%Z as t. intros t. revert a.
  induction hs as [|h hs IH]; intros a; [done|]. simpl. rewrite <- IH. f_equal.
  unfold queueRetry. simpl. by destruct (maxRetryQueue <=? _)%Z.
Qed.

Lemma flush_setBuf tracker now attempt l hs a :
  flush tracker now hs attempt (setBuf l a) = setBuf l (flush tracker now hs attempt a).
Proof.
  unfold flush. simpl. destruct (_ || _); [done|]. destruct (tracker (calls a) hs); [|done].
  destruct (_ <? _)%Z; [|done]. apply (scheduleRetry_setBuf now (attempt + 1) l hs (called a)).
Qed.

Lemma adInv_flushBuf tracker now a : adInv max [] q a -> adInv max [] q (flushBuf tracker now a) /\ buf (flushBuf tracker now a) = [].
Proof.
  intros Hinv. unfold flushBuf. case_bool_decide as Hb; [done|]. split; [|done].
  rewrite <- flush_setBuf. apply adInv_flush; [lia|]. rewrite app_nil_r.
  destruct Hinv as [H1 H2 H3 H4 H5 H6 H7 H8]. split; simpl; try done. rewrite H2. unfold everywhere. simpl. solve_Permutation.
Qed.

Lemma filter_split {A} (f : A -> bool) l : l ≡ₚ List.filter (fun x => negb (f x)) l ++ List.filter f l.
Proof. induction l as [|x l IH]; [done|]. simpl. rewrite IH at 1. destruct (f x); simpl; [solve_Permutation|done]. Qed.

Lemma adInv_flushRetries tracker now force a : adInv max [] q a -> adInv max [] q (flushRetries tracker now force a).
Proof.
  intros [H1 H2 H3 H4 H5 H6 H7 H8]. unfold flushRetries.
  assert (map rHash (retry a) ≡ₚ map rHash (List.filter (fun e => negb (due now force e)) (retry a))
    ++ map rHash (List.filter (due now force) (retry a))) as Hp by (rewrite <- map_app; apply Permutation_map, filter_split).
  assert (forall f, Forall (fun e => 0 <= rAttempt e < Z.max 1 max)%Z (List.filter f (retry a))) as Hf.
  { intros f. apply Forall_forall. intros e [He _]%elem_of_filterb. rewrite Forall_forall in H7. auto. }
  apply adInv_flushEach; [apply Hf|]. split; simpl; try done; [|pose proof (List.filter_length_le (fun e => negb (due now force e)) (retry a)); lia].
  rewrite H2. unfold everywhere. simpl. rewrite Hp. solve_Permutation.
Qed.

Lemma adInv_onHash tracker now a : adInv max [] q a -> adInv max [] q (onHash tracker now a).
Proof.
  intros Hinv. unfold onHash. destruct (ch a) as [|h rest] eqn:Ech; [done|].
  assert (adInv max [] q (setBuf (buf a ++ [h]) (setCh rest (depth a) a))) as Hin.
  { destruct Hinv as [H1 H2 H3 H4 H5 H6 H7 H8]. rewrite Ech in H5. split; simpl in *; try done; [|lia].
    rewrite H2. unfold everywhere. simpl. rewrite Ech. solve_Permutation. }
  destruct (_ <=? _)%Z; [|done]. by apply adInv_flushBuf.
Qed.

Lemma adInv_onStop tracker now a : adInv max [] q a -> adInv max [] q (onStop tracker now a).
Proof.
  intros Hinv. unfold onStop. set (a' := setBuf _ _).
  assert (adInv max [] q a') as Hin.
  { destruct Hinv as [H1 H2 H3 H4 H5 H6 H7 H8]. split; simpl in *; try done.
    rewrite H2. unfold everywhere. simpl. solve_Permutation. }
  apply (adInv_flushBuf tracker now) in Hin as [Hin _]. apply (adInv_flushRetries tracker now true) in Hin. by destruct Hin.
Qed.

End invariant.

Lemma adInv_Enqueue max q now h a :
  adInv max [] q a ->
  adInv max [] (if negb (hasClient a) || bool_decide (h = "") then q else q ++ [h]) (Enqueue now h a).
Proof.
  intros Hinv. unfold Enqueue. destruct (hasClient a) eqn:Ec; cbn [negb orb]; [|done]. case_bool_decide; [done|].
  destruct Hinv as [H1 H2 H3 H4 H5 H6 H7 H8].
  destruct (Z.ltb_spec (Z.of_nat (length (ch a))) chanCap) as [Hl|Hl].
  - split; simpl; try done; [|rewrite length_app; simpl; lia|congruence].
    rewrite H2. unfold everywhere. simpl. solve_Permutation.
  - apply adInv_scheduleRetry; [lia|]. split; try done; [|congruence]. by rewrite H2, app_nil_r.
Qed.

Lemma adInv_step tracker max s s' : step tracker s s' -> adInv max [] s.2 s.1 -> adInv max [] s'.2 s'.1.
Proof.
  intros Hst Hinv. destruct Hst as [now h a q|now a q _|now a q _|now a q _]; simpl in *.
  - by apply adInv_Enqueue.
  - by apply adInv_onHash.
  - unfold onTick. by apply adInv_flushRetries, adInv_flushBuf.
  - by apply adInv_onStop.
Qed.

(** C40. No hash is lost or made up.  After any interleaving of enqueues and turns
    of the loop, with any answers of the tracker, the hashes enqueued are
    exactly the ones in the channel, in the batch, waiting for a retry,
    accepted by the tracker or given up; the success and failure metrics count
    the last two, the channel and the retry queue stay within their bounds, and
    no hash waits for more than the configured number of attempts. *)
Theorem advertise_conserves tracker client cfg a q
    (Hreach : rtc (step tracker) (New client cfg, []) (a, q)) :
  q ≡ₚ ch a ++ buf a ++ map rHash (retry a) ++ reported a ++ dropped a
  /\ success a = Z.of_nat (length (reported a)) /\ failures a = Z.of_nat (length (dropped a))
  /\ (Z.of_nat (length (ch a)) <= 1024)%Z /\ (Z.of_nat (length (retry a)) <= 4096)%Z
  /\ Forall (fun e => 0 <= rAttempt e < Z.max 1 (MaxRetries cfg))%Z (retry a).
Proof.
  assert (adInv (MaxRetries cfg) [] q a) as [_ H2 H3 H4 H5 H6 H7 _].
  { change (adInv (MaxRetries cfg) [] (a, q).2 (a, q).1).
    eapply (rtc_ind_inv (fun s => adInv (MaxRetries cfg) [] s.2 s.1));
      [intros s s' Hi Hs; by eapply adInv_step|exact Hreach|]. by split. }
  rewrite app_nil_r in H2. done.
Qed.

(** ** Delivery *)

Section delivery.
Context (tracker : nat -> list string -> option error).
Hypothesis Hup : forall i hs, tracker i hs = None.

Lemma flush_up now hs attempt a :
  hasClient a = true -> let a' := flush tracker now hs attempt a in
  reported a' = reported a ++ hs /\ ch a' = ch a /\ buf a' = buf a /\ retry a' = retry a /\ dropped a' = dropped a
  /\ hasClient a' = true.
Proof.
  intros Hc. unfold flush. rewrite Hc. cbn [negb orb]. case_bool_decide as Hn; [subst; by rewrite app_nil_r|].
  rewrite Hup. done.
Qed.

Lemma flushEach_up now es : forall a,
  hasClient a = true -> let a' := fold_left (fun a e => flush tracker now [rHash e] (rAttempt e) a) es a in
  reported a' = reported a ++ map rHash es /\ ch a' = ch a /\ buf a' = buf a /\ retry a' = retry a /\ dropped a' = dropped a.
Proof.
  induction es as [|e es IH]; intros a Hc; [by rewrite app_nil_r|]. simpl.
  destruct (flush_up now [rHash e] (rAttempt e) a Hc) as (H1 & H2 & H3 & H4 & H5 & H6). cbv zeta in *.
  destruct (IH _ H6) as (I1 & I2 & I3 & I4 & I5). cbv zeta in *. rewrite I1, H1, <- app_assoc. split_and!; [done|congruence..].
Qed.

(** While the tracker answers, a tick of the loop delivers: the batch and
    every retry that is due reach the tracker, nothing is given up, and only
    the retries that are not due stay. *)
Theorem onTick_delivers now a (Hc : hasClient a = true) :
  let a' := onTick tracker now a in
  reported a' = reported a ++ buf a ++ map rHash (List.filter (due now false) (retry a))
  /\ buf a' = [] /\ ch a' = ch a /\ dropped a' = dropped a
  /\ retry a' = List.filter (fun e => negb (due now false e)) (retry a).
Proof.
  assert (let a1 := flushBuf tracker now a in reported a1 = reported a ++ buf a /\ buf a1 = [] /\ ch a1 = ch a
    /\ dropped a1 = dropped a /\ retry a1 = retry a /\ hasClient a1 = true) as (H1 & H2 & H3 & H4 & H5 & H6).
  { unfold flushBuf. case_bool_decide as Hb; [rewrite Hb, app_nil_r; done|].
    destruct (flush_up now (buf a) 0 a Hc) as (F1 & F2 & F3 & F4 & F5 & F6). cbv zeta in *. simpl. done. }
  cbv zeta in *. unfold onTick, flushRetries. set (a1 := flushBuf tracker now a) in *.
  destruct (flushEach_up now (List.filter (due now false) (retry a1))
    (setRetry (List.filter (fun e => negb (due now false e)) (retry a1)) a1) H6) as (G1 & G2 & G3 & G4 & G5).
  cbv zeta in *. rewrite G1, G2, G3, G4, G5. simpl. rewrite H1, H5, <- app_assoc. done.
Qed.

End delivery.

(** ** Small histories *)

Definition demoAd : Advertiser := New true (mkAdvertisement 2 100 5 100 0).

Definition downOnce : nat -> list string -> option error := fun i _ => if i =? 0 then Some (EText "unavailable") else None.

Lemma advertise_conserves_witness :
  let a := onTick downOnce 5 (onHash downOnce 3 (Enqueue 1 "h1" demoAd)) in
  map rHash (retry a) = ["h1"] /\ ["h1"] ≡ₚ ch a ++ buf a ++ map rHash (retry a) ++ reported a ++ dropped a.
Proof.
  intros a. assert (rtc (step downOnce) (demoAd, []) (a, ["h1"])) as Hr.
  { eapply rtc_l; [apply (step_enqueue _ 1 "h1")|]. eapply rtc_l; [apply (step_hash _ 3); reflexivity|].
    apply rtc_once, (step_tick _ 5). reflexivity. }
  split; [vm_compute; reflexivity|].
  exact (proj1 (advertise_conserves downOnce true (mkAdvertisement 2 100 5 100 0) a ["h1"] Hr)).
Defined.

Lemma onTick_delivers_witness :
  reported (onTick (fun _ _ => None) 500 (onTick downOnce 5 (onHash downOnce 3 (Enqueue 1 "h1" demoAd)))) = ["h1"].
Proof.
  destruct (onTick_delivers (fun _ _ => None) (fun _ _ => eq_refl) 500
    (onTick downOnce 5 (onHash downOnce 3 (Enqueue 1 "h1" demoAd))) eq_refl) as (H & _).
  cbv zeta in H. rewrite H. vm_compute. reflexivity.
Defined.

(** After a failed report has been retried with success nothing waits, but the
    gauge of waiting hashes says one. *)
Example queue_depth_drifts :
  let a := onTick downOnce 500 (onTick downOnce 5 (onHash downOnce 3 (Enqueue 1 "h1" demoAd))) in
  everywhere a = ["h1"] /\ reported a = ["h1"] /\ depth a = 1%Z.
Proof. vm_compute. split; [reflexivity|]. split; reflexivity. Qed.

(** Stopping while the tracker is down leaves hashes in the retry queue, where
    nothing sends or counts them any more. *)
Example stop_leaves_retries :
  let a := onStop (fun _ _ => Some (EText "unavailable")) 5 (Enqueue 1 "h1" demoAd) in
  finished a = true /\ map rHash (retry a) = ["h1"] /\ reported a = [] /\ dropped a = [] /\ failures a = 0%Z.
Proof. vm_compute. repeat split; reflexivity. Qed.
