(* ===== verification/Source.v ===== *)
(** * Origin storage (pkg/source/source.go, fs.go, s3.go)

    The [Source] interface, the local directory and the S3 bucket.  A read that
    copies into a writer gives the bytes written and then its result.  Paths
    are resolved from the root directory, as everywhere in the model of the
    disk.  The S3 client is a parameter. *)

From S2P Require Import Prelude Digest GoPath Json Manifest SafePath GoFs Chunker ChunkStore Materializer Verifier.
Local Open Scope go_scope.

Module Src.

Record FileInfo := mkInfo { Path : string; Size : Z; Mode : string }.

Record Source (X : Type) := mkSource {
  ListFiles : string -> IO X (list FileInfo);
  ReadChunkTo : string -> Z -> Z -> IO X (bytes * res Z);
  Open : string -> IO X reader
}.
Arguments mkSource {X}.
Arguments ListFiles {X}.
Arguments ReadChunkTo {X}.
Arguments Open {X}.

(** [ReadChunk]: the buffer cut at the number of bytes. *)
Definition ReadChunk {X} (src : Source X) (path : string) (offset size : Z) : IO X bytes :=
  do (buf, n) <- ReadChunkTo src path offset size;
  match n with Err e => ioErr e | Ok n => ioRet (take (Z.to_nat n) buf) end.

(** [io.CopyN(w, r, n)]: the bytes written, and the error unless it is the end
    of the input. *)
Definition copyN (n : Z) (r : reader) : bytes * option error :=
  let '(b, e) := limit n r in (b, e).

End Src.

(** [filepath.Abs] *)
Definition Abs (p : string) : string := if IsAbs p then Clean p else Join ["/"; p].

(** ** A local directory *)

Module FsSource.

Record FilesystemSource := mkFs { baseDir : string; only : string }.

Section fs.
Context {X : Type}.
Implicit Types fs : FilesystemSource.

Definition NewFilesystemSource (dir : string) : IO X FilesystemSource :=
  let abs := Abs dir in
  do info <- wrapErr "base directory not accessible" (Stat abs);
  if negb (fiDir info) then ioErr (EText "path is not a directory") else ioRet (mkFs abs "").

Definition NewPathSource (path : string) : IO X FilesystemSource :=
  let abs := Abs path in
  do info <- wrapErr "path not accessible" (Stat abs);
  if fiDir info then ioRet (mkFs abs "") else ioRet (mkFs (Dir abs) (Base abs)).

Definition resolve fs (relPath : string) : res string :=
  let full := Join [baseDir fs; NormalizePath relPath] in
  match Rel (baseDir fs) full with
  | None => Err (EText "path escapes source root")
  | Some rel => if hasPrefix ".." rel then Err (EText "path escapes source root") else Ok full
  end.

(** The callback of the walk; [ctx path] is the error of the context when the
    walk is at [path]. *)
Definition listEntry fs (ctx : string -> option error) (results : list Src.FileInfo) (path : string) (info : FileInfo)
    : res (list Src.FileInfo) :=
  match ctx path with
  | Some e => Err e
  | None =>
      if fiDir info then Ok results
      else
        match Rel (baseDir fs) path with
        | None => Err (EText "Rel: can't make path relative")
        | Some rel =>
            if negb (bool_decide (only fs = "")) && negb (bool_decide (rel = only fs)) then Ok results
            else Ok (results ++ [Src.mkInfo (NormalizePath rel) (fiSize info) (octal4 (Perm (fiPerm info)))])
        end
  end.

Definition ListFiles fs (ctx : string -> option error) (prefix : string) : IO X (list Src.FileInfo) :=
  do searchDir <- (if bool_decide (prefix = "") then ioRet (baseDir fs) else liftRes (resolve fs prefix));
  do (results, err) <- Walk (listEntry fs ctx) [] searchDir;
  match err with Some e => ioErr e | None => ioRet results end.

Definition ReadChunkTo fs (path : string) (offset size : Z) : IO X (bytes * res Z) :=
  match resolve fs path with
  | Err e => ioRet ([], Err e)
  | Ok full =>
      do f <- attempt (Open full);
      match f with
      | Err e => ioRet ([], Err (EWrap "failed to open source file" e))
      | Ok f =>
          do s <- attempt (Seek f offset);
          match s with
          | Err e => do_ ignore (Close f); ioRet ([], Err (EWrap "failed to seek in source file" e))
          | Ok f' =>
              do r <- readRest f';
              let '(b, err) := Src.copyN size r in
              do_ ignore (Close f');
              ioRet (b, match err with Some e => Err (EWrap "failed to read source" e) | None => Ok (blen b) end)
          end
      end
  end.

Definition OpenFile fs (path : string) : IO X reader :=
  do full <- liftRes (resolve fs path);
  do f <- Open full;
  readRest f.

(** The directory as a source. *)
Definition asSource fs (ctx : string -> option error) : Src.Source X :=
  Src.mkSource (ListFiles fs ctx) (ReadChunkTo fs) (OpenFile fs).

End fs.

End FsSource.

(** ** An S3 bucket *)

Module S3.

Record S3Config := mkS3Config {
  Bucket : string; Endpoint : string; Region : string; AccessKey : string; SecretKey : string; UsePathStyle : bool
}.

(** One page of a listing, with the keys and sizes. *)
Record page := mkPage { Contents : list (string * Z); IsTruncated : bool; NextContinuationToken : option string }.

(** The client: a page of a listing, and the body of an object or of a range
    (first and last byte) of it. *)
Record client (X : Type) := mkClient {
  ListObjectsV2 : string -> string -> option string -> IO X page;
  GetObject : string -> string -> option (Z * Z) -> IO X reader
}.
Arguments ListObjectsV2 {X}.
Arguments GetObject {X}.

Record S3Source (X : Type) := mkS3 { s3client : client X; bucket : string }.
Arguments mkS3 {X}.
Arguments s3client {X}.
Arguments bucket {X}.

Section s3.
Context {X : Type} (connect : S3Config -> res (client X)).

Definition NewS3Source (cfg : S3Config) : res (S3Source X) :=
  if bool_decide (Bucket cfg = "") then Err (EText "S3 bucket name is required")
  else
    let region := if bool_decide (Region cfg = "") then "us-east-1" else Region cfg in
    let endpoint := if bool_decide (Endpoint cfg = "") || hasPrefix "http://" (Endpoint cfg) || hasPrefix "https://" (Endpoint cfg)
                    then Endpoint cfg else "http://" +:+ Endpoint cfg in
    match connect (mkS3Config (Bucket cfg) endpoint region (AccessKey cfg) (SecretKey cfg) (UsePathStyle cfg)) with
    | Err e => Err (EWrap "failed to load AWS config" e)
    | Ok c => Ok (mkS3 c (Bucket cfg))
    end.

Definition cleanPrefix (prefix : string) : string :=
  let p := trimPrefix (NormalizePath prefix) "/" in
  if negb (bool_decide (p = "")) && negb (hasSuffix p "/") then p +:+ "/" else p.

Definition listItem (pre : string) (item : string * Z) : list Src.FileInfo :=
  if hasSuffix item.1 "/" then []
  else [Src.mkInfo (NormalizePath (trimPrefix item.1 pre)) item.2 "0644"].

(** The loop over the pages of a listing; [fuel] bounds their number. *)
Fixpoint listPages (fuel : nat) (s : S3Source X) (pre : string) (token : option string) (results : list Src.FileInfo)
    : IO X (list Src.FileInfo) :=
  match fuel with
  | O => ioErr (EText "listing does not end")
  | S fuel =>
      do out <- wrapErr "failed to list objects" (ListObjectsV2 (s3client s) (bucket s) pre token);
      let results := results ++ concat (map (listItem pre) (Contents out)) in
      if negb (IsTruncated out) then ioRet results
      else listPages fuel s pre (NextContinuationToken out) results
  end.

Definition ListFiles (fuel : nat) (s : S3Source X) (prefix : string) : IO X (list Src.FileInfo) :=
  listPages fuel s (cleanPrefix prefix) None [].

Definition objectKey (path : string) : string := trimPrefix (NormalizePath path) "/".

Definition ReadChunkTo (s : S3Source X) (path : string) (offset size : Z) : IO X (bytes * res Z) :=
  do body <- attempt (GetObject (s3client s) (bucket s) (objectKey path) (Some (offset, sub64 (add64 offset size) 1)));
  match body with
  | Err e => ioRet ([], Err (EWrap "failed to get object chunk" e))
  | Ok body =>
      let '(b, err) := Src.copyN size body in
      ioRet (b, match err with Some e => Err (EWrap "failed to read chunk payload" e) | None => Ok (blen b) end)
  end.

Definition OpenObject (s : S3Source X) (path : string) : IO X reader :=
  wrapErr "failed to open object" (GetObject (s3client s) (bucket s) (objectKey path) None).

Definition asSource (fuel : nat) (s : S3Source X) : Src.Source X :=
  Src.mkSource (ListFiles fuel s) (ReadChunkTo s) (OpenObject s).

End s3.

End S3.

(** ** Choosing a source by its URI *)

(** [url.Parse]: scheme, host and path. *)
Class ParseURI := parseURI : string -> res (string * string * string).

Definition ParseSourceURI {PU : ParseURI} {X} (connect : S3.S3Config -> res (S3.client X)) (ctx : string -> option error)
    (pages : nat) (uri endpoint region accessKey secretKey : string) : IO X (Src.Source X * string) :=
  match parseURI uri with
  | Err e => ioErr (EWrap "invalid source URI" e)
  | Ok (scheme, host, path) =>
      if bool_decide (scheme = "file") || bool_decide (scheme = "") then
        do fs <- FsSource.NewFilesystemSource (if bool_decide (scheme = "") then uri else path);
        ioRet (FsSource.asSource fs ctx, "")
      else if bool_decide (scheme = "s3") || bool_decide (scheme = "minio") then
        do s <- liftRes (S3.NewS3Source connect (S3.mkS3Config host endpoint region accessKey secretKey true));
        ioRet (S3.asSource pages s, trimPrefix path "/")
      else ioErr (EText "unsupported source scheme")
  end.

(** * Properties *)

(** ** Containment *)

Lemma dropCommon_split b : forall t, exists c,
  b = c ++ (dropCommon b t).1 /\ t = c ++ (dropCommon b t).2.
Proof.
  induction b as [|x b IH]; intros t; [by exists []|]. destruct t as [|y t]; [by exists []|]. simpl.
  case_bool_decide as E; [|by exists []]. subst. destruct (IH t) as (c & H1 & H2).
  exists (y :: c). simpl. by rewrite <- H1, <- H2.
Qed.

(** A path relative to a directory that does not begin with two dots names
    something at or below the directory. *)
Lemma Rel_below base targ rel :
  IsAbs base = true -> Rel base targ = Some rel -> hasPrefix ".." rel = false ->
  exists rest, key targ = key base ++ rest /\ (rel = "." \/ rel = joinSlash rest).
Proof.
  intros Hb. unfold Rel, key. rewrite Hb. case_bool_decide as Ec.
  - intros [= <-] _. exists []. rewrite app_nil_r. split; [|by left].
    apply (f_equal key) in Ec. rewrite !key_Clean in Ec. done.
  - destruct (IsAbs targ) eqn:Ht; [|done]. cbn [negb bool_decide decide decide_rel].
    rewrite bool_decide_eq_true_2 by done. cbn [negb].
    destruct (dropCommon_split (cleanComps true (split base)) (cleanComps true (split targ))) as (c & H1 & H2).
    destruct (dropCommon _ _) as [b' t']. cbn [fst snd] in *. destruct b' as [|x b'].
    + intros [= <-] _. exists t'. rewrite app_nil_r in H1. subst c. by split; [|right].
    + case_bool_decide; [done|]. intros [= <-] Hp. exfalso. revert Hp. cbn [map app joinSlash].
      destruct (map _ b' ++ t'); [done|]. by destruct (hasPrefix_app ".." ("/" +:+ joinSlash (s :: l))).
Qed.

(** ** The local directory *)

Section fs.
Import FsSource.
Context {X : Type} (fs : FilesystemSource).

(** A path that resolves is inside the directory of the source. *)
Lemma resolve_inside path full :
  IsAbs (baseDir fs) = true -> resolve fs path = Ok full -> exists rest, key full = key (baseDir fs) ++ rest.
Proof.
  intros Hb. unfold resolve. destruct (Rel _ _) as [rel|] eqn:Er; [|done].
  destruct (hasPrefix ".." rel) eqn:Ep; [done|]. intros [= <-].
  destruct (Rel_below _ _ _ Hb Er Ep) as (rest & Hk & _). eauto.
Qed.

Lemma Abs_rooted p : IsAbs (Abs p) = true.
Proof.
  unfold Abs. destruct (IsAbs p) eqn:E; [by rewrite IsAbs_Clean|]. simpl.
  destruct p; [done|]. by rewrite IsAbs_Clean.
Qed.

Lemma limit_all n (r : reader) : r.2 = None -> (0 <= n)%Z -> limit n r = (take (Z.to_nat n) r.1, None).
Proof.
  intros Hr Hn. unfold limit. destruct (Z.leb_spec n (blen r.1)); [done|]. destruct r as [b e]. simpl in *. subst e.
  rewrite take_ge; [done|]. unfold blen in *. lia.
Qed.

(** Reading a range of a file gives exactly the bytes of the file in it, and
    their number. *)
Lemma ReadChunkTo_exact w path full data offset size :
  reliable w -> resolve fs path = Ok full -> contentAt (wdisk w) (key full) = Some data ->
  (0 <= offset)%Z -> (0 <= size)%Z ->
  let b := take (Z.to_nat size) (drop (Z.to_nat offset) data) in
  ReadChunkTo (X:=X) fs path offset size w = (Ok (b, Ok (blen b)), w).
Proof.
  intros Hr Hres Hd Ho Hs b. unfold contentAt in Hd.
  destruct (nodeAt (wdisk w) (key full)) as [[|i]|] eqn:E; try done. injection Hd as Hd.
  unfold ReadChunkTo. rewrite Hres.
  rewrite (ioBind_ok _ _ w (Ok (HFile i 0)) w) by by rewrite attempt_eq, (Open_file full w i).
  rewrite (ioBind_ok _ _ w (Ok (HFile i (Z.to_nat offset))) w) by by rewrite attempt_eq, Seek_reliable.
  erewrite ioBind_ok by by apply readRest_reliable. cbn [contents]. rewrite Hd. unfold Src.copyN.
  rewrite limit_all by done. cbn [fst]. erewrite ioBind_ok; [reflexivity|]. by rewrite ignore_eq, Close_reliable.
Qed.

End fs.

(** ** Examples *)

(** A file whose name begins with two dots is inside the directory and is
    listed, but it cannot be opened. *)
Example dotdot_names_rejected :
  let fs := FsSource.mkFs "/data" "" in
  FsSource.resolve fs "..data" = Err (EText "path escapes source root")
  /\ key (Join ["/data"; "..data"]) = key "/data" ++ ["..data"]
  /\ Rel "/data" "/data/..data" = Some "..data".
Proof. vm_compute. repeat split; reflexivity. Qed.

(** The whole bucket: the prefix that is sent to S3 is not the empty one. *)
Example s3_whole_bucket_prefix : S3.cleanPrefix "" = "./".
Proof. vm_compute. reflexivity. Qed.

(** A bucket with one object. *)
Definition demoBucket : S3.client unit := S3.mkClient unit
  (fun _ pre _ => ioRet (S3.mkPage (if hasPrefix pre "models/a.bin" then [("models/a.bin", 3%Z)] else []) false None))
  (fun _ k _ => if bool_decide (k = "models/a.bin") then ioRet (abc, None) else ioErr (EText "NoSuchKey")).

(** The paths that are listed under a prefix have lost the prefix, and opening
    them asks for another object. *)
Example s3_prefix_lost :
  let s := S3.mkS3 demoBucket "b" in
  (S3.ListFiles 1 s "models" emptyWorld).1 = Ok [Src.mkInfo "a.bin" 3 "0644"]
  /\ (S3.OpenObject s "a.bin" emptyWorld).1 = Err (EWrap "failed to open object" (EText "NoSuchKey")).
Proof. vm_compute. split; reflexivity. Qed.
