(* ===== verification/Publisher.v ===== *)
(** * Publishing an artifact (pkg/engine/publisher.go)

    [Publish] and [PublishFromMemory]: cut the files of a source into chunks,
    store them, and save a manifest.  A reader gives the bytes its file has
    when it is opened. *)

From S2P Require Import Prelude Digest GoPath Json Manifest SafePath GoFs Chunker ChunkStore StoreRuns Materializer.
From S2P Require Import Verifier Source.
Local Open Scope go_scope.

Record Publisher (X : Type) := mkPublisher { cache : ChunkStore X; pubChunkSize : Z }.
Arguments mkPublisher {X}.
Arguments cache {X}.
Arguments pubChunkSize {X}.

Definition NewPublisher {X} (c : ChunkStore X) (size : Z) : Publisher X :=
  mkPublisher c (if (size <=? 0)%Z then DefaultChunkSize else size).

Section publisher.
Context {D : Digest} {SS : SortSlice} {MC : ManifestCodec} {X : Type}.
Implicit Types p : Publisher X.

(** Store a chunk unless it is there. *)
Definition putMissing p (hash : string) (data : bytes) : IO X (res unit) :=
  do has <- HasChunk (cache p) hash;
  if has then ioRet (Ok tt) else attempt (PutChunk (cache p) hash data).

(** The callback of [Publish]; it collects [chunkRefs]. *)
Definition publishChunk (wrap : error -> error) p (chunkRefs : slice ChunkRef) (ch : Chunk)
    : IO X (slice ChunkRef * option error) :=
  do r <- putMissing p (cHash ch) (cData ch);
  ioRet match r with
        | Err e => (chunkRefs, Some (wrap e))
        | Ok _ => (appendSlice chunkRefs [refOf ch], None)
        end.

(** An empty file gets a reference to the empty chunk. *)
Definition emptyRef p (size : Z) (chunkRefs : slice ChunkRef) : IO X (slice ChunkRef) :=
  if bool_decide (elems chunkRefs = []) && (size =? 0)%Z then
    let emptyHash := ComputeHash [] in
    do_ putMissing p emptyHash [];
    ioRet (appendSlice chunkRefs [mkChunkRef emptyHash 0 0])
  else ioRet chunkRefs.

Definition publishFile p (src : Src.Source X) (fi : Src.FileInfo) : IO X FileEntry :=
  do r <- wrapErr "failed to open file" (Src.Open src (Src.Path fi));
  do (chunkRefs, err) <-
    ChunkStream (publishChunk (EWrap "failed to cache chunk") p) (NewChunker (pubChunkSize p)) r NilSlice;
  match err with
  | Some e => ioErr (EWrap "failed to chunk file" e)
  | None =>
      do chunkRefs' <- emptyRef p (Src.Size fi) chunkRefs;
      let mode := if bool_decide (Src.Mode fi = "") then "0644" else Src.Mode fi in
      ioRet (mkFileEntry (Src.Path fi) (Src.Size fi) mode chunkRefs')
  end.

(** The loop over the files; [ctx i] is the error of the context at round [i]. *)
Fixpoint publishFiles (ctx : nat -> option error) (i : nat) p (src : Src.Source X) (fs : list Src.FileInfo)
    (acc : slice FileEntry) : IO X (slice FileEntry) :=
  match fs with
  | [] => ioRet acc
  | fi :: fs' =>
      match ctx i with
      | Some e => ioErr e
      | None =>
          do f <- publishFile p src fi;
          publishFiles ctx (S i) p src fs' (appendSlice acc [f])
      end
  end.

Definition newManifest p (name version : string) (fs : slice FileEntry) : ArtifactManifest :=
  mkManifest CurrentSchema "" name version (pubChunkSize p) 0 fs.

Definition Publish (ctx : nat -> option error) p (src : Src.Source X) (prefix name version : string)
    : IO X ArtifactManifest :=
  do fs <- wrapErr "failed to list files from source" (Src.ListFiles src prefix);
  if bool_decide (fs = []) then ioErr (EText "no files found under source prefix")
  else
    do entries <- publishFiles ctx 0 p src fs NilSlice;
    do manifest <- wrapErr "failed to finalize manifest" (liftRes (Finalize (newManifest p name version entries)));
    do_ wrapErr "failed to save manifest to cache" (SaveManifest (cache p) manifest);
    ioRet manifest.

Definition memoryFile p (path : string) (data : bytes) : IO X FileEntry :=
  do (chunkRefs, err) <- ChunkStream (publishChunk id p) (NewChunker (pubChunkSize p)) (data, None) NilSlice;
  match err with
  | Some e => ioErr e
  | None => ioRet (mkFileEntry path (blen data) "0644" chunkRefs)
  end.

Fixpoint memoryFiles p (fs : list (string * bytes)) (acc : slice FileEntry) : IO X (slice FileEntry) :=
  match fs with
  | [] => ioRet acc
  | (path, data) :: fs' =>
      do f <- memoryFile p path data;
      memoryFiles p fs' (appendSlice acc [f])
  end.

(** The range over the map visits its entries in some order. *)
Definition PublishFromMemory p (name version : string) (fs : gmap string bytes) : IO X ArtifactManifest :=
  do entries <- memoryFiles p (map_to_list fs) NilSlice;
  do manifest <- liftRes (Finalize (newManifest p name version entries));
  do_ SaveManifest (cache p) manifest;
  ioRet manifest.

End publisher.

(** * Properties *)

Section properties.
Context {D : Digest} {SS : SortSlice} {MC : ManifestCodec} {X : Type}.
Context (root : string) (p : Publisher X) (HL : storeLayout root (cache p)) (Hhook : silentHook (cache p)).
Implicit Types w : world X.

(** ** The store grows *)

(** From [d] to [d'] the pieces [ps] were stored and nothing else happened. *)
Record grown (ps : list bytes) (d d' : disk) : Prop := {
  gr_ready : storeReady root d';
  gr_old : forall x data, hexName x -> chunkOf root d x = Some data -> chunkOf root d' x = Some data;
  gr_new : forall x data, hexName x -> chunkOf root d' x = Some data -> chunkOf root d x = Some data \/ data ∈ ps;
  gr_has : forall b x, b ∈ ps -> ComputeHash b = "sha256:" +:+ x -> is_Some (chunkOf root d' x);
  gr_node : forall k, offStore root k -> nodeAt d' k = nodeAt d k;
  gr_content : forall k, offStore root k -> contentAt d' k = contentAt d k
}.

Lemma grown_nil d : storeReady root d -> grown [] d d.
Proof. intros HR. split; try done; [by left|by intros b x ?%elem_of_nil]. Qed.

Lemma grown_app ps qs d1 d2 d3 : grown ps d1 d2 -> grown qs d2 d3 -> grown (ps ++ qs) d1 d3.
Proof.
  intros [R1 O1 N1 H1 E1 C1] [R2 O2 N2 H2 E2 C2]. split; [done|..].
  - auto.
  - intros x data Hx Hd. destruct (N2 x data Hx Hd) as [Hd'|?]; [|set_solver].
    destruct (N1 x data Hx Hd'); [by left|set_solver].
  - intros b x [Hb|Hb]%elem_of_app Hh; [|by eapply H2].
    destruct (H1 b x Hb Hh) as [data Hd]. exists data. apply O2; [|done].
    destruct (ComputeHash_good b) as (y & Hy & Hx). rewrite Hh in Hy. by simplify_eq/=.
  - intros k Hk. by rewrite E2, E1.
  - intros k Hk. by rewrite C2, C1.
Qed.

Lemma committed_grown x data d d' :
  hexName x -> ComputeHash data = "sha256:" +:+ x -> chunkOf root d x = None -> committed root x data d d' ->
  grown [data] d d'.
Proof.
  intros Hx Hh Hnone [HR Hc Hp Ho Hn].
  assert (forall y, y <> x -> chunkOf root d' y = chunkOf root d y) as Hother.
  { intros y Hy. apply Ho; [|by intros E%chunkKey_inj].
    intros E. apply (partialKey_not_chunk root x (chunkKey root y)); [apply chunkKey_under|done]. }
  split; [done|..].
  - intros y b Hy Hb. rewrite Hother; [done|]. intros ->. congruence.
  - intros y b Hy. destruct (decide (y = x)) as [->|Hne]; [|rewrite Hother by done; by left].
    rewrite Hc. intros [= <-]. right. by constructor.
  - intros b y ->%list_elem_of_singleton Hy. rewrite Hh in Hy. simplify_eq/=. eauto.
  - intros k [H1 H2]. apply Hn; [done|]. intros ->. apply H2. by eexists.
  - intros k [H1 H2]. apply Ho; intros ->; [apply H2; by eexists|apply H1, chunkKey_under].
Qed.

Lemma putMissing_run w b :
  reliable w -> storeReady root (wdisk w) ->
  exists d, putMissing p (ComputeHash b) b w = (Ok (Ok tt), setDisk d w) /\ grown [b] (wdisk w) d.
Proof.
  intros Hr HR. destruct (ComputeHash_good b) as (x & Hh & Hx).
  pose proof (HasChunk_run root (cache p) HL w x Hr HR Hx) as Hrun. rewrite <- Hh in Hrun.
  unfold putMissing. rewrite (ioBind_ok _ _ _ _ _ Hrun). clear Hrun.
  case_bool_decide as Hhas.
  - exists (wdisk w). rewrite setDisk_same. split; [done|].
    destruct (grown_nil _ HR). split; try done; [by left|].
    intros b' y ->%list_elem_of_singleton Hy. rewrite Hh in Hy. by simplify_eq/=.
  - destruct (PutChunk_committed root (cache p) HL w b Hhook Hr HR) as (d & y & Hy & _ & Hput & Hcom).
    rewrite Hh in Hy. simplify_eq/=. exists d. rewrite attempt_eq, Hput. split; [done|].
    eapply committed_grown; try done. by apply eq_None_not_Some.
Qed.

Lemma foldChunks_run wrap l : forall w refs,
  reliable w -> storeReady root (wdisk w) -> Forall (fun ch => cHash ch = ComputeHash (cData ch)) l ->
  exists d, foldChunks (publishChunk wrap p) refs l w = (Ok (appendSlice refs (map refOf l), None), setDisk d w)
            /\ grown (map cData l) (wdisk w) d.
Proof.
  induction l as [|ch l IH]; intros w refs Hr HR Hl; cbn [foldChunks].
  { exists (wdisk w). rewrite setDisk_same. split; [|by apply grown_nil]. by destruct refs. }
  apply Forall_cons in Hl as [Hch Hl].
  destruct (putMissing_run w (cData ch) Hr HR) as (d1 & H1 & G1).
  destruct (IH (setDisk d1 w) (appendSlice refs [refOf ch])) as (d2 & H2 & G2); [done|apply G1|done|].
  exists d2. split.
  - rewrite (ioBind_ok _ _ w (appendSlice refs [refOf ch], None) (setDisk d1 w)).
    + rewrite H2, setDisk_setDisk. by rewrite appendSlice_app.
    + unfold publishChunk. rewrite Hch, (ioBind_ok _ _ _ _ _ H1). done.
  - by apply (grown_app [_] _ _ d1).
Qed.

Lemma ChunkStream_run wrap w data :
  reliable w -> storeReady root (wdisk w) -> (blen data < 2 ^ 63)%Z -> (0 < pubChunkSize p)%Z ->
  let ck := NewChunker (pubChunkSize p) in
  exists d, ChunkStream (publishChunk wrap p) ck (data, None) NilSlice w
              = (Ok (appendSlice NilSlice (map refOf (cutStream ck data)), None), setDisk d w)
            /\ grown (map cData (cutStream ck data)) (wdisk w) d.
Proof.
  intros Hr HR Hd Hs ck.
  assert (0 < chunkSize ck)%Z as Hck by (unfold ck, NewChunker; simpl; by destruct (Z.leb_spec (pubChunkSize p) 0); [lia|]).
  rewrite ChunkStream_fold by done. apply foldChunks_run; [done..|].
  apply Forall_lookup_2. intros i ch Hi. by apply (cutStream_piece ck data i ch).
Qed.

(** ** One file *)

Definition pubChunker : Chunker := NewChunker (pubChunkSize p).

(** The chunks a file is stored as: the empty file has one, or none. *)
Definition piecesOf (data : bytes) : list bytes :=
  if bool_decide (data = []) then [[]] else cut (Z.to_nat (chunkSize pubChunker)) data.

(** The entry [f] describes [data] as the pieces [ps]. *)
Record entryFor (path : string) (data : bytes) (f : FileEntry) (ps : list bytes) : Prop := {
  ef_path : Path f = path;
  ef_refs : Forall2 (fun ref b => Hash ref = ComputeHash b /\ Size ref = blen b) (chunksOf f) ps;
  ef_data : concat ps = data;
  ef_sub : forall b, b ∈ ps -> b ∈ piecesOf data;
  ef_named : Forall chunkNamed (chunksOf f);
  ef_aligned : chunksAligned f
}.

Lemma pubChunker_pos : (0 < pubChunkSize p)%Z -> (0 < chunkSize pubChunker)%Z.
Proof. intros. unfold pubChunker, NewChunker. simpl. by destruct (Z.leb_spec (pubChunkSize p) 0); [lia|]. Qed.

Lemma entryFor_cut path data mode :
  (0 < pubChunkSize p)%Z -> (blen data < 2 ^ 63)%Z ->
  entryFor path data (mkFileEntry path (blen data) mode (appendSlice NilSlice (map refOf (cutStream pubChunker data))))
    (map cData (cutStream pubChunker data)).
Proof.
  intros Hp Hd. apply pubChunker_pos in Hp as Hc.
  assert (forall s, elems (appendSlice (A:=ChunkRef) NilSlice s) = s) as Hel by by intros [].
  destruct (cutStream_refs pubChunker data Hc Hd) as (H1 & H2 & H3).
  assert (map cData (cutStream pubChunker data) = cut (Z.to_nat (chunkSize pubChunker)) data) as Hcut by apply chunksFrom_data.
  split; unfold chunksOf; simpl; rewrite ?Hel; try done.
  - apply Forall2_fmap, Forall_Forall2_diag, Forall_lookup_2. intros i ch Hi.
    destruct (cutStream_piece pubChunker data i ch Hc Hi) as (E1 & E2 & _). by split.
  - rewrite Hcut. apply cut_concat. lia.
  - intros b. rewrite Hcut. unfold piecesOf. case_bool_decide as E; [|done].
    rewrite E, cut_nil. by intros ?%elem_of_nil.
  - split; unfold sizes, chunksOf; simpl; rewrite Hel; [exact H2|].
    rewrite H3, wrap64_id; [done|]. unfold int64_range, blen in *. lia.
Qed.

Lemma entryFor_empty path mode :
  entryFor path [] (mkFileEntry path 0 mode (Slice [mkChunkRef (ComputeHash []) 0 0])) [[]].
Proof.
  split; unfold chunksOf; simpl; try done.
  - by repeat constructor.
  - constructor; [|constructor]. unfold chunkNamed. simpl.
    split; [apply hasPrefix_app|]. split; [apply ComputeHash_length|done].
  - split; [|done]. intros [|i] c Hi; [|done]. by injection Hi as <-.
Qed.

Lemma publishFile_run w src fi data :
  reliable w -> storeReady root (wdisk w) -> (0 < pubChunkSize p)%Z -> (blen data < 2 ^ 63)%Z ->
  Src.Size fi = blen data -> Src.Open src (Src.Path fi) w = (Ok (data, None), w) ->
  exists d f ps, publishFile p src fi w = (Ok f, setDisk d w) /\ grown ps (wdisk w) d
    /\ entryFor (Src.Path fi) data f ps.
Proof.
  intros Hr HR Hp Hd Hsz Ho. unfold publishFile.
  rewrite (ioBind_ok _ _ _ _ _ (wrapErr_ok _ _ _ _ _ Ho)).
  destruct (ChunkStream_run (EWrap "failed to cache chunk") w data Hr HR Hd Hp) as (d1 & H1 & G1).
  rewrite (ioBind_ok _ _ _ _ _ H1). rewrite Hsz.
  destruct (decide (data = [])) as [->|Hne].
  - unfold emptyRef. change (map refOf _) with (@nil ChunkRef). cbn [appendSlice elems blen length Z.of_nat].
    destruct (putMissing_run (setDisk d1 w) []) as (d2 & H2 & G2); [done|apply G1|].
    exists d2. eexists _, [[]]. split_and!; [|by apply (grown_app [] _ _ d1)|apply entryFor_empty].
    rewrite (ioBind_ok _ _ _ (Slice [mkChunkRef (ComputeHash []) 0 0]) (setDisk d2 w)); [done|].
    rewrite bool_decide_eq_true_2, Z.eqb_refl by done. cbn [andb]. by rewrite (ioBind_ok _ _ _ _ _ H2).
  - exists d1. eexists _, _. split_and!; [|exact G1|by apply entryFor_cut].
    unfold emptyRef. destruct (Z.eqb_spec (blen data) 0) as [E|_]; [by destruct data|].
    by rewrite andb_false_r.
Qed.

Lemma memoryFile_run w path data :
  reliable w -> storeReady root (wdisk w) -> (0 < pubChunkSize p)%Z -> (blen data < 2 ^ 63)%Z ->
  exists d f ps, memoryFile p path data w = (Ok f, setDisk d w) /\ grown ps (wdisk w) d
    /\ entryFor path data f ps.
Proof.
  intros Hr HR Hp Hd. unfold memoryFile.
  destruct (ChunkStream_run id w data Hr HR Hd Hp) as (d1 & H1 & G1).
  rewrite (ioBind_ok _ _ _ _ _ H1). exists d1. eexists _, _. split_and!; [done|exact G1|by apply entryFor_cut].
Qed.

(** ** All files *)

(** The entries describe the files [ts], each as its pieces. *)
Definition entriesFor (ts : list (string * bytes)) (l : list (FileEntry * list bytes)) : Prop :=
  Forall2 (fun t e => entryFor t.1 t.2 e.1 e.2) ts l.

Definition entryPieces (l : list (FileEntry * list bytes)) : list bytes := concat (map snd l).

(** The part of the disk the store does not use. *)
Definition sameOutside (d d' : disk) : Prop :=
  forall k, ~ key root `prefix_of` k -> nodeAt d' k = nodeAt d k /\ contentAt d' k = contentAt d k.

Lemma outside_offStore k : ~ key root `prefix_of` k -> offStore root k.
Proof.
  intros H. split; intros [t ->]; apply H; unfold chunkRoot, partialRoot; rewrite <- app_assoc; by eexists.
Qed.

Lemma grown_outside ps d d' : grown ps d d' -> sameOutside d d'.
Proof. intros G k Hk%outside_offStore. split; by apply G. Qed.

(** The source lists [infos] and serves [content] while only the store changes. *)
Record serves (src : Src.Source X) (prefix : string) (infos : list Src.FileInfo) (content : string -> bytes)
    (w : world X) : Prop := {
  sv_list : Src.ListFiles src prefix w = (Ok infos, w);
  sv_open : forall fi d, fi ∈ infos -> sameOutside (wdisk w) d ->
    Src.Open src (Src.Path fi) (setDisk d w) = (Ok (content (Src.Path fi), None), setDisk d w);
  sv_size : forall fi, fi ∈ infos -> Src.Size fi = blen (content (Src.Path fi))
}.

Definition targetsOf (content : string -> bytes) (infos : list Src.FileInfo) : list (string * bytes) :=
  map (fun fi => (Src.Path fi, content (Src.Path fi))) infos.

Lemma publishFiles_run src prefix infos0 content w0 infos : forall i d acc,
  reliable w0 -> (0 < pubChunkSize p)%Z -> serves src prefix infos0 content w0 ->
  (forall fi, fi ∈ infos -> fi ∈ infos0) -> Forall (fun t => blen t.2 < 2 ^ 63)%Z (targetsOf content infos) ->
  storeReady root d -> sameOutside (wdisk w0) d ->
  exists d' l, publishFiles (fun _ => None) i p src infos acc (setDisk d w0)
      = (Ok (appendSlice acc (map fst l)), setDisk d' w0)
    /\ grown (entryPieces l) d d' /\ entriesFor (targetsOf content infos) l.
Proof.
  induction infos as [|fi infos IH]; intros i d acc Hr Hp Hsv Hsub Hlen HR Hout; cbn [publishFiles].
  { exists d, []. split_and!; [done|by apply grown_nil|constructor]. }
  apply Forall_cons in Hlen as [Hl Hlen]. simpl in Hl.
  assert (fi ∈ infos0) as Hfi by (apply Hsub; by constructor).
  destruct (publishFile_run (setDisk d w0) src fi (content (Src.Path fi))) as (d1 & f & ps & H1 & G1 & E1);
    [done..|by eapply sv_size|by apply (sv_open _ _ _ _ _ Hsv)|].
  rewrite (ioBind_ok _ _ _ _ _ H1). rewrite setDisk_setDisk.
  destruct (IH (S i) d1 (appendSlice acc [f])) as (d2 & l & H2 & G2 & E2); try done.
  { intros g Hg. apply Hsub. by constructor. }
  { apply G1. }
  { intros k Hk. destruct (Hout k Hk) as [<- <-]. by apply (grown_outside _ _ _ G1). }
  exists d2, ((f, ps) :: l). split_and!; [|by eapply grown_app|by constructor].
  rewrite H2, appendSlice_app. done.
Qed.

Lemma memoryFiles_run w0 ts : forall d acc,
  reliable w0 -> (0 < pubChunkSize p)%Z -> Forall (fun t => blen t.2 < 2 ^ 63)%Z ts -> storeReady root d ->
  exists d' l, memoryFiles p ts acc (setDisk d w0) = (Ok (appendSlice acc (map fst l)), setDisk d' w0)
    /\ grown (entryPieces l) d d' /\ entriesFor ts l.
Proof.
  induction ts as [|[path data] ts IH]; intros d acc Hr Hp Hlen HR; cbn [memoryFiles].
  { exists d, []. split_and!; [done|by apply grown_nil|constructor]. }
  apply Forall_cons in Hlen as [Hl Hlen].
  destruct (memoryFile_run (setDisk d w0) path data) as (d1 & f & ps & H1 & G1 & E1); [done..|].
  rewrite (ioBind_ok _ _ _ _ _ H1). rewrite setDisk_setDisk.
  destruct (IH d1 (appendSlice acc [f])) as (d2 & l & H2 & G2 & E2); [done..|apply G1|].
  exists d2, ((f, ps) :: l). split_and!; [|by eapply grown_app|by constructor].
  rewrite H2, appendSlice_app. done.
Qed.

(** ** The manifest *)

(** What publishing [ts] from a store on the disk of [w] relies on: names the
    manifest accepts, a place and a temporary name for the manifest,
    [json.MarshalIndent] not failing, and no two different pieces or stored
    chunks with the same hash. *)
Record publishable (ts : list (string * bytes)) (name version : string) (w : world X) : Prop := {
  pb_name : trimSpace name <> "";
  pb_version : trimSpace version <> "";
  pb_some : ts <> [];
  pb_len : Forall (fun t => blen t.2 < 2 ^ 63)%Z ts;
  pb_paths : NoDup (map (fun t => NormalizePath t.1) ts);
  pb_valid : Forall (fun t => validManifestPath (NormalizePath t.1) = true) ts;
  pb_json : forall m, exists data, MarshalIndent m = Ok data;
  pb_slot : forall x, hexName x -> manifestSlot root x (wdisk w);
  pb_temp : Exists (fun n => nodeAt (wdisk w) (tmpKey root n) = None) (rands w);
  pb_hash : forall a b, a ∈ concat (map (fun t => piecesOf t.2) ts) ->
    b ∈ concat (map (fun t => piecesOf t.2) ts) \/ (exists x, hexName x /\ chunkOf root (wdisk w) x = Some b) ->
    ComputeHash a = ComputeHash b -> a = b
}.

(** The entry of [t] can be written out from the store on [d] and gives its
    bytes, piece by piece. *)
Definition servable (d : disk) (t : string * bytes) (f : FileEntry) : Prop :=
  Path f = NormalizePath t.1 /\ Forall (chunkReady root d) (chunksOf f) /\ storedFile root d f = t.2
  /\ Forall (fun ref => stored root d ref ∈ piecesOf t.2) (chunksOf f).

Record published (ts : list (string * bytes)) (w : world X) (m : ArtifactManifest) (w' : world X) : Prop := {
  pd_reliable : reliable w';
  pd_ready : storeReady root (wdisk w');
  pd_valid : Validate m = Ok tt;
  pd_outside : sameOutside (wdisk w) (wdisk w');
  pd_files : exists fs, files m ≡ₚ fs /\ Forall2 (servable (wdisk w')) ts fs;
  pd_saved : (forall data, MarshalIndent m = Ok data -> Unmarshal data = Ok m) ->
    GetManifest (cache p) (ArtifactID m) w' = (Ok m, w')
}.

Lemma entryPieces_sub ts l b :
  entriesFor ts l -> b ∈ entryPieces l -> b ∈ concat (map (fun t => piecesOf t.2) ts).
Proof.
  unfold entryPieces. induction 1 as [|t e ts l He _ IH]; simpl; [done|].
  rewrite !elem_of_app. intros [Hb|Hb]; [left; by eapply ef_sub|right; auto].
Qed.

(** Every piece is in the grown store, under its hash. *)
Lemma grown_piece ts name version w l d b x :
  storeReady root (wdisk w) -> publishable ts name version w -> entriesFor ts l -> grown (entryPieces l) (wdisk w) d ->
  b ∈ entryPieces l -> ComputeHash b = "sha256:" +:+ x -> hexName x -> chunkOf root d x = Some b.
Proof.
  intros HR Hpb Hl Hg Hb Hh Hx. destruct (gr_has _ _ _ Hg b x Hb Hh) as [b' Hb']. rewrite Hb'. f_equal. symmetry.
  apply (pb_hash _ _ _ _ Hpb); [by apply (entryPieces_sub ts l)| |].
  - destruct (gr_new _ _ _ Hg x b' Hx Hb'); [right; eauto|left; by apply (entryPieces_sub ts l)].
  - rewrite Hh. symmetry. eapply chunkOf_hash; [apply Hg|done..].
Qed.

Lemma entry_servable ts name version w l d t e :
  storeReady root (wdisk w) -> publishable ts name version w -> entriesFor ts l -> grown (entryPieces l) (wdisk w) d ->
  (forall b, b ∈ e.2 -> b ∈ entryPieces l) -> entryFor t.1 t.2 e.1 e.2 ->
  servable d t (normalizeEntry e.1).
Proof.
  intros HR Hpb Hl Hg Hsub [Hpath Hrefs Hdata Hps _ _].
  assert (Forall2 (fun ref b => chunkReady root d ref /\ stored root d ref = b) (chunksOf e.1) e.2) as Hall.
  { eapply Forall2_impl; [apply (Forall2_same_length_lookup_2 (fun ref b => (Hash ref = ComputeHash b /\ Size ref = blen b) /\ b ∈ entryPieces l))|].
    - by eapply Forall2_length.
    - intros i ref b H1 H2. split; [exact (Forall2_lookup_lr _ _ _ _ _ _ Hrefs H1 H2)|]. apply Hsub. by eapply list_elem_of_lookup_2.
    - intros ref b [[Hh Hz] Hb]. destruct (ComputeHash_good b) as (x & Hx & Hhex).
      pose proof (grown_piece ts name version w l d b x HR Hpb Hl Hg Hb Hx Hhex) as Hin. split.
      + exists x, b. rewrite Hh. done.
      + unfold stored. by rewrite Hh, Hx, (strDrop_app "sha256:"), Hin. }
  split; [by simpl; rewrite Hpath|]. change (chunksOf (normalizeEntry e.1)) with (chunksOf e.1). split_and!.
  - eapply Forall2_Forall_l; [exact Hall|]. apply Forall_forall. by intros b _ ref [? _].
  - unfold storedFile. change (chunksOf (normalizeEntry e.1)) with (chunksOf e.1). rewrite <- Hdata. f_equal.
    clear -Hall. induction Hall as [|ref b refs bs [_ H] _ IH]; simpl; congruence.
  - eapply Forall2_Forall_l; [exact Hall|]. apply Forall_forall. intros b Hb ref [_ ->]. by apply Hps.
Qed.

Lemma entries_servable ts name version w l d :
  storeReady root (wdisk w) -> publishable ts name version w -> entriesFor ts l -> grown (entryPieces l) (wdisk w) d ->
  Forall2 (servable d) ts (map normalizeEntry (map fst l)).
Proof.
  intros HR Hpb Hl Hg. rewrite map_map. apply Forall2_fmap_r.
  apply Forall2_same_length_lookup_2; [by eapply Forall2_length|].
  intros i t e Ht He. eapply entry_servable; try done.
  - intros b Hb. unfold entryPieces. apply list_elem_of_In, in_concat. exists e.2.
    split; [|by apply list_elem_of_In]. apply in_map, list_elem_of_In. by eapply list_elem_of_lookup_2.
  - exact (Forall2_lookup_lr _ _ _ _ _ _ Hl Ht He).
Qed.

Lemma entries_finalizable ts name version w l :
  (0 < pubChunkSize p)%Z -> publishable ts name version w -> entriesFor ts l ->
  finalizable (newManifest p name version (appendSlice NilSlice (map fst l))).
Proof.
  intros Hp [H1 H2 H3 _ H5 H6 _ _ _ _] Hl.
  assert (files (newManifest p name version (appendSlice NilSlice (map fst l))) = map fst l) as Hf
    by (unfold files; simpl; by destruct (map fst l)).
  assert (map (fun f => NormalizePath (Path f)) (map fst l) = map (fun t => NormalizePath t.1) ts) as Hpaths.
  { rewrite map_map. clear -Hl. induction Hl as [|t e ts l He _ IH]; simpl; [done|]. by rewrite IH, (ef_path _ _ _ _ He). }
  split; rewrite ?Hf, ?Hpaths; simpl; try done; [by right|lia| |].
  - intros E. apply H3. destruct Hl; [done|]. discriminate.
  - apply Forall_fmap. clear -Hl H6. induction Hl as [|t e ts l He _ IH]; [constructor|].
    apply Forall_cons in H6 as [Hv H6]. constructor; [|by apply IH]. simpl.
    split; [by rewrite (ef_path _ _ _ _ He)|]. split; [by eapply ef_named|by eapply ef_aligned].
Qed.

Lemma untouched_stored n x d d' f :
  untouched (tmpKey root n) (manifestKey root x) d d' ->
  (forall y, chunkOf root d' y = chunkOf root d y) /\ storedFile root d' f = storedFile root d f.
Proof.
  intros Hu. assert (forall y, chunkOf root d' y = chunkOf root d y) as Hsame.
  { intros y. apply (untouched_content _ _ _ _ _ Hu); unfold chunkKey, chunkRoot, tmpKey, manifestKey;
      rewrite <- app_assoc; intros E%app_inv_head; discriminate. }
  split; [done|]. unfold storedFile. f_equal. apply map_ext. intros ref. unfold stored. by rewrite Hsame.
Qed.

Lemma grown_slot ps d d' x : grown ps d d' -> manifestSlot root x d -> manifestSlot root x d'.
Proof.
  intros G. unfold manifestSlot, manifestKey. rewrite !(gr_node _ _ _ G); [done|..]; by apply offStore_rest.
Qed.

Lemma sameOutside_trans d1 d2 d3 : sameOutside d1 d2 -> sameOutside d2 d3 -> sameOutside d1 d3.
Proof. intros H1 H2 k Hk. destruct (H1 k Hk) as [<- <-]. by apply H2. Qed.

Lemma untouched_outside n x d d' :
  untouched (tmpKey root n) (manifestKey root x) d d' -> sameOutside d d'.
Proof.
  intros Hu k Hk.
  assert (k <> tmpKey root n /\ k <> manifestKey root x) as [H1 H2]
    by (split; intros ->; apply Hk; by eexists).
  split; [by apply Hu|by eapply untouched_content].
Qed.

Lemma servable_untouched n x d d' t f :
  untouched (tmpKey root n) (manifestKey root x) d d' -> servable d t f -> servable d' t f.
Proof.
  intros Hu (H1 & H2 & H3 & H4). destruct (untouched_stored n x d d' f Hu) as [Hc Hs].
  split; [done|]. split_and!; [|by rewrite Hs|].
  - eapply Forall_impl; [exact H2|]. intros ref (y & data & ? & ? & ? & ?). exists y, data. by rewrite Hc.
  - eapply Forall_impl; [exact H4|]. intros ref. unfold stored. by rewrite Hc.
Qed.

Lemma save_run ts name version w l d :
  reliable w -> storeReady root (wdisk w) -> (0 < pubChunkSize p)%Z -> publishable ts name version w ->
  entriesFor ts l -> grown (entryPieces l) (wdisk w) d ->
  exists m w', Finalize (newManifest p name version (appendSlice NilSlice (map fst l))) = Ok m
    /\ SaveManifest (cache p) m (setDisk d w) = (Ok tt, w') /\ published ts w m w'.
Proof.
  intros Hr HR Hp Hpb Hl Hg.
  destruct (Finalize_valid _ (entries_finalizable ts name version w l Hp Hpb Hl)) as (m & Hfin & Hval & Hfiles).
  exists m. destruct (Validate_parse m Hval) as (x & Hx & Hhex).
  destruct (pb_json _ _ _ _ Hpb m) as [data Hj].
  destruct (SaveManifest_run root (cache p) HL (setDisk d w) m x data) as (n & rest & d' & Hsave & HR' & Hu & Hc);
    try done.
  { apply Hg. }
  { eapply grown_slot; [exact Hg|by apply (pb_slot _ _ _ _ Hpb)]. }
  { eapply Exists_impl; [exact (pb_temp _ _ _ _ Hpb)|]. intros k Hk. simpl.
    by rewrite (gr_node _ _ _ Hg) by apply offStore_tmp. }
  eexists. split_and!; [done|exact Hsave|]. split; [done|done|done|..].
  - eapply sameOutside_trans; [by eapply grown_outside|by eapply untouched_outside].
  - exists (map normalizeEntry (map fst l)). split.
    + rewrite Hfiles. unfold files. simpl. rewrite sortSlice_perm. by destruct (map fst l).
    + eapply Forall2_impl; [by eapply entries_servable|]. intros t f. by eapply servable_untouched.
  - intros Hback. rewrite (GetManifest_run root (cache p) HL _ (ArtifactID m) x data); try done.
    unfold ParseManifest. by rewrite (Hback data Hj), Hval.
Qed.

(** ** Writing the artifact out again *)

(** A destination apart from the store where the paths fit side by side. *)
Record placeable (ts : list (string * bytes)) (dest : string) (d : disk) : Prop := {
  pl_nodup : NoDup (map (fun t => relComps (NormalizePath t.1)) ts);
  pl_nonest : forall s t, s ∈ ts -> t ∈ ts ->
    relComps (NormalizePath s.1) `prefix_of` relComps (NormalizePath t.1) ->
    relComps (NormalizePath s.1) = relComps (NormalizePath t.1);
  pl_apart : ~ key root `prefix_of` key dest /\ ~ key dest `prefix_of` key root;
  pl_dot : Clean dest <> ".";
  pl_top : Clean dest <> "/";
  pl_vacant : vacant dest d
}.

Lemma vacant_outside dest d d' :
  ~ key root `prefix_of` key dest -> ~ key dest `prefix_of` key root -> storeReady root d' -> sameOutside d d' ->
  vacant dest d -> vacant dest d'.
Proof.
  intros H1 H2 HR Hs [_ Hb Hp]. split; [apply HR|..].
  - intros k Hk Hne. rewrite (proj1 (Hs k ltac:(intros Hr; destruct (prefix_app_both _ _ _ Hr Hk); done))). auto.
  - intros j. rewrite (proj1 (Hs (take j (key dest)) ltac:(intros Hr; apply H1; trans (take j (key dest)); [done|];
      exists (drop j (key dest)); by rewrite take_drop))). apply Hp.
Qed.

Lemma apart_chunks dest : ~ key root `prefix_of` key dest -> ~ key dest `prefix_of` key root -> apart root dest.
Proof.
  intros H1 H2. assert (key root `prefix_of` chunkRoot root) as Hr by by eexists.
  split; intros H.
  - by destruct (prefix_app_both _ _ _ Hr H).
  - apply H1. by trans (chunkRoot root).
Qed.

Lemma published_ready ts w m w' dest :
  published ts w m w' -> placeable ts dest (wdisk w) -> matReady root m dest (wdisk w').
Proof.
  intros [Hr HR Hv Hs (fs & Hfs & Hsv) _] [Hnd Hnn [Ha1 Ha2] Hd1 Hd2 Hvac].
  assert (map (fun f => relComps (Path f)) fs = map (fun t => relComps (NormalizePath t.1)) ts) as Hpaths.
  { clear -Hsv. induction Hsv as [|t f ts fs (Hp & _) _ IH]; simpl; [done|]. by rewrite IH, Hp. }
  assert (forall f, f ∈ files m -> exists t, t ∈ ts /\ servable (wdisk w') t f) as Hall.
  { intros f Hf. rewrite Hfs in Hf. apply list_elem_of_lookup_1 in Hf as [i Hi].
    destruct (Forall2_lookup_r _ _ _ _ _ Hsv Hi) as (t & Ht & Hst). exists t. split; [|done].
    by eapply list_elem_of_lookup_2. }
  split; try done.
  - intros f ref Hf Href. destruct (Hall f Hf) as (t & _ & _ & Hch & _). rewrite Forall_forall in Hch. auto.
  - change (NoDup ((fun f => relComps (Path f)) <$> files m)). rewrite Hfs.
    change (NoDup (map (fun f => relComps (Path f)) fs)). by rewrite Hpaths.
  - intros f g Hf Hg. destruct (Hall f Hf) as (s & Hs1 & -> & _), (Hall g Hg) as (t & Ht1 & -> & _). by apply Hnn.
  - by apply apart_chunks.
  - by eapply vacant_outside.
Qed.

Lemma published_materializes ts w m w' opts dest :
  Strat opts <> StrategyHardLink -> published ts w m w' -> placeable ts dest (wdisk w) ->
  exists w'', Materialize (fun _ => None) opts m (cache p) dest w' = (Ok tt, w'')
    /\ forall path data, (path, data) ∈ ts ->
         contentAt (wdisk w'') (key dest ++ relComps (NormalizePath path)) = Some data.
Proof.
  intros Hopt Hpub Hpl. pose proof (published_ready _ _ _ _ _ Hpub Hpl) as Hm.
  destruct Hpub as [Hr HR Hv Hs (fs & Hfs & Hsv) _].
  destruct (Materialize_run root (cache p) HL opts m dest w' Hr Hopt Hm) as (d & Hrun & Hct).
  exists (setDisk d w'). split; [done|]. intros path data Hin. apply list_elem_of_lookup_1 in Hin as [i Hi].
  destruct (Forall2_lookup_l _ _ _ _ _ Hsv Hi) as (f & Hf & Hp & _ & Hd & _).
  simpl in Hp, Hd. rewrite <- Hp, <- Hd. apply Hct. rewrite Hfs. by eapply list_elem_of_lookup_2.
Qed.

End properties.

(** [Publish] of a source that serves its files. *)
Lemma Publish_run {D : Digest} {SS : SortSlice} {MC : ManifestCodec} {X : Type} root (c : ChunkStore X) size
    src prefix infos content name version w
    (HL : storeLayout root c) (Hhook : silentHook c) (Hr : reliable w) (HR : storeReady root (wdisk w))
    (Hsrc : serves root src prefix infos content w)
    (Hpub : publishable root (NewPublisher c size) (targetsOf content infos) name version w) :
  exists m w', Publish (fun _ => None) (NewPublisher c size) src prefix name version w = (Ok m, w')
    /\ published root (NewPublisher c size) (targetsOf content infos) w m w'.
Proof.
  set (p := NewPublisher c size) in *.
  assert (0 < pubChunkSize p)%Z as Hp by (unfold p, NewPublisher; simpl; by destruct (Z.leb_spec size 0); [|lia]).
  destruct (publishFiles_run root p HL Hhook src prefix infos content w infos 0 (wdisk w) NilSlice)
    as (d & l & Hfiles & Hg & Hl); try done; [apply Hpub|].
  destruct (save_run root p HL (targetsOf content infos) name version w l d Hr HR Hp Hpub Hl Hg)
    as (m & w' & Hfin & Hsave & Hpd).
  exists m, w'. split; [|done].
  unfold Publish. rewrite (ioBind_ok _ _ _ _ _ (wrapErr_ok _ _ _ _ _ (sv_list _ _ _ _ _ _ Hsrc))).
  rewrite bool_decide_eq_false_2 by (intros ->; by destruct (pb_some _ _ _ _ _ _ Hpub)).
  rewrite setDisk_same in Hfiles. rewrite (ioBind_ok _ _ _ _ _ Hfiles), Hfin.
  rewrite (ioBind_ok _ _ _ m (setDisk d w)) by done.
  by rewrite (ioBind_ok _ _ _ _ _ (wrapErr_ok _ _ _ _ _ Hsave)).
Qed.

Lemma Publish_materializes {D : Digest} {SS : SortSlice} {MC : ManifestCodec} {X : Type} root (c : ChunkStore X) size
    src prefix infos content name version opts dest w
    (HL : storeLayout root c) (Hhook : silentHook c) (Hr : reliable w) (HR : storeReady root (wdisk w))
    (Hsrc : serves root src prefix infos content w)
    (Hpub : publishable root (NewPublisher c size) (targetsOf content infos) name version w)
    (Hopts : Strat opts <> StrategyHardLink) (Hpl : placeable root (targetsOf content infos) dest (wdisk w)) :
  exists m w', Publish (fun _ => None) (NewPublisher c size) src prefix name version w = (Ok m, w')
    /\ ((forall data, MarshalIndent m = Ok data -> Unmarshal data = Ok m) ->
        GetManifest c (ArtifactID m) w' = (Ok m, w'))
    /\ exists w'', Materialize (fun _ => None) opts m c dest w' = (Ok tt, w'')
         /\ forall fi, fi ∈ infos ->
              contentAt (wdisk w'') (key dest ++ relComps (NormalizePath (Src.Path fi)))
              = Some (content (Src.Path fi)).
Proof.
  destruct (Publish_run root c size src prefix infos content name version w HL Hhook Hr HR Hsrc Hpub) as (m & w' & Hrun & Hpd).
  exists m, w'. split; [done|]. split; [exact (pd_saved _ _ _ _ _ _ Hpd)|].
  destruct (published_materializes root (NewPublisher c size) HL _ w m w' opts dest Hopts Hpd Hpl) as (w'' & Hmat & Hct).
  exists w''. split; [done|]. intros fi Hfi. apply Hct. apply list_elem_of_fmap. by exists fi.
Qed.

(** C7. Publishing and materialising round trip. On a reliable disk, with a
    store whose directories are there and whose commit hook changes nothing:
    when the source lists some files and serves their bytes, none of them of
    2^63 bytes or more, name and version are not blank, the normalised paths
    are valid and distinct, the manifest can be encoded and has room for its
    file, and pieces and stored chunks with equal hashes are equal, [Publish]
    returns a manifest. If the codec decodes what it encoded for it,
    [GetManifest] reads the manifest back. And copying the manifest into a
    vacant directory apart from the store, not the root or the working
    directory, where no two paths clean to the same file or nest, returns
    without error and puts exactly the bytes of every source file at its
    normalised path. *)
Theorem Publish_roundtrip {D : Digest} {SS : SortSlice} {MC : ManifestCodec} {X : Type} root (c : ChunkStore X) size
    src prefix infos content name version opts dest w
    (HL : storeLayout root c) (Hhook : silentHook c) (Hr : reliable w) (HR : storeReady root (wdisk w))
    (Hsrc : serves root src prefix infos content w)
    (Hpub : publishable root (NewPublisher c size) (targetsOf content infos) name version w)
    (Hopts : Strat opts <> StrategyHardLink) (Hpl : placeable root (targetsOf content infos) dest (wdisk w)) :
  exists m w', Publish (fun _ => None) (NewPublisher c size) src prefix name version w = (Ok m, w')
    /\ ((forall data, MarshalIndent m = Ok data -> Unmarshal data = Ok m) ->
        GetManifest c (ArtifactID m) w' = (Ok m, w'))
    /\ exists w'', Materialize (fun _ => None) opts m c dest w' = (Ok tt, w'')
         /\ forall fi, fi ∈ infos ->
              contentAt (wdisk w'') (key dest ++ relComps (NormalizePath (Src.Path fi)))
              = Some (content (Src.Path fi)).
Proof. by eapply Publish_materializes. Qed.

(** The same for files in memory. *)
Lemma PublishFromMemory_run {D : Digest} {SS : SortSlice} {MC : ManifestCodec} {X : Type} root (c : ChunkStore X) size
    fs name version opts dest w :
  storeLayout root c -> silentHook c -> reliable w -> storeReady root (wdisk w) ->
  publishable root (NewPublisher c size) (map_to_list fs) name version w ->
  Strat opts <> StrategyHardLink -> placeable root (map_to_list fs) dest (wdisk w) ->
  exists m w' w'', PublishFromMemory (NewPublisher c size) name version fs w = (Ok m, w')
    /\ Materialize (fun _ => None) opts m c dest w' = (Ok tt, w'')
    /\ forall path data, fs !! path = Some data ->
         contentAt (wdisk w'') (key dest ++ relComps (NormalizePath path)) = Some data.
Proof.
  intros HL Hhook Hr HR Hpub Hopts Hpl. set (p := NewPublisher c size) in *.
  assert (0 < pubChunkSize p)%Z as Hp by (unfold p, NewPublisher; simpl; by destruct (Z.leb_spec size 0); [|lia]).
  destruct (memoryFiles_run root p HL Hhook w (map_to_list fs) (wdisk w) NilSlice) as (d & l & Hfiles & Hg & Hl);
    try done; [apply Hpub|].
  destruct (save_run root p HL (map_to_list fs) name version w l d Hr HR Hp Hpub Hl Hg)
    as (m & w' & Hfin & Hsave & Hpd).
  destruct (published_materializes root p HL _ w m w' opts dest Hopts Hpd Hpl) as (w'' & Hrun & Hct).
  exists m, w', w''. split_and!; [|done|].
  - unfold PublishFromMemory. rewrite setDisk_same in Hfiles. rewrite (ioBind_ok _ _ _ _ _ Hfiles), Hfin.
    rewrite (ioBind_ok _ _ _ m (setDisk d w)) by done. by rewrite (ioBind_ok _ _ _ _ _ Hsave).
  - intros path data Hin. by apply Hct, elem_of_map_to_list.
Qed.

(** ** A concrete run *)

(** A source with the same three bytes in two files. *)
Definition demoInfos : list Src.FileInfo := [Src.mkInfo "dir/a.txt" 3 "0600"; Src.mkInfo "b.txt" 3 ""].

Definition demoSource : Src.Source unit :=
  Src.mkSource (fun _ => ioRet demoInfos) (fun _ _ _ => ioRet (abc, Ok 3%Z)) (fun _ => ioRet (abc, None)).

Definition drawWorld : world unit := World (wdisk readyWorld) [] [7%N] 0 tt.

Lemma readyWorld_nofile k i : nodeAt (wdisk readyWorld) k <> Some (FileN i).
Proof.
  intros H. assert (allEntries (fun _ n => negb (isFile (Some n))) (wdisk readyWorld) = true) as Hall
    by (vm_compute; reflexivity).
  assert (k <> []) as Hk by (intros ->; discriminate H). discriminate (allEntries_sound _ _ _ _ Hall Hk H).
Qed.

Lemma contentAt_none d k : (forall i, nodeAt d k <> Some (FileN i)) -> contentAt d k = None.
Proof. unfold contentAt. destruct (nodeAt d k) as [[|i]|]; try done. intros H. by destruct (H i). Qed.

Lemma readyWorld_slot x : manifestSlot "/s" x (wdisk readyWorld).
Proof.
  split; [vm_compute; reflexivity|]. intros H.
  assert (allEntries (fun k _ => negb (bool_decide (length k = 3) && bool_decide (k !! 1 = Some "manifests")))
    (wdisk readyWorld) = true) as Hall by (vm_compute; reflexivity).
  assert (manifestKey "/s" x <> []) as Hne by (vm_compute; discriminate).
  pose proof (allEntries_sound _ _ _ _ Hall Hne H) as Hbad. vm_compute in Hbad. discriminate Hbad.
Qed.

Lemma demo_serves : serves "/s" demoSource "" demoInfos (fun _ => abc) drawWorld.
Proof.
  split; [done|done|]. intros fi [->|[->|[]%elem_of_nil]%elem_of_cons]%elem_of_cons; reflexivity.
Qed.

(** A codec of manifests that decodes what it encodes. *)
Definition sliceList {A} (s : slice A) : option (list A) := match s with NilSlice => None | Slice l => Some l end.
Definition listSlice {A} (o : option (list A)) : slice A := match o with None => NilSlice | Some l => Slice l end.

Definition refTuple (r : ChunkRef) := (Hash r, Offset r, Size r).
Definition tupleRef t : ChunkRef := let '(a, b, c) := t in mkChunkRef a b c.
Definition entryTuple (f : FileEntry) := (Path f, FSize f, Mode f, map refTuple <$> sliceList (Chunks f)).
Definition tupleEntry t : FileEntry := let '(a, b, c, d) := t in mkFileEntry a b c (listSlice (map tupleRef <$> d)).
Definition manifestTuple (m : ArtifactManifest) :=
  (SchemaVersion m, ArtifactID m, Name m, Version m, ChunkSize m, TotalSize m, map entryTuple <$> sliceList (Files m)).
Definition tupleManifest t : ArtifactManifest :=
  let '(a, b, c, d, e, f, g) := t in mkManifest a b c d e f (listSlice (map tupleEntry <$> g)).

Definition countCodec : ManifestCodec := {|
  MarshalIndent := fun m => Ok (countEncode (manifestTuple m));
  Unmarshal := fun data => match countDecode data with Some t => Ok (tupleManifest t) | None => Err (EText "not JSON") end
|}.

Lemma map_inverse {A B} (f : A -> B) (g : B -> A) l : (forall a, g (f a) = a) -> map g (map f l) = l.
Proof. intros H. rewrite map_map. rewrite <- (map_id l) at 2. by apply map_ext. Qed.

Lemma tupleEntry_entryTuple f : tupleEntry (entryTuple f) = f.
Proof. destruct f as [? ? ? [|l]]; [done|]. cbn. rewrite map_inverse; [done|]. by intros []. Qed.

Lemma countCodec_law m data : MarshalIndent (ManifestCodec:=countCodec) m = Ok data -> Unmarshal (ManifestCodec:=countCodec) data = Ok m.
Proof.
  intros [= <-]. cbn [Unmarshal countCodec]. rewrite countDecode_encode.
  destruct m as [? ? ? ? ? ? [|l]]; [done|]. cbn. rewrite map_inverse; [done|]. apply tupleEntry_entryTuple.
Qed.

Lemma demo_publishable :
  publishable (MC:=countCodec) "/s" (NewPublisher demoStore 4) (targetsOf (fun _ => abc) demoInfos) "demo" "1.0" drawWorld.
Proof.
  split.
  - by vm_compute.
  - by vm_compute.
  - done.
  - by repeat constructor.
  - apply (bool_decide_unpack _). vm_compute. exact I.
  - repeat constructor.
  - intros m. by eexists.
  - intros x _. apply readyWorld_slot.
  - constructor. vm_compute. reflexivity.
  - change (concat _) with [abc; abc]. intros a b Ha [Hb|(x & _ & Hb)] _.
    + set_solver.
    + exfalso. unfold chunkOf in Hb.
      rewrite contentAt_none in Hb; [discriminate Hb|]. apply readyWorld_nofile.
Qed.

Lemma demo_placeable : placeable "/s" (targetsOf (fun _ => abc) demoInfos) "/out" (wdisk drawWorld).
Proof.
  split.
  - apply (bool_decide_unpack _). vm_compute. exact I.
  - intros s t [->|[->|[]%elem_of_nil]%elem_of_cons]%elem_of_cons [->|[->|[]%elem_of_nil]%elem_of_cons]%elem_of_cons;
      try done; intros [r Hr]; discriminate Hr.
  - split; intros [t Ht]; discriminate Ht.
  - by vm_compute.
  - by vm_compute.
  - apply vacantb_sound; [vm_compute; reflexivity|done].
Qed.

Lemma Publish_roundtrip_witness :
  exists m w' w'', Publish (MC:=countCodec) (fun _ => None) (NewPublisher demoStore 4) demoSource "" "demo" "1.0" drawWorld
      = (Ok m, w')
    /\ GetManifest (MC:=countCodec) demoStore (ArtifactID m) w' = (Ok m, w')
    /\ Materialize (fun _ => None) DefaultOptions m demoStore "/out" w' = (Ok tt, w'')
    /\ contentAt (wdisk w'') ["out"; "dir"; "a.txt"] = Some abc.
Proof.
  destruct (Publish_roundtrip (MC:=countCodec) "/s" demoStore 4 demoSource "" demoInfos (fun _ => abc) "demo" "1.0"
    DefaultOptions "/out" drawWorld) as (m & w' & H1 & H0 & w'' & H2 & H3).
  - by apply storeAt_layout.
  - done.
  - done.
  - exact readyWorld_ready.
  - exact demo_serves.
  - exact demo_publishable.
  - done.
  - exact demo_placeable.
  - exists m, w', w''. split; [exact H1|]. split; [exact (H0 (countCodec_law m))|]. split; [exact H2|].
    refine (H3 (Src.mkInfo "dir/a.txt" 3 "0600") _). by constructor.
Defined.
