(* ===== verification/PublishDir.v ===== *)
(** * Publishing a local directory

    The directory source (pkg/source/fs.go) serves the files below its
    directory, so that publishing a directory (pkg/engine/publisher.go) and
    writing the artifact out (pkg/materializer) copies it. *)

From S2P Require Import Prelude Digest GoPath Json Manifest SafePath GoFs Chunker ChunkStore StoreRuns Materializer Verifier.
From S2P Require Import Source Publisher.
Local Open Scope go_scope.

(** ** Paths made of names *)

Abbreviation allNames cs := (Forall (fun c => isName c = true) cs).

Section paths.
Context (cs : list string) (Hcs : allNames cs) (Hne : cs <> []).

Lemma split_names : split (joinSlash cs) = cs.
Proof. apply split_join; [done|]. by apply names_noSlash. Qed.

Lemma render_names : render false cs = joinSlash cs.
Proof. by destruct cs. Qed.

Lemma IsAbs_names : IsAbs (joinSlash cs) = false.
Proof.
  rewrite <- render_names. apply IsAbs_render; [by apply names_noSlash|].
  eapply Forall_impl; [exact Hcs|]. by intros c (_ & ? & _)%isName_inv.
Qed.

Lemma relComps_names : relComps (joinSlash cs) = cs.
Proof. unfold relComps. rewrite split_names. by apply cleanComps_names. Qed.

Lemma Clean_names : Clean (joinSlash cs) = joinSlash cs.
Proof. rewrite Clean_rel by apply IsAbs_names. by rewrite relComps_names, render_names. Qed.

Lemma NormalizePath_names : NormalizePath (joinSlash cs) = joinSlash cs.
Proof.
  unfold NormalizePath, trimPrefix. rewrite Clean_names. pose proof IsAbs_names as Ha. unfold IsAbs in Ha. rewrite Ha.
  destruct (hasPrefix "./" (joinSlash cs)) eqn:E; [|done]. exfalso. apply hasPrefix_iff in E as [t Et].
  pose proof split_names as Hs. rewrite Et in Hs.
  change ("./" +:+ t) with ("." +:+ "/" +:+ t) in Hs. rewrite (split_app_slash "." t) in Hs by done.
  rewrite <- Hs in Hcs. apply Forall_cons in Hcs as [Hd _]. discriminate Hd.
Qed.

Lemma validManifestPath_names : validManifestPath (joinSlash cs) = true.
Proof.
  apply validManifestPath_iff. rewrite relComps_names. split; [|done]. split; [apply IsAbs_names|]. by rewrite relComps_names.
Qed.

Context (base : string) (Hb : IsAbs base = true).

Lemma base_nonempty : base <> "".
Proof. by intros ->. Qed.

Lemma key_below : key (Join (base :: cs)) = key base ++ cs.
Proof. apply key_Join_names; [apply base_nonempty|done]. Qed.

Lemma Join_below : Join [base; joinSlash cs] = Join (base :: cs).
Proof.
  rewrite !Join_Clean by apply base_nonempty. f_equal. destruct cs as [|c cs']; [done|]. by rewrite joinSlash_cons2.
Qed.

Lemma dropCommon_app l : dropCommon l (l ++ cs) = ([], cs).
Proof. induction l as [|x l IH]; [by destruct cs|]. simpl. by rewrite bool_decide_eq_true_2. Qed.

Lemma IsAbs_below : IsAbs (Join (base :: cs)) = true.
Proof.
  rewrite Join_Clean, IsAbs_Clean by apply base_nonempty. apply hasPrefix_iff in Hb as [t ->].
  destruct cs as [|c cs']; [done|]. rewrite joinSlash_cons2. by destruct t.
Qed.

Lemma Rel_names : Rel base (Join (base :: cs)) = Some (joinSlash cs).
Proof.
  unfold Rel. rewrite bool_decide_eq_false_2.
  2: { intros E%(f_equal key). rewrite !key_Clean, key_below in E.
       apply (f_equal length) in E. rewrite length_app in E. destruct cs; [done|]. simpl in E. lia. }
  rewrite Hb, IsAbs_below, (bool_decide_eq_true_2 (true = true)) by done. cbn [negb].
  change (cleanComps true (split base)) with (key base).
  change (cleanComps true (split (Join (base :: cs)))) with (key (Join (base :: cs))).
  by rewrite key_below, dropCommon_app.
Qed.

End paths.

(** ** The directory as a source *)

Lemma visit_reliable_on {X A} (fn : A -> string -> FileInfo -> res A) g root l (w : world X) :
  reliable w ->
  (forall kn a, kn ∈ l -> fn a (walkPath root kn.1) (nodeInfo (wdisk w) kn.1 kn.2) = Ok (g a kn)) ->
  forall acc, visit fn root acc l w = (Ok (fold_left g l acc, None), w).
Proof.
  intros Hr. induction l as [|[k n] l IH]; intros Hg acc; [done|]. cbn [visit].
  rewrite (ioBind_ok _ _ w (Ok (nodeInfo (wdisk w) k n)) w)
    by (rewrite attempt_eq, syscall_reliable by done; simpl; by rewrite setDisk_same).
  pose proof (Hg (k, n) acc ltac:(by left)) as H1. cbn [fst snd] in H1. rewrite H1. apply IH. intros kn a Hkn. apply Hg. by right.
Qed.

Lemma fold_left_app_concat {A B} (f : A -> list B) l : forall acc,
  fold_left (fun a x => a ++ f x) l acc = acc ++ concat (map f l).
Proof. induction l as [|x l IH]; intros acc; simpl; [by rewrite app_nil_r|]. by rewrite IH, app_assoc. Qed.

Section directory.
Context {X : Type} (base : string).

(** What is listed for an entry of the walk. *)
Definition infoOf (d : disk) (kn : list string * node) : list Src.FileInfo :=
  match kn.2 with
  | DirN => []
  | FileN i => [Src.mkInfo (joinSlash (drop (length (key base)) kn.1)) (blen (idata (getInode d i)))
                  (octal4 (Perm (iperm (getInode d i))))]
  end.

Definition infosOf (d : disk) : list Src.FileInfo := concat (map (infoOf d) (walkList d (key base))).

(** The bytes of the file under a listed path. *)
Definition contentOf (d : disk) (path : string) : bytes := default [] (contentAt d (key base ++ relComps path)).

(** A directory whose entries have file names.  The source cannot open a file
    whose path begins with two dots. *)
Record sourceDir (d : disk) : Prop := {
  sd_abs : IsAbs base = true;
  sd_dir : nodeAt d (key base) = Some DirN;
  sd_names : forall cs, is_Some (nodeAt d (key base ++ cs)) -> allNames cs;
  sd_dots : forall cs i, nodeAt d (key base ++ cs) = Some (FileN i) -> hasPrefix ".." (joinSlash cs) = false
}.

Context (d : disk) (Hd : sourceDir d).

(** The files below the directory. *)
Lemma elem_of_infosOf fi :
  fi ∈ infosOf d <-> exists cs i, nodeAt d (key base ++ cs) = Some (FileN i)
    /\ fi = Src.mkInfo (joinSlash cs) (blen (idata (getInode d i))) (octal4 (Perm (iperm (getInode d i)))).
Proof.
  unfold infosOf. rewrite list_elem_of_In, in_concat. split.
  - intros (l & Hl & Hin). apply in_map_iff in Hl as ([k n] & <- & Hk). apply list_elem_of_In, elem_of_walkList in Hk as (Hn & [cs ->] & _).
    destruct n as [|i]; [done|]. unfold infoOf in Hin. simpl in Hin. rewrite drop_app_length in Hin. destruct Hin as [<-|[]]. eauto.
  - intros (cs & i & Hn & ->). eexists. split.
    + apply in_map_iff. exists (key base ++ cs, FileN i). split; [reflexivity|]. apply list_elem_of_In, elem_of_walkList.
      split; [done|]. split; [by eexists|]. rewrite (sd_dir _ Hd). eauto.
    + unfold infoOf. simpl. rewrite drop_app_length. by left.
Qed.

(** The names of a file below the directory. *)
Lemma file_names cs i : nodeAt d (key base ++ cs) = Some (FileN i) -> allNames cs /\ cs <> [].
Proof.
  intros Hn. split; [apply (sd_names _ Hd); by rewrite Hn|]. intros ->. rewrite app_nil_r, (sd_dir _ Hd) in Hn. done.
Qed.

Lemma contentOf_file cs i :
  nodeAt d (key base ++ cs) = Some (FileN i) -> contentOf d (joinSlash cs) = idata (getInode d i).
Proof.
  intros Hn. destruct (file_names cs i Hn) as [H1 H2]. unfold contentOf. rewrite relComps_names by done.
  unfold contentAt. by rewrite Hn.
Qed.

Lemma ListFiles_dir (w : world X) ctx :
  reliable w -> wdisk w = d -> (forall p, ctx p = None) ->
  FsSource.ListFiles (FsSource.mkFs base "") ctx "" w = (Ok (infosOf d), w).
Proof.
  intros Hr Hw Hctx. unfold FsSource.ListFiles. rewrite bool_decide_eq_true_2 by done.
  rewrite (ioBind_ok _ _ w base w) by done. unfold Walk. cbn [FsSource.baseDir].
  rewrite (ioBind_ok _ _ w (infosOf d, None) w); [done|].
  rewrite Hw, (sd_dir _ Hd). rewrite (visit_reliable_on _ (fun a kn => a ++ infoOf d kn)); [|done|].
  { by rewrite fold_left_app_concat. }
  intros [k n] a Hk. apply elem_of_walkList in Hk as (Hn & [cs ->] & _). unfold FsSource.listEntry. rewrite Hctx, Hw.
  destruct n as [|i]; cbn [fst snd nodeInfo fiDir dirInfo fileInfo infoOf]; [by rewrite app_nil_r|].
  destruct (file_names cs i Hn) as [H1 H2]. cbn [FsSource.baseDir FsSource.only].
  assert (walkPath base (key base ++ cs) = Join (base :: cs)) as ->.
  { destruct cs as [|c cs]; [done|]. by apply walkPath_below. }
  rewrite (Rel_names cs H1 H2 base (sd_abs _ Hd)). rewrite bool_decide_eq_true_2 by done. cbn [negb andb].
  unfold infoOf. cbn [fst snd]. by rewrite drop_app_length, NormalizePath_names.
Qed.

Lemma OpenFile_dir (w : world X) cs i :
  reliable w -> nodeAt d (key base ++ cs) = Some (FileN i) ->
  contentAt (wdisk w) (key base ++ cs) = Some (idata (getInode d i)) ->
  FsSource.OpenFile (FsSource.mkFs base "") (joinSlash cs) w = (Ok (idata (getInode d i), None), w).
Proof.
  intros Hr Hn Hc. destruct (file_names cs i Hn) as [H1 H2]. unfold FsSource.OpenFile, FsSource.resolve. cbn [FsSource.baseDir].
  pose proof (sd_abs _ Hd) as Hb.
  rewrite NormalizePath_names, (Join_below cs H1 H2 base Hb), (Rel_names cs H1 H2 base Hb), (sd_dots _ Hd cs i Hn) by done.
  rewrite (ioBind_ok _ _ w (Join (base :: cs)) w) by done.
  unfold contentAt in Hc. destruct (nodeAt (wdisk w) (key base ++ cs)) as [[|j]|] eqn:E; try done. injection Hc as Hc.
  rewrite (ioBind_ok _ _ w (HFile j 0) w) by (apply Open_file; [done|]; by rewrite key_below).
  rewrite readRest_reliable by done. cbn [contents]. by rewrite Hc.
Qed.

(** The source serves its files while only a store elsewhere changes. *)
Lemma directory_serves root (w : world X) :
  reliable w -> wdisk w = d -> ~ key root `prefix_of` key base -> ~ key base `prefix_of` key root ->
  serves root (FsSource.asSource (FsSource.mkFs base "") (fun _ => None)) "" (infosOf d) (contentOf d) w.
Proof.
  intros Hr Hw H1 H2. split.
  - by apply ListFiles_dir.
  - intros fi d' (cs & i & Hn & ->)%elem_of_infosOf Hs. cbn [Src.Path]. rewrite (contentOf_file cs i Hn).
    apply OpenFile_dir; [by apply reliable_setDisk|done|]. rewrite wdisk_setDisk.
    destruct (Hs (key base ++ cs)) as [_ ->].
    { intros Hp. destruct (prefix_app_both _ _ _ Hp (ltac:(by eexists) : key base `prefix_of` key base ++ cs)); done. }
    rewrite Hw. unfold contentAt. by rewrite Hn.
  - intros fi (cs & i & Hn & ->)%elem_of_infosOf. cbn [Src.Path Src.Size]. by rewrite (contentOf_file cs i Hn).
Qed.

End directory.

(** ** Publishing a directory and writing it out *)

Section tree.
Context (base : string).

(** The elements of the paths of the files, in the order of the walk. *)
Definition compsOf (l : list (list string * node)) : list (list string) :=
  concat (map (fun kn => match kn.2 with DirN => [] | FileN _ => [drop (length (key base)) kn.1] end) l).

Lemma elem_of_compsOf cs l : cs ∈ compsOf l -> exists kn, kn ∈ l /\ cs = drop (length (key base)) kn.1.
Proof.
  unfold compsOf. rewrite list_elem_of_In, in_concat. intros (x & Hx & Hin). apply in_map_iff in Hx as ([k n] & <- & Hk).
  exists (k, n). split; [by apply list_elem_of_In|]. destruct n; [done|]. by destruct Hin as [<-|[]].
Qed.

Lemma NoDup_compsOf l :
  NoDup l.*1 -> (forall kn, kn ∈ l -> key base `prefix_of` kn.1) -> NoDup (compsOf l).
Proof.
  induction l as [|[k n] l IH]; intros Hnd Hp; [constructor|]. apply NoDup_cons in Hnd as [Hni Hnd].
  assert (NoDup (compsOf l)) as Hl by (apply IH; [done|]; intros kn Hkn; apply Hp; by right).
  unfold compsOf. cbn [map concat]. destruct n as [|i]; [exact Hl|]. simpl. constructor; [|exact Hl].
  intros ([k' n'] & Hin & E)%elem_of_compsOf. simpl in *. apply Hni, list_elem_of_fmap. exists (k', n'). split; [|done]. simpl.
  destruct (Hp (k, FileN i)) as [cs Hk]; [by left|]. destruct (Hp (k', n')) as [cs' Hk']; [by right|]. simpl in *. subst k k'.
  by rewrite !drop_app_length in E; subst.
Qed.

Context (d : disk) (Hd : sourceDir base d).

(** The files of the directory with their bytes. *)
Definition dirFiles : list (string * bytes) := targetsOf (contentOf base d) (infosOf base d).

Lemma elem_of_dirFiles t :
  t ∈ dirFiles <-> exists cs data, contentAt d (key base ++ cs) = Some data /\ t = (joinSlash cs, data).
Proof.
  unfold dirFiles, targetsOf. rewrite list_elem_of_fmap. split.
  - intros (fi & -> & Hfi). apply elem_of_infosOf in Hfi as (cs & i & Hn & ->); [|done]. exists cs, (idata (getInode d i)).
    cbn [Src.Path]. split; [unfold contentAt; by rewrite Hn|]. by rewrite (contentOf_file base d Hd cs i).
  - intros (cs & data & Hc & ->). unfold contentAt in Hc. destruct (nodeAt d (key base ++ cs)) as [[|i]|] eqn:Hn; try done.
    injection Hc as <-. eexists. split; [|apply elem_of_infosOf; eauto]. cbn [Src.Path]. by rewrite (contentOf_file base d Hd cs i).
Qed.

Lemma content_names cs data : contentAt d (key base ++ cs) = Some data -> allNames cs /\ cs <> [].
Proof.
  unfold contentAt. destruct (nodeAt d (key base ++ cs)) as [[|i]|] eqn:Hn; try done. intros _. by eapply file_names.
Qed.

Lemma dirFiles_comps :
  map (fun t => relComps (NormalizePath t.1)) dirFiles = compsOf (walkList d (key base)).
Proof.
  unfold dirFiles, targetsOf, infosOf, compsOf. rewrite map_map. simpl.
  assert (forall kn, kn ∈ walkList d (key base) -> nodeAt d kn.1 = Some kn.2 /\ key base `prefix_of` kn.1) as Hl.
  { intros [k n] (? & ? & _)%elem_of_walkList. done. }
  induction (walkList d (key base)) as [|[k n] l IH]; [done|]. cbn [map concat]. rewrite map_app, IH by (intros kn Hkn; apply Hl; by right).
  f_equal. destruct (Hl (k, n)) as [Hn [cs Hk]]; [by left|]. simpl in *. subst k. destruct n as [|i]; [done|].
  unfold infoOf. simpl. rewrite drop_app_length. destruct (file_names base d Hd cs i Hn) as [H1 H2].
  by rewrite NormalizePath_names, relComps_names.
Qed.

Lemma dirFiles_NoDup : NoDup (map (fun t => relComps (NormalizePath t.1)) dirFiles).
Proof.
  rewrite dirFiles_comps. apply NoDup_compsOf; [apply NoDup_walkList|]. by intros [k n] (_ & ? & _)%elem_of_walkList.
Qed.

(** No file of the directory is below another one. *)
Lemma dirFiles_apart s t :
  wfDisk d -> s ∈ dirFiles -> t ∈ dirFiles ->
  relComps (NormalizePath s.1) `prefix_of` relComps (NormalizePath t.1) ->
  relComps (NormalizePath s.1) = relComps (NormalizePath t.1).
Proof.
  intros Hwf (cs & data & Hc & ->)%elem_of_dirFiles (cs' & data' & Hc' & ->)%elem_of_dirFiles. simpl.
  destruct (content_names cs data Hc) as [H1 H2], (content_names cs' data' Hc') as [H3 H4].
  rewrite !NormalizePath_names, !relComps_names by done. intros [[|x r] ->]; [by rewrite app_nil_r|]. exfalso.
  assert (nodeAt d (take (length (key base ++ cs)) (key base ++ cs ++ x :: r)) = Some DirN) as Hdir.
  { apply wf_prefix; [done| |rewrite !length_app; simpl; lia]. unfold contentAt in Hc'.
    destruct (nodeAt d (key base ++ cs ++ x :: r)); [by eexists|done]. }
  rewrite app_assoc, take_app_length in Hdir. unfold contentAt in Hc. by rewrite Hdir in Hc.
Qed.

End tree.

(** A directory apart from the store that can be published: some file, no file
    too long, no two pieces or chunks with one hash, and room for the manifest. *)
Record dirPublishable {D : Digest} {MC : ManifestCodec} {X : Type} (root : string) (c : ChunkStore X) (size : Z)
    (base name version : string) (w : world X) : Prop := {
  dp_source : sourceDir base (wdisk w);
  dp_apart : ~ key root `prefix_of` key base /\ ~ key base `prefix_of` key root;
  dp_some : exists cs data, contentAt (wdisk w) (key base ++ cs) = Some data;
  dp_len : forall cs data, contentAt (wdisk w) (key base ++ cs) = Some data -> (blen data < 2 ^ 63)%Z;
  dp_name : trimSpace name <> "";
  dp_version : trimSpace version <> "";
  dp_json : forall m, exists data, MarshalIndent m = Ok data;
  dp_slot : forall x, hexName x -> manifestSlot root x (wdisk w);
  dp_temp : Exists (fun n => nodeAt (wdisk w) (tmpKey root n) = None) (rands w);
  dp_hash : forall a b, a ∈ concat (map (fun t => piecesOf (NewPublisher c size) t.2) (dirFiles base (wdisk w))) ->
    b ∈ concat (map (fun t => piecesOf (NewPublisher c size) t.2) (dirFiles base (wdisk w)))
    \/ (exists x, hexName x /\ chunkOf root (wdisk w) x = Some b) -> ComputeHash a = ComputeHash b -> a = b
}.

Lemma dir_publishable {D : Digest} {MC : ManifestCodec} {X : Type} root (c : ChunkStore X) size base name version w :
  dirPublishable root c size base name version w ->
  publishable root (NewPublisher c size) (dirFiles base (wdisk w)) name version w.
Proof.
  intros [Hd Hap Hsome Hlen Hname Hversion Hjson Hslot Htemp Hhash].
  split; try done.
  - destruct Hsome as (cs & data & Hs). intros E. assert ((joinSlash cs, data) ∈ dirFiles base (wdisk w)) as Hin
      by (apply elem_of_dirFiles; [done|]; eauto). rewrite E in Hin. by apply elem_of_nil in Hin.
  - apply Forall_forall. intros t (cs & data & Hs & ->)%(elem_of_dirFiles base (wdisk w) Hd). by eapply Hlen.
  - pose proof (dirFiles_NoDup base (wdisk w) Hd) as Hnd.
    rewrite <- (map_map (fun t => NormalizePath t.1) relComps) in Hnd. by apply NoDup_fmap_1 in Hnd.
  - apply Forall_forall. intros t (cs & data & Hs & ->)%(elem_of_dirFiles base (wdisk w) Hd). simpl.
    destruct (content_names base (wdisk w) Hd cs data Hs). rewrite NormalizePath_names by done. by apply validManifestPath_names.
Qed.

(** What is written for every file of a directory is what the directory has. *)
Lemma dirFiles_copied base d dest d' :
  sourceDir base d ->
  (forall path data, (path, data) ∈ dirFiles base d -> contentAt d' (key dest ++ relComps (NormalizePath path)) = Some data) ->
  forall cs data, contentAt d (key base ++ cs) = Some data -> contentAt d' (key dest ++ cs) = Some data.
Proof.
  intros Hd Hall cs data Hs. destruct (content_names base d Hd cs data Hs) as [H1 H2].
  rewrite <- (relComps_names cs H1), <- (NormalizePath_names cs H1 H2) by done. apply Hall, elem_of_dirFiles; [done|eauto].
Qed.

(** C8. Publishing a directory and writing the artifact out copies it. On a
    reliable disk, with a store whose directories are there and whose commit
    hook changes nothing: for a directory given by an absolute path apart from
    the store, with at least one file, no file whose path begins with two dots
    and none of 2^63 bytes or more, whose pieces do not collide with each
    other or with stored chunks, and a name and version that are not blank,
    [Publish] of the directory source succeeds (the manifest can be encoded
    and has room for its file), and copying the manifest into a vacant
    directory apart from the store, not the root or the working directory,
    puts every file of the source at the same path below it, with the same
    bytes. *)
Theorem publish_directory {D : Digest} {SS : SortSlice} {MC : ManifestCodec} {X : Type} root (c : ChunkStore X) size
    base name version opts dest w
    (HL : storeLayout root c) (Hhook : silentHook c) (Hr : reliable w) (HR : storeReady root (wdisk w))
    (Hpub : dirPublishable root c size base name version w) (Hopts : Strat opts <> StrategyHardLink)
    (Hdest : ~ key root `prefix_of` key dest /\ ~ key dest `prefix_of` key root)
    (Hdot : Clean dest <> ".") (Htop : Clean dest <> "/") (Hvac : vacant dest (wdisk w)) :
  exists m w' w'', Publish (fun _ => None) (NewPublisher c size)
      (FsSource.asSource (FsSource.mkFs base "") (fun _ => None)) "" name version w = (Ok m, w')
    /\ Materialize (fun _ => None) opts m c dest w' = (Ok tt, w'')
    /\ forall cs data, contentAt (wdisk w) (key base ++ cs) = Some data ->
         contentAt (wdisk w'') (key dest ++ cs) = Some data.
Proof.
  pose proof (dir_publishable _ _ _ _ _ _ _ Hpub) as Hpb. destruct Hpub as [Hd [Ha1 Ha2] _ _ _ _ _ _ _ _].
  destruct (Publish_run root c size _ "" _ _ name version w HL Hhook Hr HR
    (directory_serves base (wdisk w) Hd root w Hr eq_refl Ha1 Ha2) Hpb) as (m & w' & Hp & Hpd).
  destruct (published_materializes root (NewPublisher c size) HL _ w m w' opts dest Hopts Hpd) as (w'' & Hm & Hc).
  - split; try done; [by apply dirFiles_NoDup|]. intros s t. apply dirFiles_apart; [done|apply HR].
  - exists m, w', w''. split; [done|]. split; [done|]. by apply dirFiles_copied.
Qed.

(** ** A concrete directory *)

(** A directory with one file in a subdirectory, beside a new store. *)
Definition sourceTree : disk :=
  Disk {[ ["src"] := DirN; ["src"; "dir"] := DirN; ["src"; "dir"; "a.txt"] := FileN 1 ]} {[ 1%positive := Inode abc 420 ]}
    ext4.

Definition treeWorld : world unit := (NewChunkStore "/s" (World sourceTree [] [7%N] 0 tt)).2.

Lemma treeWorld_run : reliable treeWorld /\ storeReady "/s" (wdisk treeWorld) /\ rands treeWorld = [7%N].
Proof.
  destruct (NewChunkStore_ready "/s" ltac:(done) (World sourceTree [] [7%N] 0 tt)) as (d & Hn & _ & HR); [done| |].
  - apply vacantb_sound; [vm_compute; reflexivity|done].
  - unfold treeWorld. rewrite Hn. split; [reflexivity|]. split; [exact HR|reflexivity].
Qed.

#[local] Opaque treeWorld.

Lemma treeWorld_files k i :
  nodeAt (wdisk treeWorld) k = Some (FileN i) -> k = ["src"; "dir"; "a.txt"] /\ i = 1%positive.
Proof.
  intros H. assert (allEntries (fun k n => match n with DirN => true
    | FileN i => bool_decide (k = ["src"; "dir"; "a.txt"] /\ i = 1%positive) end) (wdisk treeWorld) = true) as Hall
    by (vm_compute; reflexivity).
  assert (k <> []) as Hk by (intros ->; discriminate H).
  pose proof (allEntries_sound _ _ _ _ Hall Hk H) as Hb. by apply bool_decide_eq_true in Hb.
Qed.

Lemma treeWorld_content k data : contentAt (wdisk treeWorld) k = Some data -> k = ["src"; "dir"; "a.txt"] /\ data = abc.
Proof.
  unfold contentAt. destruct (nodeAt (wdisk treeWorld) k) as [[|i]|] eqn:Hn; [discriminate| |discriminate].
  apply treeWorld_files in Hn as [-> ->]. intros E. split; [done|].
  assert (idata (getInode (wdisk treeWorld) 1) = abc) as Ha by (vm_compute; reflexivity). by rewrite Ha in E; injection E.
Qed.

Lemma srcKey : key "/src" = ["src"].
Proof. vm_compute. reflexivity. Qed.

Lemma treeWorld_source : sourceDir "/src" (wdisk treeWorld).
Proof.
  split.
  - reflexivity.
  - vm_compute. reflexivity.
  - intros cs [n Hn]. assert (allEntries (fun k _ => match k with "src" :: cs => forallb isName cs | _ => true end)
      (wdisk treeWorld) = true) as Hall by (vm_compute; reflexivity).
    rewrite srcKey in Hn. assert ("src" :: cs <> []) as Hne by discriminate.
    pose proof (allEntries_sound _ _ _ _ Hall Hne Hn) as Hb. apply List.Forall_forall. apply forallb_forall. exact Hb.
  - intros cs i [Hk _]%treeWorld_files. rewrite srcKey in Hk. injection Hk as ->. reflexivity.
Qed.

Lemma treeWorld_slot x : manifestSlot "/s" x (wdisk treeWorld).
Proof.
  split; [vm_compute; reflexivity|]. intros H.
  assert (allEntries (fun k _ => negb (bool_decide (length k = 3) && bool_decide (k !! 1 = Some "manifests")))
    (wdisk treeWorld) = true) as Hall by (vm_compute; reflexivity).
  assert (manifestKey "/s" x <> []) as Hne by (vm_compute; discriminate).
  pose proof (allEntries_sound _ _ _ _ Hall Hne H) as Hbad. vm_compute in Hbad. discriminate Hbad.
Qed.

Lemma treeWorld_nochunk x b : chunkOf "/s" (wdisk treeWorld) x <> Some b.
Proof. intros [Hk _]%treeWorld_content. vm_compute in Hk. discriminate Hk. Qed.

Lemma treeWorld_pieces :
  concat (map (fun t => piecesOf (NewPublisher demoStore 4) t.2) (dirFiles "/src" (wdisk treeWorld))) = [abc].
Proof. vm_compute. reflexivity. Qed.

Lemma treeWorld_publishable : dirPublishable (MC:=demoCodec) "/s" demoStore 4 "/src" "demo" "1.0" treeWorld.
Proof.
  destruct treeWorld_run as (_ & _ & Hd). split.
  - exact treeWorld_source.
  - split; intros [t Ht]; discriminate Ht.
  - exists ["dir"; "a.txt"], abc. vm_compute. reflexivity.
  - by intros cs data [_ ->]%treeWorld_content.
  - by vm_compute.
  - by vm_compute.
  - intros m. by eexists.
  - intros x _. apply treeWorld_slot.
  - rewrite Hd. constructor. vm_compute. reflexivity.
  - rewrite treeWorld_pieces. intros a b Ha [Hb|(x & _ & Hb)] _; [set_solver|].
    by apply treeWorld_nochunk in Hb.
Qed.

Lemma treeWorld_vacant : vacant "/out" (wdisk treeWorld).
Proof. apply vacantb_sound; [vm_compute; reflexivity|done]. Qed.

Lemma publish_directory_witness :
  exists m w' w'', Publish (MC:=demoCodec) (fun _ => None) (NewPublisher demoStore 4)
      (FsSource.asSource (FsSource.mkFs "/src" "") (fun _ => None)) "" "demo" "1.0" treeWorld = (Ok m, w')
    /\ Materialize (fun _ => None) DefaultOptions m demoStore "/out" w' = (Ok tt, w'')
    /\ contentAt (wdisk w'') (key "/out" ++ ["dir"; "a.txt"]) = Some abc.
Proof.
  destruct treeWorld_run as (Hr & HR & _).
  destruct (publish_directory (MC:=demoCodec) "/s" demoStore 4 "/src" "demo" "1.0" DefaultOptions "/out" treeWorld)
    as (m & w' & w'' & H1 & H2 & H3).
  - by apply storeAt_layout.
  - by apply noHook_silent.
  - exact Hr.
  - exact HR.
  - exact treeWorld_publishable.
  - discriminate.
  - split; intros [t Ht]; discriminate Ht.
  - by vm_compute.
  - by vm_compute.
  - exact treeWorld_vacant.
  - exists m, w', w''. split; [exact H1|]. split; [exact H2|]. apply (H3 ["dir"; "a.txt"] abc). vm_compute. reflexivity.
Defined.
