(* ===== verification/Payload.v ===== *)
(** * The payload of the benchmark (pkg/benchmark/payload.go)

    The file that a benchmark distributes: which path is the payload of the
    repository, creating it with random bytes, and choosing what to publish.
    A read of crypto/rand fills its buffer or fails; the bytes and the failures
    are arguments. *)

From S2P Require Import Prelude GoPath GoFs ChunkStore Materializer Source IndexFile.
Local Open Scope go_scope.

Module Payload.

Definition DefaultPayloadRel : string := "tmp/origin/payload.bin".
Definition DefaultWorkRel : string := "tmp/work".

Definition DefaultPayloadPath : string := Clean DefaultPayloadRel.

(** [filepath.Abs] does not fail, and paths of this system are compared as they are. *)
Definition IsDefaultPayload (path : string) : bool :=
  if bool_decide (path = "") then true else bool_decide (Abs path = Abs DefaultPayloadPath).

Section payload.
Context {X : Type}.
(** The [j]-th byte of the [i]-th read of the random source, and the error of
    that read. *)
Context (random : nat -> nat -> byte) (randomErr : nat -> option error).

(** [rand.Read(buf[:n])] *)
Definition randRead (i : nat) (n : Z) : IO X bytes :=
  match randomErr i with Some e => ioErr e | None => ioRet (map (random i) (seq 0 (Z.to_nat n))) end.

(** [f.Truncate(size)] *)
Definition Truncate (h : handle) (size : Z) : IO X unit :=
  syscall "truncate" (fun d => match h with
    | HDir _ => (Err (ESys "truncate" EINVAL), d)
    | HFile i _ =>
        let nd := getInode d i in
        if (size <? 0)%Z then (Err (ESys "truncate" EINVAL), d)
        else (Ok tt, setInode i (Inode (take (Z.to_nat size) (idata nd ++ replicate (Z.to_nat size - length (idata nd)) x00))
                       (iperm nd)) d)
    end).

(** The length of the buffer. *)
Definition bufLen : Z := 1024 * 1024.

(** Every round writes a byte at least, so [sizeBytes] rounds are enough. *)
Fixpoint fillLoop (fuel i : nat) (f : handle) (sizeBytes written : Z) : IO X handle :=
  match fuel with
  | O => ioRet f
  | S fuel =>
      if (written <? sizeBytes)%Z then
        let n := if (sub64 sizeBytes written <? bufLen)%Z then sub64 sizeBytes written else bufLen in
        do buf <- wrapErr "fill payload" (randRead i n);
        do f' <- wrapErr "write payload" (Write f buf);
        fillLoop fuel (S i) f' sizeBytes (add64 written n)
      else ioRet f
  end.

Definition EnsurePayloadFile (path : string) (sizeBytes : Z) : IO X unit :=
  if (sizeBytes <=? 0)%Z then ioErr (EText "payload size must be positive") else
  do_ MkdirAll (Dir path);
  do st <- attempt (Stat path);
  if match st with Ok fi => negb (fiDir fi) && (fiSize fi =? sizeBytes)%Z | Err _ => false end then ioRet tt else
  do f <- wrapErr ("create payload " +:+ path) (OpenTrunc path 438);
  do r <- attempt (do f' <- fillLoop (Z.to_nat sizeBytes) 0 f sizeBytes 0; Truncate f' sizeBytes);
  do_ ignore (Close f);
  liftRes r.

Definition PrepareOrigin (path : string) (sizeBytes : Z) (managed : bool) : IO X string :=
  let '(path, managed) := if bool_decide (path = "") then (DefaultPayloadPath, true) else (path, managed) in
  do st <- attempt (Stat path);
  match st with
  | Ok fi =>
      if fiDir fi then ioRet path
      else if managed && negb (fiSize fi =? sizeBytes)%Z then
        do_ EnsurePayloadFile path sizeBytes;
        ioRet path
      else ioRet path
  | Err e =>
      if negb (isNotExist e) then ioErr e
      else if negb managed then ioErr (EText ("benchmark file " +:+ path +:+ " not found"))
      else
        do_ EnsurePayloadFile path sizeBytes;
        ioRet path
  end.

(** ** What the payload is *)

(** A path of one's own is never written to, whatever fails. *)
Theorem PrepareOrigin_unmanaged path sizeBytes w :
  path <> "" -> wdisk (PrepareOrigin path sizeBytes false w).2 = wdisk w.
Proof.
  intros Hp. apply keeps_disk. intros P. unfold PrepareOrigin. rewrite bool_decide_eq_false_2 by done.
  apply keeps_bind; [auto with go|]. intros [fi|e]; [destruct (fiDir fi)|destruct (isNotExist e)]; simpl; auto with go.
Qed.

(** The bytes of the [i]-th round and the following ones. *)
Fixpoint filled (fuel i : nat) (sizeBytes written : Z) : bytes :=
  match fuel with
  | O => []
  | S fuel =>
      if (written <? sizeBytes)%Z then
        let n := Z.min (sizeBytes - written) bufLen in
        map (random i) (seq 0 (Z.to_nat n)) ++ filled fuel (S i) sizeBytes (written + n)
      else []
  end.

Lemma length_filled fuel : forall i sizeBytes written,
  (0 <= written <= sizeBytes)%Z -> (sizeBytes - written <= Z.of_nat fuel)%Z ->
  blen (filled fuel i sizeBytes written) = (sizeBytes - written)%Z.
Proof.
  induction fuel as [|fuel IH]; intros i sizeBytes written Hw Hf; simpl; [unfold blen; simpl; lia|].
  destruct (Z.ltb_spec written sizeBytes); [|unfold blen; simpl; lia].
  unfold blen in *. rewrite length_app, length_map, length_seq, Nat2Z.inj_add, IH; unfold bufLen in *; lia.
Qed.

Lemma okay_fillLoop k sizeBytes fuel : forall i f b,
  (blen b <= sizeBytes < 2 ^ 63)%Z ->
  okay (writing k b f) (fillLoop fuel i f sizeBytes (blen b))
    (writing k (b ++ filled fuel i sizeBytes (blen b))).
Proof.
  induction fuel as [|fuel IH]; intros i f b Hb; cbn [fillLoop filled].
  { apply okay_ret. intros d. by rewrite app_nil_r. }
  destruct (Z.ltb_spec (blen b) sizeBytes); [|apply okay_ret; intros d; by rewrite app_nil_r].
  unfold sub64. rewrite wrap64_id by (unfold int64_range, blen in *; lia).
  assert ((if (sizeBytes - blen b <? bufLen)%Z then sizeBytes - blen b else bufLen)%Z
    = Z.min (sizeBytes - blen b) bufLen) as -> by (destruct (Z.ltb_spec (sizeBytes - blen b) bufLen); lia).
  set (n := Z.min (sizeBytes - blen b) bufLen). set (buf := map (random i) (seq 0 (Z.to_nat n))).
  assert (0 <= n <= sizeBytes - blen b)%Z as Hn by (unfold n, bufLen; lia).
  eapply (okay_bind _ _ _ (fun a d => a = buf /\ writing k b f d)).
  { apply okay_wrapErr. unfold randRead. destruct (randomErr i); [apply okay_err|]. by apply okay_ret. }
  intros a w0 [-> Hw]. revert w0 Hw. eapply okay_bind; [apply okay_wrapErr, okay_Write_writing|]. intros f'.
  assert (add64 (blen b) n = blen (b ++ buf)) as ->.
  { unfold add64. rewrite wrap64_id by (unfold int64_range, blen in *; lia).
    unfold blen, buf. rewrite length_app, length_map, length_seq. lia. }
  assert ((blen b + n)%Z = blen (b ++ buf)) as ->
    by (unfold blen, buf; rewrite length_app, length_map, length_seq; lia).
  rewrite app_assoc. apply IH. unfold blen, buf in *. rewrite length_app, length_map, length_seq. lia.
Qed.

Lemma okay_Truncate_full k b h size :
  size = blen b -> okay (X:=X) (writing k b h) (Truncate h size) (fun _ d => contentAt d k = Some b).
Proof.
  intros ->. apply okay_syscall. intros d [] d' (i & -> & Hn & Hd). destruct (Z.ltb_spec (blen b) 0) as [?|_]; [unfold blen in *; lia|].
  intros [= <-]. unfold contentAt. rewrite nodeAt_setInode, Hn, getInode_setInode, bool_decide_eq_true_2 by done.
  cbn [idata]. rewrite Hd. unfold blen. rewrite Nat2Z.id, Nat.sub_diag, app_nil_r, take_ge by done. done.
Qed.

(** When [EnsurePayloadFile] returns without error there is a file of the
    requested size, whatever was there and whatever else failed. *)
Theorem EnsurePayloadFile_size path sizeBytes w w' :
  (sizeBytes < 2 ^ 63)%Z -> EnsurePayloadFile path sizeBytes w = (Ok tt, w') ->
  exists data, contentAt (wdisk w') (key path) = Some data /\ blen data = sizeBytes.
Proof.
  intros Hs Hrun. refine (okay_run (fun _ => True) _ (fun _ d => exists data, contentAt d (key path) = Some data
    /\ blen data = sizeBytes) _ _ _ _ I Hrun). clear w w' Hrun.
  unfold EnsurePayloadFile. destruct (Z.leb_spec sizeBytes 0); [apply okay_err|].
  eapply (okay_bind _ _ _ (fun _ _ => True)); [by intros w _; destruct (MkdirAll (Dir path) w) as [[]]|]. intros _.
  eapply okay_bind.
  { apply okay_attempt, (okay_syscall _ _ _ (fun fi d => fiDir fi = false ->
      exists data, contentAt d (key path) = Some data /\ blen data = fiSize fi)).
    intros d fi d' _. unfold statK, contentAt. destruct (nodeAt d (key path)) as [[|i]|] eqn:E; try done.
    - by intros [= <- <-].
    - intros [= <- <-] _. rewrite E. eauto. }
  intros st. destruct (match st with Ok fi => negb (fiDir fi) && (fiSize fi =? sizeBytes)%Z | Err _ => false end) eqn:E.
  { apply okay_ret. intros d Hd. destruct st as [fi|e]; [|done]. boolify. destruct Hd as (data & Hc & Hl); [by destruct (fiDir fi)|].
    exists data. split; [done|]. lia. }
  eapply okay_bind; [apply okay_wrapErr; eapply okay_conseq; [apply okay_OpenTrunc_writing|done|done]|]. intros f.
  eapply okay_bind; [apply okay_attempt; eapply okay_bind|].
  - apply (okay_fillLoop (key path) sizeBytes (Z.to_nat sizeBytes) 0 f []). unfold blen. simpl. lia.
  - intros f'. apply okay_Truncate_full. change (blen []) with 0%Z. cbn [app]. rewrite length_filled; lia.
  - intros r. eapply okay_bind; [apply okay_keeps; auto with go|]. intros u. apply okay_res. intros a d Er. rewrite Er. destruct a.
    intros Hc. eexists. split; [exact Hc|]. change (blen []) with 0%Z. cbn [app]. rewrite length_filled; lia.
Qed.

Lemma fillLoop_reliable j sizeBytes fuel : (forall i, randomErr i = None) -> forall i off written (w : world X),
  reliable w -> exists off' d, fillLoop fuel i (HFile j off) sizeBytes written w = (Ok (HFile j off'), setDisk d w).
Proof.
  intros He. induction fuel as [|fuel IH]; intros i off written w Hr; cbn [fillLoop].
  { exists off, (wdisk w). by rewrite setDisk_same. }
  destruct (written <? sizeBytes)%Z; [|exists off, (wdisk w); by rewrite setDisk_same].
  unfold randRead at 1. rewrite He. erewrite ioBind_ok by by apply wrapErr_ok.
  erewrite ioBind_ok by (apply wrapErr_ok, Write_reliable; exact Hr).
  edestruct IH as (off' & d & Hrun); [|exists off', d; exact Hrun]. done.
Qed.

Lemma OpenTrunc_reliable p perm (w : world X) :
  reliable w -> nodeAt (wdisk w) (key p) <> Some DirN -> nodeAt (wdisk w) (parent (key p)) = Some DirN ->
  exists i d, OpenTrunc p perm w = (Ok (HFile i 0), setDisk d w).
Proof.
  intros Hr Hn Hp. unfold OpenTrunc. rewrite syscall_reliable by done. unfold openWriteK.
  destruct (nodeAt (wdisk w) (key p)) as [[|i]|]; [done|simpl; eauto|]. rewrite Hp. simpl. eauto.
Qed.

(** On a reliable disk it succeeds for a path that can name a file. *)
Theorem EnsurePayloadFile_succeeds path cs c sizeBytes (w : world X) :
  reliable w -> (forall i, randomErr i = None) -> (0 < sizeBytes)%Z ->
  split path = cs ++ [c] -> isName c = true -> nodeAt (wdisk w) (key path) <> Some DirN ->
  (forall j, isFile (nodeAt (wdisk w) (take j (key (Dir path)))) = false) ->
  exists w', EnsurePayloadFile path sizeBytes w = (Ok tt, w').
Proof.
  intros Hr He Hs Hsplit Hc Hn Hf. pose proof (key_Dir path cs c Hsplit Hc) as Hk.
  assert (parent (key path) = key (Dir path)) as Hp by (rewrite Hk; apply removelast_last).
  unfold EnsurePayloadFile. destruct (Z.leb_spec sizeBytes 0); [lia|].
  destruct (MkdirAll_ok w (Dir path) Hr Hf) as (d & Hm & Ha & Hd). rewrite (ioBind_ok _ _ _ _ _ Hm).
  erewrite ioBind_ok by (rewrite attempt_eq, Stat_reliable by done; reflexivity).
  destruct (match _ with Ok fi => _ | Err _ => false end); [by eexists|].
  assert (nodeAt d (key path) <> Some DirN) as Hn'.
  { destruct (added_node _ _ _ Ha (key path)) as [E|(_ & _ & j & Ej)]; [by rewrite E|]. exfalso.
    assert (length (key path) <= length (key (Dir path))) as Hl by (rewrite Ej, length_take; lia).
    rewrite Hk, length_app in Hl. simpl in Hl. lia. }
  destruct (OpenTrunc_reliable path 438 (setDisk d w)) as (i & d1 & Ho); [done|done|by rewrite Hp|].
  erewrite ioBind_ok by (apply wrapErr_ok; exact Ho).
  destruct (fillLoop_reliable i sizeBytes (Z.to_nat sizeBytes) He 0 0 0 (setDisk d1 (setDisk d w))) as (off & d2 & Hl); [done|].
  erewrite ioBind_ok by (rewrite attempt_eq, (ioBind_ok _ _ _ _ _ Hl); reflexivity).
  unfold Truncate. rewrite syscall_reliable by done. destruct (Z.ltb_spec sizeBytes 0); [lia|].
  cbn [fst snd]. rewrite (ioBind_ok _ _ _ tt _ (ignore_eq _ _)). by eexists.
Qed.

End payload.

(** The payload of the repository is recognised by its relative and its
    absolute path. *)
Example IsDefaultPayload_paths :
  IsDefaultPayload "" = true /\ IsDefaultPayload "./tmp/origin/../origin/payload.bin" = true
  /\ IsDefaultPayload "/tmp/origin/payload.bin" = true /\ IsDefaultPayload "tmp/origin" = false.
Proof. vm_compute. auto. Qed.

End Payload.
