(* ===== verification/NetUtil.v ===== *)
(** * Addresses and probes (pkg/netutil/netutil.go, pkg/httpserver/httpserver.go)

    Which listen addresses are loopback and which peer addresses are private,
    over the parts of package net they use ([SplitHostPort], [ParseIP]), and the
    handlers of the probes.  Serving HTTP is not modelled. *)

From S2P Require Import Prelude GoPath.
From Stdlib Require Import Strings.Ascii.
Local Open Scope go_scope.

(** ** Package net *)

Module Net.

Fixpoint indexByte (s : string) (c : ascii) : option nat :=
  match s with
  | "" => None
  | String a s' => if bool_decide (a = c) then Some 0 else S <$> indexByte s' c
  end.

Fixpoint lastIndexByte (s : string) (c : ascii) : option nat :=
  match s with
  | "" => None
  | String a s' =>
      match lastIndexByte s' c with
      | Some i => Some (S i)
      | None => if bool_decide (a = c) then Some 0 else None
      end
  end.

Definition hasByte (s : string) (c : ascii) : bool := bool_decide (is_Some (indexByte s c)).

Definition missingPort : error := EText "missing port in address".
Definition tooManyColons : error := EText "too many colons in address".

(** No bracket after the positions [j] and [k]; the port is behind the colon at
    [i]. *)
Definition splitRest (hostport host : string) (i j k : nat) : res (string * string) :=
  if hasByte (strDrop j hostport) "[" then Err (EText "unexpected '[' in address")
  else if hasByte (strDrop k hostport) "]" then Err (EText "unexpected ']' in address")
  else Ok (host, strDrop (S i) hostport).

Definition SplitHostPort (hostport : string) : res (string * string) :=
  match lastIndexByte hostport ":" with
  | None => Err missingPort
  | Some i =>
      if hasPrefix "[" hostport then
        match indexByte hostport "]" with
        | None => Err (EText "missing ']' in address")
        | Some e =>
            if bool_decide (S e = String.length hostport) then Err missingPort
            else if bool_decide (S e = i) then
              splitRest hostport (strTake (e - 1) (strDrop 1 hostport)) i 1 (S e)
            else if hasPrefix ":" (strDrop (S e) hostport) then Err tooManyColons
            else Err missingPort
        end
      else
        let host := strTake i hostport in
        if hasByte host ":" then Err tooManyColons else splitRest hostport host i 0 0
  end.

Definition JoinHostPort (host port : string) : string :=
  if hasByte host ":" then "[" +:+ host +:+ "]:" +:+ port else host +:+ ":" +:+ port.

(** An address has 16 bytes. *)
Definition ip : Type := list N.

Definition digitOf (a : ascii) : option N :=
  let n := N_of_ascii a in if (48 <=? n)%N && (n <=? 57)%N then Some (n - 48)%N else None.

Definition hexOf (a : ascii) : option N :=
  let n := N_of_ascii a in
  if (48 <=? n)%N && (n <=? 57)%N then Some (n - 48)%N
  else if (97 <=? n)%N && (n <=? 102)%N then Some (n - 87)%N
  else if (65 <=? n)%N && (n <=? 70)%N then Some (n - 55)%N
  else None.

(** The four fields; [prev] is the character before [s]. *)
Fixpoint parseIPv4Fields (s : string) (prev : option ascii) (val digLen : N) (fields : list N) : option (list N) :=
  match s with
  | "" => if length fields <? 3 then None else Some (fields ++ [val])
  | String a s' =>
      match digitOf a with
      | Some v =>
          if (digLen =? 1)%N && (val =? 0)%N then None
          else if (255 <? val * 10 + v)%N then None
          else parseIPv4Fields s' (Some a) (val * 10 + v) (digLen + 1) fields
      | None =>
          if bool_decide (a = "."%char) then
            if bool_decide (prev = None) || bool_decide (s' = "") || bool_decide (prev = Some "."%char) then None
            else if length fields =? 3 then None
            else parseIPv4Fields s' (Some a) 0 0 (fields ++ [val])
          else None
      end
  end.

Definition parseIPv4 (s : string) : option (list N) := parseIPv4Fields s None 0 0 [].

(** A hexadecimal number of 16 bits: its digits, its value and the rest. *)
Fixpoint hexRun (s : string) (off : nat) (acc : N) : option (nat * N * string) :=
  match s with
  | "" => Some (off, acc, "")
  | String a s' =>
      match hexOf a with
      | None => Some (off, acc, s)
      | Some v =>
          if 3 <? off then None
          else if (65535 <? acc * 16 + v)%N then None
          else hexRun s' (S off) (acc * 16 + v)
      end
  end.

(** The groups of an IPv6 address.  A round adds two bytes or ends, so nine
    rounds are enough. *)
Fixpoint v6Loop (fuel : nat) (s : string) (addr : ip) (ellipsis : option nat) : option (string * ip * option nat) :=
  match fuel with
  | O => None
  | S fuel =>
      if 16 <=? length addr then Some (s, addr, ellipsis) else
      match hexRun s 0 0 with
      | None => None
      | Some (off, acc, rest) =>
          if off =? 0 then None
          else if hasPrefix "." rest then
            if bool_decide (ellipsis = None) && negb (length addr =? 12) then None
            else if 16 <? length addr + 4 then None
            else match parseIPv4 s with None => None | Some f => Some ("", addr ++ f, ellipsis) end
          else
            let addr' := addr ++ [(acc / 256)%N; (acc mod 256)%N] in
            if bool_decide (rest = "") then Some ("", addr', ellipsis)
            else if negb (hasPrefix ":" rest) then None
            else
              let s1 := strDrop 1 rest in
              if bool_decide (s1 = "") then None
              else if hasPrefix ":" s1 then
                if bool_decide (is_Some ellipsis) then None
                else
                  let s2 := strDrop 1 s1 in
                  if bool_decide (s2 = "") then Some ("", addr', Some (length addr'))
                  else v6Loop fuel s2 addr' (Some (length addr'))
              else v6Loop fuel s1 addr' ellipsis
      end
  end.

(** An address with a zone is not an address of [ParseIP]. *)
Definition parseIPv6 (s : string) : option ip :=
  if hasByte s "%" then None else
  let lead := hasPrefix "::" s in
  let s' := if lead then strDrop 2 s else s in
  if lead && bool_decide (s' = "") then Some (replicate 16 0%N) else
  match v6Loop 9 s' [] (if lead then Some 0 else None) with
  | None => None
  | Some (rest, addr, ellipsis) =>
      if negb (bool_decide (rest = "")) then None
      else if length addr <? 16 then
        match ellipsis with
        | None => None
        | Some e => Some (take e addr ++ replicate (16 - length addr) 0%N ++ drop e addr)
        end
      else if bool_decide (is_Some ellipsis) then None
      else Some addr
  end.

(** The family of an address is told by the first of its separators. *)
Fixpoint family (s : string) : option ascii :=
  match s with
  | "" => None
  | String a s' => if bool_decide (a ∈ ["."; ":"; "%"]%char) then Some a else family s'
  end.

Definition v4InV6Prefix : list N := replicate 10 0%N ++ [255; 255]%N.

Definition ParseIP (s : string) : option ip :=
  match family s with
  | Some "."%char => app v4InV6Prefix <$> parseIPv4 s
  | Some ":"%char => parseIPv6 s
  | _ => None
  end.

Definition To4 (a : ip) : option (list N) :=
  if bool_decide (take 12 a = v4InV6Prefix) then Some (drop 12 a) else None.

Definition IPv6loopback : ip := replicate 15 0%N ++ [1%N].

Definition IsLoopback (a : ip) : bool :=
  match To4 a with
  | Some f => bool_decide (nth 0 f 0%N = 127%N)
  | None => bool_decide (a = IPv6loopback)
  end.

Definition IsPrivate (a : ip) : bool :=
  match To4 a with
  | Some f =>
      let b0 := nth 0 f 0%N in
      let b1 := nth 1 f 0%N in
      (b0 =? 10)%N || ((b0 =? 172)%N && (N.land b1 240 =? 16)%N) || ((b0 =? 192)%N && (b1 =? 168)%N)
  | None => (N.land (nth 0 a 0%N) 254 =? 252)%N
  end.

End Net.

(** ** netutil.go *)

Definition IsLoopbackListen (bind : string) : bool :=
  let host := match Net.SplitHostPort bind with
              | Ok (h, _) => h
              | Err _ => if hasPrefix ":" bind then "" else bind
              end in
  if bool_decide (host = "") || bool_decide (host = "0.0.0.0") || bool_decide (host = "::") then false
  else match Net.ParseIP host with Some a => Net.IsLoopback a | None => false end.

Definition IsPrivateOrLoopbackAddr (addr : string) : bool :=
  let host := match Net.SplitHostPort addr with Ok (h, _) => h | Err _ => addr end in
  if bool_decide (host = "localhost") then true
  else match Net.ParseIP host with None => false | Some a => Net.IsLoopback a || Net.IsPrivate a end.

(** ** httpserver.go *)

(** The status and the body of an answer. *)
Definition healthz : Z * string := (200%Z, "ok
").

(** [ready] is the outcome of the probe, if there is one; [text] is [err.Error()]. *)
Definition readyz (text : error -> string) (ready : option (res unit)) : Z * string :=
  match ready with
  | Some (Err e) => (503%Z, text e +:+ "
")
  | _ => (200%Z, "ready
")
  end.

(** ** Examples *)

Example IsLoopbackListen_ex :
  map IsLoopbackListen ["127.0.0.1:9000"; "127.8.8.8"; "[::1]:9000"; "[::ffff:127.0.0.1]:1"] = [true; true; true; true]
  /\ map IsLoopbackListen ["[::]:9000"; "0.0.0.0:9000"; ":9000"; "localhost:9000"; "127.0.0.01:1"; "1:2:3"; "[::1%lo]:1"; "::1"]
     = [false; false; false; false; false; false; false; false].
Proof. vm_compute. auto. Qed.

Example IsPrivateOrLoopbackAddr_ex :
  map IsPrivateOrLoopbackAddr ["localhost:1"; "10.1.2.3:1"; "172.31.0.1:1"; "192.168.0.1"; "[fd00::1]:7"; "[::1]:7"]
    = [true; true; true; true; true; true]
  /\ map IsPrivateOrLoopbackAddr ["node-1:9000"; "172.32.0.1:1"; "8.8.8.8:53"; "[2001:db8::1]:7"; ""]
    = [false; false; false; false; false].
Proof. vm_compute. auto. Qed.

(** ** Splitting what was joined *)

Section split.
Import Net.

Lemma hasByte_cons a s c : hasByte (String a s) c = bool_decide (a = c) || hasByte s c.
Proof.
  unfold hasByte. cbn [indexByte]. destruct (bool_decide (a = c)); [by apply bool_decide_eq_true_2; eexists|].
  apply bool_decide_ext. destruct (indexByte s c); simpl; split; intros [? [=]]; eauto.
Qed.

Lemma hasByte_app s t c : hasByte (s +:+ t) c = hasByte s c || hasByte t c.
Proof. induction s as [|a s IH]; [done|]. rewrite str_app_cons, !hasByte_cons, IH. by rewrite orb_assoc. Qed.

Lemma lastIndexByte_none s c : hasByte s c = false -> lastIndexByte s c = None.
Proof.
  induction s as [|a s IH]; [done|]. rewrite hasByte_cons. intros [Ha Hs]%orb_false_iff. simpl. by rewrite IH, Ha.
Qed.

Lemma lastIndexByte_app s t c : hasByte t c = false -> lastIndexByte (s +:+ String c t) c = Some (String.length s).
Proof.
  intros Ht. induction s as [|a s IH].
  - rewrite str_app_nil_l. simpl. by rewrite lastIndexByte_none, bool_decide_eq_true_2.
  - rewrite str_app_cons. simpl. by rewrite IH.
Qed.

Lemma indexByte_app s t c : hasByte s c = false -> indexByte (s +:+ String c t) c = Some (String.length s).
Proof.
  induction s as [|a s IH]; [intros _; rewrite str_app_nil_l; simpl; by rewrite bool_decide_eq_true_2|].
  rewrite hasByte_cons. intros [Ha Hs]%orb_false_iff. rewrite str_app_cons. simpl. by rewrite Ha, IH.
Qed.

(** A string without brackets. *)
Definition plain (s : string) : Prop := hasByte s "[" = false /\ hasByte s "]" = false.

(** [SplitHostPort] undoes [JoinHostPort]. *)
Lemma SplitHostPort_Join host port :
  plain host -> plain port -> hasByte port ":" = false -> SplitHostPort (JoinHostPort host port) = Ok (host, port).
Proof.
  intros [Ho Hc] [Po Pc] Hp. unfold JoinHostPort. destruct (hasByte host ":") eqn:Hh; unfold SplitHostPort.
  - change ("]:" +:+ port) with (String "]" (String ":" port)).
    assert ("[" +:+ host +:+ String "]" (String ":" port) = ("[" +:+ host +:+ "]") +:+ String ":" port) as E
      by (by rewrite !str_app_assoc).
    rewrite E, lastIndexByte_app by done. rewrite <- E. rewrite (hasPrefix_app "[").
    assert ("[" +:+ host +:+ String "]" (String ":" port) = ("[" +:+ host) +:+ String "]" (String ":" port)) as E'
      by (by rewrite !str_app_assoc).
    rewrite E', indexByte_app by (by rewrite hasByte_app, Hc). rewrite !str_length_app. cbn [String.length].
    rewrite bool_decide_eq_false_2 by lia. rewrite bool_decide_eq_true_2 by lia. unfold splitRest.
    assert (strDrop 1 (("[" +:+ host) +:+ String "]" (String ":" port)) = host +:+ String "]" (String ":" port)) as ->
      by (rewrite str_app_assoc; exact (strDrop_app "[" _)).
    rewrite hasByte_app, Ho, !hasByte_cons, Po. cbn [orb bool_decide decide decide_rel].
    assert (S (1 + String.length host) = String.length ("[" +:+ host +:+ "]")) as E2
      by (rewrite !str_length_app; simpl; lia).
    rewrite E2, <- E', E, strDrop_app, hasByte_cons, Pc. rewrite bool_decide_eq_false_2 by done. simpl.
    rewrite Nat.sub_0_r, strTake_app.
    assert (S (S (String.length host + 1)) = String.length (("[" +:+ host +:+ "]") +:+ ":")) as ->
      by (rewrite !str_length_app; simpl; lia).
    assert (("[" +:+ host +:+ "]") +:+ String ":" port = (("[" +:+ host +:+ "]") +:+ ":") +:+ port) as ->
      by (by rewrite !str_app_assoc).
    by rewrite strDrop_app.
  - change (":" +:+ port) with (String ":" port). rewrite lastIndexByte_app by done.
    assert (hasPrefix "[" (host +:+ String ":" port) = false) as ->.
    { destruct host as [|a host]; [done|]. rewrite hasByte_cons in Ho. apply orb_false_iff in Ho as [Ha _].
      rewrite str_app_cons. apply bool_decide_eq_false in Ha. destruct (hasPrefix _ _) eqn:E; [|done].
      apply hasPrefix_iff in E as [t E]. by injection E as ->. }
    rewrite strTake_app, Hh. unfold splitRest. change (strDrop 0 ?s) with s.
    rewrite !hasByte_app, Ho, Hc, !hasByte_cons, Po, Pc. rewrite !bool_decide_eq_false_2 by done. simpl.
    assert (S (String.length host) = String.length (host +:+ ":")) as -> by (rewrite str_length_app; simpl; lia).
    assert (host +:+ String ":" port = (host +:+ ":") +:+ port) as -> by (by rewrite str_app_assoc).
    by rewrite strDrop_app.
Qed.

End split.

(** ** IPv4 addresses in decimal *)

Section dotted.
Import Net.

(** The digits of a field. *)
Fixpoint digitsRun (s : string) (prev : option ascii) (val digLen : N) : option (option ascii * N * N) :=
  match s with
  | "" => Some (prev, val, digLen)
  | String a s' =>
      match digitOf a with
      | Some v =>
          if (digLen =? 1)%N && (val =? 0)%N then None
          else if (255 <? val * 10 + v)%N then None
          else digitsRun s' (Some a) (val * 10 + v) (digLen + 1)
      | None => None
      end
  end.

Lemma parse_digits s : forall prev val digLen p v k rest fields,
  digitsRun s prev val digLen = Some (p, v, k) ->
  parseIPv4Fields (s +:+ rest) prev val digLen fields = parseIPv4Fields rest p v k fields.
Proof.
  induction s as [|a s IH]; intros prev val digLen p v k rest fields; cbn [digitsRun].
  { by intros [= -> -> ->]. }
  rewrite str_app_cons. cbn [parseIPv4Fields]. destruct (digitOf a) as [x|]; [|done].
  destruct (_ && _); [done|]. destruct (255 <? _)%N; [done|]. apply IH.
Qed.

Definition octetOk (n : N) : bool :=
  forallb (fun prev => match digitsRun (pretty n) prev 0 0 with
    | Some (Some p, v, _) => bool_decide (v = n) && negb (bool_decide (p = "."%char))
    | _ => false end) [None; Some "."%char]
  && forallb (fun c => negb (hasByte (pretty n) c)) ["."; ":"; "%"; "["; "]"]%char
  && negb (bool_decide (pretty n = "")).

Lemma octets_ok n : (n < 256)%N -> octetOk n = true.
Proof.
  assert (forallb (fun i => octetOk (N.of_nat i)) (seq 0 256) = true) as H by (vm_compute; reflexivity).
  rewrite forallb_forall in H. intros Hn. rewrite <- (N2Nat.id n). apply H, in_seq. lia.
Qed.

Lemma parse_octet n prev rest fields :
  (n < 256)%N -> prev = None \/ prev = Some "."%char ->
  exists p k, p <> "."%char
    /\ parseIPv4Fields (pretty n +:+ rest) prev 0 0 fields = parseIPv4Fields rest (Some p) n k fields.
Proof.
  intros Hn Hprev. apply octets_ok in Hn. unfold octetOk in Hn. apply andb_prop in Hn as [[Hd _]%andb_prop _].
  rewrite forallb_forall in Hd. specialize (Hd prev ltac:(destruct Hprev as [-> | ->]; [by left|by right; left])).
  destruct (digitsRun (pretty n) prev 0 0) as [[[[p|] v] k]|] eqn:E; try done. boolify. subst v.
  exists p, k. split; [done|]. by apply parse_digits.
Qed.

Lemma octet_plain n c : (n < 256)%N -> c ∈ ["."; ":"; "%"; "["; "]"]%char -> hasByte (pretty n) c = false.
Proof.
  intros Hn Hc. apply octets_ok in Hn. unfold octetOk in Hn. apply andb_prop in Hn as [[_ Hp]%andb_prop _].
  rewrite forallb_forall in Hp. apply list_elem_of_In, Hp in Hc. by destruct (hasByte (pretty n) c).
Qed.

Lemma family_app s t : (forall c, c ∈ ["."; ":"; "%"]%char -> hasByte s c = false) -> family (s +:+ t) = family t.
Proof.
  induction s as [|a s IH]; [done|]. intros H. rewrite str_app_cons. cbn [family].
  rewrite bool_decide_eq_false_2; [apply IH|].
  - intros c Hc. specialize (H c Hc). rewrite hasByte_cons in H. by apply orb_false_iff in H as [_ ?].
  - intros Ha. specialize (H a Ha). rewrite hasByte_cons, bool_decide_eq_true_2 in H by done. done.
Qed.

Context (a b c d : N) (Ha : (a < 256)%N) (Hb : (b < 256)%N) (Hc : (c < 256)%N) (Hd : (d < 256)%N).

Definition dotted : string := pretty a +:+ "." +:+ pretty b +:+ "." +:+ pretty c +:+ "." +:+ pretty d.

Lemma parse_dot p k v rest fields :
  p <> "."%char -> rest <> "" -> length fields < 3 ->
  parseIPv4Fields ("." +:+ rest) (Some p) v k fields = parseIPv4Fields rest (Some "."%char) 0 0 (fields ++ [v]).
Proof.
  intros Hp Hr Hl. change ("." +:+ rest) with (String "." rest). cbn [parseIPv4Fields].
  assert (digitOf "." = None) as -> by reflexivity. rewrite (bool_decide_eq_true_2 ("."%char = "."%char)) by done.
  rewrite !bool_decide_eq_false_2 by congruence. simpl. by destruct (Nat.eqb_spec (length fields) 3); [lia|].
Qed.

Lemma octet_nonempty n rest : (n < 256)%N -> pretty n +:+ rest <> "".
Proof.
  intros Hn. apply octets_ok in Hn. unfold octetOk in Hn. apply andb_prop in Hn as [_ Hn]. boolify.
  by destruct (pretty n).
Qed.

Lemma parse_dotted : parseIPv4 dotted = Some [a; b; c; d].
Proof.
  unfold parseIPv4, dotted.
  destruct (parse_octet a None ("." +:+ pretty b +:+ "." +:+ pretty c +:+ "." +:+ pretty d) []) as (p1 & k1 & H1 & ->); [done|by left|].
  rewrite parse_dot by (simpl; first [done|lia|by apply octet_nonempty]).
  destruct (parse_octet b (Some "."%char) ("." +:+ pretty c +:+ "." +:+ pretty d) [a]) as (p2 & k2 & H2 & E2); [done|by right|].
  cbn [app]. rewrite E2, parse_dot by (simpl; first [done|lia|by apply octet_nonempty]).
  destruct (parse_octet c (Some "."%char) ("." +:+ pretty d) [a; b]) as (p3 & k3 & H3 & E3); [done|by right|].
  cbn [app]. rewrite E3, parse_dot by (simpl; first [done|lia|rewrite <- (str_app_nil_r (pretty d)); by apply octet_nonempty]).
  destruct (parse_octet d (Some "."%char) "" [a; b; c]) as (p4 & k4 & H4 & E4); [done|by right|].
  rewrite str_app_nil_r in E4. cbn [app]. by rewrite E4.
Qed.

Lemma ParseIP_dotted : ParseIP dotted = Some (v4InV6Prefix ++ [a; b; c; d]).
Proof.
  unfold ParseIP. assert (family dotted = Some "."%char) as ->; [|by rewrite parse_dotted].
  unfold dotted. rewrite family_app; [reflexivity|]. intros x Hx. apply octet_plain; [done|]. set_solver.
Qed.

Lemma hasByte_dotted x : x ∈ [":"; "["; "]"]%char -> hasByte dotted x = false.
Proof.
  intros Hx. assert (hasByte "." x = false) as Hdot by (by apply list_elem_of_In in Hx as [<-|[<-|[<-|[]]]]).
  unfold dotted. rewrite !hasByte_app, Hdot, !octet_plain by (try done; set_solver). done.
Qed.

Context (port : string) (Hplain : plain port) (Hport : hasByte port ":" = false).

Lemma split_dotted : SplitHostPort (JoinHostPort dotted port) = Ok (dotted, port).
Proof. apply SplitHostPort_Join; [split; apply hasByte_dotted; set_solver|done..]. Qed.

(** A listen address in decimal is loopback when it is in 127.0.0.0/8. *)
Theorem IsLoopbackListen_dotted : IsLoopbackListen (JoinHostPort dotted port) = (a =? 127)%N.
Proof.
  unfold IsLoopbackListen. rewrite split_dotted, ParseIP_dotted.
  assert (forall s r, parseIPv4 s = r -> dotted = s -> r = Some [a; b; c; d]) as Hne.
  { intros s r <- <-. apply parse_dotted. }
  case_bool_decide as E1; [by discriminate (Hne _ _ eq_refl E1)|].
  case_bool_decide as E2; [|case_bool_decide as E3; [by discriminate (Hne _ _ eq_refl E3)|]].
  - pose proof (Hne _ _ eq_refl E2) as H. vm_compute in H. by injection H as <- <- <- <-.
  - unfold IsLoopback. change (To4 (v4InV6Prefix ++ [a; b; c; d])) with (Some [a; b; c; d]). cbn [nth orb].
    by case_bool_decide; destruct (N.eqb_spec a 127).
Qed.

(** A peer address in decimal is private or loopback when it is in one of the
    ranges 127.0.0.0/8, 10.0.0.0/8, 172.16.0.0/12 and 192.168.0.0/16. *)
Theorem IsPrivateOrLoopbackAddr_dotted :
  IsPrivateOrLoopbackAddr (JoinHostPort dotted port)
  = (a =? 127)%N || (a =? 10)%N || ((a =? 172)%N && (16 <=? b)%N && (b <? 32)%N) || ((a =? 192)%N && (b =? 168)%N).
Proof.
  unfold IsPrivateOrLoopbackAddr. rewrite split_dotted, ParseIP_dotted.
  rewrite bool_decide_eq_false_2 by (intros E; pose proof parse_dotted as H; rewrite E in H; discriminate H).
  assert ((N.land b 240 =? 16)%N = (16 <=? b)%N && (b <? 32)%N) as Hland.
  { assert (forallb (fun i => bool_decide ((N.land (N.of_nat i) 240 =? 16)%N = (16 <=? N.of_nat i)%N && (N.of_nat i <? 32)%N))
      (seq 0 256) = true) as H by (vm_compute; reflexivity).
    rewrite forallb_forall in H. specialize (H (N.to_nat b)). rewrite N2Nat.id in H. rewrite in_seq in H. specialize (H ltac:(lia)). by apply bool_decide_eq_true_1 in H. }
  unfold IsLoopback, IsPrivate. change (To4 (v4InV6Prefix ++ [a; b; c; d])) with (Some [a; b; c; d]). cbn [nth].
  rewrite Hland. assert (bool_decide (a = 127%N) = (a =? 127)%N) as -> by (case_bool_decide; by destruct (N.eqb_spec a 127)).
  by rewrite <- !orb_assoc, <- !andb_assoc.
Qed.

(** What [Start] listens on is never loopback, so its warning is always logged. *)
Theorem IsLoopbackListen_wildcard :
  IsLoopbackListen (":" +:+ port) = false /\ IsLoopbackListen (JoinHostPort "::" port) = false
  /\ IsLoopbackListen (JoinHostPort "0.0.0.0" port) = false.
Proof.
  assert (forall host, plain host -> SplitHostPort (JoinHostPort host port) = Ok (host, port)) as H
    by (intros host Hh; by apply SplitHostPort_Join).
  pose proof (H "" ltac:(by vm_compute)) as H0. change (JoinHostPort "" port) with (":" +:+ port) in H0.
  unfold IsLoopbackListen. rewrite H0. rewrite !H by by vm_compute. done.
Qed.

End dotted.
