(* ===== verification/Topology.v ===== *)
(** * Network topology (pkg/topology/topology.go)

    Localities of peers, the distance between them and the order of peers by
    distance. *)

From S2P Require Import Prelude.
Local Open Scope go_scope.

(** [strings.EqualFold]: equality under simple Unicode case folding.  Its
    tables are not part of the program; the distance relies on it being an
    equivalence. *)
Class CaseFold := {
  EqualFold : string -> string -> bool;
  EqualFold_refl : forall s, EqualFold s s = true;
  EqualFold_sym : forall s t, EqualFold s t = EqualFold t s;
  EqualFold_trans : forall s t u, EqualFold s t = true -> EqualFold t u = true -> EqualFold s u = true
}.

(** A peer as the tracker's protocol describes it. *)
Record PeerInfo := mkPeerInfo {
  NodeId : string;
  Address : string;
  Region : string;
  Zone : string;
  Rack : string;
  Host : string;
  LastSeenUnix : Z
}.

#[export] Instance PeerInfo_eq_dec : EqDecision PeerInfo.
Proof. solve_decision. Defined.

Definition ScoreSameHost : Z := 0.
Definition ScoreSameRack : Z := 10.
Definition ScoreSameZone : Z := 20.
Definition ScoreSameRegion : Z := 30.
Definition ScoreRemote : Z := 40.

Record Locality := mkLocality { lRegion : string; lZone : string; lRack : string; lHost : string }.

(** A [nil] peer has the empty locality. *)
Definition FromProto (p : option PeerInfo) : Locality :=
  match p with
  | None => mkLocality "" "" "" ""
  | Some p => mkLocality (trimSpace (Region p)) (trimSpace (Zone p)) (trimSpace (Rack p)) (trimSpace (Host p))
  end.

Section topology.
Context {CF : CaseFold}.

(** Both labels are given and they agree. *)
Definition sameLabel (a b : string) : bool :=
  negb (bool_decide (a = "")) && negb (bool_decide (b = "")) && EqualFold a b.

Definition Distance (a b : Locality) : Z :=
  if sameLabel (lHost a) (lHost b) then ScoreSameHost
  else if sameLabel (lRack a) (lRack b) then ScoreSameRack
  else if sameLabel (lZone a) (lZone b) then ScoreSameZone
  else if sameLabel (lRegion a) (lRegion b) then ScoreSameRegion
  else ScoreRemote.

(** The distance from [self] to a peer. *)
Definition distTo (self : Locality) (p : PeerInfo) : Z := Distance self (FromProto (Some p)).

Definition proximityLess (self : Locality) (a b : PeerInfo) : bool :=
  let distI := distTo self a in
  let distJ := distTo self b in
  if (distI =? distJ)%Z then strLt (NodeId a) (NodeId b) else (distI <? distJ)%Z.

Definition SortPeersByProximity (self : Locality) (peers : list PeerInfo) : list PeerInfo :=
  sliceStable (proximityLess self) peers.

End topology.

(** * Properties *)

Section properties.
Context {CF : CaseFold}.

Lemma sameLabel_sym a b : sameLabel a b = sameLabel b a.
Proof. unfold sameLabel. rewrite EqualFold_sym. by rewrite (andb_comm (negb (bool_decide (a = "")))). Qed.

Lemma Distance_sym a b : Distance a b = Distance b a.
Proof.
  unfold Distance. by rewrite (sameLabel_sym (lHost a)), (sameLabel_sym (lRack a)), (sameLabel_sym (lZone a)),
    (sameLabel_sym (lRegion a)).
Qed.

Lemma Distance_range a b : (ScoreSameHost <= Distance a b <= ScoreRemote)%Z.
Proof.
  unfold Distance, ScoreSameHost, ScoreSameRack, ScoreSameZone, ScoreSameRegion, ScoreRemote.
  repeat case_match; lia.
Qed.

Lemma proximityLess_lex self a b :
  proximityLess self a b =
  lexLess (fun a b => distTo self a <? distTo self b)%Z (fun a b => strLt (NodeId a) (NodeId b)) a b.
Proof.
  unfold proximityLess, lexLess.
  destruct (Z.eqb_spec (distTo self a) (distTo self b)) as [->|Hne]; [by rewrite Z.ltb_irrefl|].
  destruct (Z.ltb_spec (distTo self a) (distTo self b)); simpl; [done|].
  by rewrite (proj2 (Z.ltb_lt _ _)) by lia.
Qed.

#[export] Instance proximityLess_weak self : StrictWeak (proximityLess self).
Proof.
  eapply StrictWeak_ext; [apply proximityLess_lex|].
  apply lexLess_weak; [apply Zlt_key_weak|apply strLt_key_weak].
Qed.

(** Nearest first, equally distant peers by node id. *)
Lemma SortPeersByProximity_ok self peers :
  SortPeersByProximity self peers ≡ₚ peers
  /\ StronglySorted (fun p q => distTo self p <= distTo self q)%Z (SortPeersByProximity self peers).
Proof.
  split; [apply sliceStable_perm|].
  pose proof (sliceStable_sorted (proximityLess self) peers) as Hs.
  eapply sortedBy_ext, sortedBy_lex in Hs; [|apply proximityLess_lex].
  unfold sortedBy in Hs. eapply StronglySorted_mono; [|exact Hs]. by intros p q ?%Z.ltb_ge.
Qed.

End properties.

(** ** ASCII case folding *)

Definition foldAscii (a : Ascii.ascii) : Ascii.ascii :=
  let n := Ascii.N_of_ascii a in
  if ((65 <=? n) && (n <=? 90))%N then Ascii.ascii_of_N (n + 32) else a.

Fixpoint foldString (s : string) : string :=
  match s with EmptyString => EmptyString | String a s' => String (foldAscii a) (foldString s') end.

(** What [strings.EqualFold] does on ASCII strings. *)
Definition asciiFold : CaseFold.
Proof.
  refine {| EqualFold := fun s t => bool_decide (foldString s = foldString t) |}.
  - intros s. by apply bool_decide_eq_true_2.
  - intros s t. apply bool_decide_ext. by split.
  - intros s t u H1%bool_decide_eq_true H2%bool_decide_eq_true. apply bool_decide_eq_true. congruence.
Defined.

Example Distance_rack :
  Distance (CF:=asciiFold) (mkLocality "eu" "eu-1" "R7" "h1")
    (FromProto (Some (mkPeerInfo "n" "a:1" "eu" "eu-1" " r7 " "h2" 0))) = ScoreSameRack.
Proof. vm_compute. reflexivity. Qed.
