(* ===== verification/Scheduler.v ===== *)
(** * Peer scheduling (pkg/scheduler/scheduler.go)

    Statistics per peer address, the in-flight cap, the circuit breaker, the
    ranking of peers and the order of the work.  The mutex makes each
    operation atomic; the time [now] is an argument. *)

From S2P Require Import Prelude GoFloat Topology.
Local Open Scope go_scope.

Definition untrustedAfter : Z := 3.
Definition untrustedFor : Z := 15 * 60 * 1000000000.
Definition ewmaAlpha : float64 := literal 1 8.
Definition oneMinusAlpha : float64 := literal 7 8.

(** A zero [time.Time] is [None]. *)
Record Stats := mkStats {
  RTT : Z;
  Throughput : float64;
  Inflight : Z;
  Failures : Z;
  UntrustedAt : option Z
}.

Definition zeroStats : Stats := mkStats 0 fzero 0 0 None.

Record Scheduler := mkScheduler { stats : gmap string Stats; maxInflight : Z }.

Definition New (max : Z) : Scheduler :=
  mkScheduler ∅ (if (max <=? 0)%Z then 4 else max)%Z.

(** [s.stat(addr)]: the entry, made when it is missing. *)
Definition statOf (s : Scheduler) (addr : string) : Stats := default zeroStats (stats s !! addr).

Definition setStat (addr : string) (st : Stats) (s : Scheduler) : Scheduler :=
  mkScheduler (<[addr := st]> (stats s)) (maxInflight s).

Definition stat (addr : string) (s : Scheduler) : Stats * Scheduler :=
  (statOf s addr, setStat addr (statOf s addr) s).

(** The breaker is open at [now]. *)
Definition tripped (now : Z) (st : Stats) : bool :=
  match UntrustedAt st with None => false | Some t => (now - t <? untrustedFor)%Z end.

Section scheduler.
Context {CF : CaseFold}.

(** The loop of [RankPeers]: trusted and untrusted peers in order. *)
Fixpoint rankSplit (now : Z) (peers : list (option PeerInfo)) (s : Scheduler)
    : list PeerInfo * list PeerInfo * Scheduler :=
  match peers with
  | [] => ([], [], s)
  | None :: peers' => rankSplit now peers' s
  | Some p :: peers' =>
      if bool_decide (Address p = "") then rankSplit now peers' s
      else
        let '(st, s1) := stat (Address p) s in
        if tripped now st then
          let '(trusted, untrusted, s2) := rankSplit now peers' s1 in (trusted, p :: untrusted, s2)
        else
          let st' := match UntrustedAt st with
                     | None => st
                     | Some _ => mkStats (RTT st) (Throughput st) (Inflight st) 0 None
                     end in
          let '(trusted, untrusted, s2) := rankSplit now peers' (setStat (Address p) st' s1) in
          (p :: trusted, untrusted, s2)
  end.

(** The comparison of [sortLoad]. *)
Definition loadLess (self : Locality) (s : Scheduler) (a b : PeerInfo) : bool :=
  let di := distTo self a in
  let dj := distTo self b in
  if negb (di =? dj)%Z then (di <? dj)%Z
  else
    let si := statOf s (Address a) in
    let sj := statOf s (Address b) in
    if negb (Inflight si =? Inflight sj)%Z then (Inflight si <? Inflight sj)%Z
    else if negb (feqb (Throughput si) (Throughput sj)) then fltb (Throughput sj) (Throughput si)
    else if negb (RTT si =? RTT sj)%Z then (RTT si <? RTT sj)%Z
    else strLt (NodeId a) (NodeId b).

Definition sortLoad (self : Locality) (s : Scheduler) (peers : list PeerInfo) : list PeerInfo :=
  sliceStable (loadLess self s) peers.

Definition RankPeers (now : Z) (self : Locality) (peers : list (option PeerInfo)) (s : Scheduler)
    : list PeerInfo * Scheduler :=
  let '(trusted, untrusted, s') := rankSplit now peers s in
  let pool := match trusted with [] => untrusted | _ => trusted end in
  (sortLoad self s' pool, s').

Definition Begin (addr : string) (s : Scheduler) : bool * Scheduler :=
  let '(st, s1) := stat addr s in
  if (maxInflight s <=? Inflight st)%Z then (false, s1)
  else (true, setStat addr (mkStats (RTT st) (Throughput st) (add64 (Inflight st) 1) (Failures st)
                              (UntrustedAt st)) s1).

(** [WaitBegin]: round [i] of the loop is cut by the context when [ctx i] is
    set; [env i] is what other goroutines do to the scheduler while it
    sleeps.  [None] when all the rounds of [fuel] have found no slot. *)
Fixpoint WaitBegin (fuel i : nat) (ctx : nat -> option error) (env : nat -> Scheduler -> Scheduler)
    (addr : string) (s : Scheduler) : option (bool * Scheduler) :=
  match fuel with
  | O => None
  | S fuel' =>
      let '(got, s1) := Begin addr s in
      if got then Some (true, s1)
      else match ctx i with
           | Some _ => Some (false, s1)
           | None => WaitBegin fuel' (S i) ctx env addr (env i s1)
           end
  end.

(** [sample] joins the moving average. *)
Definition ewma (old sample : float64) : float64 := fadd (fmul old oneMinusAlpha) (fmul sample ewmaAlpha).

Definition observe (nbytes d : Z) (st : Stats) : Stats :=
  if (0 <? d)%Z then
    let rtt := if (RTT st =? 0)%Z then d else toInt64 (ewma (ofInt64 (RTT st)) (ofInt64 d)) in
    let thr :=
      if (0 <? nbytes)%Z then
        let sample := fdiv (ofInt64 nbytes) (seconds d) in
        if feqb (Throughput st) fzero then sample else ewma (Throughput st) sample
      else Throughput st in
    mkStats rtt thr (Inflight st) (Failures st) (UntrustedAt st)
  else st.

Definition End (now : Z) (addr : string) (nbytes d : Z) (ok : bool) (s : Scheduler) : Scheduler :=
  let '(st, s1) := stat addr s in
  let st := mkStats (RTT st) (Throughput st)
              (if (0 <? Inflight st)%Z then Inflight st - 1 else Inflight st)%Z
              (Failures st) (UntrustedAt st) in
  let st := observe nbytes d st in
  let st :=
    if ok then mkStats (RTT st) (Throughput st) (Inflight st) 0 (UntrustedAt st)
    else
      let failures := add64 (Failures st) 1 in
      mkStats (RTT st) (Throughput st) (Inflight st) failures
        (if (untrustedAfter <=? failures)%Z then Some now else UntrustedAt st) in
  setStat addr st s1.

Definition IsUntrusted (now : Z) (addr : string) (s : Scheduler) : bool * Scheduler :=
  let '(st, s1) := stat addr s in (tripped now st, s1).

End scheduler.

(** ** RarestFirst *)

(** One round of the insertion loop: [it] moves left over the sorted prefix
    (given last element first) while it has fewer peers. *)
Fixpoint moveLeft (it : string * nat) (revPrefix : list (string * nat)) : list (string * nat) :=
  match revPrefix with
  | [] => [it]
  | y :: r => if it.2 <? y.2 then y :: moveLeft it r else it :: y :: r
  end.

Definition insertionLoop (withPeers : list (string * nat)) : list (string * nat) :=
  rev (fold_left (fun acc it => moveLeft it acc) withPeers []).

Definition RarestFirst (hashes : list string) (locations : gmap string (list PeerInfo)) : list string :=
  let items := map (fun h => (h, length (default [] (locations !! h)))) hashes in
  let without := List.filter (fun it => it.2 =? 0) items in
  let withPeers := List.filter (fun it => negb (it.2 =? 0)) items in
  map fst (insertionLoop withPeers) ++ map fst without.

(** * Properties *)

(** ** The invariant *)

Record statsOK (max : Z) (st : Stats) : Prop := {
  ok_inflight : (0 <= Inflight st <= max)%Z;
  ok_throughput : nonneg (Throughput st)
}.

Record schedInv (s : Scheduler) : Prop := {
  sched_max : (0 < maxInflight s < 2 ^ 63)%Z;
  sched_stats : forall addr st, stats s !! addr = Some st -> statsOK (maxInflight s) st
}.

Lemma zeroStats_ok max : (0 <= max)%Z -> statsOK max zeroStats.
Proof. by split. Qed.

Lemma statOf_ok s addr : schedInv s -> statsOK (maxInflight s) (statOf s addr).
Proof.
  intros [Hm Hs]. unfold statOf. destruct (stats s !! addr) eqn:E; simpl; [eauto|].
  apply zeroStats_ok. lia.
Qed.

Lemma statOf_setStat s addr st addr' :
  statOf (setStat addr st s) addr' = if bool_decide (addr = addr') then st else statOf s addr'.
Proof.
  unfold statOf, setStat. simpl. case_bool_decide; subst.
  - by rewrite lookup_insert_eq.
  - by rewrite lookup_insert_ne.
Qed.

Lemma setStat_inv s addr st : schedInv s -> statsOK (maxInflight s) st -> schedInv (setStat addr st s).
Proof.
  intros [Hm Hs] Hst. split; [done|]. simpl. intros a st'. intros [[<- <-]|[_ ?]]%lookup_insert_Some; eauto.
Qed.

Create HintDb sched.
#[local] Hint Resolve statOf_ok setStat_inv : sched.

Lemma stat_inv s addr : schedInv s -> schedInv (stat addr s).2.
Proof. simpl. auto with sched. Qed.

Lemma Begin_inv s addr : schedInv s -> schedInv (Begin addr s).2.
Proof.
  intros Hi. pose proof (statOf_ok s addr Hi) as [Hf Ht]. pose proof (sched_max _ Hi) as Hm.
  unfold Begin. simpl. destruct (Z.leb_spec (maxInflight s) (Inflight (statOf s addr))); simpl; [auto with sched|].
  apply setStat_inv; [auto with sched|]. split; simpl; [|done].
  unfold add64. rewrite wrap64_id by (unfold int64_range; lia). lia.
Qed.

Lemma weights_finite :
  exists m e m' e', oneMinusAlpha = SpecFloat.S754_finite false m e /\ ewmaAlpha = SpecFloat.S754_finite false m' e'.
Proof. do 4 eexists. split; vm_compute; reflexivity. Qed.

Lemma ewma_nonneg a b : nonneg a -> nonneg b -> nonneg (ewma a b).
Proof.
  intros Ha Hb. destruct weights_finite as (m & e & m' & e' & H1 & H2). unfold ewma. rewrite H1, H2.
  apply fadd_nonneg; by apply fmul_nonneg.
Qed.

Lemma seconds_nonneg d : (0 <= d < 2 ^ 63)%Z -> nonneg (seconds d).
Proof.
  intros Hd. unfold seconds. pose proof (Z.rem_bound_pos d 1000000000 ltac:(lia) ltac:(lia)) as Hr.
  assert (0 <= Z.quot d 1000000000)%Z as Hq by (apply Z.quot_pos; lia).
  apply fadd_nonneg; [by apply ofInt64_nonneg|].
  destruct (Z.eq_dec (Z.rem d 1000000000) 0) as [->|Hne].
  - vm_compute. reflexivity.
  - destruct (ofInt64_finite (Z.rem d 1000000000)) as (m & e & ->); [lia|].
    apply fdiv_nonneg, ofInt64_nonneg. lia.
Qed.

(** No sample is a NaN: the numerator is a positive finite number. *)
Lemma sample_nonneg nbytes d :
  (0 < nbytes < 2 ^ 63)%Z -> (0 < d < 2 ^ 63)%Z -> nonneg (fdiv (ofInt64 nbytes) (seconds d)).
Proof.
  intros Hn Hd. destruct (ofInt64_finite nbytes Hn) as (m & e & ->). apply fdiv_nonneg, seconds_nonneg. lia.
Qed.

Lemma observe_ok max nbytes d st :
  int64_range nbytes -> int64_range d -> statsOK max st -> statsOK max (observe nbytes d st).
Proof.
  unfold int64_range. intros Hn Hd [Hf Ht]. unfold observe. destruct (Z.ltb_spec 0 d); [|by split].
  split; simpl; [done|]. destruct (Z.ltb_spec 0 nbytes); [|done].
  assert (nonneg (fdiv (ofInt64 nbytes) (seconds d))) as Hs by (apply sample_nonneg; lia).
  destruct (feqb _ _); [done|]. by apply ewma_nonneg.
Qed.

Lemma End_inv now s addr nbytes d ok :
  int64_range nbytes -> int64_range d -> schedInv s -> schedInv (End now addr nbytes d ok s).
Proof.
  intros Hn Hd Hi. unfold End. cbn [stat]. apply setStat_inv; [auto with sched|]. simpl maxInflight.
  pose proof (statOf_ok s addr Hi) as [Hf Ht].
  match goal with |- context [observe nbytes d ?st] => set (st1 := st) end. assert (statsOK (maxInflight s) st1) as H1.
  { split; simpl; [|done]. destruct (Z.ltb_spec 0 (Inflight (statOf s addr))); lia. }
  pose proof (observe_ok _ nbytes d st1 Hn Hd H1) as [Hf2 Ht2]. by destruct ok; split.
Qed.

Lemma IsUntrusted_inv now s addr : schedInv s -> schedInv (IsUntrusted now addr s).2.
Proof. simpl. auto with sched. Qed.

(** ** Ranking *)

Section ranking.
Context {CF : CaseFold}.

(** The peers a ranking considers. *)
Definition eligible (peers : list (option PeerInfo)) : list PeerInfo :=
  List.filter (fun p => negb (bool_decide (Address p = ""))) (omap id peers).

(** Agreement of two states on what the ranking looks at. *)
Definition sameRank (now : Z) (s s' : Scheduler) : Prop :=
  maxInflight s' = maxInflight s /\
  forall addr, let a := statOf s addr in let b := statOf s' addr in
    tripped now b = tripped now a /\ Inflight b = Inflight a /\ Throughput b = Throughput a /\ RTT b = RTT a.

Lemma sameRank_refl now s : sameRank now s s.
Proof. by split. Qed.

Lemma sameRank_trans now s1 s2 s3 : sameRank now s1 s2 -> sameRank now s2 s3 -> sameRank now s1 s3.
Proof.
  intros [E1 H1] [E2 H2]. split; [congruence|]. intros addr. cbv zeta in *.
  destruct (H1 addr) as (?&?&?&?), (H2 addr) as (?&?&?&?). split_and!; congruence.
Qed.

Lemma sameRank_set now s addr st :
  tripped now st = tripped now (statOf s addr) -> Inflight st = Inflight (statOf s addr) ->
  Throughput st = Throughput (statOf s addr) -> RTT st = RTT (statOf s addr) ->
  sameRank now s (setStat addr st s).
Proof. intros. split; [done|]. intros a. cbv zeta. rewrite statOf_setStat. case_bool_decide; by subst. Qed.

Lemma rankSplit_ok now peers : forall s,
  schedInv s ->
  exists s', rankSplit now peers s
    = (List.filter (fun p => negb (tripped now (statOf s (Address p)))) (eligible peers),
       List.filter (fun p => tripped now (statOf s (Address p))) (eligible peers), s')
    /\ sameRank now s s' /\ schedInv s'.
Proof.
  induction peers as [|[p|] peers IH]; intros s Hi; [exists s; split; [done|]; by split; [apply sameRank_refl|]| |].
  2: { unfold eligible. simpl. by apply IH. }
  cbn [rankSplit]. unfold eligible. cbn [omap list_omap id]. cbn [List.filter].
  case_bool_decide as Ha; cbn [negb]; [by apply IH|]. cbn [stat].
  set (st := statOf s (Address p)). set (s1 := setStat (Address p) st s).
  pose proof (statOf_ok s (Address p) Hi) as Hst. fold st in Hst.
  assert (schedInv s1) as Hi1 by by apply setStat_inv.
  assert (sameRank now s s1) as Hr1 by by apply sameRank_set.
  assert (forall s2, sameRank now s s2 ->
    List.filter (fun q => tripped now (statOf s2 (Address q))) (eligible peers)
    = List.filter (fun q => tripped now (statOf s (Address q))) (eligible peers)
    /\ List.filter (fun q => negb (tripped now (statOf s2 (Address q)))) (eligible peers)
    = List.filter (fun q => negb (tripped now (statOf s (Address q)))) (eligible peers)) as Hf.
  { intros s2 [_ Hr]. split; apply filter_ext; intros q; by destruct (Hr (Address q)) as [-> _]. }
  change (List.filter _ (omap id peers)) with (eligible peers).
  destruct (tripped now st) eqn:Et; cbn [List.filter]; change (statOf s (Address p)) with st; rewrite Et; cbn [negb].
  - destruct (IH s1 Hi1) as (s' & -> & Hr & Hi'). exists s'.
    destruct (Hf s1 Hr1) as [-> ->]. split; [done|]. split; [|done]. by eapply sameRank_trans.
  - set (st' := match UntrustedAt st with None => st | Some _ => mkStats (RTT st) (Throughput st) (Inflight st) 0 None end).
    assert (sameRank now s (setStat (Address p) st' s1)) as Hr2.
    { eapply sameRank_trans; [exact Hr1|].
      assert (statOf s1 (Address p) = st) as E by (unfold s1; by rewrite statOf_setStat, bool_decide_eq_true_2).
      apply sameRank_set; rewrite E; unfold st'; destruct (UntrustedAt st) eqn:Eu; done. }
    assert (schedInv (setStat (Address p) st' s1)) as Hi2.
    { apply setStat_inv; [done|]. destruct Hst as [??]. unfold st'. by destruct (UntrustedAt st); split. }
    destruct (IH _ Hi2) as (s' & -> & Hr & Hi'). exists s'.
    destruct (Hf _ Hr2) as [-> ->]. split; [done|]. split; [|done]. by eapply sameRank_trans.
Qed.

Definition thrLess (s : Scheduler) (a b : PeerInfo) : bool :=
  fltb (Throughput (statOf s (Address b))) (Throughput (statOf s (Address a))).

Lemma thrLess_weak s : schedInv s -> StrictWeak (thrLess s).
Proof.
  intros Hi. assert (forall a, notNaN (Throughput (statOf s a))) as Hn.
  { intros a. apply nonneg_notNaN, (statOf_ok s a Hi). }
  assert (forall a b, fltb (Throughput (statOf s a)) (Throughput (statOf s b)) = true
    <-> klt (fkey (Throughput (statOf s a))) (fkey (Throughput (statOf s b)))) as Hk by (intros; by apply fltb_klt).
  unfold thrLess. split.
  - intros x. apply not_true_iff_false. rewrite Hk. unfold klt. lia.
  - intros x y z. rewrite !Hk. unfold klt. lia.
  - intros x y z. rewrite !Hk. unfold klt. lia.
Qed.

(** The comparison as a lexicographic order. *)
Lemma loadLess_lex self s a b :
  schedInv s ->
  loadLess self s a b =
  lexLess (fun a b => distTo self a <? distTo self b)%Z
   (lexLess (fun a b => Inflight (statOf s (Address a)) <? Inflight (statOf s (Address b)))%Z
     (lexLess (thrLess s)
       (lexLess (fun a b => RTT (statOf s (Address a)) <? RTT (statOf s (Address b)))%Z
         (fun a b => strLt (NodeId a) (NodeId b))))) a b.
Proof.
  intros Hi. assert (forall x y (r : bool),
    (if negb (x =? y)%Z then (x <? y)%Z else r) = ((x <? y)%Z || (negb (y <? x)%Z && r))) as Hz.
  { intros x y r. destruct (Z.eqb_spec x y) as [->|Hne]; simpl; [by rewrite Z.ltb_irrefl|].
    destruct (Z.ltb_spec x y), (Z.ltb_spec y x); try done; lia. }
  assert (forall x, notNaN (Throughput (statOf s x))) as Hn.
  { intros x. apply nonneg_notNaN, (statOf_ok s x Hi). }
  unfold loadLess, lexLess. rewrite !Hz. f_equal. f_equal. f_equal. f_equal. unfold thrLess.
  set (x := Throughput (statOf s (Address a))). set (y := Throughput (statOf s (Address b))).
  destruct (feqb x y) eqn:E; simpl.
  - assert (fltb x y = false /\ fltb y x = false) as [-> ->]; [|done].
    apply feqb_true in E; [|by apply Hn..]. rewrite <- !not_true_iff_false, !fltb_klt by by apply Hn.
    rewrite E. unfold klt. lia.
  - apply feqb_false in E; [|by apply Hn..]. destruct (fltb y x) eqn:E1, (fltb x y) eqn:E2; simpl; try done.
    by destruct E.
Qed.

Lemma loadLess_weak self s : schedInv s -> StrictWeak (loadLess self s).
Proof.
  intros Hi. eapply StrictWeak_ext; [intros; by apply loadLess_lex|].
  repeat apply lexLess_weak; try apply Zlt_key_weak; try apply strLt_key_weak. by apply thrLess_weak.
Qed.

Lemma RankPeers_run now self peers s :
  schedInv s ->
  exists s', RankPeers now self peers s
    = (sortLoad self s' (match List.filter (fun p => negb (tripped now (statOf s (Address p)))) (eligible peers) with
                         | [] => eligible peers
                         | trusted => trusted end), s')
    /\ sameRank now s s' /\ schedInv s'.
Proof.
  intros Hi. destruct (rankSplit_ok now peers s Hi) as (s' & Hr & Hs & Hi'). exists s'. split; [|done].
  unfold RankPeers. rewrite Hr. destruct (List.filter (fun p => negb _) _) as [|p l] eqn:E; [|done].
  do 2 f_equal. clear Hr. induction (eligible peers) as [|q l IH]; [done|]. simpl in *.
  destruct (tripped now (statOf s (Address q))); [|done]. simpl in *. by rewrite IH.
Qed.

Lemma RankPeers_inv now self peers s : schedInv s -> schedInv (RankPeers now self peers s).2.
Proof. intros Hi. destruct (RankPeers_run now self peers s Hi) as (s' & -> & _ & ?). done. Qed.

(** ** Histories *)

Definition bump (addr : string) (n : Z) (o : string -> Z) : string -> Z :=
  fun a => if bool_decide (addr = a) then (o a + n)%Z else o a.

(** What has happened to a scheduler, with the number of transfers that have
    begun at each address and not ended. *)
Inductive history (max : Z) : Scheduler -> (string -> Z) -> Prop :=
| h_new : history max (New max) (fun _ => 0%Z)
| h_begin s o addr : history max s o ->
    history max (Begin addr s).2 (if (Begin addr s).1 then bump addr 1 o else o)
| h_end s o now addr nbytes d ok : history max s o -> (0 < o addr)%Z ->
    int64_range nbytes -> int64_range d -> history max (End now addr nbytes d ok s) (bump addr (-1) o)
| h_rank s o now self peers : history max s o -> history max (RankPeers now self peers s).2 o
| h_untrusted s o now addr : history max s o -> history max (IsUntrusted now addr s).2 o.

Lemma Begin_run s addr :
  schedInv s ->
  (Begin addr s).1 = (Inflight (statOf s addr) <? maxInflight s)%Z
  /\ maxInflight (Begin addr s).2 = maxInflight s
  /\ forall a, Inflight (statOf (Begin addr s).2 a)
       = (Inflight (statOf s a) + if bool_decide (addr = a) && (Begin addr s).1 then 1 else 0)%Z.
Proof.
  intros Hi. pose proof (statOf_ok s addr Hi) as [Hf _]. pose proof (sched_max _ Hi) as Hm.
  unfold Begin. cbn [stat]. destruct (Z.leb_spec (maxInflight s) (Inflight (statOf s addr))) as [H|H]; cbn [fst snd].
  - split; [symmetry; by apply Z.ltb_ge|]. split; [done|]. intros a. rewrite statOf_setStat.
    case_bool_decide; subst; simpl; lia.
  - split; [symmetry; by apply Z.ltb_lt|]. split; [done|]. intros a. rewrite !statOf_setStat.
    case_bool_decide; subst; simpl; [|lia]. unfold add64. rewrite wrap64_id; [lia|]. unfold int64_range. lia.
Qed.

Lemma observe_inflight nbytes d st : Inflight (observe nbytes d st) = Inflight st.
Proof. unfold observe. by destruct (_ <? _)%Z. Qed.

Lemma End_inflight now addr nbytes d ok s a :
  (0 < Inflight (statOf s addr))%Z ->
  Inflight (statOf (End now addr nbytes d ok s) a)
  = (Inflight (statOf s a) + if bool_decide (addr = a) then -1 else 0)%Z.
Proof.
  intros Hp. unfold End. cbn [stat]. rewrite !statOf_setStat. case_bool_decide; subst; [|lia].
  rewrite (proj2 (Z.ltb_lt _ _)) by done. destruct ok; simpl; rewrite observe_inflight; simpl; lia.
Qed.

Lemma history_ok max s o :
  (max < 2 ^ 63)%Z -> history max s o ->
  schedInv s /\ maxInflight s = maxInflight (New max) /\ forall a, Inflight (statOf s a) = o a.
Proof.
  intros Hmax. induction 1 as [|s o addr _ (Hi & Hm & Ho)|s o now addr nbytes d ok _ (Hi & Hm & Ho) Hp Hn Hd
    |s o now self peers _ (Hi & Hm & Ho)|s o now addr _ (Hi & Hm & Ho)].
  - split; [split|].
    + simpl. destruct (Z.leb_spec max 0); lia.
    + intros addr st. simpl. by rewrite lookup_empty.
    + split; [done|]. intros a. unfold statOf. simpl. by rewrite lookup_empty.
  - split; [by apply Begin_inv|]. destruct (Begin_run s addr Hi) as (_ & Hm' & Hb). split; [congruence|].
    intros a. rewrite Hb, Ho. destruct (Begin addr s).1; unfold bump; case_bool_decide; simpl; lia.
  - split; [by apply End_inv|]. split; [done|]. intros a. rewrite End_inflight by by rewrite Ho.
    rewrite Ho. unfold bump. case_bool_decide; lia.
  - destruct (RankPeers_run now self peers s Hi) as (s' & -> & [Hms Hs] & Hi'). cbn [snd].
    split; [done|]. split; [congruence|]. intros a. destruct (Hs a) as (_ & -> & _). apply Ho.
  - split; [by apply IsUntrusted_inv|]. split; [done|]. intros a. simpl. rewrite statOf_setStat.
    case_bool_decide; subst; apply Ho.
Qed.

(** In any history of the scheduler the in-flight count of an address is
    the number of transfers begun and not ended there; it never exceeds the
    cap, [Begin] succeeds exactly below the cap, and the comparison that ranks
    peers is a strict weak order (no throughput average is ever a NaN). *)
Theorem inflight_exact max s o self addr :
  (max < 2 ^ 63)%Z -> history max s o ->
  Inflight (statOf s addr) = o addr
  /\ (0 <= o addr <= maxInflight (New max))%Z
  /\ (Begin addr s).1 = (o addr <? maxInflight (New max))%Z
  /\ StrictWeak (loadLess self s).
Proof.
  intros Hmax Hh. destruct (history_ok max s o Hmax Hh) as (Hi & Hm & Ho). rewrite <- Ho, <- Hm.
  split; [done|]. split; [apply (statOf_ok s addr Hi)|]. split; [by apply Begin_run|by apply loadLess_weak].
Qed.

(** [RankPeers] returns the eligible peers whose breaker is closed, or all
    of them when there is none, ordered by distance and among equally distant
    peers by load, throughput, latency and node id. *)
Theorem RankPeers_order now self peers s :
  schedInv s ->
  let trusted := List.filter (fun p => negb (tripped now (statOf s (Address p)))) (eligible peers) in
  let ranked := (RankPeers now self peers s).1 in
  ranked ≡ₚ (match trusted with [] => eligible peers | _ => trusted end)
  /\ StronglySorted (fun p q => distTo self p <= distTo self q)%Z ranked
  /\ sortedBy (loadLess self s) ranked.
Proof.
  intros Hi trusted ranked. destruct (RankPeers_run now self peers s Hi) as (s' & Hr & [_ Hs] & Hi').
  assert (forall a b, loadLess self s' a b = loadLess self s a b) as He.
  { intros a b. unfold loadLess. destruct (Hs (Address a)) as (_ & -> & -> & ->).
    destruct (Hs (Address b)) as (_ & -> & -> & ->). done. }
  assert (ranked = sliceStable (loadLess self s') (match trusted with [] => eligible peers | _ => trusted end)) as ->.
  { unfold ranked. rewrite Hr. unfold sortLoad, trusted. by destruct (List.filter _ (eligible peers)). }
  split; [apply sliceStable_perm|].
  pose proof (sliceStable_sorted (loadLess self s') (Hw := loadLess_weak self s' Hi')
    (match trusted with [] => eligible peers | _ => trusted end)) as Hsort.
  split; [|by eapply sortedBy_ext].
  eapply (sortedBy_ext _ _ _ (fun a b => loadLess_lex self s' a b Hi')), sortedBy_lex in Hsort.
  eapply StronglySorted_mono; [|exact Hsort]. by intros p q ?%Z.ltb_ge.
Qed.

End ranking.

(** ** The circuit breaker *)

(** Failed transfers to [addr]: when each ended, its bytes and duration. *)
Definition failRun (addr : string) (obs : list (Z * Z * Z)) (s : Scheduler) : Scheduler :=
  fold_left (fun s '(t, nbytes, d) => End t addr nbytes d false s) obs s.

Lemma observe_breaker nbytes d st :
  Failures (observe nbytes d st) = Failures st /\ UntrustedAt (observe nbytes d st) = UntrustedAt st.
Proof. unfold observe. by destruct (_ <? _)%Z. Qed.

Lemma End_fail t addr nbytes d s :
  let n := add64 (Failures (statOf s addr)) 1 in
  Failures (statOf (End t addr nbytes d false s) addr) = n
  /\ UntrustedAt (statOf (End t addr nbytes d false s) addr)
     = if (untrustedAfter <=? n)%Z then Some t else UntrustedAt (statOf s addr).
Proof.
  unfold End. cbn [stat]. rewrite !statOf_setStat, bool_decide_eq_true_2 by done. simpl.
  match goal with |- context [observe nbytes d ?st] => destruct (observe_breaker nbytes d st) as [-> ->] end.
  done.
Qed.

Lemma failRun_snoc addr obs t nbytes d s :
  failRun addr (obs ++ [(t, nbytes, d)]) s = End t addr nbytes d false (failRun addr obs s).
Proof. unfold failRun. by rewrite fold_left_app. Qed.

Lemma failRun_failures addr obs : forall s,
  Failures (statOf s addr) = 0%Z -> (Z.of_nat (length obs) < 2 ^ 63)%Z ->
  Failures (statOf (failRun addr obs s) addr) = Z.of_nat (length obs).
Proof.
  induction obs as [|[[t nb] d] obs IH] using rev_ind; intros s H0 Hl; [done|].
  rewrite length_app in Hl |- *. simpl in *. rewrite failRun_snoc.
  destruct (End_fail t addr nb d (failRun addr obs s)) as [-> _]. rewrite IH by (done || lia).
  unfold add64. rewrite wrap64_id by (unfold int64_range; lia). lia.
Qed.

Lemma failRun_untrusted addr obs : forall s,
  Failures (statOf s addr) = 0%Z -> UntrustedAt (statOf s addr) = None -> length obs < 3 ->
  UntrustedAt (statOf (failRun addr obs s) addr) = None.
Proof.
  induction obs as [|[[t nb] d] obs IH] using rev_ind; intros s H0 Hn Hl; [done|].
  rewrite length_app in Hl. simpl in Hl. rewrite failRun_snoc.
  destruct (End_fail t addr nb d (failRun addr obs s)) as [_ ->]. rewrite failRun_failures by (done || lia).
  unfold add64, untrustedAfter. rewrite wrap64_id by (unfold int64_range; lia).
  rewrite (proj2 (Z.leb_gt _ _)) by lia. apply IH; (done || lia).
Qed.

(** The breaker of an address opens exactly when its transfers fail three
    times in a row: it then stays open for fifteen minutes from the last
    failure, during which [IsUntrusted] reports it. *)
Theorem breaker_trips s addr obs t nbytes d now :
  Failures (statOf s addr) = 0%Z -> UntrustedAt (statOf s addr) = None ->
  (Z.of_nat (length obs) + 1 < 2 ^ 63)%Z ->
  (IsUntrusted now addr (failRun addr (obs ++ [(t, nbytes, d)]) s)).1
  = (3 <=? length obs + 1) && (now - t <? untrustedFor)%Z.
Proof.
  intros H0 Hn Hl. unfold IsUntrusted. cbn [stat fst]. unfold tripped. rewrite failRun_snoc.
  destruct (End_fail t addr nbytes d (failRun addr obs s)) as [_ ->].
  rewrite failRun_failures by (done || lia). unfold add64, untrustedAfter.
  rewrite wrap64_id by (unfold int64_range; lia).
  destruct (Nat.leb_spec 3 (length obs + 1)).
  - by rewrite (proj2 (Z.leb_le _ _)) by lia.
  - rewrite (proj2 (Z.leb_gt _ _)) by lia. by rewrite failRun_untrusted by (done || lia).
Qed.

(** ** Waiting for a slot *)

(** The scheduler at round [i] of [WaitBegin]. *)
Fixpoint waitState (env : nat -> Scheduler -> Scheduler) (addr : string) (s : Scheduler) (i k : nat) : Scheduler :=
  match k with
  | O => s
  | S k' => waitState env addr (env i (Begin addr s).2) (S i) k'
  end.

(** [WaitBegin] returns as soon as a slot is free or the context ends: if
    at round [k] one of the two holds and at no earlier round, it returns in
    that round, with [true] exactly when the slot was free. *)
Theorem WaitBegin_returns ctx env addr k : forall s i fuel,
  k < fuel ->
  (forall j, j < k -> (Begin addr (waitState env addr s i j)).1 = false /\ ctx (i + j) = None) ->
  (Begin addr (waitState env addr s i k)).1 = true \/ ctx (i + k) <> None ->
  WaitBegin fuel i ctx env addr s = Some (Begin addr (waitState env addr s i k)).
Proof.
  induction k as [|k IH]; intros s i fuel Hf Hbefore Hnow; (destruct fuel as [|fuel]; [lia|]).
  - cbn [WaitBegin waitState] in *. rewrite Nat.add_0_r in Hnow.
    destruct (Begin addr s) as [[] s1]; [done|]. destruct (ctx i); [done|]. simpl in Hnow. by destruct Hnow.
  - cbn [WaitBegin waitState]. destruct (Hbefore 0 ltac:(lia)) as [Hb Hc]. cbn [waitState] in Hb.
    rewrite Nat.add_0_r in Hc. destruct (Begin addr s) as [got s1] eqn:E. simpl in Hb. subst got. rewrite Hc.
    rewrite (IH (env i s1) (S i) fuel).
    + done.
    + lia.
    + intros j Hj. destruct (Hbefore (S j) ltac:(lia)) as [Hb' Hc']. cbn [waitState] in Hb'. rewrite E in Hb'.
      split; [done|]. by rewrite Nat.add_succ_r in Hc'.
    + cbn [waitState] in Hnow. rewrite E in Hnow. by rewrite Nat.add_succ_r in Hnow.
Qed.

(** ** RarestFirst *)

Definition fewer (a b : string * nat) : bool := a.2 <? b.2.

#[export] Instance fewer_weak : StrictWeak fewer.
Proof. apply (natlt_key_weak snd). Qed.

Lemma moveLeft_split it acc :
  exists a1 a2, acc = a1 ++ a2 /\ moveLeft it acc = a1 ++ it :: a2
    /\ Forall (fun y => it.2 < y.2) a1 /\ match a2 with [] => True | y :: _ => y.2 <= it.2 end.
Proof.
  induction acc as [|y acc (a1 & a2 & -> & Hm & H1 & H2)]; [by exists [], []|]. simpl.
  destruct (Nat.ltb_spec it.2 y.2) as [H|H].
  - exists (y :: a1), a2. split; [done|]. split; [by rewrite Hm|]. split; [by constructor|done].
  - exists [], (y :: a1 ++ a2). done.
Qed.

(** Descending, as the reversed prefix is. *)
Definition descending : list (string * nat) -> Prop := StronglySorted (fun a b => b.2 <= a.2).

Lemma moveLeft_sorted it acc : descending acc -> descending (moveLeft it acc).
Proof.
  intros Hs. destruct (moveLeft_split it acc) as (a1 & a2 & -> & -> & H1 & H2).
  apply StronglySorted_app in Hs as (Hx & Hs1 & Hs2). apply StronglySorted_app. split_and!; [|done|].
  - intros x y Hx1 [->|Hy]%elem_of_cons; [|by apply Hx]. rewrite Forall_forall in H1. specialize (H1 x Hx1). lia.
  - constructor; [done|]. destruct a2 as [|y a2]; [constructor|]. constructor; [done|].
    inversion Hs2 as [|? ? _ Hf]; subst. eapply Forall_impl; [exact Hf|]. simpl. intros z Hz. lia.
Qed.

Lemma moveLeft_filter (P : string * nat -> bool) it acc :
  (forall a b, P a = true -> P b = true -> fewer a b = false) ->
  List.filter P (rev (moveLeft it acc)) = List.filter P (rev acc ++ [it]).
Proof.
  intros HP. destruct (moveLeft_split it acc) as (a1 & a2 & -> & -> & H1 & _).
  rewrite !rev_app_distr. simpl. rewrite <- !app_assoc, !List.filter_app. f_equal. rewrite <- !List.filter_app.
  assert (P it = true -> List.filter P (rev a1) = []) as Hnil.
  { intros Hit. induction H1 as [|y a1 Hy _ IH]; [done|]. simpl. rewrite List.filter_app, IH. simpl.
    destruct (P y) eqn:E; [|done]. pose proof (HP it y Hit E) as Hf. apply Nat.ltb_ge in Hf. lia. }
  rewrite !List.filter_app. simpl. destruct (P it) eqn:E; [rewrite Hnil by done|rewrite app_nil_r]; done.
Qed.

Lemma StronglySorted_rev {A} (R : A -> A -> Prop) l :
  StronglySorted (fun a b => R b a) l -> StronglySorted R (rev l).
Proof.
  induction 1 as [|x l Hs IH Hf]; simpl; [constructor|]. apply StronglySorted_app. split_and!; [|done|].
  - intros a b Ha. rewrite list_elem_of_In, <- in_rev, <- list_elem_of_In in Ha. rewrite list_elem_of_singleton. intros ->. by eapply (proj1 (Forall_forall _ _) Hf).
  - repeat constructor.
Qed.

(** The loop is a stable sort. *)
Lemma insertionLoop_stable l : insertionLoop l = sliceStable fewer l.
Proof.
  assert (forall acc, descending acc -> descending (fold_left (fun acc it => moveLeft it acc) l acc)
    /\ forall P, (forall a b, P a = true -> P b = true -> fewer a b = false) ->
       List.filter P (rev (fold_left (fun acc it => moveLeft it acc) l acc)) = List.filter P (rev acc ++ l)) as H.
  { induction l as [|it l IH]; intros acc Hacc; simpl; [by split; [|intros; rewrite app_nil_r]|].
    destruct (IH (moveLeft it acc) (moveLeft_sorted it acc Hacc)) as [Hd Hf]. split; [done|].
    intros P HP. rewrite Hf by done. rewrite List.filter_app, moveLeft_filter by done.
    rewrite <- List.filter_app, <- app_assoc. done. }
  destruct (H [] ltac:(constructor)) as [Hd Hf]. apply (stable_unique fewer).
  - unfold insertionLoop, sortedBy. apply StronglySorted_rev. eapply StronglySorted_mono; [|exact Hd].
    intros a b Hab. unfold fewer. by apply Nat.ltb_ge.
  - apply (sliceStable_sorted fewer).
  - intros x. assert (forall a b : string * nat, negb (fewer x a) && negb (fewer a x) = true ->
      negb (fewer x b) && negb (fewer b x) = true -> fewer a b = false) as HP.
    { unfold fewer. intros a b. rewrite !andb_true_iff, !negb_true_iff, !Nat.ltb_ge. lia. }
    unfold insertionLoop. rewrite Hf by done. by rewrite sliceStable_stable.
Qed.

(** The reference: chunks some peer has come first, the ones with fewer peers
    before the others. *)
Definition peerCount (locations : gmap string (list PeerInfo)) (h : string) : nat :=
  length (default [] (locations !! h)).

Definition rarerN (a b : nat) : bool := negb (a =? 0) && ((b =? 0) || (a <? b)).

Definition rarer (locations : gmap string (list PeerInfo)) (h h' : string) : bool :=
  rarerN (peerCount locations h) (peerCount locations h').

Lemma rarerN_true a b : rarerN a b = true <-> a <> 0 /\ (b = 0 \/ a < b).
Proof. unfold rarerN. rewrite andb_true_iff, negb_true_iff, orb_true_iff, Nat.eqb_neq, Nat.eqb_eq, Nat.ltb_lt. done. Qed.

Lemma rarerN_false a b : rarerN a b = false <-> a = 0 \/ (b <> 0 /\ b <= a).
Proof. rewrite <- not_true_iff_false, rarerN_true. lia. Qed.

#[export] Instance rarerN_weak {A} (f : A -> nat) : StrictWeak (fun a b => rarerN (f a) (f b)).
Proof. split; intros *; rewrite ?rarerN_true, ?rarerN_false; lia. Qed.

Lemma rarest_items (items : list (string * nat)) :
  sliceStable fewer (List.filter (fun it => negb (it.2 =? 0)) items) ++ List.filter (fun it => it.2 =? 0) items
  = sliceStable (fun a b => rarerN a.2 b.2) items.
Proof.
  set (W := List.filter _ items). set (Z := List.filter (fun it => it.2 =? 0) items).
  assert (forall it, it ∈ sliceStable fewer W -> it.2 <> 0) as HW.
  { intros it. rewrite sliceStable_perm. unfold W. rewrite elem_of_filterb, negb_true_iff, Nat.eqb_neq. tauto. }
  assert (forall it, it ∈ Z -> it.2 = 0) as HZ.
  { intros it. unfold Z. rewrite elem_of_filterb, Nat.eqb_eq. tauto. }
  apply (stable_unique (fun a b => rarerN a.2 b.2)).
  - apply StronglySorted_app. split_and!.
    + intros x y Hx Hy. apply rarerN_false. left. auto.
    + pose proof (sliceStable_sorted fewer W) as Hs. unfold sortedBy in Hs. revert HW Hs.
      generalize (sliceStable fewer W). intros l HW. induction 1 as [|x l Hs IH Hf]; constructor.
      * apply IH. intros; apply HW. by right.
      * rewrite Forall_forall in Hf |- *. intros y Hy. apply rarerN_false. right. specialize (Hf y Hy).
        apply Nat.ltb_ge in Hf. split; [apply HW; by left|done].
    + clear HW. induction Z as [|x l IH]; constructor; [apply IH; intros; apply HZ; by right|].
      apply Forall_forall. intros y Hy. apply rarerN_false. left. apply HZ. by right.
  - apply (sliceStable_sorted (fun a b => rarerN a.2 b.2)).
  - intros x. set (P := fun y : string * nat => negb (rarerN x.2 y.2) && negb (rarerN y.2 x.2)).
    assert (forall y, P y = true <-> y.2 = x.2) as HP.
    { intros y. unfold P. rewrite andb_true_iff, !negb_true_iff, !rarerN_false. lia. }
    rewrite List.filter_app, (sliceStable_stable (fun a b => rarerN a.2 b.2)).
    2: { intros a b Ha%HP Hb%HP. apply rarerN_false. lia. }
    rewrite (sliceStable_stable fewer).
    2: { intros a b Ha%HP Hb%HP. apply Nat.ltb_ge. lia. }
    destruct (Nat.eq_dec x.2 0) as [H0|H0].
    + rewrite (filter_nil P W).
      * unfold Z. rewrite filter_filter; [done|]. intros y _ Hy%HP. apply Nat.eqb_eq. lia.
      * intros y Hy. apply not_true_iff_false. rewrite HP. intros E. apply (HW y); [by rewrite sliceStable_perm|lia].
    + rewrite (filter_nil P Z), app_nil_r.
      * unfold W. rewrite filter_filter; [done|]. intros y _ Hy%HP. apply negb_true_iff, Nat.eqb_neq. lia.
      * intros y Hy. apply not_true_iff_false. rewrite HP. rewrite (HZ y Hy). lia.
Qed.

Lemma RarestFirst_eq hashes locations :
  RarestFirst hashes locations = sliceStable (rarer locations) hashes.
Proof.
  unfold RarestFirst. rewrite insertionLoop_stable, <- map_app, rarest_items, sliceStable_map, map_map. simpl.
  by rewrite map_id.
Qed.

Lemma RarestFirst_perm hashes locations : RarestFirst hashes locations ≡ₚ hashes.
Proof. rewrite RarestFirst_eq. apply sliceStable_perm. Qed.

(** [RarestFirst] is the stable sort of the hashes by rarity: fewest known
    peers first, hashes without a peer last, ties in the order given. *)
Theorem RarestFirst_stable_sort hashes locations :
  RarestFirst hashes locations = sliceStable (rarer locations) hashes.
Proof. apply RarestFirst_eq. Qed.

(** ** Concrete schedulers *)

Definition onePeer : PeerInfo := mkPeerInfo "n1" "10.0.0.1:7000" "eu" "eu-1" "r1" "h1" 0.

Lemma inflight_exact_witness :
  Inflight (statOf (Begin "a" (New 1)).2 "a") = 1%Z
  /\ (Begin "a" (Begin "a" (New 1)).2).1 = false.
Proof.
  destruct (inflight_exact (CF:=asciiFold) 1 (Begin "a" (New 1)).2 (bump "a" 1 (fun _ => 0%Z))
    (mkLocality "" "" "" "") "a") as (H1 & _ & H3 & _).
  - done.
  - exact (h_begin (CF:=asciiFold) 1 (New 1) (fun _ => 0%Z) "a" (h_new 1)).
  - split; [exact H1|exact H3].
Defined.

Lemma RankPeers_order_witness :
  (RankPeers (CF:=asciiFold) 0 (mkLocality "" "" "" "") [None; Some onePeer] (New 4)).1 ≡ₚ [onePeer].
Proof.
  apply (RankPeers_order (CF:=asciiFold) 0 (mkLocality "" "" "" "") [None; Some onePeer] (New 4)).
  split; [done|]. intros addr st. simpl. by rewrite lookup_empty.
Defined.

Lemma breaker_trips_witness :
  (IsUntrusted 100 "a" (failRun "a" ([(1, 0, 5); (2, 0, 5)] ++ [(3, 0, 5)])%Z (New 4))).1 = true.
Proof. exact (breaker_trips (New 4) "a" [(1, 0, 5); (2, 0, 5)]%Z 3 0 5 100 eq_refl eq_refl eq_refl). Defined.

(** The slot at [a] is freed during the first sleep. *)
Lemma WaitBegin_returns_witness :
  WaitBegin 5 0 (fun _ => None) (fun _ => End 0 "a" 0 0 true) "a" (Begin "a" (New 1)).2
  = Some (Begin "a" (waitState (fun _ => End 0 "a" 0 0 true) "a" (Begin "a" (New 1)).2 0 1)).
Proof.
  apply WaitBegin_returns.
  - lia.
  - intros j Hj. assert (j = 0) as -> by lia. split; [|done]. vm_compute. reflexivity.
  - left. vm_compute. reflexivity.
Defined.
