(* ===== verification/Engine.v ===== *)
(** * The download engine (pkg/engine/engine.go)

    [Sync] and its workers.  A worker is a state machine: a step is what the
    goroutine does between two points where another one can interfere, and an
    answer of the network, the clock or the context is an argument of the step.
    A run of [Sync] is driven by a list of events, one per step of a worker, of
    the background refresh or of the advertiser; it may leave workers that have
    not returned.

    The state of the engine and of the running [Sync] is the extension of the
    world.  A download holds the lock of its hash, so it is one step on the
    disk.  The pointer [job] is the entry of [jobs] under its id. *)

From S2P Require Import Prelude GoFloat Digest GoPath Json Manifest SafePath GoFs Chunker ChunkStore StoreRuns.
From S2P Require Import Materializer Verifier Quota Peer PeerLimits Config Advertise Source Topology Scheduler.
Local Open Scope go_scope.

(** ** Data *)

Record SyncMetrics := mkMetrics {
  mTotalChunks : Z;
  mDownloadedChunks : Z;
  mPeerChunks : Z;
  mOriginChunks : Z;
  mSkippedChunks : Z;
  mPeerBytes : Z;
  mOriginBytes : Z;
  mCacheBytesReused : Z;
  mDuration : Z
}.

Definition OriginBytesSaved (m : option SyncMetrics) : Z :=
  match m with None => 0%Z | Some m => add64 (mPeerBytes m) (mCacheBytesReused m) end.

Record SyncJob := mkJob {
  JobID : string;
  jArtifactID : string;
  Status : string;
  TotalChunks : Z;
  DownloadedChunks : Z;
  PeerChunks : Z;
  OriginChunks : Z;
  SkippedChunks : Z;
  PeerBytes : Z;
  OriginBytes : Z;
  ErrorMessage : string;
  StartTime : Z;
  EndTime : option Z
}.

Record chunkWorkItem := mkWork { whash : string; wpath : string; woffset : Z; wsize : Z }.

(** The variables of a running [Sync]: the location map, [assigned], the
    pending queue, [downloadErr], the advertiser, and whether a goroutine has
    panicked. *)
Record running := mkRunning {
  locs : gmap string (list PeerInfo);
  assigned : gmap string Z;
  pending : gmap string chunkWorkItem;
  downloadErr : option error;
  ad : Advertise.Advertiser;
  panicked : bool
}.

(** The mutable parts of the engine: [originUsed] is the number of elements in
    the channel [originSem]; [reported] are the artifacts the engine has sent to
    the tracker with [ReportArtifact], whose answer it drops. *)
Record engState := mkState {
  scheduler : Scheduler.Scheduler;
  clientPool : Pool.ClientPool;
  originUsed : Z;
  jobs : gmap string SyncJob;
  reported : list string;
  run : running
}.

Record Engine := mkEngine {
  nodeID : string;
  locality : Locality;
  cache : ChunkStore engState;
  trackerClient : bool;
  materializer : Options;
  maxPeerWorkers : Z;
  maxOriginWorkers : Z;
  advertiseCfg : AdvertisementConfig;
  discoverEvery : Z;
  retryAttempts : Z;
  retryInitial : Z;
  retryMax : Z
}.

Record EngineConfig := mkEngineConfig {
  NodeID : string;
  cLocality : Locality;
  Cache : ChunkStore engState;
  TrackerClient : bool;
  cClientPool : option Pool.ClientPool;
  cMaterializer : option Options;
  cScheduler : option Scheduler.Scheduler;
  MaxPeerConcurrency : Z;
  MaxConcurrencyPerPeer : Z;
  MaxOriginConcurrency : Z;
  Advertisement : AdvertisementConfig;
  PeerDiscovery : PeerDiscoveryConfig;
  Retry : RetryConfig
}.

(** [if x <= 0 { x = d }] *)
Definition orDefault (d x : Z) : Z := if (x <=? 0)%Z then d else x.

Definition noRun : running := mkRunning ∅ ∅ ∅ None (Advertise.New false (mkAdvertisement 0 0 0 0 0)) false.

Definition NewEngine (cfg : EngineConfig) : Engine * engState :=
  let perPeer := orDefault 4 (MaxConcurrencyPerPeer cfg) in
  let a := Advertisement cfg in
  let adv := mkAdvertisement (orDefault 16 (BatchSize a)) (orDefault (100 * millisecond) (Interval a))
               (orDefault 5 (MaxRetries a)) (orDefault (100 * millisecond) (RetryBackoff a)) (MaxRetryBackoff a) in
  let backoff := Backoff (Retry cfg) in
  (mkEngine (NodeID cfg) (cLocality cfg) (Cache cfg) (TrackerClient cfg)
     (default (NewMaterializer DefaultOptions) (cMaterializer cfg))
     (orDefault 8 (MaxPeerConcurrency cfg)) (orDefault 4 (MaxOriginConcurrency cfg)) adv
     (orDefault (500 * millisecond) (RefreshInterval (PeerDiscovery cfg)))
     (orDefault 3 (MaxAttempts (Retry cfg))) (orDefault (100 * millisecond) (bInitial backoff))
     (orDefault (2 * second) (bMax backoff)),
   mkState (default (Scheduler.New perPeer) (cScheduler cfg)) (default Pool.NewClientPool (cClientPool cfg)) 0 ∅ [] noRun).

(** ** Access to the state *)

Definition setRun (r : running) (s : engState) : engState :=
  mkState (scheduler s) (clientPool s) (originUsed s) (jobs s) (reported s) r.
Definition setScheduler (x : Scheduler.Scheduler) (s : engState) : engState :=
  mkState x (clientPool s) (originUsed s) (jobs s) (reported s) (run s).
Definition setPool (x : Pool.ClientPool) (s : engState) : engState :=
  mkState (scheduler s) x (originUsed s) (jobs s) (reported s) (run s).
Definition setOrigin (n : Z) (s : engState) : engState :=
  mkState (scheduler s) (clientPool s) n (jobs s) (reported s) (run s).
Definition setJobs (j : gmap string SyncJob) (s : engState) : engState :=
  mkState (scheduler s) (clientPool s) (originUsed s) j (reported s) (run s).
Definition setReported (l : list string) (s : engState) : engState :=
  mkState (scheduler s) (clientPool s) (originUsed s) (jobs s) l (run s).

Definition setLocs (l : gmap string (list PeerInfo)) (r : running) : running :=
  mkRunning l (assigned r) (pending r) (downloadErr r) (ad r) (panicked r).
Definition setAssigned (a : gmap string Z) (r : running) : running :=
  mkRunning (locs r) a (pending r) (downloadErr r) (ad r) (panicked r).
Definition setPending (p : gmap string chunkWorkItem) (r : running) : running :=
  mkRunning (locs r) (assigned r) p (downloadErr r) (ad r) (panicked r).
Definition setErr (e : option error) (r : running) : running :=
  mkRunning (locs r) (assigned r) (pending r) e (ad r) (panicked r).
Definition setAd (a : Advertise.Advertiser) (r : running) : running :=
  mkRunning (locs r) (assigned r) (pending r) (downloadErr r) a (panicked r).
Definition setPanicked (r : running) : running :=
  mkRunning (locs r) (assigned r) (pending r) (downloadErr r) (ad r) true.

Abbreviation X := engState.

(** A critical section on the state. *)
Definition onState {A} (f : X -> A * X) : IO X A := fun w => (Ok (f (ext w)).1, setExt (f (ext w)).2 w).

Definition modState (f : X -> X) : IO X unit := onState (fun s => (tt, f s)).
Definition modRun (f : running -> running) : IO X unit := modState (fun s => setRun (f (run s)) s).
Definition getState : IO X X := onState (fun s => (s, s)).

(** ** The pending queue and the location map *)

Definition newPendingQueue (items : list chunkWorkItem) : gmap string chunkWorkItem :=
  fold_left (fun m it => <[whash it := it]> m) items ∅.

Definition next (r : running) : option chunkWorkItem * running :=
  let hashes := map fst (map_to_list (pending r)) in
  match RarestFirst hashes (locs r) with
  | [] => (None, r)
  | pick :: _ => (pending r !! pick, setPending (delete pick (pending r)) r)
  end.

Definition get (r : running) (h : string) : list PeerInfo := default [] (locs r !! h).

(** Peers with an address, each address once. *)
Fixpoint addPeers (seen : gset string) (peers : list (option PeerInfo)) : list PeerInfo * gset string :=
  match peers with
  | [] => ([], seen)
  | None :: peers' => addPeers seen peers'
  | Some p :: peers' =>
      if bool_decide (Address p = "") || bool_decide (Address p ∈ seen) then addPeers seen peers'
      else let '(out, s) := addPeers ({[Address p]} ∪ seen) peers' in (p :: out, s)
  end.

Definition replace (h : string) (peers : list (option PeerInfo)) (r : running) : running :=
  setLocs (<[h := (addPeers ∅ peers).1]> (locs r)) r.

Definition merge (h : string) (peers : list (option PeerInfo)) (r : running) : running :=
  let '(out, seen) := addPeers ∅ (map Some (get r h)) in
  setLocs (<[h := out ++ (addPeers seen peers).1]> (locs r)) r.

(** The three gauges of [updateSwarmMetrics]. *)
Definition updateSwarmMetrics (remaining : list string) (r : running) : float64 * float64 * float64 :=
  let ls := List.filter (fun kv => bool_decide (kv.1 ∈ remaining) && negb (bool_decide (kv.2 = []))) (map_to_list (locs r)) in
  let unique : gset string :=
    list_to_set (List.filter (fun a => negb (bool_decide (a = ""))) (map Address (concat (map snd ls)))) in
  let withPeers := Z.of_nat (length ls) in
  let totalPeerSources := sumZ (map (fun kv => Z.of_nat (length kv.2)) ls) in
  (ofInt64 (Z.of_nat (size unique)), ofInt64 withPeers,
   if (0 <? withPeers)%Z then fdiv (ofInt64 totalPeerSources) (ofInt64 withPeers) else fzero).

(** The answers of the tracker to [LocateArtifact] and [LocateChunks]. *)
Record located := mkLocated {
  seedPeers : res (list (option PeerInfo));
  chunkPeers : res (list (string * list (option PeerInfo)))
}.

Definition refreshLocations (e : Engine) (hashes : list string) (ans : located) (r : running) : running :=
  if negb (trackerClient e) || bool_decide (hashes = []) then r
  else
    let r := match seedPeers ans with
             | Ok ((_ :: _) as seeds) => fold_left (fun r h => replace h seeds r) hashes r
             | _ => r
             end in
    match chunkPeers ans with
    | Err _ => r
    | Ok ls => fold_left (fun r loc => replace loc.1 loc.2 r) ls r
    end.

(** ** Load per peer *)

Definition loadAssigned (m : gmap string Z) (addr : string) : Z * gmap string Z :=
  match m !! addr with Some n => (n, m) | None => (0%Z, <[addr := 0%Z]> m) end.

Definition addAssigned (addr : string) (delta : Z) (m : gmap string Z) : gmap string Z :=
  <[addr := add64 (default 0%Z (m !! addr)) delta]> m.

(** The inner loop of [sortByAssigned]: a peer moves left over the sorted prefix
    (given last element first) while fewer chunks are assigned to it. *)
Fixpoint sinkLeft (m : gmap string Z) (p : PeerInfo) (revPrefix : list PeerInfo) : list PeerInfo * gmap string Z :=
  match revPrefix with
  | [] => ([p], m)
  | q :: rest =>
      let '(a, m) := loadAssigned m (Address p) in
      let '(b, m) := loadAssigned m (Address q) in
      if (a <? b)%Z then let '(l, m) := sinkLeft m p rest in (q :: l, m) else (p :: q :: rest, m)
  end.

Definition sortByAssigned (peers : list PeerInfo) (m : gmap string Z) : list PeerInfo * gmap string Z :=
  let '(l, m) := fold_left (fun '(acc, m) p => sinkLeft m p acc) peers ([], m) in (rev l, m).

(** ** Errors *)

(** [errText] is the method [Error], whose text the standard library and gRPC
    compose. *)
Definition containsCorrupt (errText : error -> string) (e : error) : bool :=
  errorsIs e ErrHashMismatch || bool_decide (statusCode e = COutOfRange)
  || contains "corrupt" (errText e) || contains "integrity" (errText e).

(** The dynamic type of an error. *)
Inductive errType := TErrorString | TDeadline | TPathError | TLinkError | TStatus | TWrap.

#[export] Instance errType_eq_dec : EqDecision errType.
Proof. solve_decision. Defined.

Definition typeOf (e : error) : errType :=
  match e with
  | ESentinel ContextDeadlineExceeded => TDeadline
  | ESentinel _ | EText _ | EManifest _ => TErrorString
  | ESys op _ => if bool_decide (op = "rename") || bool_decide (op = "link") then TLinkError else TPathError
  | EStatus _ _ => TStatus
  | EWrap _ _ => TWrap
  end.

(** [downloadErr.Store(err)]: an [atomic.Value] panics when the type of the
    value is not the one of the value it holds. *)
Definition storeErr (e : error) (r : running) : running :=
  match downloadErr r with
  | None => setErr (Some e) r
  | Some e0 => if bool_decide (typeOf e0 = typeOf e) then setErr (Some e) r else setPanicked r
  end.

(** ** Downloads *)

(** What the environment answers to one step: the context, the choice of a
    select whose cases are both ready, the dialled connection, the stream of
    the peer, whether a reader that failed on its own had taken all bytes from
    the pipe. *)
Record input := mkInput {
  iCtx : option error;
  iPick : bool;
  iDial : res nat;
  iRpc : GetChunkRequest -> res (list ChunkDataChunk * option error);
  iDrained : bool
}.

Section downloads.
Context {D : Digest} {SS : SortSlice} {MC : ManifestCodec} {CF : CaseFold} (errText : error -> string).
Implicit Types (e : Engine) (work : chunkWorkItem) (inp : input).

(** The pipe between a download and [AppendPartial] is never closed by its
    reader: when [AppendPartial] fails on its own and the writer still has
    bytes, the writer does not return. *)
Definition writerBlocked (drained : bool) (delivered : bytes) (dlErr : option error) (appended : res unit) : bool :=
  negb (bool_decide (delivered = [])) &&
  match appended with
  | Ok _ => false
  | Err (EWrap msg e) =>
      if bool_decide (msg = "write partial") then negb (bool_decide (dlErr = Some e)) && negb drained
      else negb (bool_decide (msg = "sync partial"))
  | Err (ESys op _) => negb (bool_decide (op = "close"))
  | Err _ => true
  end.

Definition getClient inp (addr : string) : IO X (option error) :=
  do t <- getNow;
  onState (fun s =>
    let '(r, p) := Pool.GetClient t t addr (iDial inp) id (clientPool s) in
    (match r with Ok _ => None | Err e => Some e end, setPool p s)).

(** [None]: the call does not return. *)
Definition downloadFromPeer e inp (addr : string) work : IO X (option (res Z)) :=
  let c := cache e in
  do partial <- PartialSize c (whash work);
  do offset <- (if (0 <? wsize work)%Z && (wsize work <? partial)%Z
                then do_ ignore (DiscardPartial c (whash work)); ioRet 0%Z else ioRet partial);
  do client <- getClient inp addr;
  let '((total, dlErr), delivered) := DownloadChunkTo bufWrite client (iRpc inp) (whash work) offset [] in
  do appended <- attempt (AppendPartial c (whash work) (delivered, dlErr));
  if writerBlocked (iDrained inp) delivered dlErr appended then ioRet None
  else
    match dlErr, appended with
    | Some err, _ =>
        do_ (if containsCorrupt errText err || errorsIs err ErrHashMismatch
             then ignore (DiscardPartial c (whash work)) else ioRet tt);
        ioRet (Some (Err err))
    | None, Err err => ioRet (Some (Err err))
    | None, Ok _ =>
        do got <- PartialSize c (whash work);
        if (0 <? total)%Z && (got <? total)%Z
        then ioRet (Some (Err (EWrap "have fewer bytes than announced" (ESentinel ErrIncomplete))))
        else
          do committed <- attempt (CommitPartial c (whash work));
          match committed with
          | Err err =>
              do_ (if errorsIs err ErrHashMismatch then ignore (DiscardPartial c (whash work)) else ioRet tt);
              ioRet (Some (Err err))
          | Ok _ => ioRet (Some (Ok (if (total <=? 0)%Z then got else total)))
          end
    end.

(** The part of [downloadFromOrigin] between [acquireOrigin] and [releaseOrigin]. *)
Definition downloadFromOrigin e inp work (origin : Src.Source X) : IO X (option (res Z)) :=
  let c := cache e in
  do partial <- PartialSize c (whash work);
  let remain := sub64 (wsize work) partial in
  do (partial, remain) <- (if (remain <? 0)%Z
                           then do_ ignore (DiscardPartial c (whash work)); ioRet (0%Z, wsize work)
                           else ioRet (partial, remain));
  do (delivered, fetched) <- Src.ReadChunkTo origin (wpath work) (add64 (woffset work) partial) remain;
  let fetchErr := match fetched with Ok _ => None | Err err => Some err end in
  let readErr := match fetchErr with
                 | Some err => Some (EWrap "failed to fetch chunk from origin" err)
                 | None => None
                 end in
  do appended <- attempt (AppendPartial c (whash work) (delivered, readErr));
  if writerBlocked (iDrained inp) delivered readErr appended then ioRet None
  else
    match fetched, appended with
    | Err err, _ => ioRet (Some (Err err))
    | Ok _, Err err => ioRet (Some (Err err))
    | Ok total, Ok _ =>
        do got <- PartialSize c (whash work);
        if (0 <? total)%Z && (got <? total)%Z
        then ioRet (Some (Err (EWrap "have fewer bytes than announced" (ESentinel ErrIncomplete))))
        else
          do committed <- attempt (CommitPartial c (whash work));
          match committed with
          | Err err =>
              if errorsIs err ErrHashMismatch then
                do_ ignore (DiscardPartial c (whash work));
                ioRet (Some (Err (EWrap "integrity check failed for chunk" err)))
              else ioRet (Some (Err (EWrap "failed to commit chunk to cache" err)))
          | Ok _ => ioRet (Some (Ok (if (total <=? 0)%Z then got else total)))
          end
    end.

(** ** Workers *)

(** Where a worker is; [attempt] and [backoff] are the variables of [fetchChunk]. *)
Inductive phase :=
  | Top                                                                    (* the head of the loop *)
  | Ranking (work : chunkWorkItem) (attempt backoff : Z)                   (* the head of the attempts *)
  | Trying (work : chunkWorkItem) (attempt backoff : Z) (cands : list PeerInfo)
  | Claiming (work : chunkWorkItem) (attempt backoff : Z) (p : PeerInfo) (cands : list PeerInfo)
  | Fetching (work : chunkWorkItem) (attempt backoff : Z) (p : PeerInfo) (cands : list PeerInfo) (start : Z)
  | Fetched (work : chunkWorkItem) (attempt backoff : Z) (p : PeerInfo) (cands : list PeerInfo) (start : Z) (r : res Z)
  | Pausing (work : chunkWorkItem) (attempt backoff : Z)                   (* the select before the next attempt *)
  | AtOrigin (work : chunkWorkItem)                                        (* acquireOrigin *)
  | Holding (work : chunkWorkItem)                                         (* with a slot of the origin *)
  | Reporting (work : chunkWorkItem) (fromPeer : bool) (n : Z)
  | Stuck                                                                  (* waits for a writer that is blocked *)
  | Finished.

Definition fail (err : error) : IO X (option phase) := do_ modRun (storeErr err); ioRet (Some Finished).

(** Change the job of the running [Sync]. *)
Definition onJob (jobID : string) (f : SyncJob -> SyncJob) : IO X unit :=
  modState (fun s => setJobs (alter f jobID (jobs s)) s).

Definition countChunk (fromPeer : bool) (n : Z) (j : SyncJob) : SyncJob :=
  mkJob (JobID j) (jArtifactID j) (Status j) (TotalChunks j) (add64 (DownloadedChunks j) 1)
    (if fromPeer then add64 (PeerChunks j) 1 else PeerChunks j)
    (if fromPeer then OriginChunks j else add64 (OriginChunks j) 1)
    (SkippedChunks j)
    (if fromPeer then add64 (PeerBytes j) n else PeerBytes j)
    (if fromPeer then OriginBytes j else add64 (OriginBytes j) n)
    (ErrorMessage j) (StartTime j) (EndTime j).

(** [backoff] doubled up to the limit. *)
Definition nextBackoff (max backoff : Z) : Z :=
  if (backoff <? max)%Z then let b := wrap64 (backoff * 2) in if (max <? b)%Z then max else b else backoff.

(** The next step of a worker.  [None]: it cannot move now. *)
Definition advance e (origin : option (Src.Source X)) (jobID : string) inp (ph : phase) : IO X (option phase) :=
  match ph with
  | Top =>
      match iCtx inp with
      | Some err => fail err
      | None =>
          do s <- getState;
          match downloadErr (run s) with
          | Some _ => ioRet (Some Finished)
          | None =>
              do picked <- onState (fun s => let '(o, r) := next (run s) in (o, setRun r s));
              ioRet (Some match picked with None => Finished | Some work => Ranking work 0 (retryInitial e) end)
          end
      end
  | Ranking work n backoff =>
      if (n <? retryAttempts e)%Z then
        do t <- getNow;
        do cands <- onState (fun s =>
          let '(ps, sch) := RankPeers t (locality e) (map Some (get (run s) (whash work))) (scheduler s) in
          let '(ps, m) := sortByAssigned ps (assigned (run s)) in
          (ps, setRun (setAssigned m (run s)) (setScheduler sch s)));
        ioRet (Some (Trying work n backoff cands))
      else ioRet (Some (AtOrigin work))
  | Trying work n backoff [] =>
      ioRet (Some (if (n + 1 <? retryAttempts e)%Z then Pausing work n backoff else Ranking work (n + 1) backoff))
  | Trying work n backoff (p :: rest) =>
      if bool_decide (Address p = "") then ioRet (Some (Trying work n backoff rest))
      else
        do t <- getNow;
        do bad <- onState (fun s => let '(b, sch) := IsUntrusted t (Address p) (scheduler s) in (b, setScheduler sch s));
        ioRet (Some (if bad : bool then Trying work n backoff rest else Claiming work n backoff p rest))
  | Claiming work n backoff p rest =>
      do t <- getNow;
      do got <- onState (fun s =>
        let '(b, sch) := Begin (Address p) (scheduler s) in
        let s := setScheduler sch s in
        (b, if b : bool then setRun (setAssigned (addAssigned (Address p) 1 (assigned (run s))) (run s)) s else s));
      ioRet (Some (if got : bool then Fetching work n backoff p rest t else Trying work n backoff rest))
  | Fetching work n backoff p rest start =>
      do r <- downloadFromPeer e inp (Address p) work;
      ioRet (Some match r with None => Stuck | Some r => Fetched work n backoff p rest start r end)
  | Fetched work n backoff p rest start r =>
      do t <- getNow;
      do_ modState (fun s =>
        let s := setRun (setAssigned (addAssigned (Address p) (-1) (assigned (run s))) (run s)) s in
        let '(nbytes, ok) := match r with Ok nb => (nb, true) | Err _ => (0%Z, false) end in
        let s := setScheduler (Scheduler.End t (Address p) nbytes (timeSub t (Some start)) ok (scheduler s)) s in
        if ok then s
        else
          let '(bad, sch) := IsUntrusted t (Address p) (scheduler s) in
          let s := setScheduler sch s in
          if bad : bool then setPool (Pool.RemovePeer (Address p) (clientPool s)) s else s);
      ioRet (Some match r with Ok nb => Reporting work true nb | Err _ => Trying work n backoff rest end)
  | Pausing work n backoff =>
      match iCtx inp, iPick inp with
      | Some err, false => fail err
      | _, _ => ioRet (Some (Ranking work (n + 1) (nextBackoff (retryMax e) backoff)))
      end
  | AtOrigin work =>
      match origin with
      | None => fail (EText "no peer available for chunk and no origin configured")
      | Some _ =>
          do s <- getState;
          if (originUsed s <? maxOriginWorkers e)%Z then
            match iCtx inp, iPick inp with
            | Some err, false => fail err
            | _, _ => do_ modState (fun s => setOrigin (originUsed s + 1) s); ioRet (Some (Holding work))
            end
          else match iCtx inp with Some err => fail err | None => ioRet None end
      end
  | Holding work =>
      match origin with
      | None => ioRet None
      | Some src =>
          do r <- downloadFromOrigin e inp work src;
          match r with
          | None => ioRet (Some Stuck)
          | Some r =>
              do_ modState (fun s => setOrigin (originUsed s - 1) s);
              match r with Err err => fail err | Ok n => ioRet (Some (Reporting work false n)) end
          end
      end
  | Reporting work fromPeer n =>
      do t <- getNow;
      do_ onJob jobID (countChunk fromPeer n);
      do_ modRun (fun r => setAd (Advertise.Enqueue t (whash work) (ad r)) r);
      ioRet (Some Top)
  | Stuck | Finished => ioRet None
  end.

(** ** Sync *)

(** The loop over the chunks of the manifest: the missing ones, each hash once,
    the number of those that are there and their bytes. *)
Fixpoint scanChunks e (refs : list (string * ChunkRef)) (seen : gset string) : IO X (list chunkWorkItem * Z * Z) :=
  match refs with
  | [] => ioRet ([], 0%Z, 0%Z)
  | (path, ref) :: refs' =>
      do valid <- HasValidCommittedChunk (cache e) (Hash ref) (Size ref);
      if valid : bool then
        do (items, skipped, reused) <- scanChunks e refs' seen;
        ioRet (items, add64 skipped 1, add64 (Size ref) reused)
      else if bool_decide (Hash ref ∈ seen) then scanChunks e refs' seen
      else
        do (items, skipped, reused) <- scanChunks e refs' ({[Hash ref]} ∪ seen);
        ioRet (mkWork (Hash ref) path (Offset ref) (Size ref) :: items, skipped, reused)
  end.

Definition allRefs (m : ArtifactManifest) : list (string * ChunkRef) :=
  concat (map (fun f => map (fun ref => (Path f, ref)) (chunksOf f)) (files m)).

(** What happens while the workers run: a step of worker [i], a tick of the
    background refresh, a turn of the advertiser's loop, the passing of time. *)
Inductive event :=
  | Work (i : nat) (inp : input)
  | Refresh (ans : located)
  | AdHash
  | AdTick
  | Clock (t : Z).

Fixpoint remainingOf e (hashes : list string) : IO X (list string) :=
  match hashes with
  | [] => ioRet []
  | h :: hs =>
      do has <- HasChunk (cache e) h;
      do rest <- remainingOf e hs;
      ioRet (if has : bool then rest else h :: rest)
  end.

Section events.
Context (tracker : nat -> list string -> option error).
Context (e : Engine) (origin : option (Src.Source X)) (jobID : string) (missing : list string).

Definition handle (ev : event) (workers : list phase) : IO X (list phase) :=
  do s <- getState;
  if panicked (run s) then ioRet workers
  else
    match ev with
    | Work i inp =>
        match workers !! i with
        | None => ioRet workers
        | Some ph =>
            do r <- advance e origin jobID inp ph;
            ioRet match r with None => workers | Some ph' => <[i := ph']> workers end
        end
    | Refresh ans =>
        do remaining <- remainingOf e missing;
        do_ modRun (refreshLocations e remaining ans);
        ioRet workers
    | AdHash => do t <- getNow; do_ modRun (fun r => setAd (onHash tracker t (ad r)) r); ioRet workers
    | AdTick => do t <- getNow; do_ modRun (fun r => setAd (onTick tracker t (ad r)) r); ioRet workers
    | Clock t => fun w => (Ok workers, World (wdisk w) (faults w) (rands w) t (ext w))
    end.

Fixpoint runEvents (evs : list event) (workers : list phase) : IO X (list phase) :=
  match evs with
  | [] => ioRet workers
  | ev :: evs' => do workers' <- handle ev workers; runEvents evs' workers'
  end.

End events.

Definition allFinished (workers : list phase) : bool :=
  forallb (fun ph => match ph with Finished => true | _ => false end) workers.

Definition finishJob (status msg : string) (j : SyncJob) : SyncJob :=
  mkJob (JobID j) (jArtifactID j) status (TotalChunks j) (DownloadedChunks j) (PeerChunks j) (OriginChunks j)
    (SkippedChunks j) (PeerBytes j) (OriginBytes j) msg (StartTime j) (EndTime j).

Definition endJob (t : Z) (j : SyncJob) : SyncJob :=
  mkJob (JobID j) (jArtifactID j) (Status j) (TotalChunks j) (DownloadedChunks j) (PeerChunks j) (OriginChunks j)
    (SkippedChunks j) (PeerBytes j) (OriginBytes j) (ErrorMessage j) (StartTime j) (Some t).

Definition skipJob (n : Z) (j : SyncJob) : SyncJob :=
  mkJob (JobID j) (jArtifactID j) (Status j) (TotalChunks j) (DownloadedChunks j) (PeerChunks j) (OriginChunks j)
    n (PeerBytes j) (OriginBytes j) (ErrorMessage j) (StartTime j) (EndTime j).

(** The deferred calls: [ad.Stop] and the end time. *)
Definition deferred (tracker : nat -> list string -> option error) (jobID : string) : IO X unit :=
  do t <- getNow;
  do_ modRun (fun r => setAd (onStop tracker t (ad r)) r);
  onJob jobID (endJob t).

(** The workers and the wait for them; [Ok false]: they have not all returned. *)
Definition download tracker e origin jobID (items : list chunkWorkItem) (evs : list event) : IO X bool :=
  if bool_decide (items = []) then ioRet true
  else
    do_ modRun (setPending (newPendingQueue items));
    do workers <- runEvents tracker e origin jobID (map whash items) evs
      (replicate (Z.to_nat (maxPeerWorkers e)) Top);
    do s <- getState;
    if panicked (run s) || negb (allFinished workers) then ioRet false
    else
      match downloadErr (run s) with
      | Some err => do_ onJob jobID (finishJob "FAILED" (errText err)); ioErr err
      | None => ioRet true
      end.

(** [Sync] before its workers start: the job, the missing chunks, their
    locations and the advertisement of what is there.  [ans] is the first
    answer of the tracker.  It gives the missing items, the bytes that are
    reused and the start time. *)
Definition prepare e (jobID : string) (manifest : ArtifactManifest) (ans : located) : IO X (list chunkWorkItem * Z * Z) :=
  do startTime <- getNow;
  do_ modState (fun s => setRun (mkRunning ∅ ∅ ∅ None (Advertise.New (trackerClient e) (advertiseCfg e)) false)
    (setJobs (<[jobID := mkJob jobID (ArtifactID manifest) "RUNNING"
      (Z.of_nat (length (AllChunkHashes manifest))) 0 0 0 0 0 0 "" startTime None]> (jobs s)) s));
  do (missingItems, skipped, cacheBytesReused) <- scanChunks e (allRefs manifest) ∅;
  do_ onJob jobID (skipJob skipped);
  do_ modRun (refreshLocations e (map whash missingItems) ans);
  do cached <- ManifestCachedHashes (cache e) manifest;
  do t <- getNow;
  do_ modRun (fun r => setAd (Advertise.Reconcile t cached (ad r)) r);
  ioRet (missingItems, cacheBytesReused, startTime).

(** [Sync] after it has materialised. *)
Definition complete tracker e (jobID artifactID : string) (cacheBytesReused startTime : Z) : IO X (option SyncMetrics) :=
  do_ modState (fun s => if trackerClient e then setReported (reported s ++ [artifactID]) s else s);
  do_ onJob jobID (finishJob "COMPLETED" "");
  do t <- getNow;
  do s <- getState;
  do_ deferred tracker jobID;
  ioRet match jobs s !! jobID with
        | None => None
        | Some j =>
            Some (mkMetrics (TotalChunks j) (DownloadedChunks j) (PeerChunks j) (OriginChunks j)
              (SkippedChunks j) (PeerBytes j) (OriginBytes j) cacheBytesReused (timeSub t (Some startTime)))
        end.

(** [Sync] as the events drive it.  [Ok None]: it has not returned.  [ctx] is
    the context during [Materialize]. *)
Definition Sync tracker e (ctx : nat -> option error) (jobID : string) (manifest : ArtifactManifest) (destDir : string)
    (origin : option (Src.Source X)) (ans : located) (evs : list event) : IO X (option SyncMetrics) :=
  do_ wrapErr "invalid manifest" (liftRes (Manifest.Validate manifest));
  do (missingItems, cacheBytesReused, startTime) <- prepare e jobID manifest ans;
  do finished <- attempt (download tracker e origin jobID missingItems evs);
  match finished with
  | Err err => do_ deferred tracker jobID; ioErr err
  | Ok false => ioRet None
  | Ok true =>
      do_ ignore (SaveManifest (cache e) manifest);
      do done <- attempt (Materialize ctx (materializer e) manifest (cache e) destDir);
      match done with
      | Err err =>
          do_ onJob jobID (finishJob "FAILED" ("materialization failed: " +:+ errText err));
          do_ deferred tracker jobID;
          ioErr (EWrap "failed to materialize artifact files" err)
      | Ok _ => complete tracker e jobID (ArtifactID manifest) cacheBytesReused startTime
      end
  end.

Definition GetJob (jobID : string) (s : X) : option SyncJob := jobs s !! jobID.
Definition AllJobs (s : X) : list SyncJob := map snd (map_to_list (jobs s)).

End downloads.
