(* ===== verification/EngineSafety.v ===== *)
(** * Safety of the download engine

    Whatever the peers, the origin, the tracker and the disk do, and in
    whatever order the workers run: what the engine does to the cache and to
    the destination, and what a [Sync] that returns has established. *)

From S2P Require Import Prelude GoFloat Digest GoPath Json Manifest SafePath GoFs Chunker ChunkStore StoreRuns.
From S2P Require Import Materializer Verifier Quota Peer PeerLimits Config Advertise Source Topology Scheduler Engine.
Local Open Scope go_scope.

(** ** Invariants of the disk and of the state *)

Section invariant.
Context (P : disk -> Prop) (J : engState -> Prop).

(** [m] keeps [P] on the disk and [J] of the state, and its result satisfies [Q]. *)
Definition safe {A} (m : IO engState A) (Q : A -> Prop) : Prop :=
  forall w, P (wdisk w) -> J (ext w) ->
    P (wdisk (m w).2) /\ J (ext (m w).2) /\ forall a, (m w).1 = Ok a -> Q a.

Lemma safe_ret {A} (a : A) (Q : A -> Prop) : Q a -> safe (ioRet a) Q.
Proof. intros Ha w HP HJ. split_and!; [done..|]. by intros b [= <-]. Qed.

Lemma safe_err {A} e (Q : A -> Prop) : safe (ioErr e) Q.
Proof. intros w HP HJ. by split_and!. Qed.

Lemma safe_bind {A B} (m : IO engState A) (k : A -> IO engState B) R Q :
  safe m R -> (forall a, R a -> safe (k a) Q) -> safe (ioBind m k) Q.
Proof.
  intros Hm Hk w HP HJ. unfold ioBind. destruct (Hm w HP HJ) as (H1 & H2 & H3).
  destruct (m w) as [[a|e] w']; simpl in *; [|by split_and!]. by apply Hk; auto.
Qed.

Lemma safe_weaken {A} (m : IO engState A) (R Q : A -> Prop) : safe m R -> (forall a, R a -> Q a) -> safe m Q.
Proof. intros Hm HRQ w HP HJ. destruct (Hm w HP HJ) as (? & ? & ?). split_and!; auto. Qed.

Lemma safe_attempt {A} (m : IO engState A) R : safe m R -> safe (attempt m) (fun r => forall a, r = Ok a -> R a).
Proof.
  intros Hm w HP HJ. rewrite attempt_eq. destruct (Hm w HP HJ) as (? & ? & H). split_and!; [done..|].
  intros r [= <-]. exact H.
Qed.

Lemma safe_ignore {A} (m : IO engState A) R : safe m R -> safe (ignore m) (fun _ => True).
Proof. intros Hm w HP HJ. rewrite ignore_eq. by destruct (Hm w HP HJ) as (? & ? & _). Qed.

Lemma safe_wrapErr {A} msg (m : IO engState A) R : safe m R -> safe (wrapErr msg m) R.
Proof. intros Hm w HP HJ. unfold wrapErr. destruct (Hm w HP HJ) as (? & ? & ?). by destruct (m w) as [[a|e] w']. Qed.

(** A call on the disk. *)
Lemma safe_disk {A} (m : IO engState A) : keeps P m -> extSame m -> safe m (fun _ => True).
Proof. intros Hk He w HP HJ. split_and!; [by apply Hk|by rewrite He|done]. Qed.

(** A critical section. *)
Lemma safe_onState {A} (f : engState -> A * engState) (Q : A -> Prop) :
  (forall s, J s -> J (f s).2 /\ Q (f s).1) -> safe (onState f) Q.
Proof.
  intros Hf w HP HJ. unfold onState. simpl. destruct (Hf _ HJ). split_and!; [done..|]. by intros a [= <-].
Qed.

Lemma safe_modState (f : engState -> engState) : (forall s, J s -> J (f s)) -> safe (modState f) (fun _ => True).
Proof. intros Hf. apply safe_onState. intros s Hs. by split; [apply Hf|]. Qed.

Lemma safe_getNow : safe getNow (fun _ => True).
Proof. by intros w HP HJ. Qed.

Lemma safe_getState : safe getState J.
Proof. apply safe_onState. done. Qed.

End invariant.

(** ** The work of a worker *)

Definition workOf (ph : phase) : option chunkWorkItem :=
  match ph with
  | Ranking work _ _ | Trying work _ _ _ | Claiming work _ _ _ _ | Fetching work _ _ _ _ _
  | Fetched work _ _ _ _ _ _ | Pausing work _ _ | AtOrigin work | Holding work | Reporting work _ _ => Some work
  | Top | Stuck | Finished => None
  end.

(** The items of a queue. *)
Lemma newPendingQueue_elem items h work :
  newPendingQueue items !! h = Some work -> work ∈ items /\ whash work = h.
Proof.
  unfold newPendingQueue.
  assert (forall m : gmap string chunkWorkItem, fold_left (fun m it => <[whash it := it]> m) items m !! h = Some work ->
    m !! h = Some work \/ (work ∈ items /\ whash work = h)) as H.
  { induction items as [|it items IH]; intros m; simpl; [by left|].
    intros [Hm|[? ?]]%IH; [|right; set_solver].
    apply lookup_insert_Some in Hm as [[<- <-]|[_ ?]]; [right; set_solver|by left]. }
  intros Hl. destruct (H ∅ Hl) as [He|?]; [by rewrite lookup_empty in He|done].
Qed.

Section steps.
Context {D : Digest} {SS : SortSlice} {MC : ManifestCodec} {CF : CaseFold} (errText : error -> string).
Context (e : Engine) (origin : option (Src.Source engState)) (P : disk -> Prop) {SK : StoreKeeps (cache e) P}.
Context (Hhook : forall fn h z, onCommit (cache e) = Some fn -> extSame (fn h z)).
Context (Horigin : forall src path o n, origin = Some src ->
  keeps P (Src.ReadChunkTo src path o n) /\ extSame (Src.ReadChunkTo src path o n)).
(** A property of the hashes of the work. *)
Context (N : string -> Prop) (HN : forall h, N h -> wellNamed h).

Definition namedPhase (ph : phase) : Prop := forall work, workOf ph = Some work -> N (whash work).

Definition namedState (s : engState) : Prop :=
  forall h work, pending (run s) !! h = Some work -> N (whash work).

Abbreviation ok := (safe P namedState).

Lemma ok_PartialSize h : ok (PartialSize (cache e) h) (fun _ => True).
Proof. apply safe_disk; [apply keeps_PartialSize|apply extSame_PartialSize]. Qed.

Lemma ok_Discard h : N h -> ok (DiscardPartial (cache e) h) (fun _ => True).
Proof. intros Hh. apply safe_disk; [by apply sk_discard, HN|apply extSame_DiscardPartial]. Qed.

Lemma ok_Append h r : N h -> ok (AppendPartial (cache e) h r) (fun _ => True).
Proof. intros Hh. apply safe_disk; [by apply sk_append, HN|apply extSame_AppendPartial]. Qed.

Lemma ok_Commit h : N h -> ok (CommitPartial (cache e) h) (fun _ => True).
Proof. intros Hh. apply safe_disk; [by apply sk_commit, HN|by apply extSame_CommitPartial]. Qed.

Create HintDb engine.
#[local] Hint Resolve ok_PartialSize ok_Discard ok_Append ok_Commit safe_getNow safe_getState : engine.

(** A section that leaves the pending queue alone. *)
Lemma named_pending s s' : pending (run s') = pending (run s) -> namedState s -> namedState s'.
Proof. unfold namedState. by intros ->. Qed.

Lemma ok_tail {A} (b : bool) h (a : A) :
  N h -> ok (do_ (if b then ignore (DiscardPartial (cache e) h) else ioRet tt); ioRet a) (fun _ => True).
Proof.
  intros Hh. eapply safe_bind; [|intros; by apply safe_ret].
  destruct b; [eapply safe_ignore; auto with engine|by apply safe_ret].
Qed.

Lemma ok_downloadFromPeer inp addr work :
  N (whash work) -> ok (downloadFromPeer errText e inp addr work) (fun _ => True).
Proof.
  intros Hw. unfold downloadFromPeer. eapply safe_bind; [apply ok_PartialSize|intros partial _].
  eapply (safe_bind _ _ _ _ (fun _ => True)).
  { destruct (_ && _); [|by apply safe_ret]. eapply safe_bind; [eapply safe_ignore; auto with engine|].
    intros _ _. by apply safe_ret. }
  intros offset _. eapply (safe_bind _ _ _ _ (fun _ => True)).
  { unfold getClient. eapply safe_bind; [apply safe_getNow|]. intros t _. apply safe_onState. intros s Hs.
    destruct (Pool.GetClient _ _ _ _ _ _) as [r p]. split; [|done]. by apply (named_pending s). }
  intros client _. destruct (DownloadChunkTo _ _ _ _ _ _) as [[total dlErr] delivered].
  eapply safe_bind; [eapply safe_attempt; auto with engine|]. intros appended _.
  destruct (writerBlocked _ _ _ _); [by apply safe_ret|].
  destruct dlErr as [err|]; [by apply ok_tail|]. destruct appended as [?|err]; [|by apply safe_ret].
  eapply safe_bind; [apply ok_PartialSize|intros got _]. destruct (_ && _); [by apply safe_ret|].
  eapply safe_bind; [eapply safe_attempt; auto with engine|]. intros [?|err] _; [by apply safe_ret|by apply ok_tail].
Qed.

Lemma ok_downloadFromOrigin inp work src :
  (forall path o n, keeps P (Src.ReadChunkTo src path o n) /\ extSame (Src.ReadChunkTo src path o n)) ->
  N (whash work) -> ok (downloadFromOrigin e inp work src) (fun _ => True).
Proof.
  intros Ho Hw. unfold downloadFromOrigin. eapply safe_bind; [apply ok_PartialSize|intros partial _].
  eapply (safe_bind _ _ _ _ (fun _ => True)).
  { destruct (_ <? 0)%Z; [|by apply safe_ret]. eapply safe_bind; [eapply safe_ignore; auto with engine|].
    intros _ _. by apply safe_ret. }
  intros [partial' remain] _. eapply safe_bind; [apply safe_disk; apply Ho|].
  intros [delivered fetched] _. eapply safe_bind; [eapply safe_attempt; auto with engine|]. intros appended _.
  destruct (writerBlocked _ _ _ _); [by apply safe_ret|].
  destruct fetched as [total|err]; [|by apply safe_ret]. destruct appended as [?|err]; [|by apply safe_ret].
  eapply safe_bind; [apply ok_PartialSize|intros got _]. destruct (_ && _); [by apply safe_ret|].
  eapply safe_bind; [eapply safe_attempt; auto with engine|]. intros [?|err] _; [by apply safe_ret|].
  destruct (errorsIs _ _); [|by apply safe_ret].
  eapply safe_bind; [eapply safe_ignore; auto with engine|]. intros _ _. by apply safe_ret.
Qed.

Lemma ok_fail err : ok (fail err) (fun r => forall ph, r = Some ph -> namedPhase ph).
Proof.
  unfold fail. eapply safe_bind.
  - apply safe_modState. intros s. apply named_pending. simpl. unfold storeErr.
    destruct (downloadErr (run s)) as [e0|]; [|done]. by case_bool_decide.
  - intros _ _. apply safe_ret. by intros ph [= <-] work.
Qed.

(** A step to a phase with the same work, or none. *)
Lemma ok_goto ph work :
  N (whash work) -> workOf ph = Some work \/ workOf ph = None ->
  ok (ioRet (Some ph)) (fun r => forall ph', r = Some ph' -> namedPhase ph').
Proof. intros Hw Hph. apply safe_ret. intros ph' [= <-] work' Hw'. destruct Hph; congruence. Qed.

Lemma ok_next :
  ok (onState (fun s => let '(o, r) := next (run s) in (o, setRun r s)))
     (fun o => forall work, o = Some work -> N (whash work)).
Proof.
  apply safe_onState. intros s Hs. unfold next. destruct (RarestFirst _ _) as [|pick rest]; simpl.
  - split; [by apply (named_pending s)|done].
  - split; [|intros work Hw; by eapply Hs].
    intros h work. simpl. intros [_ Hl]%lookup_delete_Some. by eapply Hs.
Qed.

Lemma named_fetched t addr start r s :
  namedState s ->
  namedState
    (let s := setRun (setAssigned (addAssigned addr (-1) (assigned (run s))) (run s)) s in
     let '(nbytes, ok) := match r with Ok nb => (nb, true) | Err _ => (0%Z, false) end in
     let s := setScheduler (Scheduler.End t addr nbytes (timeSub t (Some start)) ok (scheduler s)) s in
     if ok then s
     else
       let '(bad, sch) := IsUntrusted t addr (scheduler s) in
       let s := setScheduler sch s in
       if bad : bool then setPool (Pool.RemovePeer addr (clientPool s)) s else s).
Proof.
  apply named_pending. destruct r; cbv zeta; [done|].
  destruct (IsUntrusted _ _ _) as [bad sch]. by destruct bad.
Qed.

Lemma ok_advance jobID inp ph :
  namedPhase ph -> ok (advance errText e origin jobID inp ph) (fun r => forall ph', r = Some ph' -> namedPhase ph').
Proof.
  intros Hph. destruct ph as [|work n b|work n b [|p rest]|work n b p rest|work n b p rest t0|work n b p rest t0 r
    |work n b|work|work|work fp nb| |]; cbn [advance];
    try (pose proof (Hph work eq_refl) as Hw); try by apply safe_ret.
  - destruct (iCtx inp); [apply ok_fail|]. eapply safe_bind; [apply safe_getState|]. intros s _.
    destruct (downloadErr _); [apply safe_ret; by intros ph [= <-] work|].
    eapply safe_bind; [apply ok_next|]. intros [work|] Hw; apply safe_ret; intros ph [= <-] work' [=]; subst; auto.
  - destruct (_ <? _)%Z; [|apply (ok_goto _ work); auto]. eapply safe_bind; [apply safe_getNow|]. intros t _.
    eapply (safe_bind _ _ _ _ (fun _ => True)); [|intros cands _; apply (ok_goto _ work); auto].
    apply safe_onState. intros s Hs. destruct (RankPeers _ _ _ _) as [ps sch]. destruct (sortByAssigned _ _) as [ps' m].
    split; [by apply (named_pending s)|done].
  - apply (ok_goto _ work); [done|]. left. by destruct (_ <? _)%Z.
  - destruct (bool_decide _); [apply (ok_goto _ work); auto|]. eapply safe_bind; [apply safe_getNow|]. intros t _.
    eapply (safe_bind _ _ _ _ (fun _ => True)); [|intros bad _; apply (ok_goto _ work); [done|left; by destruct bad]].
    apply safe_onState. intros s Hs. destruct (IsUntrusted _ _ _). split; [by apply (named_pending s)|done].
  - eapply safe_bind; [apply safe_getNow|]. intros t _.
    eapply (safe_bind _ _ _ _ (fun _ => True)); [|intros got _; apply (ok_goto _ work); [done|left; by destruct got]].
    apply safe_onState. intros s Hs. destruct (Begin _ _) as [[|] sch]; split; try done; by apply (named_pending s).
  - eapply safe_bind; [by apply ok_downloadFromPeer|]. intros [r|] _; apply (ok_goto _ work); auto.
  - eapply safe_bind; [apply safe_getNow|]. intros t _.
    eapply safe_bind; [apply safe_modState; intros s; apply named_fetched|].
    intros _ _. apply (ok_goto _ work); [done|left; by destruct r].
  - destruct (iCtx inp), (iPick inp); try apply ok_fail; apply (ok_goto _ work); auto.
  - destruct origin as [src|]; [|apply ok_fail]. eapply safe_bind; [apply safe_getState|]. intros s _.
    assert (ok (do_ modState (fun s => setOrigin (originUsed s + 1) s); ioRet (Some (Holding work)))
      (fun r => forall ph', r = Some ph' -> namedPhase ph')) as Htake.
    { eapply safe_bind; [apply safe_modState; intros s'; by apply named_pending|].
      intros _ _. apply (ok_goto _ work); auto. }
    destruct (_ <? _)%Z; [destruct (iCtx inp), (iPick inp); try apply ok_fail; apply Htake|].
    destruct (iCtx inp); [apply ok_fail|by apply safe_ret].
  - destruct origin as [src|]; [|by apply safe_ret].
    eapply safe_bind; [apply ok_downloadFromOrigin; auto|]. intros [r|] _; [|apply (ok_goto _ work); auto].
    eapply safe_bind; [apply safe_modState; intros s; by apply named_pending|]. intros _ _.
    destruct r; [apply (ok_goto _ work); auto|apply ok_fail].
  - eapply safe_bind; [apply safe_getNow|]. intros t _.
    eapply safe_bind; [apply safe_modState; intros s; by apply named_pending|]. intros _ _.
    eapply safe_bind; [apply safe_modState; intros s; by apply named_pending|]. intros _ _.
    apply safe_ret. by intros ph [= <-] work'.
Qed.

Lemma ok_HasChunk h : ok (HasChunk (cache e) h) (fun _ => True).
Proof. apply safe_disk; [apply keeps_HasChunk|apply extSame_HasChunk]. Qed.

Lemma ok_HasValidCommittedChunk h n : ok (HasValidCommittedChunk (cache e) h n) (fun _ => True).
Proof. apply safe_disk; [apply keeps_HasValidCommittedChunk|apply extSame_HasValidCommittedChunk]. Qed.

Lemma ok_remainingOf hs : ok (remainingOf e hs) (fun _ => True).
Proof.
  induction hs as [|h hs IH]; cbn [remainingOf]; [by apply safe_ret|].
  eapply safe_bind; [apply ok_HasChunk|]. intros has _. eapply safe_bind; [exact IH|]. intros rest _. by apply safe_ret.
Qed.

Lemma refresh_locs hashes ans r : exists l, refreshLocations e hashes ans r = setLocs l r.
Proof.
  assert (forall {A} (key : A -> string) peers l r,
    exists ls, fold_left (fun r a => replace (key a) (peers a) r) l r = setLocs ls r) as Hf.
  { intros A key peers. induction l as [|a l IH]; intros r0; simpl; [exists (locs r0); by destruct r0|].
    destruct (IH (replace (key a) (peers a) r0)) as [ls ->]. by exists ls. }
  unfold refreshLocations. destruct (_ || _); [exists (locs r); by destruct r|].
  assert (exists ls, match seedPeers ans with
    | Ok ((_ :: _) as seeds) => fold_left (fun r h => replace h seeds r) hashes r | _ => r end = setLocs ls r) as [ls ->].
  { destruct (seedPeers ans) as [[|p seeds]|err]; [exists (locs r); by destruct r| |exists (locs r); by destruct r].
    apply (Hf _ id (fun _ => p :: seeds)). }
  destruct (chunkPeers ans) as [lp|err]; [|by exists ls].
  destruct (Hf _ fst snd lp (setLocs ls r)) as [ls' ->]. by exists ls'.
Qed.

Lemma pending_refresh hashes ans r : pending (refreshLocations e hashes ans r) = pending r.
Proof. by destruct (refresh_locs hashes ans r) as [l ->]. Qed.

Lemma ok_handle tracker jobID missing ev workers :
  Forall namedPhase workers ->
  ok (handle errText tracker e origin jobID missing ev workers) (Forall namedPhase).
Proof.
  intros Hws. unfold handle. eapply safe_bind; [apply safe_getState|]. intros s _.
  destruct (panicked _); [by apply safe_ret|].
  destruct ev as [i inp|ans| | |t].
  - destruct (workers !! i) as [ph|] eqn:Ei; [|by apply safe_ret].
    eapply safe_bind; [apply ok_advance; by eapply Forall_lookup_1|]. intros r Hr. apply safe_ret.
    destruct r as [ph'|]; [|done]. apply Forall_insert; auto.
  - eapply safe_bind; [apply ok_remainingOf|]. intros rem _.
    eapply safe_bind; [apply safe_modState; intros s'; apply named_pending; simpl; by rewrite pending_refresh|].
    intros _ _. by apply safe_ret.
  - eapply safe_bind; [apply safe_getNow|]. intros t _.
    eapply safe_bind; [apply safe_modState; intros s'; by apply named_pending|]. intros _ _. by apply safe_ret.
  - eapply safe_bind; [apply safe_getNow|]. intros t _.
    eapply safe_bind; [apply safe_modState; intros s'; by apply named_pending|]. intros _ _. by apply safe_ret.
  - intros w HP HJ. split_and!; [done..|]. by intros ws [= <-].
Qed.

Lemma ok_runEvents tracker jobID missing evs : forall workers,
  Forall namedPhase workers ->
  ok (runEvents errText tracker e origin jobID missing evs workers) (Forall namedPhase).
Proof.
  induction evs as [|ev evs IH]; intros workers Hws; cbn [runEvents]; [by apply safe_ret|].
  eapply safe_bind; [by apply ok_handle|]. intros ws. apply IH.
Qed.

Lemma ok_download tracker jobID items evs :
  Forall (fun it => N (whash it)) items ->
  ok (download errText tracker e origin jobID items evs) (fun _ => True).
Proof.
  intros Hit. unfold download. case_bool_decide; [by apply safe_ret|].
  eapply safe_bind.
  { apply safe_modState. intros s Hs h work Hl. simpl in Hl. apply newPendingQueue_elem in Hl as [Hl _].
    rewrite Forall_forall in Hit. by apply Hit. }
  intros _ _. eapply safe_bind; [apply ok_runEvents|].
  { apply Forall_replicate. by intros work. }
  intros ws _. eapply safe_bind; [apply safe_getState|]. intros s _.
  destruct (_ || _); [by apply safe_ret|]. destruct (downloadErr _); [|by apply safe_ret].
  eapply safe_bind; [apply safe_modState; intros s'; by apply named_pending|]. intros _ _. apply safe_err.
Qed.

(** What the scan finds is in the manifest. *)
Lemma ok_scanChunks refs : forall seen,
  Forall (fun pr => N (Hash pr.2)) refs ->
  ok (scanChunks e refs seen) (fun r => Forall (fun it => N (whash it)) r.1.1).
Proof.
  induction refs as [|[path ref] refs IH]; intros seen Hr; cbn [scanChunks]; [by apply safe_ret|].
  apply Forall_cons in Hr as [Hh Hr]. eapply safe_bind; [apply ok_HasValidCommittedChunk|]. intros [|] _.
  - eapply safe_bind; [by apply IH|]. intros [[items sk] re] Hit. by apply safe_ret.
  - case_bool_decide; [by apply IH|]. eapply safe_bind; [by apply IH|].
    intros [[items sk] re] Hit. apply safe_ret. by constructor.
Qed.

End steps.

(** ** Theorems *)

(** The commit hook changes neither the disk nor the state of the engine. *)
Definition quietHook (c : ChunkStore engState) : Prop :=
  forall fn, onCommit c = Some fn -> diskless fn /\ forall h z, extSame (fn h z).

(** Reading from the origin keeps [P] and leaves the engine alone. *)
Definition quietOrigin (P : disk -> Prop) (origin : option (Src.Source engState)) : Prop :=
  forall src path o n, origin = Some src ->
    keeps P (Src.ReadChunkTo src path o n) /\ extSame (Src.ReadChunkTo src path o n).

(** C5. No peer and no origin can put a wrong chunk into the cache. When the
    items of a download have hexadecimal hashes and no item is pending before
    it, then whatever peers and origin send, whatever fails on disk and
    however the workers interleave, after any events of the download every
    file below the chunk directory still has the hash it is named after. The
    commit hook changes neither the disk nor the engine, and reading from the
    origin does not write to the store. *)
Theorem download_keeps_cache {D : Digest} {SS : SortSlice} {MC : ManifestCodec} {CF : CaseFold} errText tracker root
    e origin jobID items evs w
    (HL : storeLayout root (cache e)) (Hhook : quietHook (cache e)) (Horigin : quietOrigin (CacheInv root) origin)
    (Hnames : Forall (fun it => wellNamed (whash it)) items)
    (Hidle : pending (run (ext w)) = ∅) (HI : CacheInv root (wdisk w)) :
  CacheInv root (wdisk (download errText tracker e origin jobID items evs w).2).
Proof.
  assert (StoreKeeps (cache e) (CacheInv root)) as SK
    by (apply (StoreKeeps_inv root (cache e) HL); intros fn Hf; by apply Hhook).
  apply (ok_download errText e origin (CacheInv root)) with (N := wellNamed); try done.
  - intros fn h z Hf. by apply Hhook.
  - intros h work. by rewrite Hidle, lookup_empty.
Qed.

Lemma safe_inv {A} P J (m : IO engState A) Q w a w' :
  safe P J m Q -> m w = (Ok a, w') -> P (wdisk w) -> J (ext w) -> P (wdisk w') /\ J (ext w') /\ Q a.
Proof. intros Hm Hrun HP HJ. destruct (Hm w HP HJ) as (H1 & H2 & H3). rewrite Hrun in *. auto. Qed.

Lemma keeps_cachedRefs {X} P (c : ChunkStore X) refs : forall seen, keeps P (cachedRefs c seen refs).
Proof.
  induction refs as [|ref refs IH]; intros seen; cbn [cachedRefs]; [auto with go|].
  destruct (bool_decide _); [apply IH|]. apply keeps_bind.
  - apply keeps_HasValidCommittedChunk.
  - intros [|]; [|apply IH]. apply keeps_bind; [apply IH|auto with go].
Qed.

Lemma extSame_cachedRefs {X} (c : ChunkStore X) refs : forall seen, extSame (cachedRefs c seen refs).
Proof.
  induction refs as [|ref refs IH]; intros seen; cbn [cachedRefs]; [auto with go|].
  destruct (bool_decide _); [apply IH|]. apply extSame_bind; [apply extSame_HasValidCommittedChunk|].
  intros [|]; [|apply IH]. apply extSame_bind; [apply IH|auto with go].
Qed.

(** The refs of a manifest. *)
Lemma allRefs_named (N : string -> Prop) m :
  Forall N (AllChunkHashes m) -> Forall (fun pr => N (Hash pr.2)) (allRefs m).
Proof.
  rewrite !Forall_forall. intros H [path ref] Hin. apply H. unfold AllChunkHashes.
  apply dedupFrom_elem. split; [|set_solver]. unfold allRefs in Hin.
  apply elem_of_concat_map in Hin as (f & Hf & Hr). apply list_elem_of_fmap in Hr as (ref' & [= -> ->] & Hr).
  apply list_elem_of_fmap. exists ref'. split; [done|]. apply elem_of_concat_map. eauto.
Qed.

(** The end of a [Sync] that materialised. *)
Lemma complete_run tracker e jobID id reused start w mt w' :
  complete tracker e jobID id reused start w = (Ok (Some mt), w') ->
  wdisk w' = wdisk w
  /\ exists j, jobs (ext w') !! jobID = Some j /\ Status j = "COMPLETED" /\ EndTime j = Some (now w)
       /\ mDownloadedChunks mt = DownloadedChunks j /\ mPeerChunks mt = PeerChunks j /\ mOriginChunks mt = OriginChunks j.
Proof.
  unfold complete, ioBind, onJob, deferred, modState, onState, modRun. simpl. destruct (trackerClient e); simpl;
    rewrite lookup_alter_eq; (destruct (jobs (ext w) !! jobID) as [j|] eqn:Ej; simpl; [|done]);
    intros [= <- <-]; (split; [done|]); simpl; rewrite !lookup_alter_eq, Ej; simpl; eexists; split_and!; reflexivity.
Qed.

Section sync.
Context {D : Digest} {SS : SortSlice} {MC : ManifestCodec} {CF : CaseFold} (errText : error -> string).
Context (e : Engine) (P : disk -> Prop) {SK : StoreKeeps (cache e) P} (N : string -> Prop) (HN : forall h, N h -> wellNamed h).

(** Before the workers start; the state of an earlier [Sync] does not matter. *)
Lemma prepare_safe jobID m ans w items reused start w' :
  Forall N (AllChunkHashes m) -> P (wdisk w) -> prepare e jobID m ans w = (Ok (items, reused, start), w') ->
  P (wdisk w') /\ namedState N (ext w') /\ Forall (fun it => N (whash it)) items.
Proof.
  intros Hnames HP Hrun.
  apply ioBind_inv in Hrun as (t & w2 & [= <- <-] & Hrun). apply ioBind_inv in Hrun as (u2 & w3 & [= <- <-] & Hrun).
  refine (safe_inv P (namedState N) _ (fun r => Forall (fun it => N (whash it)) r.1.1) _ _ _ _ Hrun HP _); [|by intros h work].
  eapply safe_bind; [by apply (ok_scanChunks e P N), allRefs_named|]. intros [[items' skipped] reused'] Hit.
  eapply safe_bind; [apply safe_modState; intros s; by apply named_pending|]. intros _ _.
  eapply safe_bind; [apply safe_modState; intros s; apply named_pending; simpl; apply pending_refresh|]. intros _ _.
  eapply safe_bind; [apply safe_disk; [apply keeps_cachedRefs|apply extSame_cachedRefs]|]. intros cached _.
  eapply safe_bind; [apply safe_getNow|]. intros t _.
  eapply safe_bind; [apply safe_modState; intros s; by apply named_pending|]. intros _ _. by apply safe_ret.
Qed.

(** A [Sync] that returns has materialised on a disk with [P]. *)
Lemma Sync_materialized tracker ctx jobID m dest origin ans evs w mt w' :
  (forall fn h z, onCommit (cache e) = Some fn -> extSame (fn h z)) -> quietOrigin P origin ->
  Forall N (AllChunkHashes m) -> P (wdisk w) ->
  Sync errText tracker e ctx jobID m dest origin ans evs w = (Ok (Some mt), w') ->
  exists w1 w2, P (wdisk w1) /\ Materialize ctx (materializer e) m (cache e) dest w1 = (Ok tt, w2)
    /\ wdisk w' = wdisk w2 /\ exists j, jobs (ext w') !! jobID = Some j /\ Status j = "COMPLETED".
Proof.
  intros Hh Horigin Hnames HP Hrun.
  apply ioBind_inv in Hrun as (u1 & w1 & H1 & Hrun).
  assert (w1 = w) as -> by (unfold wrapErr, liftRes in H1; destruct (Manifest.Validate m); by injection H1).
  apply ioBind_inv in Hrun as ([[items reused] start] & w2 & Hp & Hrun).
  destruct (prepare_safe _ _ _ _ _ _ _ _ Hnames HP Hp) as (HP2 & HJ2 & Hit).
  apply ioBind_inv in Hrun as (fin & w3 & Hdl & Hrun).
  pose proof (safe_attempt _ _ _ _ (ok_download errText e origin P Hh Horigin N HN tracker jobID items evs Hit)) as Hdok.
  destruct (safe_inv _ _ _ _ _ _ _ Hdok Hdl HP2 HJ2) as (HP3 & HJ3 & _).
  destruct fin as [[|]|err]; [|done|by apply ioBind_inv in Hrun as (u & w4 & _ & Hrun)].
  apply ioBind_inv in Hrun as (u4 & w4 & Hsave & Hrun).
  assert (safe P (namedState N) (ignore (SaveManifest (cache e) m)) (fun _ => True)) as Hsv
    by (eapply safe_ignore, safe_disk; [apply sk_save|apply extSame_SaveManifest]).
  destruct (safe_inv _ _ _ _ _ _ _ Hsv Hsave HP3 HJ3) as (HP4 & _).
  apply ioBind_inv in Hrun as (mat & w5 & Hmat & Hrun). apply attempt_inv in Hmat.
  destruct mat as [[]|err].
  - apply complete_run in Hrun as (Hd & j & Hj & Hst & _). exists w4, w5. split_and!; eauto.
  - apply ioBind_inv in Hrun as (? & ? & _ & Hrun). by apply ioBind_inv in Hrun as (? & ? & _ & Hrun).
Qed.

End sync.

(** C4. A [Sync] that returns has put the artifact in place, exactly. Whatever
    the peers, the origin and the tracker answered, whatever failed and
    however the workers interleaved: if an engine that copies (no hard links)
    syncs a manifest with hexadecimal chunk names, no two of whose paths clean
    to the same file, into a directory without files, apart from the store,
    and [Sync] returns without error, then every manifest entry is there with
    contents made of pieces that have the declared hashes and sizes, there is
    no other file below the directory, and the job is COMPLETED. The commit
    hook changes neither the disk nor the engine, and reading from the origin
    puts no file into the directory. *)
Theorem Sync_exact {D : Digest} {SS : SortSlice} {MC : ManifestCodec} {CF : CaseFold} errText tracker root e ctx jobID m dest
    origin ans evs w mt w'
    (HL : storeLayout root (cache e)) (Hhook : quietHook (cache e)) (Horigin : quietOrigin (noFiles dest) origin)
    (Hnames : Forall wellNamed (AllChunkHashes m)) (Hs : Strat (materializer e) <> StrategyHardLink)
    (Hnd : NoDup (map (fun f => relComps (Path f)) (files m)))
    (Hap : ~ key root `prefix_of` key dest /\ ~ key dest `prefix_of` key root)
    (Hno : noFiles dest (wdisk w))
    (Hrun : Sync errText tracker e ctx jobID m dest origin ans evs w = (Ok (Some mt), w')) :
  (forall f, f ∈ files m ->
     exists data, contentAt (wdisk w') (targetKey dest f) = Some data /\ fileMatches f data)
  /\ (forall k i, key dest `prefix_of` k -> nodeAt (wdisk w') k = Some (FileN i) ->
        exists f, f ∈ files m /\ k = targetKey dest f)
  /\ exists j, jobs (ext w') !! jobID = Some j /\ Status j = "COMPLETED".
Proof.
  assert (StoreKeeps (cache e) (noFiles dest)) as SK.
  { apply (StoreKeeps_noFileAt root (cache e) HL); [intros fn Hf; by apply Hhook|].
    intros k Hk Hr. destruct Hap. by destruct (prefix_app_both _ _ _ Hr Hk). }
  destruct (Sync_materialized errText e (noFiles dest) wellNamed ltac:(done) tracker ctx jobID m dest origin ans evs w mt w')
    as (w1 & w2 & HP & Hmat & -> & Hjob); try done; [intros fn h z Hf; by apply Hhook|].
  destruct (Materialize_okay _ _ _ _ _ _ _ Hs Hnd HP Hmat) as [Hin Honly]. by split_and!.
Qed.
