(* ===== verification/EngineRuns.v ===== *)
(** * The download engine on a reliable disk

    When no system call fails: what a download from a peer and from the origin
    does, that the workers always come to rest, and that a [Sync] with an
    honest origin succeeds whatever prefix of a chunk each peer delivers. *)

From S2P Require Import Prelude GoFloat Digest GoPath Json Manifest SafePath GoFs Chunker ChunkStore StoreRuns.
From S2P Require Import Materializer Verifier Quota Peer PeerLimits Config Advertise Source Topology Scheduler Engine.
From S2P Require Import EngineSafety.
Local Open Scope go_scope.

Section downloads.
Context {D : Digest} {SS : SortSlice} {MC : ManifestCodec} {CF : CaseFold} (errText : error -> string).
Context (root : string) (e : Engine) (HL : storeLayout root (cache e)) (Hhook : silentHook (cache e)).
Implicit Types w : world engState.

(** ** Committing what a download appended *)

Lemma Commit_run w x b :
  reliable w -> storeReady root (wdisk w) -> hexName x -> partialOf root (wdisk w) x = Some b ->
  exists r d, CommitPartial (cache e) ("sha256:" +:+ x) w = (r, setDisk d w)
    /\ onlyChunk root x (wdisk w) d /\ partialOf root d x = None
    /\ (if bool_decide (ComputeHash b = "sha256:" +:+ x)
        then r = Ok tt /\ chunkOf root d x = Some b
        else (exists err, r = Err err /\ errorsIs err ErrHashMismatch = true)
             /\ chunkOf root d x = chunkOf root (wdisk w) x).
Proof.
  intros Hr HR Hx Hb. case_bool_decide as Hh.
  - destruct (CommitPartial_ok root (cache e) HL w x b Hr HR Hx Hb Hh) as (d & Hrun & Hcom).
    exists (Ok tt), d. rewrite Hrun, afterCommit_silent by done.
    split_and!; [done|by eapply onlyChunk_committed|apply Hcom|done|apply Hcom].
  - destruct (CommitPartial_mismatch root (cache e) HL w x b Hr HR Hx Hb Hh) as (err & d & Hrun & Hm & HR' & Hn & Hf).
    exists (Err err), d. split_and!; [done|by apply onlyChunk_frame|done|eauto|].
    apply (contentAt_frame _ _ _ _ Hf). symmetry. apply partial_ne_chunk.
Qed.

Lemma Discard_run w x :
  reliable w -> storeReady root (wdisk w) -> hexName x ->
  exists d, DiscardPartial (cache e) ("sha256:" +:+ x) w = (Ok tt, setDisk d w)
    /\ onlyChunk root x (wdisk w) d /\ partialOf root d x = None /\ chunkOf root d x = chunkOf root (wdisk w) x.
Proof.
  intros Hr HR Hx. destruct (DiscardPartial_ok root (cache e) HL w x Hr HR Hx) as (d & Hrun & HR' & Hn & Hf).
  exists d. split_and!; [done|by apply onlyChunk_frame|unfold partialOf, contentAt; by rewrite Hn|].
  apply (contentAt_frame _ _ _ _ Hf). symmetry. apply partial_ne_chunk.
Qed.

Lemma Append_run w x b err :
  reliable w -> storeReady root (wdisk w) -> hexName x ->
  exists d, AppendPartial (cache e) ("sha256:" +:+ x) (b, err) w
      = (match err with None => Ok tt | Some er => Err (EWrap "write partial" er) end, setDisk d w)
    /\ onlyChunk root x (wdisk w) d
    /\ partialOf root d x = Some (default [] (partialOf root (wdisk w) x) ++ b)
    /\ chunkOf root d x = chunkOf root (wdisk w) x.
Proof.
  intros Hr HR Hx. destruct (AppendPartial_ok root (cache e) HL w x b err Hr HR Hx) as (d & Hrun & HR' & Hf & Hp).
  exists d. split_and!; [done|by apply onlyChunk_frame|done|].
  apply (contentAt_frame _ _ _ _ Hf). symmetry. apply partial_ne_chunk.
Qed.

(** The pipe of a download whose [AppendPartial] fails only with its reader. *)
Lemma writer_returns drained b err :
  writerBlocked drained b err match err with None => Ok tt | Some er => Err (EWrap "write partial" er) end = false.
Proof.
  unfold writerBlocked. destruct err as [er|]; [|apply andb_false_r].
  destruct (negb _); [|done]. simpl. by rewrite !bool_decide_eq_true_2.
Qed.

(** ** A download from the origin *)

(** [data] is what the chunk should be; [part] is what the partial holds. *)
Lemma origin_run w work x data src inp part :
  reliable w -> storeReady root (wdisk w) -> hexName x -> whash work = "sha256:" +:+ x ->
  wsize work = blen data -> (blen data < 2 ^ 63)%Z -> default [] (partialOf root (wdisk w) x) = part ->
  (blen part <= blen data)%Z ->
  Src.ReadChunkTo src (wpath work) (add64 (woffset work) (blen part)) (blen data - blen part) w
    = (Ok (drop (length part) data, Ok (blen data - blen part)%Z), w) ->
  exists r d, downloadFromOrigin e inp work src w = (Ok (Some r), setDisk d w)
    /\ onlyChunk root x (wdisk w) d /\ partialOf root d x = None
    /\ (if bool_decide (ComputeHash (part ++ drop (length part) data) = whash work)
        then (exists n, r = Ok n) /\ chunkOf root d x = Some (part ++ drop (length part) data)
        else (exists err, r = Err (EWrap "integrity check failed for chunk" err) /\ errorsIs err ErrHashMismatch = true)
             /\ chunkOf root d x = chunkOf root (wdisk w) x).
Proof.
  intros Hr HR Hx Hh Hsz Hlt Hpart Hle Hread. unfold downloadFromOrigin. rewrite Hh.
  rewrite (ioBind_ok _ _ _ _ _ (PartialSize_run root (cache e) HL w x Hr HR Hx)), Hpart, Hsz.
  assert (sub64 (blen data) (blen part) = blen data - blen part)%Z as ->
    by (unfold sub64; apply wrap64_id; unfold int64_range, blen in *; lia).
  cbv zeta. destruct (Z.ltb_spec (blen data - blen part) 0); [lia|].
  rewrite (ioBind_ok _ _ w (blen part, blen data - blen part)%Z w) by done.
  rewrite (ioBind_ok _ _ _ _ _ Hread). cbv zeta.
  destruct (Append_run w x (drop (length part) data) None Hr HR Hx) as (d1 & H1 & O1 & P1 & C1). rewrite Hpart in P1.
  rewrite (ioBind_ok _ _ w (Ok tt) (setDisk d1 w)) by by rewrite attempt_eq, H1.
  rewrite (writer_returns (iDrained inp) _ None).
  rewrite (ioBind_ok _ _ _ _ _ (PartialSize_run root (cache e) HL (setDisk d1 w) x Hr (oc_ready _ _ _ _ O1) Hx)).
  change (wdisk (setDisk d1 w)) with d1. rewrite P1. cbn [default from_option id].
  assert (blen (part ++ drop (length part) data) = blen data) as Hlen.
  { rewrite blen_app. unfold blen in *. rewrite length_drop. lia. }
  rewrite Hlen. destruct (Z.ltb_spec (blen data) (blen data - blen part)); [unfold blen in *; lia|]. rewrite andb_false_r.
  destruct (Commit_run (setDisk d1 w) x (part ++ drop (length part) data) Hr (oc_ready _ _ _ _ O1) Hx P1)
    as (r & d2 & H2 & O2 & P2 & Hcase). simpl in O2, Hcase.
  rewrite (ioBind_ok _ _ _ r (setDisk d2 w)) by by rewrite attempt_eq, H2.
  case_bool_decide as Hhash.
  - destruct Hcase as [-> C2]. eexists _, d2. split_and!; [done|by eapply onlyChunk_trans|done|eauto|done].
  - destruct Hcase as [(err & -> & Hm) C2]. rewrite Hm.
    destruct (Discard_run (setDisk d2 w) x Hr (oc_ready _ _ _ _ O2) Hx) as (d3 & H3 & O3 & P3 & C3). simpl in O3, C3.
    eexists _, d3. split_and!; [|by do 2 (eapply onlyChunk_trans; [eassumption|])|done|eauto|congruence].
    rewrite (ioBind_ok _ _ _ tt (setDisk d3 w)) by by rewrite ignore_eq, H3. done.
Qed.

(** ** A download from a peer *)

Lemma getClient_run inp addr w :
  exists cl p, getClient inp addr w = (Ok cl, setExt (setPool p (ext w)) w)
    /\ (forall k, iDial inp = Ok k -> cl = None).
Proof.
  unfold getClient, ioBind, getNow, onState, Pool.GetClient.
  destruct (Pool.lookupConn _ _ _) as [[c|] p]; [by exists None, p|].
  destruct (iDial inp) as [k|er].
  - destruct (Pool.storeConn _ _ _ _) as [c p']. by exists None, p'.
  - by eexists (Some _), p.
Qed.

(** What can become of the partial and the chunk when [b] is in the partial. *)
Definition peerOutcome (x : string) (b : bytes) (d d' : disk) (r : res Z) : Prop :=
  match r with
  | Ok _ => ComputeHash b = "sha256:" +:+ x /\ chunkOf root d' x = Some b /\ partialOf root d' x = None
  | Err _ => chunkOf root d' x = chunkOf root d x /\ (partialOf root d' x = None \/ partialOf root d' x = Some b)
  end.

Lemma peer_run w work x inp addr part :
  reliable w -> storeReady root (wdisk w) -> hexName x -> whash work = "sha256:" +:+ x ->
  default [] (partialOf root (wdisk w) x) = part -> (blen part <= wsize work)%Z ->
  exists cl p, (forall k, iDial inp = Ok k -> cl = None) /\ let dl := DownloadChunkTo bufWrite cl (iRpc inp) (whash work) (blen part) [] in
    exists r d, downloadFromPeer errText e inp addr work w = (Ok (Some r), setDisk d (setExt (setPool p (ext w)) w))
      /\ onlyChunk root x (wdisk w) d /\ peerOutcome x (part ++ dl.2) (wdisk w) d r
      /\ forall err, dl.1.2 = Some err -> containsCorrupt errText err = false ->
           r = Err err /\ partialOf root d x = Some (part ++ dl.2).
Proof.
  intros Hr HR Hx Hh Hpart Hle. destruct (getClient_run inp addr w) as (cl & p & Hcl & Hdial). exists cl, p. split; [done|].
  set (w1 := setExt (setPool p (ext w)) w) in *. unfold downloadFromPeer. rewrite Hh.
  rewrite (ioBind_ok _ _ _ _ _ (PartialSize_run root (cache e) HL w x Hr HR Hx)), Hpart.
  destruct (Z.ltb_spec (wsize work) (blen part)); [lia|]. rewrite andb_false_r.
  rewrite (ioBind_ok _ _ w (blen part) w) by done. rewrite (ioBind_ok _ _ _ _ _ Hcl).
  destruct (DownloadChunkTo _ _ _ _ _ _) as [[total dlErr] b]. cbv zeta. cbn [fst snd].
  destruct (Append_run w1 x b dlErr Hr HR Hx) as (d1 & H1 & O1 & P1 & C1).
  change (wdisk w1) with (wdisk w) in *. rewrite Hpart in P1.
  rewrite (ioBind_ok _ _ w1 _ (setDisk d1 w1)) by (rewrite attempt_eq, H1; reflexivity).
  cbn [fst]. rewrite (writer_returns (iDrained inp) b dlErr). pose proof (oc_ready _ _ _ _ O1) as HR1.
  destruct dlErr as [err|].
  - assert (containsCorrupt errText err || errorsIs err ErrHashMismatch = containsCorrupt errText err) as ->
      by (unfold containsCorrupt; by destruct (errorsIs err ErrHashMismatch); rewrite ?orb_false_r).
    destruct (containsCorrupt errText err) eqn:Ec.
    + destruct (Discard_run (setDisk d1 w1) x Hr HR1 Hx) as (d2 & H2 & O2 & P2 & C2). simpl in O2, C2.
      eexists (Err _), d2. split_and!; [|by eapply onlyChunk_trans|split; [congruence|by left]|].
      * by rewrite (ioBind_ok _ _ _ tt (setDisk d2 w1)) by by rewrite ignore_eq, H2.
      * intros ? [= <-]. congruence.
    + eexists (Err _), d1. split_and!; [done|done|split; [done|by right]|]. intros ? [= <-] _. done.
  - rewrite (ioBind_ok _ _ _ _ _ (PartialSize_run root (cache e) HL (setDisk d1 w1) x Hr HR1 Hx)).
    change (wdisk (setDisk d1 w1)) with d1. rewrite P1. cbn [default from_option id].
    destruct (_ && _).
    { eexists (Err _), d1. split_and!; [done|done|split; [done|by right]|done]. }
    destruct (Commit_run (setDisk d1 w1) x (part ++ b) Hr HR1 Hx P1) as (r & d2 & H2 & O2 & P2 & Hcase).
    simpl in O2, Hcase. rewrite (ioBind_ok _ _ _ r (setDisk d2 w1)) by by rewrite attempt_eq, H2.
    case_bool_decide as Hhash.
    + destruct Hcase as [-> C2]. eexists (Ok _), d2. split_and!; [done|by eapply onlyChunk_trans|done|done].
    + destruct Hcase as [(err & -> & Hm) C2]. rewrite Hm.
      destruct (Discard_run (setDisk d2 w1) x Hr (oc_ready _ _ _ _ O2) Hx) as (d3 & H3 & O3 & P3 & C3). simpl in O3, C3.
      eexists (Err _), d3. split_and!; [|by do 2 (eapply onlyChunk_trans; [eassumption|])|split; [congruence|by left]|done].
      by rewrite (ioBind_ok _ _ _ tt (setDisk d3 w1)) by by rewrite ignore_eq, H3.
Qed.

End downloads.

(** The peer answers with one message and then drops the connection. *)
Definition dropsAfter (inp : input) (work : chunkWorkItem) (sent : bytes) (total : Z) (lost : error) : Prop :=
  iRpc inp (mkGet (whash work) 0) = Ok ([mkData sent 0 total false], Some lost).

(** C15. One peer can make a download fail although the origin is honest.  The
    peer sends bytes that do not begin the chunk and then drops the connection
    with an error that does not say so: the bytes stay in the partial, the
    engine asks the origin only for the rest, and the chunk fails its
    integrity check. *)
Theorem garbage_blocks_origin {D : Digest} {SS : SortSlice} {MC : ManifestCodec} {CF : CaseFold} errText root e w work x data
    addr inp inp' garbage total lost src
    (HL : storeLayout root (cache e)) (Hhook : silentHook (cache e))
    (Hr : reliable w) (HR : storeReady root (wdisk w)) (Hx : hexName x)
    (Hh : whash work = "sha256:" +:+ x) (Hsz : wsize work = blen data) (Hlt : (blen data < 2 ^ 63)%Z)
    (Hpart : partialOf root (wdisk w) x = None)
    (Hdial : exists k, iDial inp = Ok k)
    (Hpeer : dropsAfter inp work garbage total lost)
    (Hlost : containsCorrupt errText (EWrap "error reading chunk stream" lost) = false)
    (Hne : garbage <> []) (Hle : (blen garbage <= blen data)%Z)
    (Hbad : ComputeHash (garbage ++ drop (length garbage) data) <> whash work)
    (Horigin : forall w', reliable w' ->
       Src.ReadChunkTo src (wpath work) (add64 (woffset work) (blen garbage)) (blen data - blen garbage) w'
       = (Ok (drop (length garbage) data, Ok (blen data - blen garbage)%Z), w')) :
  exists w1 err w2,
    downloadFromPeer errText e inp addr work w = (Ok (Some (Err (EWrap "error reading chunk stream" lost))), w1)
    /\ downloadFromOrigin e inp' work src w1 = (Ok (Some (Err (EWrap "integrity check failed for chunk" err))), w2)
    /\ errorsIs err ErrHashMismatch = true.
Proof.
  destruct Hdial as [k Hk].
  destruct (peer_run errText root e HL Hhook w work x inp addr [] Hr HR Hx Hh ltac:(by rewrite Hpart))
    as (cl & p & Hcl & Hrun); [rewrite Hsz; unfold blen; simpl; lia|].
  rewrite (Hcl k Hk) in Hrun. cbv zeta in Hrun.
  assert (DownloadChunkTo bufWrite None (iRpc inp) (whash work) (blen []) []
    = ((blen garbage, Some (EWrap "error reading chunk stream" lost)), garbage)) as Hdl.
  { unfold DownloadChunkTo. change (blen []) with 0%Z. rewrite Hpeer. simpl.
    rewrite bool_decide_eq_false_2 by done. simpl. do 2 f_equal.
    unfold add64. rewrite wrap64_id; [lia|]. unfold int64_range, blen in *. lia. }
  rewrite Hdl in Hrun. destruct Hrun as (r & d & Hrun & Honly & _ & Hleft).
  destruct (Hleft _ eq_refl Hlost) as [-> Hp]. eexists. simpl in Hp.
  destruct (origin_run root e HL Hhook (setDisk d (setExt (setPool p (ext w)) w)) work x data src inp' garbage)
    as (r & d' & Ho & _ & _ & Hcase); try done; [apply Honly|simpl; by rewrite Hp|by apply Horigin|].
  rewrite bool_decide_eq_false_2 in Hcase by done. destruct Hcase as [(err & -> & Hm) _].
  exists err. eexists. split_and!; [exact Hrun|exact Ho|exact Hm].
Qed.

(** ** Errors of different types *)

Section events.
Context {D : Digest} {SS : SortSlice} {MC : ManifestCodec} {CF : CaseFold} (errText : error -> string).
Context (tracker : nat -> list string -> option error) (e : Engine) (origin : option (Src.Source engState)).
Context (jobID : string) (missing : list string).
Implicit Types w : world engState.

Abbreviation runs := (runEvents errText tracker e origin jobID missing).

Lemma runEvents_app evs1 evs2 : forall ws w ws' w',
  runs evs1 ws w = (Ok ws', w') -> runs (evs1 ++ evs2) ws w = runs evs2 ws' w'.
Proof.
  induction evs1 as [|ev evs1 IH]; intros ws w ws' w' Hrun; simpl in *; [by injection Hrun as -> ->|].
  apply ioBind_inv in Hrun as (ws1 & w1 & H1 & H2). rewrite (ioBind_ok _ _ _ _ _ H1). by apply IH.
Qed.

(** Nothing happens after a panic. *)
Lemma panicked_stays evs : forall ws w, panicked (run (ext w)) = true -> runs evs ws w = (Ok ws, w).
Proof.
  induction evs as [|ev evs IH]; intros ws w Hp; cbn [runEvents]; [done|].
  rewrite (ioBind_ok _ _ w ws w); [by apply IH|].
  unfold handle, ioBind, getState, onState. simpl. by rewrite setExt_same, Hp.
Qed.

(** A worker at the head of its loop stores the error of the context. *)
Lemma top_panics ws w i inp e0 err :
  ws !! i = Some Top -> panicked (run (ext w)) = false -> downloadErr (run (ext w)) = Some e0 ->
  iCtx inp = Some err -> typeOf e0 <> typeOf err ->
  exists w', handle errText tracker e origin jobID missing (Work i inp) ws w = (Ok (<[i := Finished]> ws), w')
    /\ panicked (run (ext w')) = true.
Proof.
  intros Hi Hp He Hctx Hty. exists (setExt (setRun (storeErr err (run (ext w))) (ext w)) w). split.
  - unfold handle. rewrite (ioBind_ok getState _ w (ext w) w) by (unfold getState, onState; simpl; by rewrite setExt_same).
    rewrite Hp, Hi. cbn [advance]. rewrite Hctx. reflexivity.
  - simpl. unfold storeErr. by rewrite He, bool_decide_eq_false_2.
Qed.

End events.

(** The world in which the workers start. *)
Definition queued (its : list chunkWorkItem) (w : world engState) : world engState :=
  setExt (setRun (setPending (newPendingQueue its) (run (ext w))) (ext w)) w.

(** C16. Two errors of different types crash a download.  Once a worker has
    stored the error of its chunk, another one that finds the context over at
    the head of its loop stores an error of another type into the same
    [atomic.Value], which panics: whatever happens then, the wait for the
    workers does not return. *)
Theorem mixed_errors_panic {D : Digest} {SS : SortSlice} {MC : ManifestCodec} {CF : CaseFold} errText tracker e origin jobID
    items evs ws w0 w i inp e0 err
    (Hitems : items <> [])
    (Hreach : runEvents errText tracker e origin jobID (map whash items) evs
                (replicate (Z.to_nat (maxPeerWorkers e)) Top) (queued items w0) = (Ok ws, w))
    (Hi : ws !! i = Some Top) (Hp : panicked (run (ext w)) = false) (He : downloadErr (run (ext w)) = Some e0)
    (Hctx : iCtx inp = Some err) (Hty : typeOf e0 <> typeOf err) :
  forall evs', exists w', download errText tracker e origin jobID items (evs ++ Work i inp :: evs') w0 = (Ok false, w').
Proof.
  intros evs'. unfold download. rewrite bool_decide_eq_false_2 by done.
  rewrite (ioBind_ok _ _ w0 tt (queued items w0)) by done.
  destruct (top_panics errText tracker e origin jobID (map whash items) ws w i inp e0 err) as (w' & Hh & Hpan); try done.
  rewrite (ioBind_ok _ _ _ (<[i := Finished]> ws) w').
  - exists w'. unfold ioBind, getState, onState. simpl. by rewrite setExt_same, Hpan.
  - rewrite (runEvents_app _ _ _ _ _ _ _ _ _ _ _ _ Hreach). cbn [runEvents].
    rewrite (ioBind_ok _ _ _ _ _ Hh). by apply panicked_stays.
Qed.
