(* ===== verification/EngineWorkers.v ===== *)
(** * The workers of the engine come to rest

    Every step of a worker decreases a measure, whatever the environment
    answers, so the workers make finitely many steps. *)

From S2P Require Import Prelude GoFloat Digest GoPath Json Manifest SafePath GoFs Chunker ChunkStore StoreRuns.
From S2P Require Import Materializer Verifier Quota Peer PeerLimits Config Advertise Source Topology Scheduler Engine.
From S2P Require Import EngineSafety EngineRuns.
Local Open Scope go_scope.

(** ** The measure *)

Section measure.
Context (e : Engine).

Definition attemptsLeft (n : Z) : nat := Z.to_nat (retryAttempts e - n).

(** What a worker still has to do for its chunk, in whole attempts. *)
Definition major (ph : phase) : nat :=
  match ph with
  | Top => 1
  | Ranking _ n _ => 3 * attemptsLeft n + 5
  | Trying _ n _ _ | Claiming _ n _ _ _ | Fetching _ n _ _ _ _ | Fetched _ n _ _ _ _ _ =>
      if (n <? retryAttempts e)%Z then 3 * attemptsLeft n + 4 else 6
  | Pausing _ n _ => if (n <? retryAttempts e)%Z then 3 * attemptsLeft n + 3 else 6
  | AtOrigin _ => 4
  | Holding _ => 3
  | Reporting _ _ _ => 2
  | Stuck | Finished => 0
  end.

(** What it still has to do within an attempt. *)
Definition minor (ph : phase) : nat :=
  match ph with
  | Trying _ _ _ cands => 4 * length cands
  | Claiming _ _ _ _ rest => 4 * length rest + 3
  | Fetching _ _ _ _ rest _ => 4 * length rest + 2
  | Fetched _ _ _ _ rest _ _ => 4 * length rest + 1
  | _ => 0
  end.

(** The cost of a chunk that waits in the queue. *)
Definition itemCost : nat := 3 * attemptsLeft 0 + 5.

Definition lexLt (x y : nat * nat) : Prop := x.1 < y.1 \/ (x.1 = y.1 /\ x.2 < y.2).

Lemma lexLt_wf : well_founded lexLt.
Proof.
  intros [a b]. revert b. induction a as [a IHa] using lt_wf_ind. intros b.
  induction b as [b IHb] using lt_wf_ind. constructor. intros [a' b'] [H|[H1 H2]]; simpl in *; [by apply IHa|].
  subst. by apply IHb.
Qed.

Definition phaseLt (ph' ph : phase) : Prop := lexLt (major ph', minor ph') (major ph, minor ph).

End measure.

Section termination.
Context {D : Digest} {SS : SortSlice} {MC : ManifestCodec} {CF : CaseFold} (errText : error -> string).
Context (e : Engine) (origin : option (Src.Source engState)).
Context (Hhook : forall fn h z, onCommit (cache e) = Some fn -> extSame (fn h z)).
Context (Horigin : forall src path o n, origin = Some src -> extSame (Src.ReadChunkTo src path o n)).

(** Nothing but the head of the loop touches the queue. *)
Definition queueIs (pd : gmap string chunkWorkItem) (s : engState) : Prop := pending (run s) = pd.

Abbreviation ok pd := (safe (fun _ => True) (queueIs pd)).

Lemma ok_ext {A} pd (m : IO engState A) : extSame m -> ok pd m (fun _ => True).
Proof. intros Hm. by apply safe_disk; [|done]. Qed.

Lemma ok_mod pd f : (forall s, pending (run (f s)) = pending (run s)) -> ok pd (modState f) (fun _ => True).
Proof. intros Hf. apply safe_modState. intros s. unfold queueIs. by rewrite Hf. Qed.

Lemma ok_peer pd inp addr work : ok pd (downloadFromPeer errText e inp addr work) (fun _ => True).
Proof.
  assert (StoreKeeps (cache e) (fun _ => True)) as SK by by split.
  assert (safe (fun _ => True) (queueIs pd) (getClient inp addr) (fun _ => True)) as Hc.
  { unfold getClient. eapply safe_bind; [apply safe_getNow|]. intros t _. apply safe_onState. intros s Hs.
    by destruct (Pool.GetClient _ _ _ _ _ _) as [r p]. }
  unfold downloadFromPeer. eapply safe_bind; [apply ok_ext, extSame_PartialSize|intros partial _].
  eapply (safe_bind _ _ _ _ (fun _ => True)).
  { destruct (_ && _); apply ok_ext; [|auto with go].
    apply extSame_bind; [apply extSame_ignore, extSame_DiscardPartial|auto with go]. }
  intros offset _. eapply safe_bind; [exact Hc|]. intros client _.
  destruct (DownloadChunkTo _ _ _ _ _ _) as [[total dlErr] b]. apply ok_ext.
  apply extSame_bind; [apply extSame_attempt, extSame_AppendPartial|]. intros appended.
  destruct (writerBlocked _ _ _ _); [auto with go|].
  assert (forall (b : bool) (a : option (res Z)), extSame (do_ (if b then ignore (DiscardPartial (cache e) (whash work)) else ioRet tt); ioRet a)) as Ht.
  { intros b0 a. apply extSame_bind; [destruct b0; [apply extSame_ignore, extSame_DiscardPartial|auto with go]|auto with go]. }
  destruct dlErr; [apply Ht|]. destruct appended; [|auto with go].
  apply extSame_bind; [apply extSame_PartialSize|]. intros got. destruct (_ && _); [auto with go|].
  apply extSame_bind; [by apply extSame_attempt, extSame_CommitPartial|]. intros [?|err]; [auto with go|apply Ht].
Qed.

Lemma ok_origin pd inp work src :
  (forall path o n, extSame (Src.ReadChunkTo src path o n)) -> ok pd (downloadFromOrigin e inp work src) (fun _ => True).
Proof.
  intros Hs. apply ok_ext. unfold downloadFromOrigin. apply extSame_bind; [apply extSame_PartialSize|]. intros partial.
  cbv zeta. apply extSame_bind.
  { destruct (_ <? 0)%Z; [|auto with go]. apply extSame_bind; [apply extSame_ignore, extSame_DiscardPartial|auto with go]. }
  intros [partial' remain]. apply extSame_bind; [apply Hs|]. intros [b fetched].
  apply extSame_bind; [apply extSame_attempt, extSame_AppendPartial|]. intros appended.
  destruct (writerBlocked _ _ _ _); [auto with go|]. destruct fetched, appended; try by auto with go.
  apply extSame_bind; [apply extSame_PartialSize|]. intros got. destruct (_ && _); [auto with go|].
  apply extSame_bind; [by apply extSame_attempt, extSame_CommitPartial|]. intros [?|err]; [auto with go|].
  destruct (errorsIs _ _); [|auto with go].
  apply extSame_bind; [apply extSame_ignore, extSame_DiscardPartial|auto with go].
Qed.

Lemma ok_fail_lt pd err ph : 0 < major e ph -> ok pd (fail err) (fun r => forall ph', r = Some ph' -> phaseLt e ph' ph).
Proof.
  intros Hph. unfold fail. eapply safe_bind.
  - apply ok_mod. intros s. simpl. unfold storeErr. destruct (downloadErr _); [|done]. by case_bool_decide.
  - intros _ _. apply safe_ret. intros ph' [= <-]. left. simpl. done.
Qed.

Lemma ok_lt pd ph' ph : phaseLt e ph' ph -> ok pd (ioRet (Some ph')) (fun r => forall ph1, r = Some ph1 -> phaseLt e ph1 ph).
Proof. intros H. apply safe_ret. by intros ph1 [= <-]. Qed.

(** Compare two phases. *)
Ltac measured :=
  unfold phaseLt, lexLt, major, minor; cbn [fst snd length];
  repeat match goal with |- context [(?n <? retryAttempts e)%Z] => destruct (Z.ltb_spec n (retryAttempts e)) end;
  unfold attemptsLeft; lia.

Lemma advance_lt pd jobID inp ph :
  ph <> Top -> ok pd (advance errText e origin jobID inp ph) (fun r => forall ph', r = Some ph' -> phaseLt e ph' ph).
Proof.
  intros Hph. destruct ph as [|work n b|work n b [|p rest]|work n b p rest|work n b p rest t0|work n b p rest t0 r
    |work n b|work|work|work fp nb| |]; cbn [advance]; try done; try by apply safe_ret.
  - destruct (Z.ltb_spec n (retryAttempts e)) as [Hn|Hn]; [|apply ok_lt; measured].
    eapply safe_bind; [apply safe_getNow|]. intros t _.
    eapply (safe_bind _ _ _ _ (fun _ => True)); [|intros cands _; apply ok_lt; measured].
    apply safe_onState. intros s Hs. destruct (RankPeers _ _ _ _) as [ps sch]. by destruct (sortByAssigned _ _) as [ps' m].
  - apply ok_lt. destruct (Z.ltb_spec (n + 1) (retryAttempts e)); measured.
  - destruct (bool_decide _); [apply ok_lt; measured|]. eapply safe_bind; [apply safe_getNow|]. intros t _.
    eapply (safe_bind _ _ _ _ (fun _ => True)); [|intros [|] _; apply ok_lt; measured].
    apply safe_onState. intros s Hs. by destruct (IsUntrusted _ _ _).
  - eapply safe_bind; [apply safe_getNow|]. intros t _.
    eapply (safe_bind _ _ _ _ (fun _ => True)); [|intros [|] _; apply ok_lt; measured].
    apply safe_onState. intros s Hs. by destruct (Begin _ _) as [[|] sch].
  - eapply safe_bind; [apply ok_peer|]. intros [r|] _; apply ok_lt; measured.
  - eapply safe_bind; [apply safe_getNow|]. intros t _.
    eapply safe_bind; [apply ok_mod; intros s; destruct r; cbv zeta; [done|]|].
    { destruct (IsUntrusted _ _ _) as [bad sch]. by destruct bad. }
    intros _ _. apply ok_lt. destruct r; measured.
  - assert (0 < major e (Pausing work n b)) by (simpl; destruct (_ <? _)%Z; lia).
    destruct (iCtx inp), (iPick inp); try (by apply ok_fail_lt); apply ok_lt; measured.
  - assert (0 < major e (AtOrigin work)) by (simpl; lia).
    destruct origin as [src|]; [|by apply ok_fail_lt]. eapply safe_bind; [apply safe_getState|]. intros s _.
    assert (ok pd (do_ modState (fun s => setOrigin (originUsed s + 1) s); ioRet (Some (Holding work)))
      (fun r => forall ph', r = Some ph' -> phaseLt e ph' (AtOrigin work))) as Htake.
    { eapply safe_bind; [by apply ok_mod|]. intros _ _. apply ok_lt. measured. }
    destruct (_ <? _)%Z; [destruct (iCtx inp), (iPick inp); try (by apply ok_fail_lt); apply Htake|].
    destruct (iCtx inp); [by apply ok_fail_lt|by apply safe_ret].
  - assert (0 < major e (Holding work)) by (simpl; lia).
    destruct origin as [src|]; [|by apply safe_ret].
    eapply safe_bind; [apply ok_origin; auto|]. intros [r|] _; [|apply ok_lt; measured].
    eapply safe_bind; [by apply ok_mod|]. intros _ _. destruct r; [apply ok_lt; measured|by apply ok_fail_lt].
  - eapply safe_bind; [apply safe_getNow|]. intros t _. eapply safe_bind; [by apply ok_mod|]. intros _ _.
    eapply safe_bind; [by apply ok_mod|]. intros _ _. apply ok_lt. measured.
Qed.

Lemma next_cases r :
  (pending r = ∅ /\ next r = (None, r))
  \/ exists h work, pending r !! h = Some work /\ next r = (Some work, setPending (delete h (pending r)) r).
Proof.
  unfold next. cbv zeta. pose proof (RarestFirst_perm (map fst (map_to_list (pending r))) (locs r)) as Hperm.
  destruct (RarestFirst _ _) as [|pick rest].
  - left. split; [|done]. apply Permutation_nil, fmap_nil_inv in Hperm. by apply map_to_list_empty_iff.
  - right. assert (pick ∈ map fst (map_to_list (pending r))) as Hin by (rewrite <- Hperm; by constructor).
    apply list_elem_of_fmap in Hin as ([h wk] & -> & Hin). apply elem_of_map_to_list in Hin.
    exists h, wk. simpl. by rewrite Hin.
Qed.

(** At the head of the loop a worker takes an item of the queue, or returns. *)
Lemma advance_top jobID inp w r w' :
  advance errText e origin jobID inp Top w = (Ok r, w') ->
  (r = Some Finished /\ pending (run (ext w')) = pending (run (ext w)))
  \/ exists h work, r = Some (Ranking work 0 (retryInitial e)) /\ pending (run (ext w)) !! h = Some work
       /\ pending (run (ext w')) = delete h (pending (run (ext w))).
Proof.
  cbn [advance]. destruct (iCtx inp) as [err|].
  { unfold fail, ioBind, modRun, modState, onState. simpl. intros [= <- <-]. left. split; [done|]. simpl.
    unfold storeErr. destruct (downloadErr _); [|done]. by case_bool_decide. }
  unfold ioBind, getState, onState. simpl. destruct (downloadErr _).
  { intros [= <- <-]. left. done. }
  rewrite setExt_same. destruct (next_cases (run (ext w))) as [[_ ->]|(h & work & Hw & ->)]; intros [= <- <-]; [by left|].
  right. by exists h, work.
Qed.

(** ** The system *)

Context (tracker : nat -> list string -> option error) (jobID : string) (missing : list string).

(** The world and the workers. *)
Definition sys : Type := world engState * list phase.

Definition sysStep (s : sys) (ev : event) (s' : sys) : Prop :=
  handle errText tracker e origin jobID missing ev s.2 s.1 = (Ok s'.2, s'.1).

(** An event after which every worker is where it was. *)
Definition quiet (s s' : sys) : Prop := exists ev, sysStep s ev s' /\ s'.2 = s.2.

(** A worker moves, after some quiet events. *)
Definition moves (s s' : sys) : Prop := exists s1 ev, rtc quiet s s1 /\ sysStep s1 ev s' /\ s'.2 <> s1.2.

Definition measure (s : sys) : nat * nat :=
  (itemCost e * size (pending (run (ext s.1))) + sum_list_with (major e) s.2, sum_list_with minor s.2).

Lemma top_or ph : ph = Top \/ ph <> Top.
Proof. by destruct ph; [left|right..]. Qed.

Lemma sum_insert {A} (f : A -> nat) l i a b :
  l !! i = Some a -> sum_list_with f (<[i := b]> l) + f a = sum_list_with f l + f b.
Proof.
  revert i. induction l as [|x l IH]; intros [|i] Hi; simplify_eq/=; [lia|]. specialize (IH i Hi). lia.
Qed.

(** A step of worker [i] that moves it lowers the measure. *)
Lemma work_decreases ws i inp ph ph' w w' :
  ws !! i = Some ph -> advance errText e origin jobID inp ph w = (Ok (Some ph'), w') ->
  lexLt (measure (w', <[i := ph']> ws)) (measure (w, ws)).
Proof.
  intros Hi Hadv. pose proof (sum_insert (major e) ws i ph ph' Hi) as Hmaj.
  pose proof (sum_insert minor ws i ph ph' Hi) as Hmin. unfold lexLt, measure. simpl.
  destruct (top_or ph) as [->|Hph].
  - left. apply advance_top in Hadv as [([= ->] & ->)|(h & work & [= ->] & Hw & Hpd)]; simpl in Hmaj; [lia|].
    rewrite Hpd. assert (size (pending (run (ext w))) = S (size (delete h (pending (run (ext w)))))) as ->.
    { rewrite map_size_delete_Some by eauto. pose proof (map_size_ne_0_lookup_2 (pending (run (ext w))) h ltac:(eauto)). lia. }
    unfold itemCost. lia.
  - destruct (safe_inv _ _ _ _ _ _ _ (advance_lt (pending (run (ext w))) jobID inp ph Hph) Hadv I eq_refl) as (_ & Hpd & Hlt).
    unfold queueIs in Hpd. rewrite Hpd. specialize (Hlt ph' eq_refl). unfold phaseLt, lexLt in Hlt. simpl in Hlt. lia.
Qed.

Lemma advance_none inp ph w w' :
  advance errText e origin jobID inp ph w = (Ok None, w') -> pending (run (ext w')) = pending (run (ext w)).
Proof.
  intros Hadv. destruct (top_or ph) as [->|Hph].
  - by apply advance_top in Hadv as [([=] & _)|(h & work & [=] & _)].
  - by destruct (safe_inv _ _ _ _ _ _ _ (advance_lt (pending (run (ext w))) jobID inp ph Hph) Hadv I eq_refl) as (_ & ? & _).
Qed.

Lemma advance_moves inp ph w ph' w' :
  advance errText e origin jobID inp ph w = (Ok (Some ph'), w') -> ph' <> ph.
Proof.
  intros Hadv. destruct (top_or ph) as [->|Hph].
  - by apply advance_top in Hadv as [([= ->] & _)|(h & work & [= ->] & _)].
  - destruct (safe_inv _ _ _ _ _ _ _ (advance_lt (pending (run (ext w))) jobID inp ph Hph) Hadv I eq_refl) as (_ & _ & Hlt).
    specialize (Hlt ph' eq_refl). intros ->. unfold phaseLt, lexLt in Hlt. lia.
Qed.

(** What an event can be. *)
Lemma sysStep_cases s ev s' :
  sysStep s ev s' ->
  (s'.2 = s.2 /\ pending (run (ext s'.1)) = pending (run (ext s.1)))
  \/ exists i inp ph ph', ev = Work i inp /\ s.2 !! i = Some ph /\ s'.2 = <[i := ph']> s.2
       /\ advance errText e origin jobID inp ph s.1 = (Ok (Some ph'), s'.1).
Proof.
  destruct s as [w ws], s' as [w' ws']. unfold sysStep, handle. simpl. intros Hrun.
  apply ioBind_inv in Hrun as (st & w1 & [= <- <-] & Hrun). rewrite setExt_same in Hrun.
  destruct (panicked _); [injection Hrun as <- <-; by left|].
  destruct ev as [i inp|ans| | |t].
  - destruct (ws !! i) as [ph|] eqn:Ei; [|injection Hrun as <- <-; by left].
    apply ioBind_inv in Hrun as ([ph'|] & w1 & Hadv & [= <- <-]).
    + right. by exists i, inp, ph, ph'.
    + left. split; [done|]. by eapply advance_none.
  - left. apply ioBind_inv in Hrun as (rem & w1 & Hrem & Hrun).
    assert (forall hs, extSame (remainingOf e hs)) as Hext.
    { induction hs as [|h hs IH]; cbn [remainingOf]; [auto with go|].
      apply extSame_bind; [apply extSame_HasChunk|]. intros has. apply extSame_bind; [exact IH|auto with go]. }
    pose proof (Hext missing w) as Hsame. rewrite Hrem in Hsame. simpl in Hsame.
    injection Hrun as <- <-. split; [done|]. simpl. by rewrite pending_refresh, Hsame.
  - left. injection Hrun as <- <-. done.
  - left. injection Hrun as <- <-. done.
  - left. injection Hrun as <- <-. done.
Qed.

Lemma quiet_measure s s' : rtc quiet s s' -> measure s' = measure s.
Proof.
  induction 1 as [|s1 s2 s3 (ev & Hstep & Hws) _ IH]; [done|]. rewrite IH.
  apply sysStep_cases in Hstep as [[_ Hpd]|(i & inp & ph & ph' & -> & Hi & Hws' & Hadv)].
  - unfold measure. by rewrite Hws, Hpd.
  - exfalso. apply (advance_moves _ _ _ _ _ Hadv). rewrite Hws' in Hws.
    apply (f_equal (lookup i)) in Hws. rewrite list_lookup_insert_eq, Hi in Hws by by eapply lookup_lt_Some. by injection Hws.
Qed.

Lemma moves_wf : well_founded (fun s' s => moves s s').
Proof.
  intros s. remember (measure s) as x eqn:Ex. revert s Ex.
  induction x as [x IH] using (well_founded_ind lexLt_wf). intros s ->. constructor.
  intros s' (s1 & ev & Hq & Hstep & Hne). apply (IH (measure s')); [|done].
  rewrite <- (quiet_measure _ _ Hq).
  apply sysStep_cases in Hstep as [[? _]|(i & inp & ph & ph' & -> & Hi & Hws & Hadv)]; [done|].
  destruct s1 as [w ws], s' as [w' ws']. simpl in *. subst ws'. by eapply work_decreases.
Qed.

(** C14. The workers make finitely many steps, whatever the peers, the origin,
    the tracker, the clock and the disk do: "a worker moves" is well founded,
    also with any events in between that move none. *)
Theorem workers_terminate : well_founded (fun s' s => moves s s').
Proof. exact moves_wf. Qed.

End termination.
