(* ===== verification/EngineLive.v ===== *)
(** * A [Sync] with an honest origin completes

    With a reliable disk, an origin that serves the chunks and peers that
    deliver nothing but bytes of them, no worker fails or gets stuck, one of
    them can always move until all have finished, and then every chunk of the
    manifest is in the cache and [Sync] writes the artifact. *)

From S2P Require Import Prelude GoFloat Digest GoPath Json Manifest SafePath GoFs Chunker ChunkStore StoreRuns.
From S2P Require Import Materializer Verifier Quota Peer PeerLimits Config Advertise Source Publisher Topology.
From S2P Require Import Scheduler Engine EngineSafety EngineRuns EngineWorkers.
Local Open Scope go_scope.

Section honest.
Context {D : Digest} {SS : SortSlice} {MC : ManifestCodec} {CF : CaseFold} (errText : error -> string).
Context (tracker : nat -> list string -> option error) (jobID : string).
Context (root : string) (e : Engine) (src : Src.Source engState).
Context (HL : storeLayout root (cache e)) (Hhook : silentHook (cache e)) (Hslots : (0 < maxOriginWorkers e)%Z).
(** The chunks of the manifest, and the bytes each hash stands for. *)
Context (items : list chunkWorkItem) (content : string -> bytes).

Definition nameOf (work : chunkWorkItem) : string := strDrop 7 (whash work).
Definition dataOf (work : chunkWorkItem) : bytes := content (whash work).

(** The item describes its bytes, and no other prefix of them has their hash. *)
Record goodWork (work : chunkWorkItem) : Prop := {
  gw_name : whash work = "sha256:" +:+ nameOf work /\ hexName (nameOf work);
  gw_hash : ComputeHash (dataOf work) = whash work;
  gw_size : wsize work = blen (dataOf work);
  gw_len : (blen (dataOf work) < 2 ^ 63)%Z;
  gw_prefix : forall b, b `prefix_of` dataOf work -> ComputeHash b = whash work -> b = dataOf work
}.

Context (Hitems : Forall goodWork items).

(** The disk when the download starts; its part outside the cache does not change. *)
Context (d0 : disk).

(** The origin serves the range of the chunk that is asked for, as long as
    nothing but the cache has changed. *)
Definition honestOrigin : Prop := forall work part w, work ∈ items -> part `prefix_of` dataOf work -> reliable w ->
  sameOutside root d0 (wdisk w) ->
  Src.ReadChunkTo src (wpath work) (add64 (woffset work) (blen part)) (blen (dataOf work) - blen part) w
  = (Ok (drop (length part) (dataOf work), Ok (blen (dataOf work) - blen part)%Z), w).

(** The context is alive, and a peer that answers delivers the next bytes of the
    chunk, all of them or not. *)
Definition honestInput (inp : input) : Prop := iCtx inp = None /\ forall work off cl, work ∈ items ->
  (DownloadChunkTo bufWrite cl (iRpc inp) (whash work) off []).2 `prefix_of` drop (Z.to_nat off) (dataOf work).

Definition honestEvent (ev : event) : Prop := match ev with Work _ inp => honestInput inp | _ => True end.

Context (Horigin : honestOrigin).

(** ** The disk *)

Definition partial (d : disk) (work : chunkWorkItem) : bytes := default [] (partialOf root d (nameOf work)).

Definition stored (d : disk) (work : chunkWorkItem) : Prop := chunkOf root d (nameOf work) = Some (dataOf work).

Record diskInv (d : disk) : Prop := {
  di_ready : storeReady root d;
  di_partial : forall work, work ∈ items -> partial d work `prefix_of` dataOf work;
  di_outside : sameOutside root d0 d
}.

(** From [d] to [d'] the store has made progress and nothing else has changed. *)
Record forward (d d' : disk) : Prop := {
  fw_inv : diskInv d';
  fw_stored : forall work, work ∈ items -> stored d work -> stored d' work;
  fw_node : forall k, offStore root k -> nodeAt d' k = nodeAt d k;
  fw_content : forall k, offStore root k -> contentAt d' k = contentAt d k
}.

Lemma good work : work ∈ items -> goodWork work.
Proof. rewrite Forall_forall in Hitems. apply Hitems. Qed.

Lemma forward_refl d : diskInv d -> forward d d.
Proof. by split. Qed.

Lemma forward_trans d1 d2 d3 : forward d1 d2 -> forward d2 d3 -> forward d1 d3.
Proof. intros [I1 S1 N1 C1] [I2 S2 N2 C2]. split; [done|auto|..]; intros k Hk; [rewrite N2|rewrite C2]; auto. Qed.

(** A change to the chunk of one item. *)
Lemma forward_one work d d' :
  work ∈ items -> diskInv d -> onlyChunk root (nameOf work) d d' -> partial d' work `prefix_of` dataOf work ->
  chunkOf root d' (nameOf work) = chunkOf root d (nameOf work) \/ stored d' work -> forward d d'.
Proof.
  intros Hw [HR Hp Hout] [HR' Po Co No Eo] Hpart Hch.
  assert (forall work', work' ∈ items -> nameOf work' = nameOf work -> dataOf work' = dataOf work) as Hsame.
  { intros work' Hw' Hn. unfold dataOf. rewrite (proj1 (gw_name _ (good _ Hw'))), (proj1 (gw_name _ (good _ Hw))). by rewrite Hn. }
  split; [split; [done| |]| |done|done].
  2: { apply (sameOutside_trans root _ d); [done|]. intros k Hk%outside_offStore. by auto. }
  - intros work' Hw'. unfold partial in *. destruct (decide (nameOf work' = nameOf work)) as [Hn|Hn].
    + by rewrite Hn, (Hsame _ Hw' Hn).
    + rewrite Po by done. by apply Hp.
  - intros work' Hw'. unfold stored in *. destruct (decide (nameOf work' = nameOf work)) as [Hn|Hn].
    + rewrite Hn, (Hsame _ Hw' Hn). destruct Hch as [-> | ->]; done.
    + by rewrite Co.
Qed.

Lemma origin_forward w work inp :
  reliable w -> diskInv (wdisk w) -> work ∈ items ->
  exists n d, downloadFromOrigin e inp work src w = (Ok (Some (Ok n)), setDisk d w)
    /\ forward (wdisk w) d /\ stored d work.
Proof.
  intros Hr HI Hw. destruct (good _ Hw) as [[Hname Hhex] Hhash Hsize Hlen Hpre].
  pose proof (di_partial _ HI _ Hw) as Hpart. pose proof (prefix_length _ _ Hpart) as Hpl.
  destruct (origin_run root e HL Hhook w work (nameOf work) (dataOf work) src inp (partial (wdisk w) work))
    as (r & d & Hrun & Honly & Hnone & Hcase); try done; [apply HI|unfold blen; lia|apply Horigin; [done..|apply HI]|].
  destruct Hpart as [rest Hrest].
  assert (partial (wdisk w) work ++ drop (length (partial (wdisk w) work)) (dataOf work) = dataOf work) as Hall.
  { rewrite Hrest. by rewrite drop_app_length. }
  rewrite Hall, bool_decide_eq_true_2 in Hcase by done. destruct Hcase as [[n ->] Hst].
  exists n, d. split; [done|]. split; [|done]. apply (forward_one work); try done; [|by right].
  unfold partial. rewrite Hnone. apply prefix_nil.
Qed.

Lemma peer_forward w work inp addr :
  reliable w -> diskInv (wdisk w) -> work ∈ items -> honestInput inp ->
  exists r d p, downloadFromPeer errText e inp addr work w = (Ok (Some r), setDisk d (setExt (setPool p (ext w)) w))
    /\ forward (wdisk w) d /\ match r with Ok _ => stored d work | Err _ => True end.
Proof.
  intros Hr HI Hw [_ Hpeer]. destruct (good _ Hw) as [[Hname Hhex] Hhash Hsize Hlen Hpre].
  pose proof (di_partial _ HI _ Hw) as Hpart. pose proof (prefix_length _ _ Hpart) as Hpl.
  destruct (peer_run errText root e HL Hhook w work (nameOf work) inp addr (partial (wdisk w) work))
    as (cl & p & _ & r & d & Hrun & Honly & Hout & _); try done; [apply HI|rewrite Hsize; unfold blen; lia|].
  specialize (Hpeer work (blen (partial (wdisk w) work)) cl Hw). unfold blen at 2 in Hpeer. rewrite Nat2Z.id in Hpeer.
  set (b := (DownloadChunkTo _ _ _ _ _ _).2) in *.
  assert (partial (wdisk w) work ++ b `prefix_of` dataOf work) as Hb.
  { destruct Hpart as [rest Hrest]. rewrite Hrest in Hpeer |- *. rewrite drop_app_length in Hpeer. by apply prefix_app. }
  exists r, d, p. split; [done|]. destruct r as [n|err].
  - destruct Hout as (Hh & Hst & Hnone). rewrite <- Hname in Hh. rewrite (Hpre _ Hb Hh) in Hst. split; [|done].
    apply (forward_one work); try done; [|by right]. unfold partial. rewrite Hnone. apply prefix_nil.
  - destruct Hout as (Hst & Hp). split; [|done]. apply (forward_one work); try done; [|by left].
    unfold partial at 1. destruct Hp as [-> | ->]; [apply prefix_nil|done].
Qed.

(** ** The scan of the cache *)

Definition workItem (pr : string * ChunkRef) : chunkWorkItem := mkWork (Hash pr.2) pr.1 (Offset pr.2) (Size pr.2).

(** What is cached is what the hash stands for. *)
Definition rightlyCached (d : disk) : Prop :=
  forall work b, work ∈ items -> chunkOf root d (nameOf work) = Some b -> b = dataOf work.

Lemma valid_run w work :
  reliable w -> diskInv (wdisk w) -> rightlyCached (wdisk w) -> work ∈ items ->
  exists b : bool, HasValidCommittedChunk (cache e) (whash work) (wsize work) w = (Ok b, w)
    /\ (b = true -> stored (wdisk w) work).
Proof.
  intros Hr HI Hc Hw. destruct (good _ Hw) as [[Hn Hx] _ _ _ _]. rewrite Hn.
  rewrite (HasValidCommittedChunk_run root (cache e) HL w _ _ Hr (di_ready _ HI) Hx).
  eexists. split; [done|]. unfold stored. destruct (chunkOf root (wdisk w) (nameOf work)) as [b|] eqn:E; [|done].
  intros _. by rewrite (Hc work b Hw E).
Qed.

Lemma scan_run refs w :
  reliable w -> diskInv (wdisk w) -> rightlyCached (wdisk w) -> (forall pr, pr ∈ refs -> workItem pr ∈ items) ->
  forall seen, exists its sk ru, scanChunks e refs seen w = (Ok (its, sk, ru), w)
    /\ (forall it, it ∈ its -> it ∈ items)
    /\ forall pr, pr ∈ refs -> stored (wdisk w) (workItem pr) \/ Hash pr.2 ∈ seen \/ exists it, it ∈ its /\ whash it = Hash pr.2.
Proof.
  intros Hr HI Hc. induction refs as [|[path ref] refs IH]; intros Hin seen; cbn [scanChunks].
  { eexists _, _, _. split; [done|]. split; [by intros it ?%elem_of_nil|by intros pr ?%elem_of_nil]. }
  assert (workItem (path, ref) ∈ items) as Hw by (apply Hin; by left).
  assert (forall pr, pr ∈ refs -> workItem pr ∈ items) as Hin' by (intros pr ?; apply Hin; by right).
  destruct (valid_run w _ Hr HI Hc Hw) as (b & Hb & Hst). rewrite (ioBind_ok _ _ _ _ _ Hb). destruct b.
  - destruct (IH Hin' seen) as (its & sk & ru & Hrun & Hi & Hcov). rewrite (ioBind_ok _ _ _ _ _ Hrun).
    eexists _, _, _. split; [done|]. split; [done|]. intros pr [-> | Hpr]%elem_of_cons; [left; auto|auto].
  - case_bool_decide as Hseen.
    + destruct (IH Hin' seen) as (its & sk & ru & Hrun & Hi & Hcov).
      exists its, sk, ru. split; [done|]. split; [done|]. intros pr [-> | Hpr]%elem_of_cons; [auto|auto].
    + destruct (IH Hin' ({[Hash ref]} ∪ seen)) as (its & sk & ru & Hrun & Hi & Hcov). rewrite (ioBind_ok _ _ _ _ _ Hrun).
      eexists _, _, _. split; [done|]. split.
      * intros it [-> | Hit]%elem_of_cons; [exact Hw|auto].
      * assert (exists it, it ∈ mkWork (Hash ref) path (Offset ref) (Size ref) :: its /\ whash it = Hash ref) as Hnew
          by (eexists; split; [by left|done]).
        intros pr [-> | Hpr]%elem_of_cons; [by auto|].
        destruct (Hcov pr Hpr) as [?|[[Heq%elem_of_singleton|?]%elem_of_union|(it & ? & ?)]]; [by auto| |by auto|].
        -- rewrite Heq. by auto.
        -- right. right. exists it. split; [by right|done].
Qed.

Lemma cachedRefs_run refs w :
  reliable w -> diskInv (wdisk w) -> rightlyCached (wdisk w) ->
  (forall ref, ref ∈ refs -> exists path, workItem (path, ref) ∈ items) ->
  forall seen, exists l, cachedRefs (cache e) seen refs w = (Ok l, w).
Proof.
  intros Hr HI Hc. induction refs as [|ref refs IH]; intros Hin seen; cbn [cachedRefs]; [by eexists|].
  assert (forall ref, ref ∈ refs -> exists path, workItem (path, ref) ∈ items) as Hin' by (intros ref' ?; apply Hin; by right).
  case_bool_decide; [by apply IH|]. destruct (Hin ref) as [path Hw]; [by left|].
  destruct (valid_run w _ Hr HI Hc Hw) as (b & Hb & _). simpl in Hb. rewrite (ioBind_ok _ _ _ _ _ Hb).
  destruct b; [|by apply IH]. destruct (IH Hin' ({[Hash ref]} ∪ seen)) as [l Hl]. rewrite (ioBind_ok _ _ _ _ _ Hl). by eexists.
Qed.

(** ** The system *)

(** The work a worker has got into the cache. *)
Definition got (ph : phase) : option chunkWorkItem :=
  match ph with
  | Fetched work _ _ _ _ _ (Ok _) | Reporting work _ _ => Some work
  | _ => None
  end.

Definition holds (ph : phase) : bool := match ph with Holding _ => true | _ => false end.

Record inv (s : sys) : Prop := {
  v_reliable : reliable s.1;
  v_disk : diskInv (wdisk s.1);
  v_err : downloadErr (run (ext s.1)) = None;
  v_panic : panicked (run (ext s.1)) = false;
  v_job : is_Some (jobs (ext s.1) !! jobID);
  v_pending : forall h work, pending (run (ext s.1)) !! h = Some work -> work ∈ items;
  v_workers : forall ph, ph ∈ s.2 -> ph <> Stuck /\ forall work, workOf ph = Some work -> work ∈ items;
  v_finished : Finished ∈ s.2 -> pending (run (ext s.1)) = ∅;
  v_cover : forall work, work ∈ items -> stored (wdisk s.1) work
    \/ (exists h work', pending (run (ext s.1)) !! h = Some work' /\ whash work' = whash work)
    \/ exists ph work', ph ∈ s.2 /\ workOf ph = Some work' /\ whash work' = whash work;
  v_got : forall ph work, ph ∈ s.2 -> got ph = Some work -> stored (wdisk s.1) work;
  v_origin : originUsed (ext s.1) = Z.of_nat (length (filter (fun ph => holds ph = true) s.2))
}.

(** The parts of the state the invariant is about. *)
Record sameState (s s' : engState) : Prop := {
  ss_err : downloadErr (run s') = downloadErr (run s);
  ss_panic : panicked (run s') = panicked (run s);
  ss_job : is_Some (jobs s !! jobID) -> is_Some (jobs s' !! jobID);
  ss_pending : pending (run s') = pending (run s);
  ss_origin : originUsed s' = originUsed s
}.

Lemma elem_insert {A} (l : list A) i x y : x ∈ <[i := y]> l -> x = y \/ x ∈ l.
Proof. intros (j & Hj)%list_elem_of_lookup_1. apply list_lookup_insert_Some in Hj as [(_ & <- & _)|[_ Hj]]; [by left|]. right. by eapply list_elem_of_lookup_2. Qed.

Lemma elem_insert_other {A} (l : list A) i a x y : l !! i = Some a -> x ∈ l -> x <> a -> x ∈ <[i := y]> l.
Proof.
  intros Hi (j & Hj)%list_elem_of_lookup_1 Hne. apply (list_elem_of_lookup_2 _ j). rewrite list_lookup_insert_ne; [done|].
  intros <-. congruence.
Qed.

Lemma elem_insert_new {A} (l : list A) i a y : l !! i = Some a -> y ∈ <[i := y]> l.
Proof. intros Hi. apply (list_elem_of_lookup_2 _ i). apply list_lookup_insert_eq. by eapply lookup_lt_Some. Qed.

Lemma holds_insert ws i ph ph' :
  ws !! i = Some ph ->
  Z.of_nat (length (filter (fun ph => holds ph = true) (<[i := ph']> ws)))
  = (Z.of_nat (length (filter (fun ph => holds ph = true) ws)) + (if holds ph' then 1 else 0) - (if holds ph then 1 else 0))%Z.
Proof.
  revert i. induction ws as [|x ws IH]; intros [|i] Hi; simplify_eq/=.
  - rewrite !filter_cons. destruct (holds ph'), (holds ph); simpl; rewrite ?decide_True, ?decide_False by done; simpl; lia.
  - specialize (IH i Hi). rewrite !filter_cons. destruct (decide (holds x = true)); simpl; lia.
Qed.

(** Worker [i] goes from [ph] to [ph'] while the disk goes forward. *)
Lemma inv_move w ws i ph ph' w' :
  inv (w, ws) -> ws !! i = Some ph -> reliable w' -> forward (wdisk w) (wdisk w') ->
  downloadErr (run (ext w')) = None -> panicked (run (ext w')) = false -> is_Some (jobs (ext w') !! jobID) ->
  pending (run (ext w')) = pending (run (ext w)) ->
  originUsed (ext w') = (originUsed (ext w) + (if holds ph' then 1 else 0) - (if holds ph then 1 else 0))%Z ->
  ph' <> Stuck -> ph' <> Finished ->
  (workOf ph' = workOf ph \/ (workOf ph' = None /\ is_Some (got ph))) ->
  (forall work, got ph' = Some work -> stored (wdisk w') work) ->
  inv (w', <[i := ph']> ws).
Proof.
  intros [Hr Hd He Hp Hjob Hpd Hws Hfin Hcov Hgot Horg] Hi Hr' Hfw He' Hp' Hjob' Hpd' Horg' Hst Hnf Hwork Hgot'. simpl in *.
  assert (ph ∈ ws) as Hin by by eapply list_elem_of_lookup_2.
  split; simpl; try done.
  - apply Hfw.
  - rewrite Hpd'. exact Hpd.
  - intros ph0 [->|Hph0]%elem_insert; [|by apply Hws]. split; [done|]. intros work Hw.
    destruct Hwork as [Hsame|[Hnone _]]; [|congruence]. rewrite Hsame in Hw. by apply (Hws ph).
  - intros [Hf|Hf]%elem_insert; [congruence|]. rewrite Hpd'. by apply Hfin.
  - intros work Hw. rewrite Hpd'. destruct (Hcov work Hw) as [Hs|[Hq|(ph0 & work' & Hph0 & Hw0 & Hh)]].
    + left. by apply Hfw.
    + right. by left.
    + destruct (list_elem_of_lookup_1 _ _ Hph0) as [j Hj]. destruct (decide (j = i)) as [->|Hne].
      * rewrite Hi in Hj. injection Hj as <-. destruct Hwork as [Hsame|[_ [g Hg]]].
        -- right. right. exists ph', work'. rewrite Hsame. split_and!; try done. by eapply elem_insert_new.
        -- left. apply Hfw; [done|]. assert (got ph = workOf ph) as Hgw by (by destruct ph; try done; destruct r).
           assert (stored (wdisk w) work') as Hs by (apply (Hgot ph); [done|congruence]).
           unfold stored, nameOf, dataOf in *. by rewrite <- Hh.
      * right. right. exists ph0, work'. split_and!; try done. apply (list_elem_of_lookup_2 _ j).
        by rewrite list_lookup_insert_ne.
  - intros ph0 work [->|Hph0]%elem_insert Hg; [by apply Hgot'|]. apply Hfw; [|by eapply Hgot].
    destruct (Hws ph0 Hph0) as [_ Hw0]. apply Hw0. destruct ph0; try done. by destruct r; simplify_eq/=.
  - rewrite (holds_insert ws i ph ph' Hi), <- Horg. done.
Qed.

(** The phases in which a step does not touch the disk, the queue or the origin. *)
Definition inMemory (ph : phase) : bool :=
  match ph with Ranking _ _ _ | Trying _ _ _ _ | Claiming _ _ _ _ _ | Fetched _ _ _ _ _ _ _ | Pausing _ _ _ | Reporting _ _ _ => true | _ => false end.

Lemma advance_memory inp ph w :
  iCtx inp = None -> inMemory ph = true ->
  exists ph' s', advance errText e (Some src) jobID inp ph w = (Ok (Some ph'), setExt s' w)
    /\ sameState (ext w) s' /\ holds ph' = false /\ ph' <> Stuck /\ ph' <> Finished
    /\ (workOf ph' = workOf ph \/ (workOf ph' = None /\ is_Some (got ph)))
    /\ (got ph' = None \/ got ph' = got ph).
Proof.
  intros Hctx Hmem. destruct ph as [|work n b|work n b [|p rest]|work n b p rest|work n b p rest t0|work n b p rest t0 r
    |work n b|work|work|work fp nb| |]; try done; clear Hmem; cbn [advance]; rewrite ?Hctx;
    unfold ioBind, getNow, onState, onJob, modRun, modState, onState; cbn [ext].
  - destruct (_ <? _)%Z.
    + destruct (RankPeers _ _ _ _) as [ps sch]. destruct (sortByAssigned _ _) as [ps' m]. simpl.
      eexists _, _. split; [done|]. split_and!; by auto.
    + exists (AtOrigin work), (ext w). rewrite setExt_same. split_and!; by auto.
  - eexists _, (ext w). rewrite setExt_same. split; [done|]. destruct (_ <? _)%Z; split_and!; by auto.
  - destruct (bool_decide _).
    + eexists _, (ext w). rewrite setExt_same. split; [done|]. split_and!; by auto.
    + destruct (IsUntrusted _ _ _) as [bad sch]. simpl. eexists _, _. split; [done|]. destruct bad; split_and!; by auto.
  - destruct (Begin _ _) as [ok sch]. simpl. eexists _, _. split; [done|]. destruct ok; split_and!; by auto.
  - destruct r as [nb|err]; simpl.
    + eexists _, _. split; [done|]. split_and!; by auto.
    + eexists _, _. split; [done|]. destruct (tripped _ _); split_and!; by auto.
  - eexists _, (ext w). rewrite setExt_same. split; [by destruct (iPick inp)|]. split_and!; by auto.
  - simpl. eexists _, _. split; [done|]. split_and!; try by eauto. split; try done. simpl. by rewrite lookup_alter_eq, fmap_is_Some.
Qed.

(** A worker at the head of the loop takes an item, or finds the queue empty. *)
Lemma inv_top w ws i ph' r :
  inv (w, ws) -> ws !! i = Some Top -> holds ph' = false -> got ph' = None ->
  downloadErr r = None -> panicked r = false ->
  (forall h work, pending r !! h = Some work -> pending (run (ext w)) !! h = Some work) ->
  (forall h work, pending (run (ext w)) !! h = Some work -> pending r !! h = Some work \/ workOf ph' = Some work) ->
  ph' <> Stuck -> (forall work, workOf ph' = Some work -> exists h, pending (run (ext w)) !! h = Some work) ->
  (ph' = Finished -> pending r = ∅) ->
  inv (setExt (setRun r (ext w)) w, <[i := ph']> ws).
Proof.
  intros [Hr Hd He Hp Hjob Hpd Hws Hfin Hcov Hgot Horg] Hi Hh Hg He' Hp' Hsub Hsup Hns Htook Hlast. simpl in *.
  split; simpl; try done.
  - intros h work Hw. by eapply Hpd, Hsub.
  - intros ph [->|Hph]%elem_insert; [|by apply Hws]. split; [done|]. intros work [h Hw]%Htook. by eapply Hpd.
  - intros [<-|Hf]%elem_insert; [by apply Hlast|]. apply map_empty. intros h. destruct (pending r !! h) eqn:E; [|done].
    apply Hsub in E. by rewrite Hfin, lookup_empty in E.
  - intros work Hw. destruct (Hcov work Hw) as [Hs|[(h & work' & Hq & Hh')|(ph & work' & Hph & Hw' & Hh')]].
    + by left.
    + right. destruct (Hsup _ _ Hq) as [Hq'|Hq']; [left; eauto|]. right. exists ph', work'. split_and!; try done. by eapply elem_insert_new.
    + right. right. exists ph, work'. split_and!; try done. eapply elem_insert_other; [done|done|]. by intros ->.
  - intros ph work [->|Hph]%elem_insert Hg'; [congruence|by eapply Hgot].
  - rewrite (holds_insert _ _ _ _ Hi), Hh. simpl. rewrite <- Horg. lia.
Qed.

(** A step of the system with honest answers. *)
Lemma advance_inv w ws i ph inp :
  inv (w, ws) -> ws !! i = Some ph -> honestInput inp ->
  (exists ph' w', advance errText e (Some src) jobID inp ph w = (Ok (Some ph'), w')
     /\ inv (w', <[i := ph']> ws) /\ forward (wdisk w) (wdisk w'))
  \/ (advance errText e (Some src) jobID inp ph w = (Ok None, w)
      /\ (ph = Finished \/ (exists work, ph = AtOrigin work) /\ (maxOriginWorkers e <= originUsed (ext w))%Z)).
Proof.
  intros HI Hi Hinp. pose proof HI as [Hr Hd He Hp Hjob Hpd Hws Hfin Hcov Hgot Horg]. simpl in *.
  assert (ph ∈ ws) as Hin by by eapply list_elem_of_lookup_2.
  destruct (Hws ph Hin) as [Hnst Hitem]. destruct Hinp as [Hctx Hpeer].
  destruct (inMemory ph) eqn:Hmem.
  { left. destruct (advance_memory inp ph w Hctx Hmem) as (ph' & s' & Hadv & [E1 E2 EJ E3 E4] & Hh & Hns & Hnf & Hwk & Hg).
    assert (holds ph = false) as Hh0 by by destruct ph.
    exists ph', (setExt s' w). split; [done|]. split; [|by apply forward_refl].
    apply (inv_move w ws i ph); try done; simpl; try congruence; [by apply EJ|rewrite Hh, Hh0; lia|].
    intros work Hwork. destruct Hg as [Hg|Hg]; [congruence|]. apply (Hgot ph); congruence. }
  destruct ph as [|work n b|work n b cands|work n b p rest|work n b p rest t0|work n b p rest t0 r
    |work n b|work|work|work fp nb| |]; try done; clear Hmem; cbn [advance]; rewrite ?Hctx.
  - left. unfold ioBind at 1, getState, onState. simpl. rewrite setExt_same, He. unfold ioBind.
    destruct (next_cases (run (ext w))) as [[Hnone ->]|(h & work & Hwork & ->)].
    + eexists _, _. split; [done|]. simpl. split; [|by apply forward_refl]. apply inv_top; try done; by auto.
    + eexists _, _. split; [done|]. simpl. split; [|by apply forward_refl]. apply inv_top; try done; simpl.
      * intros h' work' Hl. by apply lookup_delete_Some in Hl as [_ ?].
      * intros h' work' Hl. destruct (decide (h' = h)) as [->|Hne]; [right; congruence|left; by rewrite lookup_delete_ne].
      * intros work' [= <-]. eauto.
  - left. destruct (peer_forward w work inp (Address p)) as (r & d & pl & Hrun & Hfw & Hst); try done; [by apply Hitem|].
    rewrite (ioBind_ok _ _ _ _ _ Hrun). eexists _, _. split; [done|]. split; [|done].
    apply (inv_move w ws i _ _ _ HI Hi); try done; simpl; [lia|by left|]. intros work' Hwk. by destruct r; simplify_eq.
  - unfold ioBind, getState, onState. simpl. rewrite setExt_same. destruct (Z.ltb_spec (originUsed (ext w)) (maxOriginWorkers e)).
    + left. eexists _, _. split; [by destruct (iPick inp)|]. simpl. split; [|by apply forward_refl].
      apply (inv_move w ws i _ _ _ HI Hi); try done; simpl; [lia|by left].
    + right. split; [done|]. right. eauto.
  - left. destruct (origin_forward w work inp) as (n & d & Hrun & Hfw & Hst); try done; [by apply Hitem|].
    rewrite (ioBind_ok _ _ _ _ _ Hrun). eexists _, _. split; [done|]. simpl. split; [|done].
    apply (inv_move w ws i _ _ _ HI Hi); try done; simpl; [lia|by left|]. by intros work' [= <-].
  - right. by auto.
Qed.

(** ** Events *)

Context (Hext : forall src' path o n, Some src = Some src' -> extSame (Src.ReadChunkTo src' path o n)).
Context (missing : list string) (Hmissing : forall h, h ∈ missing -> exists work, work ∈ items /\ whash work = h).

Lemma remainingOf_run w hs :
  reliable w -> diskInv (wdisk w) -> (forall h, h ∈ hs -> h ∈ missing) -> exists l, remainingOf e hs w = (Ok l, w).
Proof.
  intros Hr HI. induction hs as [|h hs IH]; intros Hin; cbn [remainingOf]; [by eexists|].
  destruct (Hmissing h) as (work & Hw & <-); [apply Hin; by constructor|].
  destruct (good _ Hw) as [[Hn Hx] _ _ _ _]. rewrite Hn.
  rewrite (ioBind_ok _ _ _ _ _ (HasChunk_run root (cache e) HL w _ Hr (di_ready _ HI) Hx)).
  destruct IH as [l Hl]; [intros h' Hh'; apply Hin; by constructor|].
  rewrite (ioBind_ok _ _ _ _ _ Hl). by eexists.
Qed.

Abbreviation step := (sysStep errText e (Some src) tracker jobID missing).

Lemma hookless fn h z : onCommit (cache e) = Some fn -> extSame (fn h z).
Proof. intros Hf w. by rewrite (Hhook fn h z w Hf). Qed.

(** Events that leave the workers, the queue and the disk alone. *)
Lemma inv_quiet w ws w' :
  inv (w, ws) -> reliable w' -> wdisk w' = wdisk w -> sameState (ext w) (ext w') -> inv (w', ws).
Proof.
  intros [Hr Hd He Hp Hjob Hpd Hws Hfin Hcov Hgot Horg] Hr' Hdisk [E1 E2 EJ E3 E4]. simpl in *.
  split; simpl; rewrite ?Hdisk, ?E1, ?E2, ?E3, ?E4; auto.
Qed.

Lemma handle_inv w ws ev :
  inv (w, ws) -> honestEvent ev ->
  exists w' ws', step (w, ws) ev (w', ws') /\ inv (w', ws') /\ forward (wdisk w) (wdisk w').
Proof.
  intros HI Hev. pose proof HI as [Hr Hd He Hp Hjob _ _ _ _ _ _]. simpl in *.
  unfold sysStep, handle. simpl. unfold ioBind at 1, getState, onState. simpl. rewrite setExt_same, Hp.
  destruct ev as [i inp|ans| | |t].
  - destruct (ws !! i) as [ph|] eqn:Hi; [|exists w, ws; split_and!; [done|done|by apply forward_refl]].
    destruct (advance_inv w ws i ph inp HI Hi Hev) as [(ph' & w' & Hadv & HI' & Hfw)|[Hadv _]].
    + rewrite (ioBind_ok _ _ _ _ _ Hadv). by eexists _, _.
    + rewrite (ioBind_ok _ _ _ _ _ Hadv). eexists _, _. split_and!; [done|done|by apply forward_refl].
  - destruct (remainingOf_run w missing Hr Hd) as [l Hl]; [done|]. rewrite (ioBind_ok _ _ _ _ _ Hl).
    eexists _, _. split_and!; [done| |by apply forward_refl]. eapply inv_quiet; try done.
    simpl. by destruct (refresh_locs e l ans (run (ext w))) as [ls ->].
  - eexists _, _. split_and!; [done| |by apply forward_refl]. eapply inv_quiet; done.
  - eexists _, _. split_and!; [done| |by apply forward_refl]. eapply inv_quiet; done.
  - eexists _, _. split_and!; [done| |by apply forward_refl]. eapply inv_quiet; done.
Qed.

Lemma runEvents_length evs : forall ws w ws' w',
  runEvents errText tracker e (Some src) jobID missing evs ws w = (Ok ws', w') -> length ws' = length ws.
Proof.
  induction evs as [|ev evs IH]; intros ws w ws' w' Hrun; cbn [runEvents] in Hrun; [by injection Hrun as -> _|].
  apply ioBind_inv in Hrun as (ws1 & w1 & H1 & H2). rewrite (IH _ _ _ _ H2).
  destruct (sysStep_cases errText e (Some src) hookless Hext tracker jobID missing (w, ws) ev (w1, ws1) H1)
    as [[E _]|(i & inp & ph & ph' & _ & _ & E & _)]; simpl in E; subst ws1; [done|apply length_insert].
Qed.

Lemma runEvents_inv evs : forall w ws, inv (w, ws) -> Forall honestEvent evs ->
  exists w' ws', runEvents errText tracker e (Some src) jobID missing evs ws w = (Ok ws', w')
    /\ inv (w', ws') /\ forward (wdisk w) (wdisk w').
Proof.
  induction evs as [|ev evs IH]; intros w ws HI Hevs; cbn [runEvents].
  - exists w, ws. split_and!; [done|done|]. by apply forward_refl, HI.
  - apply Forall_cons in Hevs as [Hev Hevs]. destruct (handle_inv w ws ev HI Hev) as (w1 & ws1 & Hs & HI1 & Hf1).
    rewrite (ioBind_ok _ _ _ _ _ Hs). destruct (IH w1 ws1 HI1 Hevs) as (w2 & ws2 & Hs2 & HI2 & Hf2).
    exists w2, ws2. split_and!; [done|done|by eapply forward_trans].
Qed.

(** ** Progress *)

(** Peers that do not answer. *)
Definition noAnswer : input :=
  mkInput None true (Err (EText "connection refused")) (fun _ => Err (EText "connection refused")) true.

Lemma noAnswer_honest : honestInput noAnswer.
Proof.
  split; [done|]. intros work off cl _. destruct cl; simpl; apply prefix_nil.
Qed.

Lemma holding_worker ws :
  (0 < Z.of_nat (length (filter (fun ph => holds ph = true) ws)))%Z -> exists i work, ws !! i = Some (Holding work).
Proof.
  intros Hlen. destruct (filter (fun ph => holds ph = true) ws) as [|ph l] eqn:E; [done|].
  assert (ph ∈ filter (fun ph => holds ph = true) ws) as Hin by (rewrite E; by constructor).
  apply list_elem_of_filter in Hin as [Hh Hin]. apply list_elem_of_lookup_1 in Hin as [i Hi].
  destruct ph; try done. eauto.
Qed.

Lemma progress w ws :
  inv (w, ws) -> allFinished ws = false ->
  exists ev w' ws', honestEvent ev /\ step (w, ws) ev (w', ws') /\ ws' <> ws /\ inv (w', ws').
Proof.
  intros HI Hun. pose proof HI as [Hr Hd He Hp Hjob _ _ _ _ _ Horg]. simpl in *.
  assert (exists i ph, ws !! i = Some ph /\ ph <> Finished
    /\ ((exists work, ph = AtOrigin work) -> originUsed (ext w) < maxOriginWorkers e)%Z) as (i & ph & Hi & Hnf & Hslot).
  { destruct (Z.ltb_spec 0 (originUsed (ext w))) as [Hpos|Hnone].
    - destruct (holding_worker ws) as (i & work & Hi); [by rewrite <- Horg|]. exists i, (Holding work).
      split_and!; [done|done|]. by intros [? [=]].
    - assert (exists ph, ph ∈ ws /\ ph <> Finished) as (ph & Hin & Hnf).
      { clear -Hun. induction ws as [|ph ws IH]; [done|]. destruct ph; try by eexists; split; [by left|].
        simpl in Hun. destruct (IH Hun) as (ph & ? & ?). exists ph. split; [by right|done]. }
      apply list_elem_of_lookup_1 in Hin as [i Hi]. exists i, ph. split_and!; [done|done|lia]. }
  destruct (advance_inv w ws i ph noAnswer HI Hi noAnswer_honest) as [(ph' & w' & Hadv & HI' & Hfw)|[_ [?|[Hat Hfull]]]];
    [|done|specialize (Hslot Hat); lia].
  exists (Work i noAnswer), w', (<[i := ph']> ws). split; [apply noAnswer_honest|]. split.
  - unfold sysStep, handle. simpl. unfold ioBind at 1, getState, onState. simpl. rewrite setExt_same, Hp, Hi.
    by rewrite (ioBind_ok _ _ _ _ _ Hadv).
  - split; [|done]. intros Heq. apply (f_equal (lookup i)) in Heq.
    rewrite list_lookup_insert_eq, Hi in Heq by by eapply lookup_lt_Some. injection Heq as ->.
    by apply (advance_moves errText e (Some src) hookless Hext jobID noAnswer ph w ph w').
Qed.

(** Some events bring the workers to their end. *)
Lemma comes_to_rest w ws :
  inv (w, ws) -> exists evs w' ws', Forall honestEvent evs
    /\ runEvents errText tracker e (Some src) jobID missing evs ws w = (Ok ws', w')
    /\ allFinished ws' = true.
Proof.
  pose proof (moves_wf errText e (Some src) hookless Hext tracker jobID missing (w, ws)) as Hacc.
  remember (w, ws) as s eqn:Es. revert w ws Es. induction Hacc as [s _ IH].
  intros w ws -> HI. destruct (allFinished ws) eqn:Hfin; [by exists [], w, ws|].
  destruct (progress w ws HI Hfin) as (ev & w1 & ws1 & Hev & Hstep & Hne & HI1).
  destruct (IH (w1, ws1)) with (w := w1) (ws := ws1) as (evs & w2 & ws2 & Hevs & Hrun & Hdone); try done.
  { exists (w, ws), ev. by split_and!. }
  exists (ev :: evs), w2, ws2. split_and!; [by constructor| |done]. cbn [runEvents]. by rewrite (ioBind_ok _ _ _ _ _ Hstep).
Qed.

(** At the end everything is stored. *)
Lemma rest_stored w ws work :
  inv (w, ws) -> allFinished ws = true -> ws <> [] -> work ∈ items -> stored (wdisk w) work.
Proof.
  intros [_ _ _ _ _ _ _ Hfin Hcov _ _] Hall Hne Hw. simpl in *.
  assert (forall ph, ph ∈ ws -> ph = Finished) as Hph.
  { unfold allFinished in Hall. rewrite forallb_forall in Hall. intros ph Hin%list_elem_of_In.
    specialize (Hall ph Hin). by destruct ph. }
  destruct (Hcov work Hw) as [?|[(h & work' & Hq & _)|(ph & work' & Hin & Hwk & _)]]; [done|..].
  - rewrite Hfin, lookup_empty in Hq; [done|]. destruct ws as [|ph ws]; [done|].
    rewrite <- (Hph ph) by by left. by left.
  - apply Hph in Hin as ->. done.
Qed.

(** ** The queue and the wait for the workers *)

Lemma newPendingQueue_has its it : it ∈ its -> exists work, newPendingQueue its !! whash it = Some work.
Proof.
  unfold newPendingQueue. intros Hin.
  assert (forall l (m : gmap string chunkWorkItem), it ∈ l \/ is_Some (m !! whash it) ->
    is_Some (fold_left (fun m it => <[whash it := it]> m) l m !! whash it)) as H.
  { induction l as [|it' l IH]; intros m Hor; simpl; [by destruct Hor as [?%elem_of_nil|]|].
    apply IH. destruct Hor as [[-> | ?]%elem_of_cons|Hm]; [right; by rewrite lookup_insert_eq|by left|].
    right. destruct (decide (whash it' = whash it)) as [->|]; [by rewrite lookup_insert_eq|by rewrite lookup_insert_ne]. }
  destruct (H its ∅ (or_introl Hin)). eauto.
Qed.

Abbreviation runs := (runEvents errText tracker e (Some src) jobID missing).

(** A download that is about to start: what is not stored is queued. *)
Record toFetch (its : list chunkWorkItem) (w : world engState) : Prop := {
  tf_reliable : reliable w;
  tf_disk : diskInv (wdisk w);
  tf_err : downloadErr (run (ext w)) = None;
  tf_panic : panicked (run (ext w)) = false;
  tf_job : is_Some (jobs (ext w) !! jobID);
  tf_origin : originUsed (ext w) = 0%Z;
  tf_items : forall it, it ∈ its -> it ∈ items;
  tf_cover : forall work, work ∈ items -> stored (wdisk w) work \/ exists it, it ∈ its /\ whash it = whash work
}.

Lemma start_inv its w n : toFetch its w -> inv (queued its w, replicate n Top).
Proof.
  intros [Hr Hd He Hp Hjob Ho Hin Hcov].
  split; simpl; try done.
  - intros h work [Hw _]%newPendingQueue_elem. auto.
  - by intros ph [-> _]%elem_of_replicate.
  - by intros [[=] _]%elem_of_replicate.
  - intros work Hw. destruct (Hcov work Hw) as [?|(it & Hit & Hh)]; [by left|]. right. left.
    destruct (newPendingQueue_has its it Hit) as [work' Hq]. exists (whash it), work'. split; [done|].
    apply newPendingQueue_elem in Hq as [_ ->]. done.
  - by intros ph work [-> _]%elem_of_replicate.
  - rewrite Ho. induction n as [|n IH]; [done|]. simpl. by rewrite filter_cons_False.
Qed.

Lemma download_run its evs w :
  missing = map whash its -> (0 < maxPeerWorkers e)%Z -> toFetch its w -> Forall honestEvent evs ->
  (exists b w', download errText tracker e (Some src) jobID its evs w = (Ok b, w') /\ reliable w'
     /\ is_Some (jobs (ext w') !! jobID) /\ forward (wdisk w) (wdisk w') /\ (b = true -> forall work, work ∈ items -> stored (wdisk w') work))
  /\ exists evs' w', Forall honestEvent evs'
     /\ download errText tracker e (Some src) jobID its (evs ++ evs') w = (Ok true, w').
Proof.
  intros Hm Hpw Hf Hevs. unfold download. case_bool_decide as Hnil.
  { split; [|by exists [], w]. exists true, w. split_and!; [done|apply Hf|apply Hf|apply forward_refl, Hf|].
    intros _ work Hw. destruct (tf_cover _ _ Hf work Hw) as [?|(it & Hit & _)]; [done|]. subst. by apply elem_of_nil in Hit. }
  rewrite <- Hm. set (n := Z.to_nat (maxPeerWorkers e)).
  assert (replicate n Top <> []) as Hne by (destruct n eqn:En; [unfold n in En; lia|done]).
  pose proof (start_inv its w n Hf) as HI0.
  destruct (runEvents_inv evs _ _ HI0 Hevs) as (w1 & ws1 & Hrun1 & HI1 & Hfw1).
  assert (length ws1 = length (replicate n Top)) as Hlen by (by eapply runEvents_length).
  assert (forall evs w' ws', runs evs (replicate n Top) (queued its w) = (Ok ws', w') -> inv (w', ws') ->
    (do_ modRun (setPending (newPendingQueue its)); do workers <- runs evs (replicate n Top); do s <- getState;
     if panicked (run s) || negb (allFinished workers) then ioRet false
     else match downloadErr (run s) with
          | Some err => do_ onJob jobID (finishJob "FAILED" (errText err)); ioErr err
          | None => ioRet true end) w = (Ok (allFinished ws'), w')) as Hgo.
  { intros evs0 w' ws' Hrun HI. rewrite (ioBind_ok _ _ w tt (queued its w)) by done.
    rewrite (ioBind_ok _ _ _ _ _ Hrun).
    rewrite (ioBind_ok getState _ w' (ext w') w') by (unfold getState, onState; simpl; by rewrite setExt_same).
    rewrite (v_panic _ HI : panicked (run (ext w')) = _), (v_err _ HI : downloadErr (run (ext w')) = _). by destruct (allFinished ws'). }
  split.
  - exists (allFinished ws1), w1. split_and!; [by apply Hgo|apply HI1|apply HI1|done|].
    intros Hall work Hw. apply (rest_stored w1 ws1); try done. intros ->. by destruct (replicate n Top).
  - destruct (comes_to_rest w1 ws1 HI1) as (evs' & w2 & ws2 & Hevs' & Hrun2 & Hall).
    exists evs', w2. split; [done|]. rewrite (Hgo _ w2 ws2), Hall; [done|by rewrite (runEvents_app _ _ _ _ _ _ _ _ _ _ _ _ Hrun1)|].
    destruct (runEvents_inv evs' w1 ws1 HI1 Hevs') as (w3 & ws3 & Hrun3 & HI3 & _). congruence.
Qed.

End honest.

(** ** Sync *)

Section sync.
Context {D : Digest} {SS : SortSlice} {MC : ManifestCodec} {CF : CaseFold} (errText : error -> string).
Context (tracker : nat -> list string -> option error) (jobID : string) (root : string) (e : Engine).
Context (src : Src.Source engState) (m : ArtifactManifest) (content : string -> bytes) (dest : string).

Definition itemsOf : list chunkWorkItem := map workItem (allRefs m).

(** The bytes of an entry. *)
Definition bytesOf (f : FileEntry) : bytes := concat (map (fun ref => content (Hash ref)) (chunksOf f)).

(** An engine with workers, an origin that serves the chunks of a valid
    manifest, a cache without foreign bytes under their names, and a vacant
    destination where the paths fit side by side. *)
Record syncable (w : world engState) : Prop := {
  sy_layout : storeLayout root (cache e);
  sy_hook : silentHook (cache e);
  sy_peerWorkers : (0 < maxPeerWorkers e)%Z;
  sy_originWorkers : (0 < maxOriginWorkers e)%Z;
  sy_copies : Strat (materializer e) <> StrategyHardLink;
  sy_valid : Manifest.Validate m = Ok tt;
  sy_items : Forall (goodWork content) itemsOf;
  sy_origin : honestOrigin root src itemsOf content (wdisk w);
  sy_quiet : forall path o n, extSame (Src.ReadChunkTo src path o n);
  sy_reliable : reliable w;
  sy_disk : diskInv root itemsOf content (wdisk w) (wdisk w);
  sy_cached : rightlyCached root itemsOf content (wdisk w);
  sy_idle : originUsed (ext w) = 0%Z;
  sy_nodup : NoDup (map (fun f => relComps (Path f)) (files m));
  sy_nonest : noNesting (files m);
  sy_apart : ~ key root `prefix_of` key dest /\ ~ key dest `prefix_of` key root;
  sy_dot : Clean dest <> ".";
  sy_top : Clean dest <> "/";
  sy_vacant : vacant dest (wdisk w)
}.

Definition delivered (d : disk) : Prop :=
  forall f, f ∈ files m -> contentAt d (targetKey dest f) = Some (bytesOf f).

Lemma items_elem f ref : f ∈ files m -> ref ∈ chunksOf f -> workItem (Path f, ref) ∈ itemsOf.
Proof.
  intros Hf Hr. apply list_elem_of_fmap. exists (Path f, ref). split; [done|]. apply elem_of_concat_map.
  exists f. split; [done|]. apply list_elem_of_fmap. by exists ref.
Qed.

(** What [prepare] leaves is ready to be fetched. *)
Lemma prepare_run ans w :
  syncable w ->
  exists its reused start w1, prepare e jobID m ans w = (Ok (its, reused, start), w1)
    /\ wdisk w1 = wdisk w /\ toFetch jobID root itemsOf content (wdisk w) its w1.
Proof.
  intros Hs. unfold prepare. rewrite (ioBind_ok _ _ w (now w) w) by done.
  match goal with |- context [modState ?f] => set (s1 := f (ext w)) end. rewrite (ioBind_ok _ _ w tt (setExt s1 w)) by done.
  assert (forall s, reliable (setExt s w)) as Hr by (intros s; apply Hs).
  destruct (scan_run root e (sy_layout _ Hs) itemsOf content (sy_items _ Hs) (wdisk w) (allRefs m) (setExt s1 w))
    with (seen := ∅ : gset string) as (its & sk & ru & Hscan & Hin & Hcov); [done|apply Hs|apply Hs| |].
  { intros pr Hpr. by apply list_elem_of_fmap_2. }
  rewrite (ioBind_ok _ _ _ _ _ Hscan).
  set (s2 := setJobs (alter (skipJob sk) jobID (jobs s1)) s1). rewrite (ioBind_ok _ _ _ tt (setExt s2 w)) by done.
  set (s3 := setRun (refreshLocations e (map whash its) ans (run s2)) s2). rewrite (ioBind_ok _ _ _ tt (setExt s3 w)) by done.
  destruct (cachedRefs_run root e (sy_layout _ Hs) itemsOf content (sy_items _ Hs) (wdisk w) (concat (map chunksOf (files m))) (setExt s3 w))
    with (seen := ∅ : gset string) as (l & Hl); [done|apply Hs|apply Hs| |].
  { intros ref (f & Hf & Href)%elem_of_concat_map. exists (Path f). by apply items_elem. }
  unfold ManifestCachedHashes. rewrite (ioBind_ok _ _ _ _ _ Hl).
  eexists its, ru, (now w), _. split; [done|]. split; [done|].
  destruct (refresh_locs e (map whash its) ans (run s2)) as [ls Hls].
  simpl in Hls. split; simpl; rewrite ?Hls; try done; try apply Hs.
  - rewrite lookup_alter_eq, lookup_insert_eq. by eexists.
  - intros work (pr & -> & Hpr)%list_elem_of_fmap. destruct (Hcov pr Hpr) as [?|[?%elem_of_empty|?]]; [by left|done|by right].
Qed.

(** Everything stored: [SaveManifest] and [Materialize]. *)
Lemma finish_run w w1 :
  syncable w -> reliable w1 -> is_Some (jobs (ext w1) !! jobID) ->
  forward root itemsOf content (wdisk w) (wdisk w) (wdisk w1) -> (forall work, work ∈ itemsOf -> stored root content (wdisk w1) work) ->
  exists u w2 w3, ignore (SaveManifest (cache e) m) w1 = (Ok u, w2)
    /\ Materialize (fun _ => None) (materializer e) m (cache e) dest w2 = (Ok tt, w3)
    /\ delivered (wdisk w3) /\ is_Some (jobs (ext w3) !! jobID).
Proof.
  intros Hs Hr1 Hjob Hfw Hst. destruct (sy_apart _ Hs) as [Ha1 Ha2].
  destruct (Validate_parse m (sy_valid _ Hs)) as (x & Hx & Hhex).
  destruct (SaveManifest_frame root (cache e) (sy_layout _ Hs) w1 m x) as (r & n & rest & d & Hsave & HR & Hun);
    [done|apply Hfw|apply Hs|done|].
  set (w2 := World d (faults w1) rest (now w1) (ext w1)).
  assert (ignore (SaveManifest (cache e) m) w1 = (Ok tt, w2)) as Hig by by rewrite ignore_eq, Hsave.
  assert (forall f ref, f ∈ files m -> ref ∈ chunksOf f ->
    chunkOf root d (strDrop 7 (Hash ref)) = Some (content (Hash ref))) as Hchunk.
  { intros f ref Hf Href. pose proof (items_elem f ref Hf Href) as Hw. rewrite <- (Hst _ Hw). unfold chunkOf, nameOf. simpl.
    apply (untouched_content _ _ _ _ _ Hun); unfold tmpKey, manifestKey, chunkKey, chunkRoot; rewrite <- app_assoc;
      intros E%app_inv_head; discriminate. }
  assert (matReady root m dest d) as Hmat.
  { split; try apply Hs.
    - intros f ref Hf Href. pose proof (items_elem f ref Hf Href) as Hw.
      pose proof (sy_items _ Hs) as Hg. rewrite Forall_forall in Hg. destruct (Hg _ Hw) as [[Hn Hxn] Hh Hsz _ _].
      exists (strDrop 7 (Hash ref)), (content (Hash ref)). split_and!; try done. by eapply Hchunk.
    - by apply apart_chunks.
    - apply (vacant_outside root dest (wdisk w) d); try done; [|apply Hs].
      apply (sameOutside_trans root _ (wdisk w1)); [|by eapply untouched_outside].
      intros k Hk. assert (offStore root k) as Hoff.
      { split; intros Hp; apply Hk; (etransitivity; [|exact Hp]); by eexists. }
      split; by apply Hfw. }
  destruct (Materialize_run root (cache e) (sy_layout _ Hs) (materializer e) m dest w2) as (d3 & Hrun & Hct);
    [done|apply Hs|done|].
  exists tt, w2, (setDisk d3 w2). split_and!; try done.
  intros f Hf. change (wdisk (setDisk d3 w2)) with d3. rewrite (Hct f Hf). unfold storedFile, bytesOf. do 2 f_equal. apply map_ext_in.
  intros ref Href%list_elem_of_In. unfold Materializer.stored. simpl. by rewrite (Hchunk f ref Hf Href).
Qed.

Lemma complete_some id reused start w :
  is_Some (jobs (ext w) !! jobID) ->
  exists mt w', complete tracker e jobID id reused start w = (Ok (Some mt), w') /\ wdisk w' = wdisk w.
Proof.
  intros [j Hj]. unfold complete, ioBind, onJob, deferred, modState, onState, modRun. simpl.
  destruct (trackerClient e); simpl; rewrite lookup_alter_eq, Hj; simpl; by eexists _, _.
Qed.

Abbreviation sync := (Sync errText tracker e (fun _ => None) jobID m dest (Some src)).

(** The run of [Sync] after its download. *)
Lemma Sync_after ans evs w its reused start w1 b w2 :
  syncable w -> prepare e jobID m ans w = (Ok (its, reused, start), w1) ->
  download errText tracker e (Some src) jobID its evs w1 = (Ok b, w2) ->
  reliable w2 -> is_Some (jobs (ext w2) !! jobID) -> forward root itemsOf content (wdisk w) (wdisk w) (wdisk w2) ->
  (b = true -> forall work, work ∈ itemsOf -> stored root content (wdisk w2) work) ->
  if b then exists mt w', sync ans evs w = (Ok (Some mt), w') /\ delivered (wdisk w')
  else exists w', sync ans evs w = (Ok None, w').
Proof.
  intros Hs Hprep Hdl Hr Hjob Hfw Hst. unfold Sync.
  rewrite (ioBind_ok _ _ w tt w) by by rewrite (sy_valid _ Hs).
  rewrite (ioBind_ok _ _ _ _ _ Hprep).
  rewrite (ioBind_ok _ _ w1 (Ok b) w2) by by rewrite attempt_eq, Hdl.
  destruct b; [|by eexists].
  destruct (finish_run w w2 Hs Hr Hjob Hfw (Hst eq_refl)) as (u & w3 & w4 & Hsave & Hmat & Hdel & Hjob4).
  rewrite (ioBind_ok _ _ _ _ _ Hsave). rewrite (ioBind_ok _ _ w3 (Ok tt) w4) by by rewrite attempt_eq, Hmat.
  destruct (complete_some (ArtifactID m) reused start w4 Hjob4) as (mt & w5 & Hc & Hd). exists mt, w5. split; [done|]. by rewrite Hd.
Qed.

Lemma sync_runs ans evs w :
  syncable w -> Forall (honestEvent itemsOf content) evs ->
  ((exists w', sync ans evs w = (Ok None, w'))
   \/ exists mt w', sync ans evs w = (Ok (Some mt), w') /\ delivered (wdisk w'))
  /\ exists evs' mt w', Forall (honestEvent itemsOf content) evs'
       /\ sync ans (evs ++ evs') w = (Ok (Some mt), w') /\ delivered (wdisk w').
Proof.
  intros Hs Hevs. destruct (prepare_run ans w Hs) as (its & reused & start & w1 & Hprep & Hd1 & Hf).
  assert (forall h, h ∈ map whash its -> exists work, work ∈ itemsOf /\ whash work = h) as Hmiss.
  { intros h (it & -> & Hit)%list_elem_of_fmap. exists it. split; [|done]. by apply (tf_items _ _ _ _ _ _ _ Hf). }
  pose proof (fun evs => download_run errText tracker jobID root e src (sy_layout _ Hs) (sy_hook _ Hs) (sy_originWorkers _ Hs)
    itemsOf content (sy_items _ Hs) (wdisk w) (sy_origin _ Hs)
    (fun src' path o n E => match E in _ = Some s return extSame (Src.ReadChunkTo s path o n) with eq_refl => sy_quiet _ Hs path o n end)
    (map whash its) Hmiss its evs w1 eq_refl (sy_peerWorkers _ Hs) Hf) as Hdl.
  assert (forall evs b w2, Forall (honestEvent itemsOf content) evs ->
    download errText tracker e (Some src) jobID its evs w1 = (Ok b, w2) ->
    if b then exists mt w', sync ans evs w = (Ok (Some mt), w') /\ delivered (wdisk w')
    else exists w', sync ans evs w = (Ok None, w')) as Hgo.
  { intros evs0 b w2 He Hrun. destruct (Hdl evs0 He) as [(b' & w' & Hrun' & Hr & Hj & Hfw & Hst) _].
    rewrite Hrun in Hrun'. injection Hrun' as <- <-. rewrite Hd1 in Hfw. by eapply Sync_after. }
  destruct (Hdl evs Hevs) as [(b & w2 & Hrun & _) (evs' & w3 & Hevs' & Hrun')]. split.
  - specialize (Hgo evs b w2 Hevs Hrun). destruct b; [by right|by left].
  - destruct (Hgo (evs ++ evs') true w3) as (mt & w' & ? & ?); [by apply Forall_app|done|]. by exists evs', mt, w'.
Qed.

(** C2. [Sync] with an honest origin delivers the artifact, under these
    conditions. The disk is reliable and the context alive; the engine has
    workers for peers and for the origin, no download of the origin is
    running, it copies (no hard links), and its commit hook changes nothing of
    the disk and the engine. The manifest is valid, its chunk names are
    hexadecimal, and the origin serves the bytes they describe; no shorter
    prefix of a chunk has its hash. The store has its directories, each
    partial in it is the beginning of its chunk (no garbage of an earlier
    download), and each cached chunk has the right bytes. The destination is
    apart from the store, not the root or the working directory, has nothing
    below it and no file on the way to it, and no two paths of the manifest
    clean to the same file or nest. Peers may send any beginning of the bytes
    that they are asked for (all, some or none), and nothing else, in any
    interleaving. Then no run of [Sync] fails: it has not returned yet, or it
    has written exactly the bytes of every entry. And from wherever the events
    have brought it, it can still return with the artifact written. *)
Theorem Sync_completes ans evs w (Hs : syncable w) (Hevs : Forall (honestEvent itemsOf content) evs) :
  ((exists w', sync ans evs w = (Ok None, w'))
   \/ exists mt w', sync ans evs w = (Ok (Some mt), w') /\ delivered (wdisk w'))
  /\ exists evs' mt w', Forall (honestEvent itemsOf content) evs'
       /\ sync ans (evs ++ evs') w = (Ok (Some mt), w') /\ delivered (wdisk w').
Proof. exact (sync_runs ans evs w Hs Hevs). Qed.

End sync.
