(* ===== verification/EngineDemo.v ===== *)
(** * A concrete engine

    Two workers, a fresh store under "/s", an origin that serves the chunk
    "abc" and a manifest with one file of it: the theorems about the engine
    applied to it. *)

From S2P Require Import Prelude GoFloat Digest GoPath Json Manifest SafePath GoFs Chunker ChunkStore StoreRuns.
From S2P Require Import Materializer Verifier Quota Peer PeerLimits Config Advertise Source Publisher Topology.
From S2P Require Import Scheduler Engine EngineSafety EngineRuns EngineWorkers EngineLive.
Local Open Scope go_scope.

#[local] Existing Instance demoCodec.
#[local] Existing Instance asciiFold.

Definition demoEngineConfig : EngineConfig :=
  mkEngineConfig "n1" (mkLocality "" "" "" "") (storeAt "/s") false None None None 2 1 1
    (mkAdvertisement 0 0 0 0 0) (mkDiscovery 0) (mkRetry 1 (mkBackoff 0 0)).

Definition demoEngine : Engine := (NewEngine demoEngineConfig).1.

Definition demoWorld : world engState := World (wdisk readyWorld) [] [7%N] 0 (NewEngine demoEngineConfig).2.

Definition demoOrigin : Src.Source engState :=
  Src.mkSource (fun _ => ioRet []) (fun _ o n => ioRet (take (Z.to_nat n) (drop (Z.to_nat o) abc), Ok n))
    (fun _ => ioRet (abc, None)).

Definition demoItem : chunkWorkItem := mkWork abcHash "dir/a.txt" 0 3.
Definition noText (_ : error) : string := "".
Definition noTracker (_ : nat) (_ : list string) : option error := None.
Definition demoAnswer : located := mkLocated (Ok []) (Ok []).

Lemma demo_items : itemsOf oneFile = [demoItem].
Proof. reflexivity. Qed.

Lemma abc_name : abcHash = "sha256:" +:+ strDrop 7 abcHash /\ hexName (strDrop 7 abcHash).
Proof. split; [reflexivity|]. split; vm_compute; reflexivity. Qed.

Lemma demo_good : goodWork (fun _ => abc) demoItem.
Proof.
  split; [exact abc_name|vm_compute; reflexivity|done|done|].
  intros b [rest Hb] Hh. destruct b as [|x1 [|x2 [|x3 [|x4 b]]]]; [..|discriminate Hb].
  - vm_compute in Hh. discriminate Hh.
  - injection Hb as <- _. vm_compute in Hh. discriminate Hh.
  - injection Hb as <- <- _. vm_compute in Hh. discriminate Hh.
  - injection Hb as <- <- <- _. reflexivity.
Qed.

Lemma demo_honest d0 : honestOrigin "/s" demoOrigin [demoItem] (fun _ => abc) d0.
Proof.
  intros work part w ->%list_elem_of_singleton Hp _ _. apply prefix_length in Hp as Hl.
  unfold dataOf in *. change (length abc) with 3 in Hl. simpl. unfold ioRet. do 3 f_equal.
  unfold add64. rewrite wrap64_id by (unfold int64_range, blen; lia). unfold blen.
  rewrite Z.add_0_l, Nat2Z.id. apply take_ge. rewrite length_drop. change (length abc) with 3. lia.
Qed.

Lemma demo_nochunk x : chunkOf "/s" (wdisk readyWorld) x = None.
Proof. apply contentAt_none. intros i. apply readyWorld_nofile. Qed.

Lemma demo_nopartial x : partialOf "/s" (wdisk readyWorld) x = None.
Proof. apply contentAt_none. intros i. apply readyWorld_nofile. Qed.

Lemma readyWorld_vacant : vacant "/out" (wdisk readyWorld).
Proof. exact (pl_vacant _ _ _ _ demo_placeable). Qed.

Lemma demo_syncable : syncable "/s" demoEngine demoOrigin oneFile (fun _ => abc) "/out" demoWorld.
Proof.
  pose proof oneFile_ready as Hm. split; rewrite ?demo_items.
  - by apply storeAt_layout.
  - by apply noHook_silent.
  - reflexivity.
  - reflexivity.
  - discriminate.
  - apply Hm.
  - constructor; [exact demo_good|constructor].
  - apply demo_honest.
  - intros path o n. apply extSame_ret.
  - reflexivity.
  - split; [exact readyWorld_ready| |by intros k _].
    intros work _. unfold partial. rewrite demo_nopartial. apply prefix_nil.
  - intros work b _ Hb. by rewrite demo_nochunk in Hb.
  - reflexivity.
  - apply Hm.
  - apply Hm.
  - split; intros [t Ht]; discriminate Ht.
  - apply Hm.
  - apply Hm.
  - exact readyWorld_vacant.
Qed.

Lemma demo_events n : Forall (honestEvent [demoItem] (fun _ => abc)) (replicate n (Work 0 noAnswer)).
Proof. apply Forall_replicate, noAnswer_honest. Qed.

Lemma Sync_completes_witness :
  exists evs mt w', Sync noText noTracker demoEngine (fun _ => None) "job" oneFile "/out" (Some demoOrigin) demoAnswer
      (Work 0 noAnswer :: evs) demoWorld = (Ok (Some mt), w')
    /\ contentAt (wdisk w') ["out"; "dir"; "a.txt"] = Some abc.
Proof.
  destruct (Sync_completes noText noTracker "job" "/s" demoEngine demoOrigin oneFile (fun _ => abc) "/out" demoAnswer
    [Work 0 noAnswer] demoWorld demo_syncable (demo_events 1)) as [_ (evs & mt & w' & _ & Hrun & Hd)].
  exists evs, mt, w'. split; [exact Hrun|].
  refine (Hd (mkFileEntry "dir/a.txt" 3 "0600" (Slice [mkChunkRef abcHash 0 3])) _). by constructor.
Defined.

(** A [Sync] that has returned, for [Sync_exact]. *)
Lemma Sync_exact_witness :
  exists w' data j, contentAt (wdisk w') ["out"; "dir"; "a.txt"] = Some data
    /\ fileMatches (mkFileEntry "dir/a.txt" 3 "0600" (Slice [mkChunkRef abcHash 0 3])) data
    /\ jobs (ext w') !! "job" = Some j /\ Status j = "COMPLETED".
Proof.
  destruct (sync_runs noText noTracker "job" "/s" demoEngine demoOrigin oneFile (fun _ => abc) "/out" demoAnswer
    [] demoWorld demo_syncable (demo_events 0)) as [_ (evs & mt & w' & _ & Hrun & _)].
  destruct (Sync_exact noText noTracker "/s" demoEngine (fun _ => None) "job" oneFile "/out" (Some demoOrigin) demoAnswer
    evs demoWorld mt w') as (Hin & _ & j & Hj & Hst).
  - by apply storeAt_layout.
  - intros fn Hf. discriminate Hf.
  - intros src path o n Hs. injection Hs as <-. split; [apply keeps_ret|apply extSame_ret].
  - constructor; [exact (goodHash_wellNamed _ abcHash_good)|constructor].
  - discriminate.
  - apply NoDup_singleton.
  - split; intros [t Ht]; discriminate Ht.
  - exact (vacant_noFiles _ _ readyWorld_vacant).
  - exact Hrun.
  - destruct (Hin (mkFileEntry "dir/a.txt" 3 "0600" (Slice [mkChunkRef abcHash 0 3]))) as (data & Hd & Hm); [by constructor|].
    exists w', data, j. split; [exact Hd|]. split; [exact Hm|]. split; [exact Hj|exact Hst].
Defined.

Lemma download_keeps_cache_witness :
  CacheInv "/s" (wdisk (download noText noTracker demoEngine (Some demoOrigin) "job" [demoItem]
    (replicate 9 (Work 0 noAnswer)) demoWorld).2).
Proof.
  apply (download_keeps_cache noText noTracker "/s" demoEngine (Some demoOrigin) "job" [demoItem]).
  - by apply storeAt_layout.
  - intros fn Hf. discriminate Hf.
  - intros src path o n Hs. injection Hs as <-. split; [apply keeps_ret|apply extSame_ret].
  - constructor; [exact (goodHash_wellNamed _ abcHash_good)|constructor].
  - reflexivity.
  - apply readyWorld_ready.
Defined.

Lemma workers_terminate_witness :
  well_founded (fun s' s => moves noText demoEngine (Some demoOrigin) noTracker "job" [abcHash] s s').
Proof.
  apply workers_terminate.
  - intros fn h z Hf. discriminate Hf.
  - intros src path o n Hs. injection Hs as <-. apply extSame_ret.
Defined.

(** A peer that sends one wrong byte and goes away. *)
Definition lostPeer : input :=
  mkInput None true (Ok 1) (fun _ => Ok ([mkData (toBytes "x") 0 3 false], Some (EText "connection reset"))) true.

Lemma garbage_blocks_origin_witness :
  exists w1 err w2,
    downloadFromPeer noText demoEngine lostPeer "peer:1" demoItem demoWorld
      = (Ok (Some (Err (EWrap "error reading chunk stream" (EText "connection reset")))), w1)
    /\ downloadFromOrigin demoEngine noAnswer demoItem demoOrigin w1
      = (Ok (Some (Err (EWrap "integrity check failed for chunk" err))), w2).
Proof.
  destruct (garbage_blocks_origin noText "/s" demoEngine demoWorld demoItem (strDrop 7 abcHash) abc "peer:1" lostPeer noAnswer
    (toBytes "x") 3 (EText "connection reset") demoOrigin) as (w1 & err & w2 & H1 & H2 & _).
  - by apply storeAt_layout.
  - by apply noHook_silent.
  - reflexivity.
  - exact readyWorld_ready.
  - apply abc_name.
  - apply abc_name.
  - reflexivity.
  - reflexivity.
  - apply demo_nopartial.
  - exists 1. reflexivity.
  - reflexivity.
  - reflexivity.
  - discriminate.
  - discriminate.
  - vm_compute. discriminate.
  - intros w' _. reflexivity.
  - exists w1, err, w2. split; [exact H1|exact H2].
Defined.

(** Without an origin one worker stores its error; then the deadline passes. *)
Definition deadline : input :=
  mkInput (Some (ESentinel ContextDeadlineExceeded)) false (Err (EText "")) (fun _ => Err (EText "")) true.

Definition failedRun : res (list phase) * world engState :=
  runEvents noText noTracker demoEngine None "job" [abcHash] (replicate 5 (Work 0 noAnswer)) [Top; Top]
    (queued [demoItem] demoWorld).

Lemma mixed_errors_panic_witness :
  exists w', download noText noTracker demoEngine None "job" [demoItem]
    (replicate 5 (Work 0 noAnswer) ++ [Work 1 deadline; Work 0 noAnswer; Work 1 noAnswer]) demoWorld = (Ok false, w').
Proof.
  apply (mixed_errors_panic noText noTracker demoEngine None "job" [demoItem] (replicate 5 (Work 0 noAnswer))
    [Finished; Top] demoWorld failedRun.2 1 deadline (EText "no peer available for chunk and no origin configured")
    (ESentinel ContextDeadlineExceeded)) with (evs' := [Work 0 noAnswer; Work 1 noAnswer]).
  - discriminate.
  - apply io_result. vm_compute. reflexivity.
  - reflexivity.
  - vm_compute. reflexivity.
  - vm_compute. reflexivity.
  - reflexivity.
  - discriminate.
Defined.
