(* ===== verification/EndToEnd.v ===== *)
(** * From the publisher to another node

    Publishing an artifact on one node (pkg/engine/publisher.go) and syncing it
    on another one (pkg/engine/engine.go): the manifest that [Publish] returns
    describes chunks that an origin with the same files serves, so that the
    [Sync] of the other node ends with the published files. *)

From S2P Require Import Prelude GoFloat Digest GoPath Json Manifest SafePath GoFs Chunker ChunkStore StoreRuns.
From S2P Require Import Materializer Verifier Quota Peer PeerLimits Config Advertise Source Publisher PublishDir Topology.
From S2P Require Import Scheduler Engine EngineSafety EngineRuns EngineWorkers EngineLive EngineDemo.
Local Open Scope go_scope.

(** ** Pieces of a concatenation *)

Lemma concat_piece {A} (bs : list (list A)) i b :
  bs !! i = Some b -> concat bs = concat (take i bs) ++ b ++ concat (drop (S i) bs).
Proof. intros Hi. rewrite <- (take_drop_middle bs i b Hi) at 1. by rewrite concat_app. Qed.

(** ** An origin that serves ranges of the files *)

Definition servesRanges {X} (root : string) (src : Src.Source X) (ts : list (string * bytes)) (d : disk) : Prop :=
  forall t off n w, t ∈ ts -> reliable w -> sameOutside root d (wdisk w) -> (0 <= off)%Z -> (0 <= n)%Z ->
  (off + n <= blen t.2)%Z ->
  Src.ReadChunkTo src (NormalizePath t.1) off n w
  = (Ok (take (Z.to_nat n) (drop (Z.to_nat off) t.2), Ok n), w).

(** ** A published manifest *)

Section published.
Context {D : Digest} {SS : SortSlice} {MC : ManifestCodec} {CF : CaseFold}.
Context {X : Type} (rootA : string) (p : Publisher X) (ts : list (string * bytes)).
Context (w : world X) (m : ArtifactManifest) (w' : world X) (Hpub : published rootA p ts w m w').
Context (Hlen : Forall (fun t => blen t.2 < 2 ^ 63)%Z ts).

(** The bytes each hash of the manifest stands for. *)
Definition pieceOf (h : string) : bytes := default [] (chunkOf rootA (wdisk w') (strDrop 7 h)).

Lemma file_servable f : f ∈ files m -> exists t, t ∈ ts /\ servable rootA p (wdisk w') t f.
Proof.
  destruct (pd_files _ _ _ _ _ _ Hpub) as (fs & Hfs & Hsv). intros Hf. rewrite Hfs in Hf.
  apply list_elem_of_lookup_1 in Hf as [i Hi]. destruct (Forall2_lookup_r _ _ _ _ _ Hsv Hi) as (t & Ht & Hst).
  exists t. split; [|done]. by eapply list_elem_of_lookup_2.
Qed.

Lemma target_file t : t ∈ ts -> exists f, f ∈ files m /\ servable rootA p (wdisk w') t f.
Proof.
  destruct (pd_files _ _ _ _ _ _ Hpub) as (fs & Hfs & Hsv). intros [i Hi]%list_elem_of_lookup_1.
  destruct (Forall2_lookup_l _ _ _ _ _ Hsv Hi) as (f & Hf & Hst). exists f. split; [|done].
  rewrite Hfs. by eapply list_elem_of_lookup_2.
Qed.

Lemma sizes_pieces d t f :
  servable rootA p d t f -> sizes f = map blen (map (Materializer.stored rootA d) (chunksOf f)).
Proof.
  intros (_ & Hch & _). unfold sizes. rewrite map_map. apply map_ext_in. intros ref Href.
  rewrite Forall_forall in Hch. destruct (Hch ref) as (x & data & Hh & _ & Hc & _ & Hs); [by apply list_elem_of_In|].
  unfold Materializer.stored. by rewrite Hh, (strDrop_app "sha256:"), Hc.
Qed.

(** A reference of a file is the range of its bytes. *)
Lemma ref_range t f i ref :
  t ∈ ts -> f ∈ files m -> servable rootA p (wdisk w') t f -> chunksOf f !! i = Some ref ->
  (0 <= Offset ref)%Z /\ blen (pieceOf (Hash ref)) = Size ref /\ (Offset ref + Size ref <= blen t.2)%Z
  /\ pieceOf (Hash ref) = take (Z.to_nat (Size ref)) (drop (Z.to_nat (Offset ref)) t.2).
Proof.
  intros Ht Hf Hsv Hi. pose proof (sizes_pieces _ _ _ Hsv) as Hsz. destruct Hsv as (_ & Hch & Hdata & _).
  rewrite Forall_forall in Hlen. specialize (Hlen t Ht). simpl in Hlen.
  pose proof (pd_valid _ _ _ _ _ _ Hpub) as Hv. apply Validate_iff in Hv. pose proof (valid_files _ Hv) as Hok.
  rewrite Forall_forall in Hok. destruct (Hok f Hf) as (_ & _ & Hal & _). specialize (Hal i ref Hi).
  set (bs := map (Materializer.stored rootA (wdisk w')) (chunksOf f)) in *.
  assert (bs !! i = Some (pieceOf (Hash ref))) as Hb by (unfold bs; change (map ?f ?l) with (f <$> l); by rewrite list_lookup_fmap, Hi).
  assert (blen (pieceOf (Hash ref)) = Size ref) as Hlenp.
  { assert (sizes f !! i = Some (Size ref)) as H1 by (unfold sizes; change (map ?f ?l) with (f <$> l); by rewrite list_lookup_fmap, Hi).
    rewrite Hsz in H1. change (map blen bs) with (blen <$> bs) in H1. rewrite list_lookup_fmap, Hb in H1. by injection H1. }
  assert (t.2 = concat (take i bs) ++ pieceOf (Hash ref) ++ concat (drop (S i) bs)) as Hcat
    by (rewrite <- Hdata; by apply concat_piece).
  assert (blen t.2 = blen (concat (take i bs)) + Size ref + blen (concat (drop (S i) bs)))%Z as Hl
    by (rewrite Hcat, !blen_app, Hlenp; lia).
  pose proof (blen_nonneg (concat (drop (S i) bs))). pose proof (blen_nonneg (concat (take i bs))).
  pose proof (blen_nonneg (pieceOf (Hash ref))).
  assert (Offset ref = blen (concat (take i bs))) as Hoff.
  { rewrite Hal, Hsz, firstn_map, <- blen_concat. apply wrap64_id. unfold int64_range. lia. }
  rewrite Hoff. split; [done|]. split; [done|]. split; [lia|]. rewrite Hcat, <- Hlenp. unfold blen. rewrite !Nat2Z.id.
  by rewrite drop_app_length, take_app_length.
Qed.

Lemma ref_piece t f ref :
  servable rootA p (wdisk w') t f -> ref ∈ chunksOf f ->
  pieceOf (Hash ref) ∈ piecesOf p t.2 /\ ComputeHash (pieceOf (Hash ref)) = Hash ref
  /\ exists x, Hash ref = "sha256:" +:+ x /\ hexName x.
Proof.
  intros (_ & Hch & _ & Hps) Href. rewrite Forall_forall in Hch, Hps. split; [exact (Hps ref Href)|].
  destruct (Hch ref Href) as (x & data & Hh & Hx & Hc & Hd & _). split; [|by eauto].
  unfold pieceOf. by rewrite Hh, (strDrop_app "sha256:"), Hc, <- Hh.
Qed.

(** ** The other node *)

Context (rootB : string) (e : Engine) (src : Src.Source engState) (dest : string) (wB : world engState).

(** All pieces of the files. *)
Definition allPieces : list bytes := concat (map (fun t => piecesOf p t.2) ts).

(** The node has an engine with workers and a store of its own.  What it holds
    of the pieces already is right, and no prefix of a piece has its hash. *)
Record joins : Prop := {
  jn_layout : storeLayout rootB (cache e);
  jn_hook : silentHook (cache e);
  jn_peerWorkers : (0 < maxPeerWorkers e)%Z;
  jn_originWorkers : (0 < maxOriginWorkers e)%Z;
  jn_copies : Strat (materializer e) <> StrategyHardLink;
  jn_reliable : reliable wB;
  jn_ready : storeReady rootB (wdisk wB);
  jn_idle : originUsed (ext wB) = 0%Z;
  jn_quiet : forall path o n, extSame (Src.ReadChunkTo src path o n);
  jn_partial : forall b x, b ∈ allPieces -> ComputeHash b = "sha256:" +:+ x ->
    default [] (partialOf rootB (wdisk wB) x) `prefix_of` b;
  jn_cached : forall b b' x, b ∈ allPieces -> chunkOf rootB (wdisk wB) x = Some b' -> ComputeHash b = "sha256:" +:+ x -> b' = b;
  jn_prefix : forall b b', b ∈ allPieces -> b' `prefix_of` b -> ComputeHash b' = ComputeHash b -> b' = b
}.

Lemma piece_all t b : t ∈ ts -> b ∈ piecesOf p t.2 -> b ∈ allPieces.
Proof. intros Ht Hb. apply elem_of_concat_map. eauto. Qed.

(** An item of the manifest is a reference of a file. *)
Lemma item_ref work :
  work ∈ itemsOf m -> exists t f i ref, t ∈ ts /\ f ∈ files m /\ servable rootA p (wdisk w') t f
    /\ chunksOf f !! i = Some ref /\ work = workItem (Path f, ref).
Proof.
  intros (pr & -> & Hpr)%list_elem_of_fmap. apply elem_of_concat_map in Hpr as (f & Hf & Hin).
  apply list_elem_of_fmap in Hin as (ref & -> & Href). destruct (file_servable f Hf) as (t & Ht & Hsv).
  apply list_elem_of_lookup_1 in Href as [i Hi]. by exists t, f, i, ref.
Qed.

Lemma items_good : joins -> Forall (goodWork pieceOf) (itemsOf m).
Proof.
  intros Hj. apply Forall_forall. intros work (t & f & i & ref & Ht & Hf & Hsv & Hi & ->)%item_ref.
  destruct (ref_range t f i ref Ht Hf Hsv Hi) as (Ho & Hsz & Hend & _).
  destruct (ref_piece t f ref Hsv) as (Hin & Hh & x & Hx & Hhex); [by eapply list_elem_of_lookup_2|].
  rewrite Forall_forall in Hlen. specialize (Hlen t Ht). simpl in Hlen.
  split; unfold nameOf, dataOf; simpl.
  - rewrite Hx, (strDrop_app "sha256:"). done.
  - done.
  - done.
  - lia.
  - intros b Hb Hbh. apply (jn_prefix Hj); [by eapply piece_all|done|congruence].
Qed.

Lemma ranges_honest d : servesRanges rootB src ts d -> honestOrigin rootB src (itemsOf m) pieceOf d.
Proof.
  intros Hsrc work part v (t & f & i & ref & Ht & Hf & Hsv & Hi & ->)%item_ref Hp Hr Hout.
  destruct (ref_range t f i ref Ht Hf Hsv Hi) as (Ho & Hsz & Hend & Hdata).
  rewrite Forall_forall in Hlen. specialize (Hlen t Ht). simpl in Hlen. unfold dataOf in *. cbn [whash wpath woffset workItem fst snd] in *.
  apply prefix_length in Hp as Hpl. pose proof (blen_nonneg part).
  assert (blen part <= Size ref)%Z as Hple by (rewrite <- Hsz; unfold blen; simpl; lia).
  simpl. rewrite (proj1 Hsv), Hsz. unfold add64. rewrite wrap64_id by (unfold int64_range; lia).
  rewrite (Hsrc t) by (try done; lia). do 3 f_equal.
  rewrite Hdata, skipn_firstn_comm, drop_drop. unfold blen in *. f_equal; [lia|]. f_equal. lia.
Qed.

Theorem published_syncable :
  joins -> servesRanges rootB src ts (wdisk wB) -> placeable rootB ts dest (wdisk wB) ->
  syncable rootB e src m pieceOf dest wB.
Proof.
  intros Hj Hsrc [Hnd Hnn Hap Hdot Htop Hvac].
  destruct (pd_files _ _ _ _ _ _ Hpub) as (fs & Hfs & Hsv).
  assert (map (fun f => relComps (Path f)) fs = map (fun t => relComps (NormalizePath t.1)) ts) as Hpaths.
  { clear -Hsv. induction Hsv as [|t f ts fs (Hp & _) _ IH]; simpl; [done|]. by rewrite IH, Hp. }
  pose proof (items_good Hj) as Hgood.
  assert (forall work, work ∈ itemsOf m -> dataOf pieceOf work ∈ allPieces
    /\ ComputeHash (dataOf pieceOf work) = "sha256:" +:+ nameOf work) as Hwork.
  { intros work Hw. rewrite Forall_forall in Hgood. destruct (Hgood work Hw) as [[Hn _] Hh _ _ _]. split; [|congruence].
    apply item_ref in Hw as (t & f & i & ref & Ht & Hf & Hst & Hi & ->). eapply piece_all; [exact Ht|].
    eapply ref_piece; [exact Hst|by eapply list_elem_of_lookup_2]. }
  split; try apply Hj; try done.
  - apply Hpub.
  - by apply ranges_honest.
  - split; [apply Hj| |by intros k _]. intros work Hw. unfold partial. destruct (Hwork work Hw). by apply (jn_partial Hj).
  - intros work b Hw Hb. destruct (Hwork work Hw). by eapply (jn_cached Hj).
  - change (NoDup ((fun f => relComps (Path f)) <$> files m)). rewrite Hfs.
    change (NoDup (map (fun f => relComps (Path f)) fs)). by rewrite Hpaths.
  - intros f g Hf Hg. destruct (file_servable f Hf) as (s & Hs1 & -> & _), (file_servable g Hg) as (t & Ht1 & -> & _).
    by apply Hnn.
Qed.

(** What [Sync] delivers are the files. *)
Lemma delivered_files d :
  delivered m pieceOf dest d -> forall path data, (path, data) ∈ ts ->
  contentAt d (key dest ++ relComps (NormalizePath path)) = Some data.
Proof.
  intros Hdel path data Hin. destruct (target_file _ Hin) as (f & Hf & Hp & _ & Hd & _). simpl in Hp, Hd.
  rewrite <- Hp, <- Hd. exact (Hdel f Hf).
Qed.

End published.

(** ** A directory as the origin *)

Lemma extSame_ReadChunkTo {X} fs path o n : extSame (X:=X) (FsSource.ReadChunkTo fs path o n).
Proof.
  unfold FsSource.ReadChunkTo. destruct (FsSource.resolve fs path) as [full|er]; [|apply extSame_ret].
  apply extSame_bind; [apply extSame_attempt, extSame_Open|]. intros [f|er]; [|apply extSame_ret].
  apply extSame_bind; [apply extSame_attempt, extSame_syscall|]. intros [f'|er].
  - apply extSame_bind; [apply extSame_readRest|]. intros r. destruct (Src.copyN n r).
    apply extSame_bind; [apply extSame_ignore, extSame_Close|]. intros _. apply extSame_ret.
  - apply extSame_bind; [apply extSame_ignore, extSame_Close|]. intros _. apply extSame_ret.
Qed.

(** The node sees the files of the directory [base] of [d] in its directory [base']. *)
Definition mirrors (base base' : string) (d d' : disk) : Prop :=
  forall cs data, contentAt d (key base ++ cs) = Some data -> contentAt d' (key base' ++ cs) = Some data.

Lemma directory_ranges {X} root base d base' d' :
  sourceDir base d -> sourceDir base' d' -> mirrors base base' d d' ->
  ~ key root `prefix_of` key base' -> ~ key base' `prefix_of` key root ->
  servesRanges (X:=X) root (FsSource.asSource (FsSource.mkFs base' "") (fun _ => None)) (dirFiles base d) d'.
Proof.
  intros Hd Hd' Hm H1 H2 t off n w (cs & data & Hc & ->)%elem_of_dirFiles Hr Hout Ho Hn Hend; [|done]. simpl in Hend |- *.
  destruct (content_names base d Hd cs data Hc) as [Hcs Hne]. rewrite NormalizePath_names by done.
  pose proof (Hm _ _ Hc) as Hc'. destruct (nodeAt d' (key base' ++ cs)) as [[|i]|] eqn:Hi;
    [unfold contentAt in Hc'; by rewrite Hi in Hc'| |unfold contentAt in Hc'; by rewrite Hi in Hc'].
  pose proof (sd_abs _ _ Hd') as Hb. rewrite (ReadChunkTo_exact _ w _ (Join (base' :: cs)) data).
  - unfold blen in *. do 4 f_equal. rewrite length_take, length_drop. lia.
  - done.
  - unfold FsSource.resolve. cbn [FsSource.baseDir].
    by rewrite NormalizePath_names, (Join_below cs Hcs Hne base' Hb), (Rel_names cs Hcs Hne base' Hb), (sd_dots _ _ Hd' cs i Hi) by done.
  - rewrite key_below by done. destruct (Hout (key base' ++ cs)) as [_ ->]; [|done].
    intros Hp. destruct (prefix_app_both _ _ _ Hp (ltac:(by eexists) : key base' `prefix_of` key base' ++ cs)); done.
  - done.
  - done.
Qed.

(** C3. From the publisher to another node. A node publishes a directory under
    a name and a version that are not blank. Another node that sees the same
    files in a directory of its own, as its origin, syncs the manifest. Each
    of the two directories is given by an absolute path apart from the node's
    store and has no file whose path begins with two dots; the first has at
    least one file, and none of 2^63 bytes or more. Both disks are reliable,
    both stores have their directories, the contexts are alive, commit hooks
    change nothing of the disk and the engine, the manifest can be encoded and
    has room for its file, and pieces of the files and stored chunks with
    equal hashes are equal, as are prefixes of pieces. The second node has
    workers for peers and for the origin, no download of the origin running,
    copies, and has no garbage: its partials are beginnings of their chunks
    and its cached chunks are right. The destination is vacant, apart from the
    store and not the root or the working directory. Then [Publish] succeeds,
    and the [Sync] does not fail, whatever pieces of the chunks peers deliver
    in whatever interleaving: it has not returned yet, or the destination
    holds every file of the directory with its bytes; and from wherever it is,
    it can still return with them. *)
Theorem publish_then_sync {D : Digest} {SS : SortSlice} {MC : ManifestCodec} {CF : CaseFold} errText tracker jobID {X : Type}
    rootA (c : ChunkStore X) size base name version wA
    rootB (e : Engine) base' dest wB
    (HL : storeLayout rootA c) (Hhook : silentHook c) (Hr : reliable wA) (HR : storeReady rootA (wdisk wA))
    (Hpub : dirPublishable rootA c size base name version wA)
    (Horigin : sourceDir base' (wdisk wB)) (Hsame : mirrors base base' (wdisk wA) (wdisk wB))
    (Hapart : ~ key rootB `prefix_of` key base' /\ ~ key base' `prefix_of` key rootB)
    (Hjoin : joins (NewPublisher c size) (dirFiles base (wdisk wA)) rootB e
      (FsSource.asSource (FsSource.mkFs base' "") (fun _ => None)) wB)
    (Hdest : ~ key rootB `prefix_of` key dest /\ ~ key dest `prefix_of` key rootB)
    (Hdot : Clean dest <> ".") (Htop : Clean dest <> "/") (Hvac : vacant dest (wdisk wB)) :
  let origin := FsSource.asSource (FsSource.mkFs base' "") (fun _ => None) in
  let copied d := forall cs data, contentAt (wdisk wA) (key base ++ cs) = Some data -> contentAt d (key dest ++ cs) = Some data in
  exists m wA', Publish (fun _ => None) (NewPublisher c size)
      (FsSource.asSource (FsSource.mkFs base "") (fun _ => None)) "" name version wA = (Ok m, wA')
    /\ let sync := Sync errText tracker e (fun _ => None) jobID m dest (Some origin) in
       let honest := honestEvent (itemsOf m) (pieceOf rootA wA') in
       forall ans evs, Forall honest evs ->
         ((exists w', sync ans evs wB = (Ok None, w'))
          \/ exists mt w', sync ans evs wB = (Ok (Some mt), w') /\ copied (wdisk w'))
         /\ exists evs' mt w', Forall honest evs' /\ sync ans (evs ++ evs') wB = (Ok (Some mt), w') /\ copied (wdisk w').
Proof.
  intros origin copied. pose proof (dir_publishable _ _ _ _ _ _ _ Hpub) as Hpb.
  pose proof (dp_source _ _ _ _ _ _ _ Hpub) as Hd. destruct (dp_apart _ _ _ _ _ _ _ Hpub) as [Ha1 Ha2].
  destruct (Publish_run rootA c size _ "" _ _ name version wA HL Hhook Hr HR
    (directory_serves base (wdisk wA) Hd rootA wA Hr eq_refl Ha1 Ha2) Hpb) as (m & wA' & Hp & Hpd).
  exists m, wA'. split; [done|]. intros sync honest ans evs Hevs.
  assert (syncable rootB e origin m (pieceOf rootA wA') dest wB) as Hs.
  { eapply published_syncable; [exact Hpd|apply Hpb|exact Hjoin|apply directory_ranges; [done..|apply Hapart|apply Hapart]|].
    split; try done; [by apply dirFiles_NoDup|]. intros s t. apply dirFiles_apart; [done|apply HR]. }
  assert (forall d, delivered m (pieceOf rootA wA') dest d -> copied d) as Hcopy.
  { intros d Hdel. exact (dirFiles_copied base (wdisk wA) dest d Hd (delivered_files _ _ _ _ _ _ Hpd dest d Hdel)). }
  destruct (sync_runs errText tracker jobID rootB e origin m _ dest ans evs wB Hs Hevs) as [Hnow (evs' & mt & w' & He & Hrun & Hdel)].
  split; [|exists evs', mt, w'; auto]. destruct Hnow as [?|(mt' & v & ? & ?)]; [by left|right; eauto].
Qed.

(** ** Two concrete nodes *)

#[local] Existing Instance demoCodec.
#[local] Existing Instance asciiFold.

(** The other node has the same disk: the directory and a store. *)
Definition joinWorld : world engState := World (wdisk treeWorld) [] [7%N] 0 (NewEngine demoEngineConfig).2.

#[local] Opaque treeWorld.

Lemma tree_joins :
  joins (NewPublisher demoStore 4) (dirFiles "/src" (wdisk treeWorld)) "/s" demoEngine
    (FsSource.asSource (FsSource.mkFs "/src" "") (fun _ => None)) joinWorld.
Proof.
  destruct treeWorld_run as (_ & HR & _).
  assert (forall b, b ∈ allPieces (NewPublisher demoStore 4) (dirFiles "/src" (wdisk treeWorld)) -> b = abc) as Hb.
  { intros b. unfold allPieces. rewrite treeWorld_pieces. apply list_elem_of_singleton. }
  split.
  - by apply storeAt_layout.
  - by apply noHook_silent.
  - reflexivity.
  - reflexivity.
  - discriminate.
  - reflexivity.
  - exact HR.
  - reflexivity.
  - intros path o n. apply extSame_ReadChunkTo.
  - intros b x _ _. cbn [wdisk joinWorld]. destruct (partialOf "/s" (wdisk treeWorld) x) as [b'|] eqn:E; [|apply prefix_nil].
    exfalso. apply treeWorld_content in E as [Hk _]. vm_compute in Hk. discriminate Hk.
  - intros b b' x _ Hc _. exfalso. exact (treeWorld_nochunk x b' Hc).
  - intros b b' ->%Hb Hp Hh. apply (gw_prefix _ _ demo_good); [done|]. rewrite Hh. apply demo_good.
Qed.

Lemma publish_then_sync_witness :
  exists m wA', Publish (fun _ => None) (NewPublisher demoStore 4)
      (FsSource.asSource (FsSource.mkFs "/src" "") (fun _ => None)) "" "demo" "1.0" treeWorld = (Ok m, wA')
    /\ exists evs mt w', Sync noText noTracker demoEngine (fun _ => None) "job" m "/out"
         (Some (FsSource.asSource (FsSource.mkFs "/src" "") (fun _ => None))) demoAnswer evs joinWorld = (Ok (Some mt), w')
       /\ contentAt (wdisk w') (key "/out" ++ ["dir"; "a.txt"]) = Some abc.
Proof.
  destruct treeWorld_run as (Hr & HR & _).
  destruct (publish_then_sync noText noTracker "job" "/s" demoStore 4 "/src" "demo" "1.0" treeWorld "/s" demoEngine "/src" "/out" joinWorld)
    as (m & wA' & Hp & Hsync).
  - by apply storeAt_layout.
  - by apply noHook_silent.
  - exact Hr.
  - exact HR.
  - exact treeWorld_publishable.
  - exact treeWorld_source.
  - intros cs data Hc. exact Hc.
  - split; intros [t Ht]; discriminate Ht.
  - exact tree_joins.
  - split; intros [t Ht]; discriminate Ht.
  - by vm_compute.
  - by vm_compute.
  - exact treeWorld_vacant.
  - exists m, wA'. split; [exact Hp|].
    destruct (Hsync demoAnswer [] (Forall_nil_2 _)) as [_ (evs & mt & w' & _ & Hrun & Hcopy)].
    exists evs, mt, w'. split; [exact Hrun|]. apply (Hcopy ["dir"; "a.txt"] abc). vm_compute. reflexivity.
Defined.
