(* ===== verification/Mesh.v ===== *)
(** * Servers as the peers of an engine

    What the download engine (pkg/engine/engine.go) relies on of its peers is
    what the upload server (pkg/peer/server.go) does over a chunk store
    (pkg/cache/cache.go), on a disk whose calls may fail and over a connection
    that may break at any message. *)

From S2P Require Import Prelude GoFloat Digest GoPath Json Manifest SafePath GoFs Chunker ChunkStore StoreRuns.
From S2P Require Import Materializer Verifier Quota Peer PeerLimits Config Advertise Source Publisher Topology.
From S2P Require Import Scheduler Engine EngineSafety EngineRuns EngineWorkers EngineLive EngineDemo.
Local Open Scope go_scope.

(** A read gives a prefix of what there is. *)
Lemma readRest_prefix {X} f (w : world X) rd w' :
  readRest f w = (Ok rd, w') -> exists n, rd.1 = take n (contents (wdisk w) f).1.
Proof.
  unfold readRest. destruct (contents (wdisk w) f) as [b e] eqn:E. cbn [fst].
  destruct (faults w) as [|[|er|n er] fs]; intros [= <- _]; cbn [fst].
  - exists (length b). by rewrite firstn_all.
  - exists (length b). by rewrite firstn_all.
  - by exists 0.
  - by exists n.
Qed.

Section server.
Context {D : Digest} {SS : SortSlice} {MC : ManifestCodec} {X : Type}.
Context (root : string) (srv : Server X) (HL : storeLayout root (Peer.cache srv)).

(** Whatever happens to the request, the messages are slices of a part of the
    chunk that begins at the offset. *)
Lemma GetChunk_slices w x o st acquired msgs status w' :
  hexName x -> requestOffset (mkGet ("sha256:" +:+ x) o) st = o ->
  (forall data, chunkOf root (wdisk w) x = Some data -> blen data < 2 ^ 63)%Z ->
  GetChunk srv acquired (mkGet ("sha256:" +:+ x) o) st w = (Ok (msgs, status), w') ->
  msgs = [] \/ exists data total n, chunkOf root (wdisk w) x = Some data /\ (0 <= o)%Z
    /\ slices total o (take n (drop (Z.to_nat o) data)) msgs.
Proof.
  intros Hx Ho Hlen Hrun. unfold GetChunk in Hrun. destruct acquired as [[]|er]; [|left; by injection Hrun].
  cbn [gChunkHash] in Hrun. rewrite bool_decide_eq_false_2 in Hrun by done.
  apply ioBind_inv in Hrun as (r & w1 & Hg & Hrun). apply attempt_inv in Hg.
  destruct r as [[f totalSize]|er]; [|left; by injection Hrun].
  destruct (GetChunkReader_opened _ root x f totalSize w w1 HL Hx Hg) as [Hw1 Hf]. rewrite Ho in Hrun.
  apply ioBind_inv in Hrun as (out & w2 & Hout & Hrun).
  apply ioBind_inv in Hrun as (u & w3 & _ & Hrun). injection Hrun as -> _.
  destruct (Z.ltb_spec o 0) as [|Hpos]; [left; by injection Hout|].
  destruct (totalSize <? o)%Z; [left; by injection Hout|].
  apply ioBind_inv in Hout as (f' & w4 & Hseek & Hout).
  destruct f' as [f'|er]; [|left; by injection Hout].
  assert (wdisk w4 = wdisk w /\ match f with HDir k => f' = HDir k | HFile i _ => f' = HFile i (Z.to_nat o) end) as [Hw4 Hf'].
  { destruct (Z.ltb_spec 0 o).
    - apply attempt_inv, syscall_inv in Hseek. destruct (Z.ltb_spec o 0); [lia|]. injection Hseek as <- E.
      rewrite <- E, Hw1. split; [done|]. by destruct f.
    - injection Hseek as <- <-. split; [done|]. destruct Hf as [[k ->]|(i & -> & _)]; [done|]. by replace o with 0%Z by lia. }
  apply ioBind_inv in Hout as (data & w5 & Hread & Hout). apply readRest_prefix in Hread as [n Hn]. injection Hout as Hout _.
  destruct Hf as [[k ->]|(i & -> & Hi)].
  { subst f'. simpl in Hn. rewrite take_nil in Hn. destruct data as [b er]. simpl in Hn, Hout. subst b. left. by injection Hout. }
  subst f'. cbn [contents fst] in Hn. rewrite Hw4 in Hn. right.
  exists (idata (getInode (wdisk w) i)), totalSize, n.
  assert (chunkOf root (wdisk w) x = Some (idata (getInode (wdisk w) i))) as Hc by (unfold chunkOf, contentAt; by rewrite Hi).
  split; [done|]. split; [done|]. specialize (Hlen _ Hc). destruct data as [b er]. cbn [fst] in Hn, Hout.
  destruct (decide (b = [])) as [->|Hne].
  { simpl in Hout. injection Hout as <- _. constructor. }
  assert (msgs = (sendLoop (S (length b)) st (bytesPerSec srv) totalSize 0 o (b, er)).1) as -> by (symmetry; exact (f_equal fst Hout)).
  rewrite <- Hn. apply sendLoop_slices; [lia|done|].
  assert (0 < length b) as Hb by (destruct b; [done|simpl; lia]).
  assert (length b <= length (idata (getInode (wdisk w) i)) - Z.to_nat o) as Hl
    by (rewrite Hn, length_take, length_drop; lia).
  unfold blen in *. lia.
Qed.

End server.

(** ** What an engine sees of servers *)

Section mesh.
Context {D : Digest} {SS : SortSlice} {MC : ManifestCodec}.
Context (items : list chunkWorkItem) (content : string -> bytes) (Hitems : Forall (goodWork content) items).

(** The call reaches a server of some node, whose store holds no foreign bytes
    under the names of the items.  The offset is in the metadata when it is not
    zero.  Some of the messages arrive, and then the stream ends somehow. *)
Definition fromServers (rpc : GetChunkRequest -> res (list ChunkDataChunk * option error)) : Prop :=
  forall h off part final, rpc (mkGet h off) = Ok (part, final) ->
  exists (X : Type) (root : string) (srv : Server X) (w : world X) acquired st msgs status w',
    storeLayout root (Peer.cache srv) /\ rightlyCached root items content (wdisk w)
    /\ (off = 0%Z -> sMetadata st = None)
    /\ GetChunk srv acquired (mkGet h off) st w = (Ok (msgs, status), w') /\ part `prefix_of` msgs.

Lemma server_delivers rpc work off cl :
  fromServers rpc -> work ∈ items ->
  (DownloadChunkTo bufWrite cl rpc (whash work) off []).2 `prefix_of` drop (Z.to_nat off) (dataOf content work).
Proof.
  intros Hrpc Hw. unfold DownloadChunkTo. destruct cl; [apply prefix_nil|].
  destruct (rpc (mkGet (whash work) off)) as [[part final]|er] eqn:E; [|apply prefix_nil].
  destruct (Hrpc _ _ _ _ E) as (X & root & srv & w & acquired & st & msgs & status & w' & HL & Hright & Hmeta & Hrun & Hpre).
  rewrite Forall_forall in Hitems. destruct (Hitems work Hw) as [[Hname Hhex] _ _ Hlt _]. rewrite Hname in Hrun.
  assert (forall data, chunkOf root (wdisk w) (nameOf work) = Some data -> data = dataOf content work) as Hdata
    by (intros data Hd; by eapply Hright).
  destruct (GetChunk_slices root srv HL w (nameOf work) off st acquired msgs status w' Hhex) as [->|(data & total & n & Hc & Ho & Hs)];
    [|by intros data ->%Hdata|exact Hrun| |].
  - unfold requestOffset. cbn [gOffset]. destruct (Z.eqb_spec off 0) as [Hz|]; [|done]. by rewrite Hmeta.
  - apply prefix_nil_inv in Hpre as ->. simpl. destruct final; apply prefix_nil.
  - apply Hdata in Hc as ->.
    destruct (recvLoop_prefix total off final part off (take n (drop (Z.to_nat off) (dataOf content work))) 0 0 [])
      as (r & k & Hrecv); [by eapply slices_prefix|done|done|].
    rewrite Hrecv. simpl. rewrite take_take. apply prefix_take.
Qed.

(** C6. The upload server is the peer that the engine relies on.  When a call
    reaches a server over a store that holds no foreign bytes under the names of
    the wanted chunks, then whatever fails at that server (its disk, its limits,
    its sends) and wherever the stream breaks, what the client delivers is a
    prefix of the bytes of the chunk from the offset on. *)
Theorem server_honest (inp : input) (Hctx : iCtx inp = None) (Hrpc : fromServers (iRpc inp)) :
  honestInput items content inp.
Proof. split; [done|]. intros work off cl Hw. by apply server_delivers. Qed.

End mesh.

(** ** A node that asks a server *)

#[local] Existing Instance demoCodec.

(** The server of [abcWorld], whose disk fails during the read. *)
Definition flakyWorld : world unit := setFaults [NoFault; NoFault; NoFault; Short 1 EIO] abcWorld.

Definition fromDemo (req : GetChunkRequest) : res (list ChunkDataChunk * option error) :=
  match (GetChunk demoServer (Ok tt) req demoStream flakyWorld).1 with Ok out => Ok out | Err e => Err e end.

Definition askDemo : input := mkInput None true (Ok 1) fromDemo true.

Lemma abcWorld_chunks x b : chunkOf "/s" (wdisk abcWorld) x = Some b -> b = abc.
Proof.
  intros Hc. unfold chunkOf, contentAt in Hc.
  destruct (nodeAt (wdisk abcWorld) (chunkKey "/s" x)) as [[|i]|] eqn:E; [discriminate Hc| |discriminate Hc].
  assert (allEntries (fun _ n => match n with DirN => true | FileN i => bool_decide (i = 2%positive) end)
    (wdisk abcWorld) = true) as Hall by (vm_compute; reflexivity).
  assert (chunkKey "/s" x <> []) as Hk by (vm_compute; discriminate).
  pose proof (allEntries_sound _ _ _ _ Hall Hk E) as Hb. apply bool_decide_eq_true in Hb. subst i.
  assert (idata (getInode (wdisk abcWorld) 2) = abc) as Ha by (vm_compute; reflexivity). rewrite Ha in Hc. injection Hc as <-. reflexivity.
Qed.

Lemma wdisk_setFaults {X} fs (w : world X) : wdisk (setFaults fs w) = wdisk w.
Proof. reflexivity. Qed.

Lemma askDemo_servers : fromServers [demoItem] (fun _ => abc) (iRpc askDemo).
Proof.
  intros h off part final Hrpc. unfold askDemo, fromDemo in Hrpc. cbn [iRpc] in Hrpc.
  destruct (GetChunk demoServer (Ok tt) (mkGet h off) demoStream flakyWorld) as [[out|e] w'] eqn:E; [|discriminate Hrpc].
  cbn [fst] in Hrpc. injection Hrpc as ->.
  exists unit, "/s", demoServer, flakyWorld, (Ok tt), demoStream, part, final, w'.
  split; [by apply storeAt_layout|]. split; [|split; [reflexivity|split; [exact E|reflexivity]]].
  intros work b _ Hc. unfold flakyWorld in Hc. rewrite wdisk_setFaults in Hc. exact (abcWorld_chunks _ b Hc).
Qed.

Lemma server_honest_witness :
  honestInput [demoItem] (fun _ => abc) askDemo
  /\ DownloadChunkTo bufWrite None (iRpc askDemo) abcHash 1 [] = ((1%Z, Some (EWrap "error reading chunk stream"
       (EStatus CInternal "error reading chunk file"))), take 1 (drop 1 abc)).
Proof.
  split.
  - apply (server_honest [demoItem] (fun _ => abc) (Forall_cons_2 _ _ _ demo_good (Forall_nil_2 _)) askDemo).
    + reflexivity.
    + exact askDemo_servers.
  - vm_compute. reflexivity.
Defined.
