(* ===== verification/Daemon.v ===== *)
(** * The daemon (cmd/spiderd/main.go)

    What [spiderd] does around the engine: accepting a sync request and
    choosing its origin, the work after a successful sync, the status report,
    the chunk cache at startup, the heartbeat and the readiness probe.  The
    goroutine that a request starts is returned as the arguments of [Sync].
    The flags, the wiring and the goroutines are in DaemonMain.  The properties
    are about the chunks of pinned artifacts, under everything that the daemon
    does to the disk and the index ([daemonStep]). *)

From S2P Require Import Prelude GoFloat Digest GoPath Json Manifest GoFs Chunker ChunkStore StoreRuns Materializer Quota.
From S2P Require Import Retain Source Peer Config Engine.
Local Open Scope go_scope.

Module Daemon.

Section daemon.
Context {D : Digest} {SS : SortSlice} {MC : ManifestCodec} {IC : IndexCodec} {PU : ParseURI}.
Context {X : Type} {HQ : HasQuota X}.

Record daemonSyncHandler := mkHandler {
  nodeID : string;
  cache : ChunkStore X;
  mgr : option (QuotaManager X);
  pinned : gset string;
  s3 : S3.S3Config
}.
Implicit Types h : daemonSyncHandler.

(** ** Requests *)

(** The S3 client, the context of a request and the number of pages that a
    listing has at most. *)
Context (connect : S3.S3Config -> res (S3.client X)) (ctx : string -> option error) (pages : nat).

(** The origin of a request; without one only peers are asked. *)
Definition chooseOrigin h (originURI : string) : IO X (option (Src.Source X)) :=
  if negb (bool_decide (originURI = "")) then
    do r <- attempt (ParseSourceURI connect ctx pages originURI (S3.Endpoint (s3 h)) (S3.Region (s3 h))
                       (S3.AccessKey (s3 h)) (S3.SecretKey (s3 h)));
    ioRet match r with Ok (src, _) => Some src | Err _ => None end
  else if negb (bool_decide (S3.Bucket (s3 h) = "")) then
    ioRet match S3.NewS3Source connect (s3 h) with Ok s => Some (S3.asSource pages s) | Err _ => None end
  else ioRet None.

(** The job id, and what the goroutine calls [Sync] with. *)
Definition HandleSync h (manifestJSON : bytes) (destPath originURI : string)
    : IO X (string * (ArtifactManifest * string * option (Src.Source X))) :=
  do manifest <- wrapErr "invalid manifest JSON" (liftRes (ParseManifest manifestJSON));
  do t <- getNow;
  do origin <- chooseOrigin h originURI;
  ioRet ("job-" +:+ pretty t, (manifest, destPath, origin)).

Definition afterSuccessfulSync h (manifest : ArtifactManifest) : IO X unit :=
  match mgr h with
  | None => ioRet tt
  | Some m =>
      do_ (if bool_decide (ArtifactID manifest ∈ pinned h) then ignore (Pin m manifest) else ioRet tt);
      ignore (MaybeEvict m)
  end.

(** ** Status *)

Definition jobStatus (j : SyncJob) : SyncJobStatus :=
  mkJobStatus (JobID j) (jArtifactID j) (Status j) (TotalChunks j) (DownloadedChunks j) (PeerChunks j) (OriginChunks j)
    (ErrorMessage j) (SkippedChunks j) (PeerBytes j) (OriginBytes j).

(** [jobs] are the engine's [AllJobs]; an incomplete listing is reported as far
    as it came. *)
Definition GetStatus h (jobs : list SyncJob) (jobID : string) : IO X GetNodeStatusResponse :=
  do (chunks, _) <- ListChunks (cache h);
  do (totalBytes, _) <- TotalCachedBytes (cache h);
  ioRet (mkNodeStatus (nodeID h) (Z.of_nat (length chunks)) totalBytes
           (map jobStatus (List.filter (fun j => bool_decide (jobID = "") || bool_decide (JobID j = jobID)) jobs))).

(** What the peer server calls; the goroutine runs on its own. *)
Definition asHandler h (jobs : list SyncJob) : SyncHandler X :=
  Peer.mkHandler X
    (fun manifestJSON destPath _ originURI => do r <- HandleSync h (toBytes manifestJSON) destPath originURI; ioRet r.1)
    (GetStatus h jobs).

(** ** The process *)

(** The artifacts of the configuration whose manifests are there are pinned. *)
Fixpoint reconcilePins (c : ChunkStore X) (m : QuotaManager X) (ids : list string) : IO X unit :=
  match ids with
  | [] => ioRet tt
  | id :: ids' =>
      do mf <- attempt (GetManifest c id);
      do_ match mf with Ok manifest => ignore (Pin m manifest) | Err _ => ioRet tt end;
      reconcilePins c m ids'
  end.

(** The chunk cache, its manager, and the pins. *)
Definition openCache (cfg : ChunkCacheConfig) : IO X (ChunkStore X * QuotaManager X * gset string) :=
  do c <- NewChunkStore (ccDir cfg);
  do m <- NewQuotaManager c (ccMaxBytes cfg) (ccLowWatermark cfg) (ccHighWatermark cfg);
  let c := SetOnCommit c Touch in
  do_ reconcilePins c m (ccPinned cfg);
  ioRet (c, m, list_to_set (ccPinned cfg)).

(** One tick of the heartbeat loop, after the tracker was called. *)
Definition onHeartbeat (m : QuotaManager X) : IO X unit := ignore (MaybeEvict m).

(** The readiness probe: the cache directory can be written. *)
Definition ready (dir : string) : IO X unit :=
  do_ MkdirAll dir;
  do (name, f) <- CreateTemp dir ".ready-";
  do_ ignore (Close f);
  Remove name.

End daemon.

End Daemon.

(** * Properties *)

Section pins.
Context {D : Digest} {SS : SortSlice} {MC : ManifestCodec} {IC : IndexCodec}.
Context {X : Type} {HQ : HasQuota X}.
Implicit Types (w : world X) (m : QuotaManager X).

Lemma pinEach_entries m hs : forall w h,
  is_Some (iChunks (cur (pinEach m hs w).2) !! h) -> is_Some (iChunks (cur w) !! h) \/ h ∈ hs.
Proof.
  induction hs as [|h0 hs IH]; intros w h; cbn [pinEach]; [by left|].
  rewrite (ioBind_ok _ _ _ _ _ (getIdx_run w)). cbv zeta.
  match goal with |- context [fillSizeLocked m h0 ?x] => destruct (fillSizeLocked_run m h0 x w) as (meta & w1 & H1 & _ & _) end.
  rewrite (ioBind_ok _ _ _ _ _ H1), (ioBind_ok _ _ _ _ _ (putIdx_run _ w1)). intros [Hin|Hin]%IH; [|right; by right].
  rewrite putIdx_cur in Hin. simpl in Hin. destruct (decide (h0 = h)) as [-> | Hne]; [right; by left|].
  left. by rewrite lookup_insert_ne in Hin.
Qed.

(** What [Pin] does to the index, whether it can be saved or not. *)
Lemma Pin_cur m manifest w :
  iPins (cur (Pin m manifest w).2)
    = (if bool_decide (is_Some (iPins (cur w) !! ArtifactID manifest)) then iPins (cur w)
       else <[ArtifactID manifest := AllChunkHashes manifest]> (iPins (cur w)))
  /\ forall h, is_Some (iChunks (cur (Pin m manifest w).2) !! h) ->
       is_Some (iChunks (cur w) !! h) \/ h ∈ AllChunkHashes manifest.
Proof.
  unfold Pin. rewrite (ioBind_ok _ _ _ _ _ (getIdx_run w)). case_bool_decide as Hp; [rewrite save_cur; auto|]. cbv zeta.
  rewrite (ioBind_ok _ _ _ _ _ (putIdx_run _ w)).
  match goal with |- context [putIdx ?i w] =>
    pose proof (pinEach_entries m (AllChunkHashes manifest) (putIdx i w).2) as He;
    destruct (pinEach_run m (AllChunkHashes manifest) (putIdx i w).2) as (w' & Hrun & Hpins & _) end.
  rewrite (ioBind_ok _ _ _ _ _ Hrun), save_cur. rewrite Hrun in He. rewrite putIdx_cur in Hpins, He. by split.
Qed.

Context (root : string).

(** ** A pinned artifact survives *)

Definition goodNames (manifest : ArtifactManifest) : Prop := forall h, h ∈ AllChunkHashes manifest -> wellNamed h.

(** The store as the syncs use it: a commit touches the index. *)
Definition served m : ChunkStore X := SetOnCommit (qcache m) Touch.

(** What the running syncs and the readiness probe do with the disk: downloads
    append to partials, commit and discard them, manifests are saved, and the
    artifact is copied to a directory apart from the store, with the options
    that the daemon gives its engine. *)
Inductive syncWork m : world X -> world X -> Prop :=
| work_append hash r w : wellNamed hash -> syncWork m w (AppendPartial (served m) hash r w).2
| work_commit hash w : wellNamed hash -> syncWork m w (CommitPartial (served m) hash w).2
| work_discard hash w : wellNamed hash -> syncWork m w (DiscardPartial (served m) hash w).2
| work_save manifest w : syncWork m w (SaveManifest (served m) manifest w).2
| work_materialize ctx manifest dest w :
    ~ key root `prefix_of` key dest -> ~ key dest `prefix_of` key root ->
    syncWork m w (Materialize ctx DefaultOptions manifest (served m) dest w).2
| work_probe w : syncWork m w (Daemon.ready root w).2.

(** What the daemon does while it runs: heartbeats, the end of syncs, what they
    do before, the background flush, and time that passes. *)
Inductive daemonStep m : world X -> world X -> Prop :=
| step_heartbeat w : daemonStep m w (Daemon.onHeartbeat m w).2
| step_synced h manifest w : Daemon.mgr h = Some m -> goodNames manifest ->
    daemonStep m w (Daemon.afterSuccessfulSync h manifest w).2
| step_work w w' : syncWork m w w' -> daemonStep m w w'
| step_flush w : daemonStep m w (Flush m w).2
| step_time w w' : wdisk w' = wdisk w -> ext w' = ext w -> daemonStep m w w'.

(** The index is consistent and [id] is pinned with the chunks [l]. *)
Record pinnedIn (id : string) (l : list string) (i : indexFile) : Prop := {
  pi_inv : quotaInv i;
  pi_names : forall h, is_Some (iChunks i !! h) -> wellNamed h;
  pi_pin : iPins i !! id = Some l
}.

(** The chunk [x] of the pinned artifact is there. *)
Record safe m (id : string) (l : list string) (x : string) w : Prop := {
  safe_index : pinnedIn id l (cur w);
  safe_file : kept root x (wdisk w)
}.

Lemma keeps_kept_ready x : root <> "" -> keeps (X:=X) (kept root x) (Daemon.ready root).
Proof.
  intros Hr. unfold Daemon.ready. apply keeps_bind; [apply keeps_kept_MkdirAll|]. intros _.
  eapply hoare_bind; [apply hoare_CreateTemp_kept| |done].
  { intros n. rewrite key_Join_names; [by apply foreign_below|done|]. constructor; [|constructor].
    apply isName_long; [by rewrite noSlash_app, noSlash_pretty|]. rewrite str_length_app. simpl. lia. }
  intros [name f]. apply hoare_pull. intros Hn. apply hoare_kept.
  apply keeps_bind; [auto with go|]. intros _. apply keeps_kept_Remove. intros E. apply (proj1 Hn). rewrite E.
  apply chunkKey_under.
Qed.

Section survival.
Context (m : QuotaManager X) (HL : storeLayout root (qcache m)) (Hq : qpath m = Join [root; "index.json"]).
Context (id : string) (l : list string) (x : string) (Hx : "sha256:" +:+ x ∈ l).

Lemma safe_evict w : safe m id l x w -> safe m id l x (ignore (MaybeEvict m) w).2.
Proof.
  intros [[Hi Hn Hp] Hf]. rewrite ignore_eq. cbn [snd]. destruct (MaybeEvict_cur m w) as [Hpins Hc]. split; [split|].
  - by apply MaybeEvict_inv.
  - intros h Hh. destruct (Hc h) as [E|[_ E]]; rewrite E in Hh; [by apply Hn|by destruct Hh].
  - by rewrite Hpins.
  - by apply (kept_MaybeEvict root m HL Hq x id l).
Qed.

Lemma safe_Pin manifest w : goodNames manifest -> safe m id l x w -> safe m id l x (ignore (Pin m manifest) w).2.
Proof.
  intros Hg [[Hi Hn Hp] Hf]. rewrite ignore_eq. cbn [snd]. destruct (Pin_cur m manifest w) as [Hpins Hc]. split; [split|].
  - by apply Pin_inv.
  - intros h Hh. destruct (Hc h Hh); auto.
  - rewrite Hpins. case_bool_decide as E; [done|]. rewrite lookup_insert_ne; [done|]. intros E2. apply E. by rewrite E2, Hp.
  - by apply (keeps_kept_Pin root m HL Hq).
Qed.

Lemma safe_same w w' : cur w' = cur w -> kept root x (wdisk w') -> safe m id l x w -> safe m id l x w'.
Proof. intros E Hf [Hi _]. split; rewrite ?E; done. Qed.

Lemma safe_synced h manifest w :
  Daemon.mgr h = Some m -> goodNames manifest -> safe m id l x w ->
  safe m id l x (Daemon.afterSuccessfulSync h manifest w).2.
Proof.
  intros Hm Hg Hs. unfold Daemon.afterSuccessfulSync. rewrite Hm. case_bool_decide.
  - rewrite (ioBind_ok _ _ _ _ _ (ignore_eq _ _)). apply safe_evict. pose proof (safe_Pin manifest w Hg Hs) as H1.
    by rewrite ignore_eq in H1.
  - rewrite (ioBind_ok _ _ w tt w) by done. by apply safe_evict.
Qed.

Lemma pinnedIn_Touch hash size w :
  wellNamed hash -> pinnedIn id l (cur w) -> pinnedIn id l (cur (Touch hash size w).2).
Proof.
  intros Hh [Hi Hn Hp]. split; [by apply Touch_inv| |]; unfold Touch;
    rewrite (ioBind_ok _ _ _ _ _ (getIdx_run w)); cbv zeta;
    rewrite (ioBind_ok _ _ w (now w / 1000000000)%Z w) by done;
    rewrite (ioBind_ok _ _ _ _ _ (putIdx_run _ w)), putDirty_cur, putIdx_cur; [|done].
  intros h. simpl. destruct (decide (hash = h)) as [-> | Hne]; [done|]. rewrite lookup_insert_ne by done. apply Hn.
Qed.

(** The index while a chunk is committed. *)
Lemma pinnedIn_CommitPartial hash w :
  wellNamed hash -> pinnedIn id l (cur w) -> pinnedIn id l (cur (CommitPartial (served m) hash w).2).
Proof.
  intros Hh. apply (CommitPartial_ext _ (fun s => pinnedIn id l (idx (getQ s)))). intros fn z w1 [= <-]. by apply pinnedIn_Touch.
Qed.

Lemma diskless_Touch fn : onCommit (served m) = Some fn -> diskless fn.
Proof. intros [= <-] h z w. reflexivity. Qed.

Lemma safe_work w w' : syncWork m w w' -> safe m id l x w -> safe m id l x w'.
Proof.
  pose proof (SetOnCommit_layout root (qcache m) Touch HL) as HL'. pose proof diskless_Touch as Hd.
  intros [hash r w0 Hh|hash w0 Hh|hash w0 Hh|manifest w0|ctx manifest dest w0 H1 H2|w0] Hs; pose proof Hs as [Hi Hf].
  - apply (safe_same w0); [apply extSame_cur, extSame_AppendPartial|by apply (keeps_kept_AppendPartial root)|done].
  - split; [by apply pinnedIn_CommitPartial|by apply (keeps_kept_CommitPartial root)].
  - apply (safe_same w0); [apply extSame_cur, extSame_DiscardPartial|by apply (keeps_kept_DiscardPartial root)|done].
  - apply (safe_same w0); [apply extSame_cur, extSame_SaveManifest|by apply (keeps_kept_SaveManifest root)|done].
  - apply (safe_same w0); [by apply extSame_cur, extSame_Materialize|by apply (keeps_kept_Materialize root)|done].
  - apply (safe_same w0); [|by apply keeps_kept_ready; [apply HL|]|done].
    apply extSame_cur. unfold Daemon.ready. apply extSame_bind; [auto with go|]. intros _.
    apply extSame_bind; [auto with go|]. intros [name f]. apply extSame_bind; auto with go.
Qed.

Lemma safe_step w w' : daemonStep m w w' -> safe m id l x w -> safe m id l x w'.
Proof.
  intros [w0|h manifest w0 Hm Hg|w0 w1 Hw|w0|w0 w1 Hd He] Hs.
  - by apply safe_evict.
  - by apply safe_synced.
  - by apply (safe_work w0).
  - unfold Flush. rewrite (ioBind_ok _ _ w0 (ext w0) w0) by done. destruct (negb _); [done|].
    apply (safe_same w0); [apply save_cur|by apply (keeps_kept_save root m HL Hq), Hs|done].
  - apply (safe_same w0); [unfold cur; by rewrite He|rewrite Hd; by apply Hs|done].
Qed.

Lemma safe_steps w w' : rtc (daemonStep m) w w' -> safe m id l x w -> safe m id l x w'.
Proof. induction 1 as [|w1 w2 w3 Hs _ IH]; [done|]. intros H1. by apply IH, (safe_step w1). Qed.

End survival.

(** C13. When a sync of an artifact that the configuration pins has succeeded,
    each of its chunks that is in the store then stays there, with bytes of its
    hash, through everything that the daemon does afterwards: evictions of the
    heartbeat and of other syncs, appends to partials, commits, discards,
    manifests, copies of artifacts to directories apart from the store,
    readiness probes and flushes of the index, whatever system calls fail.
    This is for a store whose chunks have no hard links outside it, a
    consistent index, hashes with hexadecimal digits in the index, in the
    manifests and in the downloads, and an artifact that was not pinned
    before, or pinned with the same chunks. *)
Theorem pinned_survives m h manifest w w' x :
  storeLayout root (qcache m) -> qpath m = Join [root; "index.json"] -> Daemon.mgr h = Some m ->
  ArtifactID manifest ∈ Daemon.pinned h -> goodNames manifest -> "sha256:" +:+ x ∈ AllChunkHashes manifest ->
  quotaInv (cur w) -> (forall h, is_Some (iChunks (cur w) !! h) -> wellNamed h) ->
  iPins (cur w) !! ArtifactID manifest ∈ [None; Some (AllChunkHashes manifest)] ->
  kept root x (wdisk w) ->
  rtc (daemonStep m) (Daemon.afterSuccessfulSync h manifest w).2 w' ->
  exists data, chunkOf root (wdisk w') x = Some data /\ ComputeHash data = "sha256:" +:+ x.
Proof.
  intros HL Hq Hm Hid Hg Hx Hi Hn Hp Hk Hsteps. set (l := AllChunkHashes manifest).
  apply kept_chunk. cut (safe m (ArtifactID manifest) l x w'); [by intros [_ ?]|].
  apply (safe_steps m HL Hq _ l x Hx _ _ Hsteps). unfold Daemon.afterSuccessfulSync. rewrite Hm, bool_decide_eq_true_2 by done.
  rewrite (ioBind_ok _ _ _ _ _ (ignore_eq _ _)). apply safe_evict; [done..|].
  destruct (Pin_cur m manifest w) as [Hpins Hc]. split; [split|].
  - by apply Pin_inv.
  - intros h' Hh. destruct (Hc h' Hh); auto.
  - rewrite Hpins. case_bool_decide as E; [|apply lookup_insert_eq].
    apply elem_of_cons in Hp as [Hp|Hp%list_elem_of_singleton]; [|done]. rewrite Hp in E. by destruct E.
  - by apply (keeps_kept_Pin root m HL Hq).
Qed.

End pins.

(** ** A concrete daemon *)

Definition pinnedManifest : ArtifactManifest :=
  mkManifest 1 "artifact" "demo" "1.0" 3 3 (Slice [mkFileEntry "a" 3 "0644" (Slice [mkChunkRef abcHash 0 3])]).

Definition demoHandler : Daemon.daemonSyncHandler (X:=qstate) :=
  Daemon.mkHandler "n1" (storeAt "/s") (Some demoQuota) {["artifact"]} (S3.mkS3Config "" "" "" "" "" false).

Lemma pinnedManifest_chunks : AllChunkHashes pinnedManifest = [abcHash].
Proof. vm_compute. reflexivity. Qed.

Lemma unpinnedIndex_inv : quotaInv unpinnedIndex.
Proof.
  split; [intros id l; simpl; by rewrite lookup_empty|]. intros h. unfold pinCount. simpl. rewrite map_filter_empty, map_size_empty.
  unfold rc, lookupMeta. simpl. destruct (decide (h = abcHash)) as [-> | Hne].
  - by rewrite lookup_singleton_eq.
  - by rewrite lookup_singleton_ne.
Qed.

(** The chunk is in the store and in the index. *)
Definition storedWorld : world qstate := World (wdisk abcWorld) [] [] 0 (mkQ unpinnedIndex false).

Lemma cur_storedWorld : cur storedWorld = unpinnedIndex.
Proof. reflexivity. Qed.

Lemma storedWorld_files :
  allEntries (fun k n => match n with DirN => true | FileN _ => bool_decide (k = chunkKey "/s" (strDrop 7 abcHash)) end)
    (wdisk storedWorld) = true.
Proof. vm_compute. reflexivity. Qed.

Lemma storedWorld_file k i : nodeAt (wdisk storedWorld) k = Some (FileN i) -> k = chunkKey "/s" (strDrop 7 abcHash).
Proof.
  intros Hk. pose proof (allEntries_sound _ _ _ _ storedWorld_files (nodeAt_file_nonroot _ _ _ Hk) Hk) as Hb.
  by apply bool_decide_eq_true in Hb.
Qed.

Lemma demoStore_hookless (fn : string -> Z -> IO unit unit) : onCommit demoStore = Some fn -> diskless fn.
Proof. intros H. discriminate H. Qed.

Lemma storedWorld_inv : CacheInv "/s" (wdisk storedWorld).
Proof.
  unfold storedWorld. cbn [wdisk]. unfold abcWorld, PutChunk.
  exact (keeps_PutChunkFromReader "/s" demoStore (storeAt_layout "/s" ltac:(discriminate)) demoStore_hookless abcHash
    (abc, None) (goodHash_wellNamed _ abcHash_good) readyWorld (ready_inv _ _ readyWorld_ready)).
Qed.

Lemma storedWorld_kept : kept "/s" (strDrop 7 abcHash) (wdisk storedWorld).
Proof.
  split; [split; [exact storedWorld_inv|]|vm_compute; reflexivity].
  intros k k' i _ H1%storedWorld_file H2%storedWorld_file. exact (eq_trans H2 (eq_sym H1)).
Qed.

(** The sync has pinned the artifact.  Another download of its chunk writes
    garbage, a commit finds it, the artifact is copied to a directory, and the
    next heartbeat looks for something to evict. *)
Lemma pinned_survives_witness :
  let w0 := (Daemon.afterSuccessfulSync (IC:=noIndexCodec) demoHandler pinnedManifest storedWorld).2 in
  let w1 := (AppendPartial (served demoQuota) abcHash (abc ++ abc, None) w0).2 in
  let w2 := (CommitPartial (served demoQuota) abcHash w1).2 in
  let w3 := (Materialize (fun _ => None) DefaultOptions pinnedManifest (served demoQuota) "/out" w2).2 in
  exists data, chunkOf "/s" (wdisk (Daemon.onHeartbeat (IC:=noIndexCodec) demoQuota w3).2) (strDrop 7 abcHash) = Some data
    /\ ComputeHash data = "sha256:" +:+ strDrop 7 abcHash.
Proof.
  intros w0 w1 w2 w3. assert (wellNamed abcHash) as Hn by apply goodHash_wellNamed, abcHash_good.
  apply (pinned_survives (IC:=noIndexCodec) (MC:=demoCodec) "/s" demoQuota demoHandler pinnedManifest storedWorld _ (strDrop 7 abcHash)).
  - by apply storeAt_layout.
  - reflexivity.
  - reflexivity.
  - by apply elem_of_singleton.
  - intros h. rewrite pinnedManifest_chunks. by intros ->%list_elem_of_singleton.
  - rewrite pinnedManifest_chunks. apply list_elem_of_singleton. reflexivity.
  - rewrite cur_storedWorld. exact unpinnedIndex_inv.
  - rewrite cur_storedWorld. intros h [meta Hm].
    change (({[ abcHash := mkMeta abcHash 3 0 0 ]} : gmap string chunkMeta) !! h = Some meta) in Hm.
    by apply lookup_singleton_Some in Hm as [<- _].
  - rewrite cur_storedWorld. left.
  - exact storedWorld_kept.
  - apply (rtc_l _ _ w1); [by apply step_work, work_append|]. apply (rtc_l _ _ w2); [by apply step_work, work_commit|].
    apply (rtc_l _ _ w3); [|apply rtc_once, step_heartbeat].
    apply step_work, work_materialize; intros [t Ht]; discriminate Ht.
Defined.
