(* ===== verification/DaemonMain.v ===== *)
(** * The daemon process (cmd/spiderd/main.go, main)

    The flags and the environment, what the flags and the configuration give to
    each part of the daemon, and the life of the process: the goroutine that
    registers with the tracker and sends heartbeats, the loops of the advertiser
    and of the index, the goroutine that shuts everything down, and the server
    that [main] waits for.  They run in any order; a call to the tracker is
    noted when its connection is open.  Log lines and gauges are left out. *)

From S2P Require Import Prelude GoFloat Digest GoPath Json Manifest GoFs Chunker ChunkStore StoreRuns Materializer Quota.
From S2P Require Import Retain IndexFile Source Peer PeerLimits Config Advertise Topology Scheduler Engine EngineSafety NetUtil Daemon.
Local Open Scope go_scope.

Module Main.

(** ** Flags *)

(** [os.Getenv], [os.Hostname] and the time at the start. *)
Record environment := mkEnv { Getenv : environ; osHostname : string; startTime : Z }.

Definition getEnvOrDefault (env : environment) (key defVal : string) : string := nonemptyOr defVal (Getenv env key).

Definition hostname (env : environment) : string :=
  nonemptyOr ("node-" +:+ pretty (startTime env / 1000000000)%Z) (osHostname env).

(** The flags that the command line gives. *)
Record arguments := mkArgs { given : string -> option string; givenPort : option Z }.

Record flags := mkFlags {
  configPath : string; nodeID : string; port : Z; httpAddr : string; advertiseAddr : string; trackerAddr : string;
  cacheDir : string; region : string; zone : string; rack : string; host : string; logFormat : string;
  s3Cfg : S3.S3Config
}.

Definition parseFlags (env : environment) (args : arguments) : flags :=
  let str name defVal := default defVal (given args name) in
  let get := getEnvOrDefault env in
  mkFlags (str "config" "") (str "node-id" (get "NODE_ID" (hostname env))) (default 50052%Z (givenPort args))
    (str "http-addr" "") (str "advertise-addr" (get "ADVERTISE_ADDR" "")) (str "tracker" (get "TRACKER_ADDR" "127.0.0.1:50051"))
    (str "cache-dir" (get "CACHE_DIR" DefaultDataDir)) (str "region" (get "REGION" "us-east-1")) (str "zone" (get "ZONE" "zone-a"))
    (str "rack" (get "RACK" "rack-1")) (str "host" (get "HOST" (hostname env))) (str "log-format" "")
    (S3.mkS3Config (str "s3-bucket" (get "S3_BUCKET" "")) (str "s3-endpoint" (get "MINIO_ENDPOINT" (get "S3_ENDPOINT" "")))
       (str "s3-region" (get "AWS_REGION" "us-east-1"))
       (str "s3-access-key" (get "MINIO_ROOT_USER" (get "AWS_ACCESS_KEY_ID" "minioadmin")))
       (str "s3-secret-key" (get "MINIO_ROOT_PASSWORD" (get "AWS_SECRET_ACCESS_KEY" "minioadmin"))) true).

(** ** Wiring *)

(** The flags over the configuration. *)
Definition overlay (f : flags) (c : Config) : Config :=
  let cc := ChunkCache c in
  mkConfig
    (if negb (bool_decide (httpAddr f = "")) then httpAddr f else nonemptyOr (HTTPAddr c) (nHTTPAddr (Node c)))
    (nonemptyOr (LogFormat c) (logFormat f)) (cStore c) (MetaCache c) (Config.Cache c)
    (mkChunkCache (nonemptyOr (ccDir cc) (cacheDir f)) (ccMaxBytes cc) (ccLowWatermark cc) (ccHighWatermark cc) (ccPinned cc))
    (DiskCache c) (Node c) (Config.Advertisement c) (Config.PeerDiscovery c) (Download c) (Origin c) (Upload c) (PeerClient c)
    (Config.Retry c).

(** A connection to the tracker; [grpc.Dial] may refuse the address. *)
Definition dialTracker (dial : string -> option error) (f : flags) : bool :=
  negb (bool_decide (trackerAddr f = "")) && match dial (trackerAddr f) with None => true | Some _ => false end.

Definition advAddress (f : flags) : string := nonemptyOr (nodeID f +:+ ":" +:+ pretty (port f)) (advertiseAddr f).

Definition locality (f : flags) : Locality := mkLocality (region f) (zone f) (rack f) (host f).

(** The peer that is registered. *)
Definition self (f : flags) : PeerInfo := mkPeerInfo (nodeID f) (advAddress f) (region f) (zone f) (rack f) (host f) 0.

Definition poolOf (c : Config) : Pool.ClientPool :=
  Pool.NewClientPoolWithConfig (Pool.mkConfig (pcMaxConnections (PeerClient c)) (pcIdleTimeout (PeerClient c))).

Definition engineConfig (f : flags) (c : Config) (store : ChunkStore engState) (tracker : bool) : EngineConfig :=
  mkEngineConfig (nodeID f) (locality f) store tracker (Some (poolOf c)) (Some (NewMaterializer DefaultOptions))
    (Some (Scheduler.New (dMaxConcurrencyPerPeer (Download c)))) (dMaxConcurrency (Download c))
    (dMaxConcurrencyPerPeer (Download c)) (oMaxConcurrency (Origin c)) (Config.Advertisement c) (Config.PeerDiscovery c)
    (Config.Retry c).

Definition uploadLimits (c : Config) : UploadLimits :=
  mkLimits (uMaxConcurrency (Upload c)) (uMaxQueueSize (Upload c)) (uMaxBandwidthMbps (Upload c)).

(** Without a connection there is nothing to advertise to. *)
Definition advertiserOf (tracker : bool) (c : Config) : option Advertise.Advertiser :=
  if tracker then Some (Advertise.New true (Config.Advertisement c)) else None.

(** All that the parts of the daemon are made from. *)
Record wiring := mkWiring {
  wCache : ChunkCacheConfig; wHTTP : string; wLog : string; wEngine : ChunkStore engState -> bool -> EngineConfig;
  wUpload : UploadLimits; wAdvertiser : bool -> option Advertise.Advertiser; wSelf : PeerInfo; wS3 : S3.S3Config; wPort : Z
}.

Definition wire (f : flags) (c : Config) : wiring :=
  let c := overlay f c in
  mkWiring (ChunkCache c) (HTTPAddr c) (LogFormat c) (engineConfig f c) (uploadLimits c) (fun tracker => advertiserOf tracker c)
    (self f) (s3Cfg f) (port f).

Section process.
Context {D : Digest} {SS : SortSlice} {MC : ManifestCodec} {IC : IndexCodec} {YC : YamlCodec}.
Context {X : Type} {HQ : HasQuota X}.

(** Before anything runs; an error of it ends the process with status 1. *)
Definition boot (env : environment) (f : flags) : IO X (wiring * (ChunkStore X * QuotaManager X * gset string)) :=
  do c <- LoadFile (Getenv env) (configPath f);
  let wi := wire f c in
  do parts <- Daemon.openCache (wCache wi);
  ioRet (wi, parts).

(** ** The running process *)

Inductive call := RegisterPeerCall (p : PeerInfo) | HeartbeatCall (node : string) | DeregisterPeerCall (node : string).

(** Where the goroutine of the registration is. *)
Inductive regPhase := RegAbsent | RegStart | RegReconcile | RegLoop | RegDone.

(** Where the goroutine of the shutdown is: before each of its calls. *)
Inductive downPhase := DownWait | DownAdvertiser | DownIndex | DownHTTP | DownServer | DownPool | DownConn | DownExit.

Inductive servePhase := Starting | Serving | Stopped.

(** [flushing]: the background loop of the index runs, [indexClosed]: it has been
    told to end.  [sent] are the calls
    that went to the tracker. *)
Record process := mkProcess {
  pw : world X;
  advertiser : option Advertise.Advertiser;
  interrupted : bool;
  reg : regPhase;
  down : downPhase;
  serve : servePhase;
  http : bool;
  pool : Pool.ClientPool;
  flushing : bool;
  indexClosed : bool;
  trackerConn : bool;
  sent : list call;
  exited : option Z
}.
Implicit Types p : process.

Definition setWorld (w : world X) p : process :=
  mkProcess w (advertiser p) (interrupted p) (reg p) (down p) (serve p) (http p) (pool p) (flushing p) (indexClosed p) (trackerConn p) (sent p) (exited p).
Definition setAdvertiser (a : option Advertise.Advertiser) p : process :=
  mkProcess (pw p) a (interrupted p) (reg p) (down p) (serve p) (http p) (pool p) (flushing p) (indexClosed p) (trackerConn p) (sent p) (exited p).
Definition interrupt p : process :=
  mkProcess (pw p) (advertiser p) true (reg p) (down p) (serve p) (http p) (pool p) (flushing p) (indexClosed p) (trackerConn p) (sent p) (exited p).
Definition setReg (r : regPhase) p : process :=
  mkProcess (pw p) (advertiser p) (interrupted p) r (down p) (serve p) (http p) (pool p) (flushing p) (indexClosed p) (trackerConn p) (sent p) (exited p).
Definition setDown (d : downPhase) p : process :=
  mkProcess (pw p) (advertiser p) (interrupted p) (reg p) d (serve p) (http p) (pool p) (flushing p) (indexClosed p) (trackerConn p) (sent p) (exited p).
Definition setServe (s : servePhase) p : process :=
  mkProcess (pw p) (advertiser p) (interrupted p) (reg p) (down p) s (http p) (pool p) (flushing p) (indexClosed p) (trackerConn p) (sent p) (exited p).
Definition stopHTTP p : process :=
  mkProcess (pw p) (advertiser p) (interrupted p) (reg p) (down p) (serve p) false (pool p) (flushing p) (indexClosed p) (trackerConn p) (sent p) (exited p).
Definition setProcessPool (cp : Pool.ClientPool) p : process :=
  mkProcess (pw p) (advertiser p) (interrupted p) (reg p) (down p) (serve p) (http p) cp (flushing p) (indexClosed p) (trackerConn p) (sent p) (exited p).
Definition stopFlushing p : process :=
  mkProcess (pw p) (advertiser p) (interrupted p) (reg p) (down p) (serve p) (http p) (pool p) false (indexClosed p) (trackerConn p) (sent p) (exited p).
Definition closeIndex p : process :=
  mkProcess (pw p) (advertiser p) (interrupted p) (reg p) (down p) (serve p) (http p) (pool p) (flushing p) true (trackerConn p) (sent p) (exited p).
Definition closeConn p : process :=
  mkProcess (pw p) (advertiser p) (interrupted p) (reg p) (down p) (serve p) (http p) (pool p) (flushing p) (indexClosed p) false (sent p) (exited p).
Definition exit (code : Z) p : process :=
  mkProcess (pw p) (advertiser p) (interrupted p) (reg p) (down p) (serve p) (http p) (pool p) (flushing p) (indexClosed p) (trackerConn p) (sent p)
    (Some code).

(** A call to the tracker whose outcome is only logged or dropped. *)
Definition send (c : call) p : process :=
  if trackerConn p then
    mkProcess (pw p) (advertiser p) (interrupted p) (reg p) (down p) (serve p) (http p) (pool p) (flushing p) (indexClosed p) (trackerConn p)
      (sent p ++ [c]) (exited p)
  else p.

Definition runIO (m : IO X unit) p : process := setWorld (m (pw p)).2 p.

(** The process when [main] has started its goroutines. *)
Definition launch (wi : wiring) (tracker : bool) (cp : Pool.ClientPool) (w : world X) : process :=
  mkProcess w (wAdvertiser wi tracker) false (if tracker then RegStart else RegAbsent) DownWait Starting true cp true false tracker [] None.

Section threads.
Context (root : string) (m : QuotaManager X) (pins : list string) (me : PeerInfo).

(** [reports]: the tracker's answers to the reports of the advertiser. *)
Context (reports : nat -> list string -> option error).

(** *** The registration *)

(** [cache.StartupReconcileHashes] and [chunkAdvertiser.Reconcile]. *)
Definition reconcileChunks p : process :=
  let '(r, w) := StartupReconcileHashes (qcache m) pins (pw p) in
  let existing := match r with Ok (hs, _) => hs | Err _ => [] end in
  setAdvertiser (Advertise.Reconcile (now w) existing <$> advertiser p) (setWorld w p).

(** [tick] tells which case the select takes when both are ready. *)
Definition regTurn (tick : bool) p : option process :=
  match reg p with
  | RegStart => Some (setReg RegReconcile (send (RegisterPeerCall me) p))
  | RegReconcile => Some (setReg RegLoop (reconcileChunks p))
  | RegLoop =>
      if tick then Some (runIO (Daemon.onHeartbeat m) (send (HeartbeatCall (NodeId me)) p))
      else if interrupted p then Some (setReg RegDone (send (DeregisterPeerCall (NodeId me)) p))
      else None
  | RegAbsent | RegDone => None
  end.

(** *** The shutdown *)

(** [close(a.done)] and the wait for the last turn of the loop. *)
Definition stopAdvertiser p : process :=
  setAdvertiser (Advertise.onStop reports (now (pw p)) <$> advertiser p) p.

(** [peerServer.Stop]: nothing to stop before the server is there. *)
Definition stopServer p : process := match serve p with Serving => setServe Stopped p | _ => p end.

(** The calls in their order.  [mgr.Close] tells the loop of the index to end and
    does not wait for it. *)
Definition downTurn p : option process :=
  match down p with
  | DownWait => if interrupted p then Some (setDown DownAdvertiser p) else None
  | DownAdvertiser => Some (setDown DownIndex (stopAdvertiser p))
  | DownIndex => Some (setDown DownHTTP (runIO (CloseManager m) (closeIndex p)))
  | DownHTTP => Some (setDown DownServer (stopHTTP p))
  | DownServer => Some (setDown DownPool (stopServer p))
  | DownPool => Some (setDown DownConn (setProcessPool (Pool.Close (pool p)) p))
  | DownConn => Some (setDown DownExit (closeConn p))
  | DownExit => Some (exit 0 p)
  end.

(** *** [main] and the loops *)

(** [failed]: listening or serving ends with an error. *)
Definition mainTurn (failed : bool) p : option process :=
  match serve p with
  | Starting => Some (if failed then exit 1 p else setServe Serving p)
  | Serving => if failed then Some (exit 1 p) else None
  | Stopped => Some (exit 0 p)
  end.

(** One turn of [flushLoop], which ends on a turn of its own; [tick] tells which
    case the select takes when both are ready. *)
Definition flushTurn (tick : bool) p : option process :=
  if negb (flushing p) then None
  else if tick then Some (runIO (Flush m) p)
  else if indexClosed p then Some (stopFlushing p) else None.

(** One turn of the advertiser's loop, which has ended when it is stopped. *)
Definition advertiserTurn (tick : bool) p : option process :=
  match advertiser p with
  | Some a =>
      if Advertise.finished a then None
      else Some (setAdvertiser (Some ((if tick then Advertise.onTick else Advertise.onHash) reports (now (pw p)) a)) p)
  | None => None
  end.

(** One turn of one goroutine, as long as the process is there.  Of the syncs that
    run there is what they do to the disk and to the index. *)
Inductive step : process -> process -> Prop :=
| step_signal p : exited p = None -> step p (interrupt p)
| step_reg tick p p' : exited p = None -> regTurn tick p = Some p' -> step p p'
| step_down p p' : exited p = None -> downTurn p = Some p' -> step p p'
| step_main failed p p' : exited p = None -> mainTurn failed p = Some p' -> step p p'
| step_index tick p p' : exited p = None -> flushTurn tick p = Some p' -> step p p'
| step_advertiser tick p p' : exited p = None -> advertiserTurn tick p = Some p' -> step p p'
| step_engine w p : exited p = None -> syncWork root m (pw p) w -> step p (setWorld w p)
| step_sync h manifest p : exited p = None -> Daemon.mgr h = Some m -> goodNames manifest ->
    step p (runIO (Daemon.afterSuccessfulSync h manifest) p)
| step_clock w p : exited p = None -> wdisk w = wdisk (pw p) -> ext w = ext (pw p) -> step p (setWorld w p).

End threads.
End process.

End Main.

(** * Properties *)

(** ** The configuration *)

Definition withDir (dir : string) (c : Config) : Config :=
  let cc := ChunkCache c in
  mkConfig (HTTPAddr c) (LogFormat c) (cStore c) (MetaCache c) (Config.Cache c)
    (mkChunkCache dir (ccMaxBytes cc) (ccLowWatermark cc) (ccHighWatermark cc) (ccPinned cc))
    (DiskCache c) (Node c) (Config.Advertisement c) (Config.PeerDiscovery c) (Download c) (Origin c) (Upload c) (PeerClient c)
    (Config.Retry c).

Definition withNode (n : NodeConfig) (c : Config) : Config :=
  mkConfig (HTTPAddr c) (LogFormat c) (cStore c) (MetaCache c) (Config.Cache c) (ChunkCache c)
    (DiskCache c) n (Config.Advertisement c) (Config.PeerDiscovery c) (Download c) (Origin c) (Upload c) (PeerClient c)
    (Config.Retry c).

Lemma nonemptyOr_some d v : v <> "" -> nonemptyOr d v = v.
Proof. intros Hv. unfold nonemptyOr. by rewrite bool_decide_eq_false_2. Qed.

Lemma cacheDir_given env args :
  Main.given args "cache-dir" <> Some "" -> Main.cacheDir (Main.parseFlags env args) <> "".
Proof.
  simpl. destruct (Main.given args "cache-dir") as [d|]; simpl; [congruence|]. intros _.
  unfold Main.getEnvOrDefault, nonemptyOr. by case_bool_decide.
Qed.

(** C18. Unless the command line gives an empty [--cache-dir], the daemon is made
    without regard to [chunkCache.dir] of the configuration, and of its [node]
    section only the HTTP address has an effect: the defaults of the flags
    hide the rest. *)
Theorem config_overridden env args c dir n :
  Main.given args "cache-dir" <> Some "" -> nHTTPAddr n = nHTTPAddr (Node c) ->
  Main.wire (Main.parseFlags env args) (withNode n (withDir dir c)) = Main.wire (Main.parseFlags env args) c
  /\ ccDir (Main.wCache (Main.wire (Main.parseFlags env args) c)) = Main.cacheDir (Main.parseFlags env args).
Proof.
  intros Hd%(cacheDir_given env) Hn. set (f := Main.parseFlags env args) in *. clearbody f.
  assert (forall d, nonemptyOr d (Main.cacheDir f) = Main.cacheDir f) as E by (intros d; by apply nonemptyOr_some).
  split; [|apply E]. unfold Main.wire. cbv zeta.
  assert (Main.overlay f (withNode n (withDir dir c)) = withNode n (Main.overlay f c)) as ->; [|reflexivity].
  unfold Main.overlay, withNode, withDir. cbn. by rewrite Hn, !E.
Qed.

(** ** Shutting down *)

Section shutdown.
Context {D : Digest} {SS : SortSlice} {MC : ManifestCodec} {IC : IndexCodec} {X : Type} {HQ : HasQuota X}.
Context (root : string) (m : QuotaManager X) (pins : list string) (me : PeerInfo).
Context (reports : nat -> list string -> option error).
Abbreviation step := (Main.step root m pins me reports).
Implicit Types p : Main.process (X:=X).

(** How many calls of the shutdown have returned. *)
Definition progress (d : Main.downPhase) : nat :=
  match d with
  | Main.DownWait => 0 | Main.DownAdvertiser => 1 | Main.DownIndex => 2 | Main.DownHTTP => 3 | Main.DownServer => 4
  | Main.DownPool => 5 | Main.DownConn => 6 | Main.DownExit => 7
  end.

(** The advertiser, if there is one, has ended its loop. *)
Definition advertiserDone p : Prop := forall a, Main.advertiser p = Some a -> Advertise.finished a = true.

(** What the shutdown has done by the place where it is, and how far it is when
    the process has ended with status 0. *)
Record shutInv p : Prop := {
  sh_signal : 0 < progress (Main.down p) -> Main.interrupted p = true;
  sh_ads : 2 <= progress (Main.down p) -> advertiserDone p;
  sh_index : 3 <= progress (Main.down p) -> Main.indexClosed p = true;
  sh_http : 4 <= progress (Main.down p) -> Main.http p = false;
  sh_server : Main.serve p = Main.Stopped -> 5 <= progress (Main.down p);
  sh_pool : 6 <= progress (Main.down p) -> Pool.stopped (Main.pool p) = true;
  sh_exit : Main.exited p = Some 0%Z -> 5 <= progress (Main.down p)
}.

Lemma finished_fold {A} (f : Advertise.Advertiser -> A -> Advertise.Advertiser) (l : list A) : forall a,
  (forall a x, Advertise.finished (f a x) = Advertise.finished a) -> Advertise.finished (fold_left f l a) = Advertise.finished a.
Proof. induction l as [|x l IH]; intros a Hf; simpl; [done|]. by rewrite IH, Hf. Qed.

Lemma finished_Enqueue now h a : Advertise.finished (Advertise.Enqueue now h a) = Advertise.finished a.
Proof.
  unfold Advertise.Enqueue. destruct (_ || _); [done|]. destruct (_ <? _)%Z; [done|].
  apply finished_fold. intros a' x. unfold Advertise.queueRetry. by destruct (_ <=? _)%Z.
Qed.

Lemma finished_Reconcile now hs a : Advertise.finished (Advertise.Reconcile now hs a) = Advertise.finished a.
Proof. apply finished_fold. intros a' h. apply finished_Enqueue. Qed.

Lemma launch_shutInv wi tracker cp w : shutInv (Main.launch wi tracker cp w).
Proof. split; simpl; (lia || done). Qed.

Lemma reg_shutInv tick p p' : Main.exited p = None -> Main.regTurn m pins me tick p = Some p' -> shutInv p -> shutInv p'.
Proof.
  intros He Hr [H1 H2 H3 H4 H5 H6 H7]. unfold Main.regTurn, Main.send, Main.reconcileChunks in Hr.
  destruct (StartupReconcileHashes (qcache m) pins (Main.pw p)) as [r w].
  destruct (Main.reg p), tick, (Main.interrupted p) eqn:Hi, (Main.trackerConn p); simplify_eq; try done;
    split; simpl in *; rewrite ?Hi; try done.
  all: intros Hd a' Ha; apply fmap_Some in Ha as (a0 & Ha & ->); rewrite finished_Reconcile; by apply H2.
Qed.

Lemma down_shutInv p p' : Main.exited p = None -> Main.downTurn m reports p = Some p' -> shutInv p -> shutInv p'.
Proof.
  intros He Hd [H1 H2 H3 H4 H5 H6 H7]. unfold Main.downTurn in Hd. destruct (Main.down p) eqn:E; cbn [progress] in *.
  - destruct (Main.interrupted p) eqn:Hi; simplify_eq. split; cbn; rewrite ?Hi; auto with lia.
  - injection Hd as <-. split; cbn; auto with lia. intros _ a Ha. by apply fmap_Some in Ha as (a0 & _ & ->).
  - injection Hd as <-. split; cbn; auto with lia.
  - injection Hd as <-. split; cbn; auto with lia.
  - injection Hd as <-. unfold Main.stopServer. destruct (Main.serve p) eqn:Hs; split; cbn; rewrite ?Hs; auto with lia.
  - injection Hd as <-. split; cbn; auto with lia. intros _. unfold Pool.Close. by destruct (Pool.stopped _) eqn:Es.
  - injection Hd as <-. split; cbn; auto with lia.
  - injection Hd as <-. split; cbn; rewrite E; cbn; auto with lia.
Qed.

Lemma step_shutInv p p' : step p p' -> shutInv p -> shutInv p'.
Proof.
  destruct 1 as [p He|tick p p' He Hr|p p' He Hd|failed p p' He Hm|tick p p' He Hf|tick p p' He Ha|w p He Hw
                |h manifest p He Hm Hg|w p He Hd Hx]; intros HI.
  - destruct HI. by split.
  - by eapply reg_shutInv.
  - by eapply down_shutInv.
  - destruct HI as [H1 H2 H3 H4 H5 H6 H7]. unfold Main.mainTurn in Hm.
    destruct (Main.serve p) eqn:E, failed; simplify_eq; split; cbn; try done; rewrite ?E; auto.
  - destruct HI as [H1 H2 H3 H4 H5 H6 H7]. unfold Main.flushTurn in Hf.
    destruct (Main.flushing p); [|done]. simpl in Hf. destruct tick; [by injection Hf as <-; split|].
    destruct (Main.indexClosed p) eqn:E; [|done]. injection Hf as <-. by split.
  - destruct HI as [H1 H2 H3 H4 H5 H6 H7]. unfold Main.advertiserTurn in Ha. destruct (Main.advertiser p) as [a|] eqn:E; [|done].
    destruct (Advertise.finished a) eqn:Ef; simplify_eq. split; cbn; auto.
    intros Hp. specialize (H2 Hp a E). congruence.
  - destruct HI. by split.
  - destruct HI. by split.
  - destruct HI. by split.
Qed.

Lemma steps_shutInv p p' : rtc step p p' -> shutInv p -> shutInv p'.
Proof. induction 1 as [|p1 p2 p3 Hs _ IH]; [done|]. intros HI. by eapply IH, step_shutInv. Qed.

(** Only the shutdown itself moves on. *)
Lemma step_moves p p' : step p p' -> Main.down p' = Main.down p \/ Main.downTurn m reports p = Some p'.
Proof.
  destruct 1 as [p He|tick p p' He Hr|p p' He Hd|failed p p' He Hm|tick p p' He Hf|tick p p' He Ha|w p He Hw
                |h manifest p He Hm Hg|w p He Hd Hx]; try by left.
  - left. unfold Main.regTurn, Main.send, Main.reconcileChunks in Hr.
    destruct (StartupReconcileHashes (qcache m) pins (Main.pw p)) as [r w].
    destruct (Main.reg p), tick, (Main.interrupted p), (Main.trackerConn p); by simplify_eq.
  - by right.
  - left. unfold Main.mainTurn in Hm. destruct (Main.serve p), failed; by simplify_eq.
  - left. unfold Main.flushTurn in Hf. destruct (Main.flushing p), tick, (Main.indexClosed p); simpl in Hf; by simplify_eq.
  - left. unfold Main.advertiserTurn in Ha. repeat case_match; by simplify_eq.
Qed.

Lemma downTurn_progress p p' :
  Main.downTurn m reports p = Some p' -> progress (Main.down p') <= S (progress (Main.down p)).
Proof.
  unfold Main.downTurn. destruct (Main.down p) eqn:E; [destruct (Main.interrupted p)|..]; intros; simplify_eq; cbn; rewrite ?E; cbn; lia.
Qed.

Lemma progress_inj d d' : progress d = progress d' -> d = d'.
Proof. by destruct d, d'. Qed.

(** A call of the shutdown that has returned was made, in a turn of its own. *)
Lemma passed d p0 p :
  rtc step p0 p -> progress (Main.down p0) <= progress d -> progress d < progress (Main.down p) ->
  exists q q', rtc step p0 q /\ Main.down q = d /\ step q q' /\ Main.downTurn m reports q = Some q' /\ rtc step q' p.
Proof.
  intros Hs H0. revert p Hs. refine (rtc_ind_r _ _ _ _); [lia|]. intros p1 p2 H1 H2 IH Hd.
  destruct (decide (progress d < progress (Main.down p1))) as [Hlt|Hge].
  - destruct (IH Hlt) as (q & q' & Hq & Hqd & Hqq & Ht & Hr). exists q, q'. split_and!; try done. by eapply rtc_r.
  - destruct (step_moves _ _ H2) as [E|Ht]; [rewrite E in Hd; lia|]. exists p1, p2. split_and!; try done.
    apply progress_inj. apply downTurn_progress in Ht. lia.
Qed.

(** The last turn of the advertiser: it has sent what it was given. *)
Lemma stopAdvertiser_drains p a :
  Main.advertiser (Main.stopAdvertiser reports p) = Some a ->
  Advertise.finished a = true /\ Advertise.ch a = [] /\ Advertise.buf a = [].
Proof.
  intros (a0 & _ & ->)%fmap_Some. pose proof (Advertise.onStop_drains reports (now (Main.pw p)) a0) as [= H1 H2]. done.
Qed.

(** C17. However its goroutines are interleaved, the daemon ends with status 0
    only after a signal, and on the way there the shutdown has made these
    calls: the advertiser's last turn, after which its loop has ended and
    nothing is left in its channel and its batch (of the retry queue nothing is
    said); after that [mgr.Close], which flushes the index, so that the index
    file then holds the index of that moment if it had changed and the flush
    reported success.  At the exit the loop of the advertiser has ended, the
    loop of the index has been told to end (whether it has is not said:
    [Close] does not wait for it), and the HTTP server has been shut down. *)
Theorem exit_orderly wi tracker cp w p :
  rtc step (Main.launch wi tracker cp w) p -> Main.exited p = Some 0%Z ->
  exists p1 p2 p3 p4,
    rtc step (Main.launch wi tracker cp w) p1 /\ step p1 p2 /\ rtc step p2 p3 /\ step p3 p4 /\ rtc step p4 p
    /\ Main.interrupted p1 = true
    /\ Main.advertiser p2 = Advertise.onStop reports (now (Main.pw p1)) <$> Main.advertiser p1
    /\ (forall a, Main.advertiser p2 = Some a ->
          Advertise.finished a = true /\ Advertise.ch a = [] /\ Advertise.buf a = [])
    /\ Main.pw p4 = (CloseManager m (Main.pw p3)).2
    /\ (dirty (getQ (ext (Main.pw p3))) = true -> (CloseManager m (Main.pw p3)).1 = Ok tt ->
          exists data, marshalIndex (cur (Main.pw p3)) = Ok data
            /\ contentAt (wdisk (Main.pw p4)) (key (qpath m)) = Some data)
    /\ advertiserDone p /\ Main.indexClosed p = true /\ Main.http p = false.
Proof.
  intros Hs He. pose proof (launch_shutInv wi tracker cp w) as H0.
  destruct (steps_shutInv _ _ Hs H0) as [H1 H2 H3 H4 H5 H6 H7]. specialize (H7 He).
  destruct (passed Main.DownIndex _ _ Hs) as (p3 & p4 & Hp3 & Hd3 & Hs3 & Ht3 & Hp4); [simpl; lia..|].
  destruct (passed Main.DownAdvertiser _ _ Hp3) as (p1 & p2 & Hp1 & Hd1 & Hs1 & Ht1 & Hp2);
    [simpl; lia|rewrite Hd3; simpl; lia|].
  unfold Main.downTurn in Ht1, Ht3. rewrite Hd1 in Ht1. rewrite Hd3 in Ht3. injection Ht1 as <-. injection Ht3 as <-.
  exists p1, (Main.setDown Main.DownIndex (Main.stopAdvertiser reports p1)), p3,
    (Main.setDown Main.DownHTTP (Main.runIO (CloseManager m) (Main.closeIndex p3))).
  split_and!; try done; [| | |apply H2; lia|apply H3; lia|apply H4; lia].
  - apply (steps_shutInv _ _ Hp1 H0). rewrite Hd1. simpl. lia.
  - intros a. apply stopAdvertiser_drains.
  - intros Hdirty Hok. apply (Flush_content m (Main.pw p3)); [done|]. by apply io_result.
Qed.

(** ** Pinned chunks through the life of the process *)

Lemma GetManifest_readonly (c : ChunkStore X) id P : keeps P (GetManifest c id) /\ extSame (GetManifest c id).
Proof.
  unfold GetManifest. split; [|auto 8 with go]. apply keeps_bind; [auto with go|]. intros hex.
  apply keeps_bind; [|auto with go]. unfold ReadFile. auto 8 with go.
Qed.

Lemma reconcilePinned_readonly (c : ChunkStore X) P ids : forall out,
  keeps P (reconcilePinned c out ids) /\ extSame (reconcilePinned c out ids).
Proof.
  induction ids as [|id ids IH]; intros out; cbn [reconcilePinned]; [split; auto with go|].
  destruct (GetManifest_readonly c id P) as [Hk Hx]. split.
  - apply keeps_bind; [by apply keeps_attempt|]. intros [mf|er]; [|apply IH].
    apply keeps_bind; [apply keeps_cachedRefs|]. intros hs. apply IH.
  - apply extSame_bind; [by apply extSame_attempt|]. intros [mf|er]; [|apply IH].
    apply extSame_bind; [apply extSame_cachedRefs|]. intros hs. apply IH.
Qed.

(** What is cached is found without changing anything. *)
Lemma reconcile_readonly (c : ChunkStore X) P ids :
  keeps P (StartupReconcileHashes c ids) /\ extSame (StartupReconcileHashes c ids).
Proof.
  unfold StartupReconcileHashes. case_bool_decide; [split; [apply keeps_Walk|apply extSame_Walk]|].
  destruct (reconcilePinned_readonly c P ids []) as [Hk Hx].
  split; [apply keeps_bind|apply extSame_bind]; auto with go.
Qed.

Lemma turn_world p p' : step p p' -> rtc (daemonStep root m) (Main.pw p) (Main.pw p').
Proof.
  pose proof (proj2 (reconcile_readonly (qcache m) (fun _ => True) pins)) as Hx.
  pose proof (fun w => keeps_disk _ w (fun P => proj1 (reconcile_readonly (qcache m) P pins))) as Hd.
  intros Hs. destruct Hs as [p He|tick p p' He Hr|p p' He Hdn|failed p p' He Hm|tick p p' He Hf|tick p p' He Ha|w p He Hw
                |h manifest p He Hm Hg|w p He Hdk Hex].
  - done.
  - unfold Main.regTurn, Main.send, Main.reconcileChunks in Hr.
    destruct (StartupReconcileHashes (qcache m) pins (Main.pw p)) as [r w] eqn:E.
    destruct (Main.reg p), tick, (Main.interrupted p), (Main.trackerConn p); simplify_eq; try done;
      first [apply rtc_once, step_heartbeat | apply rtc_once, step_time].
    all: first [specialize (Hd (Main.pw p)); by rewrite E in Hd | specialize (Hx (Main.pw p)); by rewrite E in Hx].
  - unfold Main.downTurn in Hdn. destruct (Main.down p); repeat case_match; simplify_eq; try done; try (apply rtc_once, step_flush).
    unfold Main.stopServer. by destruct (Main.serve p).
  - unfold Main.mainTurn in Hm. destruct (Main.serve p), failed; by simplify_eq.
  - unfold Main.flushTurn in Hf. destruct (Main.flushing p), tick, (Main.indexClosed p); simpl in Hf; simplify_eq; try done.
    all: apply rtc_once, step_flush.
  - unfold Main.advertiserTurn in Ha. repeat case_match; by simplify_eq.
  - by apply rtc_once, step_work.
  - by apply rtc_once, step_synced.
  - by apply rtc_once, step_time.
Qed.

Lemma life_world p p' : rtc step p p' -> rtc (daemonStep root m) (Main.pw p) (Main.pw p').
Proof. induction 1 as [|p1 p2 p3 Hs _ IH]; [done|]. by etransitivity; [apply turn_world|]. Qed.

(** The chunks of a pinned artifact are on the disk, with their bytes, through
    the life of the process and its end. *)
Theorem life_keeps_pins id l x p p' :
  storeLayout root (qcache m) -> qpath m = Join [root; "index.json"] -> "sha256:" +:+ x ∈ l ->
  safe root m id l x (Main.pw p) -> rtc step p p' ->
  exists data, chunkOf root (wdisk (Main.pw p')) x = Some data /\ ComputeHash data = "sha256:" +:+ x.
Proof.
  intros HL Hq Hx Hs Hp%life_world. apply kept_chunk, (safe_file root m id l x).
  by apply (safe_steps root m HL Hq id l x Hx (Main.pw p)).
Qed.

End shutdown.

(** ** A concrete process *)

Definition noEnv : Main.environment := Main.mkEnv (fun _ => "") "worker-1" 0.
Definition noArgs : Main.arguments := Main.mkArgs (fun _ => None) None.

(** The configuration asks for another directory; the daemon uses its default. *)
Lemma config_overridden_witness :
  Main.wire (Main.parseFlags noEnv noArgs) (withNode (Node Defaults) (withDir "./tmp/spider-cache" Defaults))
    = Main.wire (Main.parseFlags noEnv noArgs) Defaults
  /\ ccDir (Main.wCache (Main.wire (Main.parseFlags noEnv noArgs) Defaults)) = Main.cacheDir (Main.parseFlags noEnv noArgs).
Proof. apply (config_overridden noEnv noArgs Defaults "./tmp/spider-cache" (Node Defaults)); [discriminate|reflexivity]. Defined.

Definition demoWiring : Main.wiring := Main.wire (Main.parseFlags noEnv noArgs) Defaults.
Definition demoMe : PeerInfo := Main.wSelf demoWiring.
Definition noAnswer (_ : nat) (_ : list string) : option error := None.
Definition demoLaunch : Main.process (X:=qstate) := Main.launch demoWiring true (Main.poolOf Defaults) storedWorld.

#[local] Existing Instance noIndexCodec.
#[local] Existing Instance demoCodec.

Abbreviation demoStep := (Main.step "/s" demoQuota [] demoMe noAnswer).

(** Turns of the goroutines, by name. *)
Inductive turn := TSignal | TReg (tick : bool) | TDown | TMain (failed : bool).

Definition take1 (t : turn) (p : Main.process (X:=qstate)) : option (Main.process (X:=qstate)) :=
  match Main.exited p with
  | Some _ => None
  | None =>
      match t with
      | TSignal => Some (Main.interrupt p)
      | TReg tick => Main.regTurn demoQuota [] demoMe tick p
      | TDown => Main.downTurn demoQuota noAnswer p
      | TMain failed => Main.mainTurn failed p
      end
  end.

Fixpoint takeAll (ts : list turn) (p : Main.process (X:=qstate)) : option (Main.process (X:=qstate)) :=
  match ts with [] => Some p | t :: ts => match take1 t p with Some p' => takeAll ts p' | None => None end end.

Lemma takeAll_steps ts : forall p p', takeAll ts p = Some p' -> rtc demoStep p p'.
Proof.
  induction ts as [|t ts IH]; intros p p'; simpl; [by intros [= ->]|].
  destruct (take1 t p) as [p1|] eqn:E; [|done]. intros H. apply (rtc_l _ _ p1); [|by apply IH].
  unfold take1 in E. destruct (Main.exited p) eqn:He; [done|]. destruct t; simplify_eq.
  - by apply Main.step_signal.
  - by eapply Main.step_reg.
  - by eapply Main.step_down.
  - by eapply Main.step_main.
Qed.

(** The daemon registers, is told to stop, and is gone before the goroutine of
    the registration has its turn. *)
Definition hastyTurns : list turn :=
  [TMain false; TReg true; TReg true; TSignal; TDown; TDown; TDown; TDown; TDown; TMain false].

Definition outcome (p : Main.process (X:=qstate)) : option Z * list Main.call := (Main.exited p, Main.sent p).

Lemma hasty_outcome : outcome <$> takeAll hastyTurns demoLaunch = Some (Some 0%Z, [Main.RegisterPeerCall demoMe]).
Proof. vm_compute. reflexivity. Qed.

Lemma hasty_run : exists p, rtc demoStep demoLaunch p /\ outcome p = (Some 0%Z, [Main.RegisterPeerCall demoMe]).
Proof.
  destruct (takeAll hastyTurns demoLaunch) as [p|] eqn:E; pose proof hasty_outcome as H; rewrite E in H; [|discriminate H].
  exists p. split; [by apply takeAll_steps in E|]. injection H as H1 H2. unfold outcome. by rewrite H1, H2.
Qed.

(** C19. A stop that ends with status 0 need not tell the tracker: [main] returns
    when the server has stopped, or the shutdown exits, without waiting for
    the goroutine that would deregister the node. *)
Theorem exit_without_deregister :
  exists p, rtc demoStep demoLaunch p /\ Main.exited p = Some 0%Z
    /\ Main.RegisterPeerCall demoMe ∈ Main.sent p /\ Main.DeregisterPeerCall (NodeId demoMe) ∉ Main.sent p.
Proof.
  destruct hasty_run as (p & Hp & [= He Hs]). exists p. rewrite Hs. repeat split; [done|done|by apply list_elem_of_singleton|].
  by intros ?%list_elem_of_singleton.
Qed.

Lemma exit_orderly_witness :
  exists p p3 p4 : Main.process (X:=qstate), Main.exited p = Some 0%Z
    /\ demoStep p3 p4 /\ rtc demoStep p4 p /\ Main.pw p4 = (CloseManager demoQuota (Main.pw p3)).2
    /\ advertiserDone p /\ Main.indexClosed p = true /\ Main.http p = false.
Proof.
  destruct hasty_run as (p & Hp & Ho). assert (Main.exited p = Some 0%Z) as He by (by injection Ho).
  destruct (exit_orderly "/s" demoQuota [] demoMe noAnswer demoWiring true (Main.poolOf Defaults) storedWorld p Hp He)
    as (p1 & p2 & p3 & p4 & _ & _ & _ & Hs & Hr & _ & _ & _ & Hw & _ & H1 & H2 & H3).
  exists p, p3, p4. split; [exact He|]. split; [exact Hs|]. split; [exact Hr|]. split; [exact Hw|].
  split; [exact H1|]. split; [exact H2|exact H3].
Defined.
