(* ===== verification/Benchmark.v ===== *)
(** * The benchmark suite (pkg/benchmark/benchmark.go)

    What a comparison publishes, how the outcomes of the concurrent workers are
    put together, and the figures of the two scenarios.  The workers' syncs are
    runs of the engine; their outcomes, in the order in which the workers take
    the mutex, are the argument here.  The servers on local ports and the
    temporary directory are not modelled. *)

From S2P Require Import Prelude GoFloat Digest GoPath Json Manifest GoFs Chunker ChunkStore Materializer Source Publisher.
From S2P Require Import Payload Engine.
Local Open Scope go_scope.

Module Benchmark.

Record ScenarioResult := mkScenario {
  Name : string; TotalArtifactSize : Z; WorkerCount : Z; Duration : Z; TotalThroughputMBs : float64;
  OriginBytesTransferred : Z; PeerBytesTransferred : Z; OriginBandwidthSavedPct : float64; SpeedupFactor : float64
}.

Record Suite := mkSuite { baseTempDir : string }.

Definition NewSuite (dir : string) : Suite := mkSuite (nonemptyOr Payload.DefaultWorkRel dir).

(** ** What is distributed *)

Definition publishOrigin {D : Digest} {SS : SortSlice} {MC : ManifestCodec} {X} (ctx : nat -> option error)
    (walk : string -> option error) (benchDir originPath : string) (chunkSize : Z)
    : IO X (FsSource.FilesystemSource * ChunkStore X * ArtifactManifest) :=
  do originSrc <- FsSource.NewPathSource originPath;
  do seederCache <- NewChunkStore (Join [benchDir; "seeder-cache"]);
  do manifest <- wrapErr "failed to publish benchmark manifest"
    (Publish ctx (NewPublisher seederCache chunkSize) (FsSource.asSource originSrc walk) "" "bench-model" "1.0");
  ioRet (originSrc, seederCache, manifest).

(** ** The workers *)

(** The bytes of a scenario so far, from the origin and from peers, and the last
    error. *)
Record tally := mkTally { tOrigin : Z; tPeer : Z; tErr : option error }.

Definition zeroTally : tally := mkTally 0 0 None.

(** What a worker does under the mutex when its sync has returned. *)
Definition finishWorker (t : tally) (r : res SyncMetrics) : tally :=
  match r with
  | Ok m => mkTally (add64 (tOrigin t) (mOriginBytes m)) (add64 (tPeer t) (mPeerBytes m)) (tErr t)
  | Err e => mkTally (tOrigin t) (tPeer t) (Some e)
  end.

Definition waitWorkers (rs : list (res SyncMetrics)) : tally := fold_left finishWorker rs zeroTally.

(** ** The figures *)

Definition MiB : float64 := ofInt64 (1024 * 1024).

(** [d.Seconds()] *)
Definition seconds (d : Z) : float64 :=
  fadd (ofInt64 (Z.quot d 1000000000)) (fdiv (ofInt64 (Z.rem d 1000000000)) (ofInt64 1000000000)).

Definition throughput (size workers duration : Z) : float64 :=
  fdiv (fdiv (ofInt64 (wrap64 (size * workers))) MiB) (seconds duration).

Definition savedPct (origin mesh : Z) : float64 :=
  if (0 <? origin)%Z then fmul (fdiv (ofInt64 (sub64 origin mesh)) (ofInt64 origin)) (ofInt64 100) else fzero.

Definition originResult (size workers duration : Z) (t : tally) : ScenarioResult :=
  mkScenario "Direct Origin (Baseline)" size workers duration (throughput size workers duration) (tOrigin t) 0 fzero (ofInt64 1).

Definition meshResult (size workers originDuration duration : Z) (direct t : tally) : ScenarioResult :=
  mkScenario "Spider P2P Mesh (Distributed)" size workers duration (throughput size workers duration) (tOrigin t) (tPeer t)
    (savedPct (tOrigin direct) (tOrigin t)) (fdiv (ofInt64 originDuration) (ofInt64 duration)).

(** The comparison, from the outcomes of the workers of both scenarios and
    how long each scenario took. *)
Definition compare (size workers : Z) (direct mesh : list (res SyncMetrics)) (originDuration meshDuration : Z)
    : res (ScenarioResult * ScenarioResult) :=
  let d := waitWorkers direct in
  match tErr d with
  | Some e => Err (EWrap "baseline origin benchmark failed" e)
  | None =>
      let t := waitWorkers mesh in
      match tErr t with
      | Some e => Err (EWrap "mesh benchmark failed" e)
      | None => Ok (originResult size workers originDuration d, meshResult size workers originDuration meshDuration d t)
      end
  end.

End Benchmark.

(** * Properties *)

Import Benchmark.

(** The metrics of the syncs that succeeded. *)
Definition succeeded (rs : list (res SyncMetrics)) : list SyncMetrics :=
  omap (fun r => match r with Ok m => Some m | Err _ => None end) rs.

Definition isOk {A} (r : res A) : bool := match r with Ok _ => true | Err _ => false end.

Lemma finishWorkers_bytes rs : forall t,
  tOrigin (fold_left finishWorker rs t) = fold_left add64 (map mOriginBytes (succeeded rs)) (tOrigin t)
  /\ tPeer (fold_left finishWorker rs t) = fold_left add64 (map mPeerBytes (succeeded rs)) (tPeer t).
Proof.
  induction rs as [|[m|e] rs IH]; intros t; simpl; [done|..].
  - exact (IH (finishWorker t (Ok m))).
  - exact (IH (finishWorker t (Err e))).
Qed.

Lemma finishWorkers_err rs : forall t,
  tErr (fold_left finishWorker rs t) = None <-> tErr t = None /\ Forall (fun r => isOk r = true) rs.
Proof.
  induction rs as [|[m|e] rs IH]; intros t; simpl; [by split; [|intros [? _]]|..]; rewrite IH, Forall_cons; simpl; naive_solver.
Qed.

Lemma waitWorkers_bytes rs :
  tOrigin (waitWorkers rs) = wrap64 (sumZ (map mOriginBytes (succeeded rs)))
  /\ tPeer (waitWorkers rs) = wrap64 (sumZ (map mPeerBytes (succeeded rs))).
Proof.
  destruct (finishWorkers_bytes rs zeroTally) as [H1 H2]. unfold waitWorkers. rewrite H1, H2. simpl.
  change 0%Z with (wrap64 0). by rewrite !fold_add64, !Z.add_0_l.
Qed.

(** The figures do not depend on the order in which the workers finish, and a
    comparison has figures exactly when every sync succeeded. *)
Theorem compare_order size workers direct direct' mesh mesh' d1 d2 :
  direct ≡ₚ direct' -> mesh ≡ₚ mesh' -> Forall (fun r => isOk r = true) (direct ++ mesh) ->
  exists r, compare size workers direct mesh d1 d2 = Ok r /\ compare size workers direct' mesh' d1 d2 = Ok r.
Proof.
  intros Hd Hm [Fd Fm]%Forall_app.
  assert (forall rs rs', rs ≡ₚ rs' -> Forall (fun r => isOk r = true) rs ->
            waitWorkers rs = waitWorkers rs' /\ tErr (waitWorkers rs) = None) as Hw.
  { intros rs rs' Hp F. assert (Forall (fun r => isOk r = true) rs') as F' by (by rewrite <- Hp).
    pose proof (proj2 (finishWorkers_err rs zeroTally) (conj eq_refl F)) as E.
    pose proof (proj2 (finishWorkers_err rs' zeroTally) (conj eq_refl F')) as E'. fold (waitWorkers rs) in E. fold (waitWorkers rs') in E'.
    destruct (waitWorkers_bytes rs) as [H1 H2], (waitWorkers_bytes rs') as [H3 H4].
    assert (succeeded rs ≡ₚ succeeded rs') as Hs by (unfold succeeded; by rewrite Hp).
    rewrite (sumZ_perm _ _ (Permutation_map mOriginBytes Hs)) in H1. rewrite (sumZ_perm _ _ (Permutation_map mPeerBytes Hs)) in H2.
    split; [|done].
    destruct (waitWorkers rs), (waitWorkers rs'); simpl in *; congruence. }
  destruct (Hw _ _ Hd Fd) as [Ed Nd], (Hw _ _ Hm Fm) as [Em Nm]. unfold compare. rewrite <- Ed, <- Em, Nd, Nm. eauto.
Qed.
