(* ===== verification/Ctl.v ===== *)
(** * The command line (cmd/spiderctl/main.go)

    The commands: publish, sync, inspect, status, peers, cache, pin, unpin,
    benchmark and the two verify commands.  A command is its effects and the
    error it exits with; what it prints is modelled as the values that are
    printed, not their text. *)

From S2P Require Import Prelude GoFloat Digest GoPath Json Manifest GoFs Chunker ChunkStore StoreRuns Materializer Verifier Quota.
From S2P Require Import Source IndexFile Peer Publisher Config Topology Payload Engine Benchmark Daemon.
Local Open Scope go_scope.

Module Ctl.

(** A call of the tracker whose result is ignored. *)
Inductive trackerCall :=
| CallPutArtifact (id name version : string) (manifestJSON : bytes)
| CallReportChunks (nodeId : string) (hashes : list string)
| CallReportArtifact (nodeId id : string) (complete : bool).

Definition required {X} (flag : string) (value : string) : IO X unit :=
  if bool_decide (value = "") then ioErr (EText (flag +:+ " is required")) else ioRet tt.

Section commands.
Context {D : Digest} {SS : SortSlice} {MC : ManifestCodec} {IC : IndexCodec} {PU : ParseURI}.
Context {X : Type} {HQ : HasQuota X}.
(** The flag --cache-dir. *)
Context (cacheDirFlag : string).

(** ** publish *)

Record publishFlags := mkPublishFlags {
  pubSourceName : string; pubName : string; pubVersion : string; pubSize : Z; pubOutputFile : string; pubNodeID : string
}.

(** What the tracker is told when it can be dialled. *)
Definition announce (env : environ) (f : publishFlags) (manifest : ArtifactManifest) (manifestJSON : bytes)
    : list trackerCall :=
  let reportNode := nonemptyOr (env "NODE_ID") (pubNodeID f) in
  CallPutArtifact (ArtifactID manifest) (Name manifest) (Version manifest) manifestJSON
  :: (if bool_decide (reportNode = "") then []
      else [CallReportChunks reportNode (AllChunkHashes manifest);
            CallReportArtifact reportNode (ArtifactID manifest) true]).

(** The manifest, its JSON, which is printed when no file is given, and the
    calls of the tracker.  [dialled]: the tracker's address is given and could
    be dialled. *)
Definition publishCmd (connect : S3.S3Config -> res (S3.client X)) (ctx : string -> option error) (pages : nat)
    (env : environ) (dialled : bool) (f : publishFlags) : IO X (ArtifactManifest * bytes * list trackerCall) :=
  do_ required "--source" (pubSourceName f);
  do_ required "--name" (pubName f);
  do_ required "--version" (pubVersion f);
  do c <- wrapErr "failed to open cache" (NewChunkStore cacheDirFlag);
  do (src, prefix) <- wrapErr "failed to open source" (ParseSourceURI connect ctx pages (pubSourceName f) "" "" "" "");
  do manifest <- wrapErr "publish failed" (Publish (fun _ => None) (NewPublisher c (pubSize f)) src prefix (pubName f) (pubVersion f));
  do manifestJSON <- liftRes (MarshalIndent manifest);
  do_ (if bool_decide (pubOutputFile f = "") then ioRet tt
       else wrapErr "failed to write output manifest file" (WriteFile (pubOutputFile f) manifestJSON 420));
  ioRet (manifest, manifestJSON, if dialled then announce env f manifest manifestJSON else []).

(** ** sync *)

(** The jobs of one answer: [None] when the loop goes on. *)
Fixpoint scanJobs (jobID : string) (jobs : list SyncJobStatus) : option (res unit) :=
  match jobs with
  | [] => None
  | j :: js =>
      if negb (bool_decide (jsJobId j = jobID)) then scanJobs jobID js
      else if bool_decide (jsStatus j = "RUNNING") then scanJobs jobID js
      else Some (if bool_decide (jsStatus j = "FAILED") then Err (EText ("sync failed: " +:+ jsErrorMessage j))
                 else Ok tt)
  end.

(** The polling loop; each element is the time at the head of the loop and the
    answer of the daemon.  [None]: it has not come to an end. *)
Fixpoint poll (deadline : Z) (jobID : string) (answers : list (Z * res GetNodeStatusResponse)) : option (res unit) :=
  match answers with
  | [] => None
  | (t, a) :: rest =>
      if (t <? deadline)%Z then
        match a with
        | Err _ => Some (Ok tt)
        | Ok st =>
            match scanJobs jobID (nsActiveJobs st) with
            | Some r => Some r
            | None => poll deadline jobID rest
            end
        end
      else Some (Ok tt)
  end.

(** [submit] is the call of the daemon, with the manifest, the destination and
    the origin; it answers whether it accepts, the job id and a message.  The
    first and the last are not looked at. *)
Definition syncCmd (dial : res unit) (submit : bytes -> string -> string -> res (bool * string * string)) (syncManifestFile syncDestDir syncOriginURI : string)
    (answers : list (Z * res GetNodeStatusResponse)) : IO X (option (res unit)) :=
  do_ required "--manifest" syncManifestFile;
  do_ required "--dest" syncDestDir;
  do data <- wrapErr "failed to read manifest file" (ReadFile syncManifestFile);
  do_ wrapErr "failed to connect to daemon" (liftRes dial);
  do (_, jobID, _) <- wrapErr "SyncArtifact RPC error" (liftRes (submit data syncDestDir syncOriginURI));
  do t <- getNow;
  ioRet (poll (t + 10 * 60 * 1000000000) jobID answers).

(** ** inspect, cache *)

(** The manifest is printed, with the number of its files and chunks. *)
Definition inspectCmd (inspectManifestFile : string) : IO X (ArtifactManifest * nat * nat) :=
  do_ required "--manifest" inspectManifestFile;
  do data <- ReadFile inspectManifestFile;
  do m <- liftRes (ParseManifest data);
  ioRet (m, length (files m), length (AllChunkHashes m)).

(** The number of chunks, their size, the first twenty and how many are left out. *)
Definition cacheCmd : IO X (nat * Z * list string * nat) :=
  do c <- NewChunkStore cacheDirFlag;
  do (chunks, err) <- ListChunks c;
  match err with
  | Some e => ioErr e
  | None =>
      do (totalBytes, _) <- TotalCachedBytes c;
      ioRet (length chunks, totalBytes, take 20 chunks, length chunks - 20)
  end.

(** ** status, peers *)

(** One line for each job: its progress and where its chunks came from. *)
Definition statusLine (j : SyncJobStatus) : string * string * string * (Z * Z) * Z * Z :=
  (jsJobId j, jsArtifactId j, jsStatus j, (jsDownloadedChunks j, jsTotalChunks j), jsPeerChunks j, jsOriginChunks j).

(** [ask] is the call of the daemon, with the job id that is asked for. *)
Definition statusCmd (dial : res unit) (ask : string -> res GetNodeStatusResponse)
    : res (string * Z * (Z * float64) * nat * list (string * string * string * (Z * Z) * Z * Z)) :=
  match dial with
  | Err e => Err (EWrap "failed to connect to daemon" e)
  | Ok _ =>
      match ask "" with
      | Err e => Err (EWrap "GetNodeStatus RPC error" e)
      | Ok st =>
          Ok (nsNodeId st, nsCachedChunks st, (nsTotalBytesCached st, fdiv (ofInt64 (nsTotalBytesCached st)) (ofInt64 (1024 * 1024))),
              length (nsActiveJobs st), map statusLine (nsActiveJobs st))
      end
  end.

Definition peerLine (p : PeerInfo) : string * string * string * string * string * Z :=
  (NodeId p, Address p, Rack p, Zone p, Region p, LastSeenUnix p).

Definition peersCmd (dial : res unit) (ask : res (list PeerInfo)) : res (nat * list (string * string * string * string * string * Z)) :=
  match dial with
  | Err e => Err (EWrap "failed to connect to tracker" e)
  | Ok _ =>
      match ask with
      | Err e => Err (EWrap "ListPeers RPC error" e)
      | Ok peers => Ok (length peers, map peerLine peers)
      end
  end.

(** ** benchmark *)

(** [changed]: the flag [--file] is given.  [run] is the comparison of the suite. *)
Definition benchmarkCmd (random : nat -> nat -> byte) (randomErr : nat -> option error) (changed : bool) (benchFile : string)
    (benchSizeMB benchWorkers benchChunkMB : Z)
    (run : Benchmark.Suite -> string -> Z -> Z -> IO X (Benchmark.ScenarioResult * Benchmark.ScenarioResult))
    : IO X (string * Benchmark.ScenarioResult * Benchmark.ScenarioResult) :=
  let artifactBytes := wrap64 (wrap64 (benchSizeMB * 1024) * 1024) in
  let chunkBytes := wrap64 (wrap64 (benchChunkMB * 1024) * 1024) in
  let managed := negb changed || Payload.IsDefaultPayload benchFile in
  do originPath <- Payload.PrepareOrigin random randomErr benchFile artifactBytes managed;
  do (originRes, meshRes) <- wrapErr "benchmark execution failed"
    (run (Benchmark.NewSuite Payload.DefaultWorkRel) originPath benchWorkers chunkBytes);
  ioRet (Abs originPath, originRes, meshRes).

(** ** pin, unpin *)

Definition openManager : IO X (QuotaManager X) :=
  do c <- NewChunkStore cacheDirFlag;
  NewQuotaManager c 0 fzero fzero.

Definition pinCmd (pinManifest : string) : IO X ArtifactManifest :=
  do_ required "--manifest" pinManifest;
  do data <- ReadFile pinManifest;
  do m <- liftRes (ParseManifest data);
  do mgr <- openManager;
  do_ Pin mgr m;
  ioRet m.

Definition unpinCmd (unpinID : string) : IO X unit :=
  do_ required "--artifact-id" unpinID;
  do mgr <- openManager;
  Unpin mgr unpinID.

(** ** verify *)

(** The report is printed also when the command fails. *)
Definition verifyArtifactCmd (verifyManifestPath verifyTargetPath : string) : IO X (VerificationReport * res unit) :=
  do_ required "--manifest" verifyManifestPath;
  do_ required "--dest" verifyTargetPath;
  do data <- wrapErr "failed to read manifest" (ReadFile verifyManifestPath);
  do manifest <- wrapErr "invalid manifest" (liftRes (ParseManifest data));
  do report <- wrapErr "verification error" (VerifyMaterializedDirectory (fun _ => None) manifest verifyTargetPath);
  ioRet (report, if AllValid report then Ok tt else Err (EText "cryptographic verification failed for artifact")).

Definition verifyCacheCmd : IO X (nat * list string * res unit) :=
  do c <- NewChunkStore cacheDirFlag;
  do (verified, corrupt) <- VerifyCache c;
  ioRet (verified, corrupt, if bool_decide (corrupt = []) then Ok tt else Err (EText "cache integrity audit failed")).

End commands.

End Ctl.

(** * Properties *)

(** ** Polling a job *)

Section polling.
Implicit Types (jobs : list SyncJobStatus) (answers : list (Z * res GetNodeStatusResponse)).

(** What the daemon knows of a job, when it reports each job once. *)
Definition statusOf (jobID : string) (st : GetNodeStatusResponse) : option SyncJobStatus :=
  List.find (fun j => bool_decide (jsJobId j = jobID)) (nsActiveJobs st).

Definition uniqueJobs (st : GetNodeStatusResponse) : Prop := NoDup (map jsJobId (nsActiveJobs st)).

Lemma scanJobs_absent jobID jobs : jobID ∉ map jsJobId jobs -> Ctl.scanJobs jobID jobs = None.
Proof.
  induction jobs as [|j jobs IH]; intros Hn; [done|]. simpl in *. apply not_elem_of_cons in Hn as [Hne Hn].
  rewrite bool_decide_eq_false_2 by congruence. by apply IH.
Qed.

Lemma scanJobs_status jobID st :
  uniqueJobs st ->
  Ctl.scanJobs jobID (nsActiveJobs st)
  = match statusOf jobID st with
    | None => None
    | Some j => if bool_decide (jsStatus j = "RUNNING") then None
                else Some (if bool_decide (jsStatus j = "FAILED")
                           then Err (EText ("sync failed: " +:+ jsErrorMessage j)) else Ok tt)
    end.
Proof.
  unfold uniqueJobs, statusOf. induction (nsActiveJobs st) as [|j jobs IH]; intros Hn; [done|].
  simpl in *. apply NoDup_cons in Hn as [Hni Hn]. case_bool_decide as E; simpl; [|by apply IH].
  case_bool_decide; [|done]. apply scanJobs_absent. by rewrite <- E.
Qed.

(** The job has not come to an end in an answer. *)
Definition pending (jobID : string) (st : GetNodeStatusResponse) : Prop :=
  forall j, statusOf jobID st = Some j -> jsStatus j = "RUNNING".

Lemma poll_pending deadline jobID waits answers :
  Forall (fun ta => (ta.1 < deadline)%Z /\ exists st, ta.2 = Ok st /\ uniqueJobs st /\ pending jobID st) waits ->
  Ctl.poll deadline jobID (waits ++ answers) = Ctl.poll deadline jobID answers.
Proof.
  induction 1 as [|[t a] waits (Ht & st & Ha & Hu & Hp) _ IH]; [done|]. simpl in *. subst a.
  rewrite (proj2 (Z.ltb_lt _ _) Ht), scanJobs_status by done. specialize (Hp). destruct (statusOf jobID st) as [j|] eqn:E; [|done].
  by rewrite bool_decide_eq_true_2 by by apply (Hp j).
Qed.

(** The command waits while the job is running, and exits with an error when
    the first answer that shows its end says that it has failed. *)
Lemma poll_ends deadline jobID waits t st j answers :
  Forall (fun ta => (ta.1 < deadline)%Z /\ exists st, ta.2 = Ok st /\ uniqueJobs st /\ pending jobID st) waits ->
  (t < deadline)%Z -> uniqueJobs st -> statusOf jobID st = Some j -> jsStatus j <> "RUNNING" ->
  Ctl.poll deadline jobID (waits ++ (t, Ok st) :: answers)
  = Some (if bool_decide (jsStatus j = "FAILED") then Err (EText ("sync failed: " +:+ jsErrorMessage j)) else Ok tt).
Proof.
  intros Hw Ht Hu Hj Hr. rewrite poll_pending by done. simpl. rewrite (proj2 (Z.ltb_lt _ _) Ht), scanJobs_status by done.
  rewrite Hj. by rewrite bool_decide_eq_false_2.
Qed.

(** It also exits with success when the daemon stops answering, or when the
    job is still running after ten minutes. *)
Lemma poll_gives_up deadline jobID waits t a answers :
  Forall (fun ta => (ta.1 < deadline)%Z /\ exists st, ta.2 = Ok st /\ uniqueJobs st /\ pending jobID st) waits ->
  (deadline <= t)%Z \/ (exists e, a = Err e) ->
  Ctl.poll deadline jobID (waits ++ (t, a) :: answers) = Some (Ok tt).
Proof.
  intros Hw Ht. rewrite poll_pending by done. simpl. destruct (Z.ltb_spec t deadline); [|done].
  destruct Ht as [|[e ->]]; [lia|done].
Qed.

End polling.

(** ** Verification *)

Section verify.
Context {D : Digest} {SS : SortSlice} {MC : ManifestCodec} {X : Type}.

Lemma wrapErr_inv {A} msg (m : IO X A) w a w' : wrapErr msg m w = (Ok a, w') -> m w = (Ok a, w').
Proof. unfold wrapErr. by destruct (m w) as [[|] ?]; intros [= -> ->]. Qed.

(** A file that was read, whatever else failed. *)
Lemma ReadFile_inv p (w w' : world X) data :
  ReadFile p w = (Ok data, w') -> contentAt (wdisk w) (key p) = Some data /\ wdisk w' = wdisk w.
Proof.
  intros H. split.
  2: { assert (keeps (X:=X) (fun d => d = wdisk w) (ReadFile p)) as Hk by (unfold ReadFile; auto with go).
       specialize (Hk w eq_refl). by rewrite H in Hk. }
  unfold ReadFile in H. apply ioBind_inv in H as (h & w1 & H1 & H). apply ioBind_inv in H as (r & w2 & H2 & H).
  rewrite (ioBind_ok _ _ _ _ _ (ignore_eq _ _)) in H. injection H as Hb _.
  assert (openK (key p) (wdisk w) = (Ok h, wdisk w1)) as Ho.
  { unfold Open, syscall in H1. destruct (faults w) as [|[|e|n e] fs]; try done; unfold openK in *;
      destruct (nodeAt (wdisk w) (key p)) as [[|i]|]; simplify_eq/=; done. }
  unfold openK in Ho. unfold contentAt. destruct (nodeAt (wdisk w) (key p)) as [[|i]|]; [| |done]; injection Ho as <- Hw;
    unfold readRest in H2; simpl in H2; destruct (faults w1) as [|[|e|n e] fs]; injection H2 as <- _; try discriminate Hb;
    injection Hb as <-; by rewrite Hw.
Qed.

(** C12. [spiderctl verify artifact] exits with success only when the manifest
    file parses and is valid and every file of it is in the directory, of the
    declared size and with byte ranges of the declared hashes.  There is one
    exception: in the place of an entry of size 0 there may also be a directory,
    if the file system reports 0 as its size.  Permissions are not judged. *)
Theorem verify_exit_sound path dir (w : world X) report w' :
  Ctl.verifyArtifactCmd path dir w = (Ok (report, Ok tt), w') ->
  exists data manifest, contentAt (wdisk w) (key path) = Some data
    /\ ParseManifest data = Ok manifest /\ Manifest.Validate manifest = Ok tt
    /\ forall f, f ∈ files manifest -> entryVerified dir f (wdisk w).
Proof.
  intros H. unfold Ctl.verifyArtifactCmd, Ctl.required in H.
  repeat (case_bool_decide as Hreq; [by apply ioBind_inv in H as (? & ? & [=] & _)|]; apply ioBind_inv in H as ([] & w0 & [= <-] & H); clear Hreq).
  apply ioBind_inv in H as (data & w1 & H1 & H). apply ioBind_inv in H as (manifest & w2 & H2 & H).
  apply ioBind_inv in H as (r & w3 & H3 & H).
  assert (ParseManifest data = Ok manifest /\ w2 = w1) as [Hp ->].
  { unfold wrapErr, liftRes in H2. destruct (ParseManifest data); [|done]. by injection H2 as -> ->. }
  apply wrapErr_inv, ReadFile_inv in H1 as [Hc Hd].
  exists data, manifest. split; [done|]. split; [done|]. split.
  { unfold ParseManifest in Hp. destruct (Unmarshal data) as [m0|]; [|done]. destruct (Manifest.Validate m0) as [[]|] eqn:E; [|done].
    by injection Hp as ->. }
  rewrite <- Hd. apply wrapErr_inv in H3. injection H as -> H _. destruct (AllValid report) eqn:Ha; [|done].
  by eapply VerifyMaterializedDirectory_files.
Qed.

End verify.

(** ** A request that the daemon rejects *)

Section rejected.
Context {D : Digest} {SS : SortSlice} {MC : ManifestCodec} {IC : IndexCodec} {PU : ParseURI}.
(** The daemon and the command. *)
Context {X Y : Type} {HX : HasQuota X}.
Context (connect : S3.S3Config -> res (S3.client X)) (ctx : string -> option error) (pages : nat).
Context (errText : error -> string).

(** The answer to a manifest that does not parse. *)
Lemma SyncArtifact_rejects (srv : Server X) h jobs text dest ty uri e w :
  syncHandler srv = Some (Daemon.asHandler connect ctx pages h jobs) -> ParseManifest (toBytes text) = Err e ->
  SyncArtifact srv errText text dest ty uri w = (Ok (false, "", errText (EWrap "invalid manifest JSON" e)), w).
Proof.
  intros Hh Hp. unfold SyncArtifact. rewrite Hh. unfold Daemon.asHandler, HandleSync, Daemon.HandleSync, attempt, ioBind, wrapErr, liftRes.
  by rewrite Hp.
Qed.

(** C21. A manifest that the daemon rejects: the answer says so, with an empty
    job id, but [spiderctl sync] looks at neither; it polls for a job that does
    not exist and after ten minutes exits with success. *)
Theorem rejected_sync_exits_ok (srv : Server X) (w : world X) h jobs e (y : world Y) file dest uri data waits t a :
  syncHandler srv = Some (Daemon.asHandler connect ctx pages h jobs) -> ParseManifest data = Err e ->
  file <> "" -> dest <> "" -> reliable y -> contentAt (wdisk y) (key file) = Some data ->
  let deadline := (now y + 10 * 60 * 1000000000)%Z in
  Forall (fun ta => (ta.1 < deadline)%Z /\ exists st, ta.2 = Ok st /\ "" ∉ map jsJobId (nsActiveJobs st)) waits ->
  (deadline <= t)%Z ->
  let submit data dest uri := (SyncArtifact srv errText (fromBytes data) dest "" uri w).1 in
  (exists msg, submit data dest uri = Ok (false, "", msg))
  /\ Ctl.syncCmd (Ok tt) submit file dest uri (waits ++ [(t, a)]) y = (Ok (Some (Ok tt)), y).
Proof.
  intros Hh Hp Hf Hd Hr Hc deadline Hw Ht submit.
  assert (submit data dest uri = Ok (false, "", errText (EWrap "invalid manifest JSON" e))) as Hs.
  { unfold submit. rewrite (SyncArtifact_rejects srv h jobs _ _ _ _ e w Hh); [done|]. by rewrite toBytes_fromBytes. }
  split; [by eexists|]. unfold Ctl.syncCmd, Ctl.required. rewrite !bool_decide_eq_false_2 by done.
  rewrite (ioBind_ok _ _ y tt y) by done. rewrite (ioBind_ok _ _ y tt y) by done.
  rewrite (ioBind_ok _ _ y data y) by by apply wrapErr_ok, ReadFile_run.
  rewrite (ioBind_ok _ _ y tt y) by done. rewrite (ioBind_ok _ _ y (false, "", errText (EWrap "invalid manifest JSON" e)) y)
    by (apply wrapErr_ok; unfold liftRes; by rewrite Hs).
  rewrite (ioBind_ok _ _ y (now y) y) by done. unfold ioRet. do 3 f_equal. fold deadline. clear - Hw Ht.
  induction Hw as [|[t0 a0] waits (Ht0 & st & Ha & Hn) _ IH]; simpl in *.
  - by rewrite (proj2 (Z.ltb_ge _ _) Ht).
  - subst a0. by rewrite (proj2 (Z.ltb_lt _ _) Ht0), scanJobs_absent.
Qed.

End rejected.

(** ** Pinning while the daemon runs *)

Section pinning.
Context {D : Digest} {SS : SortSlice} {MC : ManifestCodec} {IC : IndexCodec} {IL : IndexCodecLaws}.
(** The daemon, the command and the daemon after a restart. *)
Context {X Y Z' : Type} {HX : HasQuota X} {HY : HasQuota Y} {HZ : HasQuota Z'}.

(** [spiderctl pin] pins the artifact in the index that it writes. *)
Lemma pinCmd_pins dir path (y y' : world Y) manifest :
  Ctl.pinCmd dir path y = (Ok manifest, y') -> is_Some (iPins (cur y') !! ArtifactID manifest).
Proof.
  intros H. unfold Ctl.pinCmd, Ctl.required in H. case_bool_decide; [by apply ioBind_inv in H as (? & ? & [=] & _)|].
  apply ioBind_inv in H as (? & ? & _ & H). apply ioBind_inv in H as (data & w1 & _ & H).
  apply ioBind_inv in H as (m0 & w2 & _ & H). apply ioBind_inv in H as (mgr & w3 & _ & H).
  apply ioBind_inv in H as ([] & w4 & Hpin & H). injection H as -> ->.
  destruct (Pin_cur mgr manifest w3) as [Hp _]. rewrite Hpin in Hp. simpl in Hp. rewrite Hp.
  case_bool_decide; [done|]. by rewrite lookup_insert_eq.
Qed.

(** C20. A pin that [spiderctl pin] makes while the daemon runs is lost: the
    command reports success and has the artifact in its index, but the next
    flush of the daemon writes its own index over the file, and after a restart
    the artifact is not pinned. *)
Theorem pin_lost (m : QuotaManager X) (w w' : world X) dir path (y y' : world Y) manifest
    (c : ChunkStore Z') max low high (z : world Z') :
  wdisk y = wdisk w -> Ctl.pinCmd dir path y = (Ok manifest, y') ->
  iPins (cur w) !! ArtifactID manifest = None -> dirty (getQ (ext w)) = true -> textIndex (cur w) ->
  Flush m (setDisk (wdisk y') w) = (Ok tt, w') ->
  qpath m = Join [rootDir c; "index.json"] -> reliable z -> wdisk z = wdisk w' ->
  is_Some (iPins (cur y') !! ArtifactID manifest)
  /\ exists m' z', NewQuotaManager c max low high z = (Ok m', z') /\ iPins (cur z') !! ArtifactID manifest = None.
Proof.
  intros Hy Hpin Hnone Hd Ht Hf Hq Hr Hz. split; [by eapply pinCmd_pins|].
  destruct (Flush_content m (setDisk (wdisk y') w) w' Hd Hf) as (data & Hm & Hc).
  destruct (NewQuotaManager_loads c max low high z (cur w) data) as (m' & z' & Hn & Hp & _); try done.
  { by rewrite Hz, <- Hq. }
  exists m', z'. split; [done|]. by rewrite Hp.
Qed.

End pinning.

(** ** Concrete commands *)

(** Every manifest file holds this manifest. *)
Definition oneCodec : ManifestCodec := {| MarshalIndent := Marshal; Unmarshal := fun _ => Ok oneFile |}.

Lemma verify_exit_sound_witness :
  exists data manifest, contentAt (wdisk linkedWorld) (key "/out/dir/a.txt") = Some data
    /\ ParseManifest (C:=oneCodec) data = Ok manifest /\ Manifest.Validate manifest = Ok tt
    /\ forall f, f ∈ files manifest -> entryVerified "/out" f (wdisk linkedWorld).
Proof.
  assert ((Ctl.verifyArtifactCmd (MC:=oneCodec) "/out/dir/a.txt" "/out" linkedWorld).1 = Ok (_, Ok tt)) as Hrun
    by (vm_compute; reflexivity).
  exact (verify_exit_sound (MC:=oneCodec) _ _ _ _ _ (io_result _ _ _ Hrun)).
Defined.

(** The daemon has changes to write when the command runs. *)
Definition pinWorld : world qstate := World (wdisk abcWorld) [] [] 0 (mkQ (mkIndex ∅ ∅) false).

Definition manifestPath : string := "/s/chunks/sha256/ba/ba7816bf8f01cfea414140de5dae2223b00361a396177a9cb410ff61f20015ad".

Definition pinRun : res ArtifactManifest * world qstate :=
  Ctl.pinCmd (MC:=oneCodec) (IC:=demoIndexCodec) "/s" manifestPath pinWorld.

Definition flushRun : res unit * world qstate :=
  Flush (IC:=demoIndexCodec) demoQuota (setDisk (wdisk pinRun.2) (dirtyWorld unpinnedIndex)).

Lemma pinRun_ok : pinRun.1 = Ok oneFile.
Proof. vm_compute. reflexivity. Qed.

Lemma flushRun_ok : flushRun.1 = Ok tt.
Proof. vm_compute. reflexivity. Qed.

Lemma flushRun_reliable : reliable flushRun.2.
Proof. vm_compute. reflexivity. Qed.

Lemma pin_lost_witness :
  is_Some (iPins (cur pinRun.2) !! ArtifactID oneFile)
  /\ exists m' z', NewQuotaManager (IC:=demoIndexCodec) (storeAt "/s") 0 fzero fzero flushRun.2 = (Ok m', z')
       /\ iPins (cur z') !! ArtifactID oneFile = None.
Proof.
  apply (pin_lost (MC:=oneCodec) (IL:=demoIndexCodec_laws) demoQuota (dirtyWorld unpinnedIndex) flushRun.2 "/s" manifestPath
    pinWorld pinRun.2 oneFile (storeAt "/s") 0 fzero fzero flushRun.2).
  - reflexivity.
  - exact (io_result _ _ _ pinRun_ok).
  - apply lookup_empty.
  - reflexivity.
  - exact unpinnedIndex_text.
  - exact (io_result _ _ _ flushRun_ok).
  - reflexivity.
  - exact flushRun_reliable.
  - reflexivity.
Defined.

(** A manifest file that is not JSON, and a daemon without jobs. *)
Definition manifestWorld : world unit := (WriteFile "/m.json" [] 420 emptyWorld).2.

Definition noURI : ParseURI := fun _ => Err (EText "not a URI").
Definition noS3 : S3.S3Config -> res (S3.client qstate) := fun _ => Err (EText "no S3").

Definition idleServer : Server qstate :=
  NewServer "n1" (storeAt "/s")
    (Some (Daemon.asHandler (MC:=demoCodec) (PU:=noURI) noS3 (fun _ => None) 0 demoHandler [])).

Lemma rejected_sync_exits_ok_witness :
  Ctl.syncCmd (Ok tt)
    (fun data dest uri => (SyncArtifact idleServer (fun _ => "rejected") (fromBytes data) dest "" uri storedWorld).1)
    "/m.json" "/out" "" ([(0%Z, Ok (mkNodeStatus "n1" 0 0 []))] ++ [(600000000000%Z, Ok (mkNodeStatus "n1" 0 0 []))]) manifestWorld
  = (Ok (Some (Ok tt)), manifestWorld).
Proof.
  refine (proj2 (rejected_sync_exits_ok (MC:=demoCodec) (PU:=noURI) noS3 (fun _ => None) 0 (fun _ => "rejected") idleServer
    storedWorld demoHandler [] _ manifestWorld "/m.json" "/out" "" [] [(0%Z, Ok (mkNodeStatus "n1" 0 0 []))] 600000000000%Z
    (Ok (mkNodeStatus "n1" 0 0 [])) _ _ _ _ _ _ _ _)).
  - reflexivity.
  - reflexivity.
  - discriminate.
  - discriminate.
  - vm_compute. reflexivity.
  - vm_compute. reflexivity.
  - constructor; [|constructor]. split; [vm_compute; reflexivity|]. eexists. split; [reflexivity|]. apply not_elem_of_nil.
  - vm_compute. discriminate.
Defined.
