(* ===== verification/MetaStore.v ===== *)
(** * Tracker metadata store (pkg/store/store.go, pkg/store/memory.go)

    Peers, artifacts, seeds and chunk locations: the [Store] interface as a
    type class over a state, and the in-memory driver as an instance.  An
    operation gets the time as an argument, a [time.Time] is a number of
    nanoseconds since the epoch and the zero time is [None]. *)

From S2P Require Import Prelude Json Topology.
Local Open Scope go_scope.

(** ** Operations on a state, at a time *)

Definition op (S A : Type) : Type := Z -> S -> res A * S.

Section op.
Context {S : Type}.

Definition opRet {A} (a : A) : op S A := fun _ s => (Ok a, s).
Definition opErr {A} (e : error) : op S A := fun _ s => (Err e, s).
Definition opBind {A B} (m : op S A) (k : A -> op S B) : op S B :=
  fun now s => match m now s with
               | (Ok a, s') => k a now s'
               | (Err e, s') => (Err e, s')
               end.
(** The call with its error as a value, as [if err := f(); err != nil]. *)
Definition opTry {A} (m : op S A) : op S (res A) := fun now s => let '(r, s') := m now s in (Ok r, s').
(** [_ = f()] *)
Definition opIgnore {A} (m : op S A) : op S unit := fun now s => (Ok tt, (m now s).2).
Definition opNow : op S Z := fun now s => (Ok now, s).

End op.

Notation "'let*' x := m 'in' k" := (opBind m (fun x => k))
  (at level 10, x pattern, m at level 100, k at level 200) : go_scope.

(** An operation on a part of the state. *)
Definition opOn {S T A} (get : T -> S) (set : S -> T -> T) (m : op S A) : op T A :=
  fun now t => let '(r, s) := m now (get t) in (r, set s t).

(** ** Data *)

Record Peer := mkPeer {
  pNodeID : string;
  pAddress : string;
  pRegion : string;
  pZone : string;
  pRack : string;
  pHost : string;
  pStatus : string;
  pLastHeartbeat : option Z
}.

#[export] Instance Peer_eq_dec : EqDecision Peer.
Proof. solve_decision. Defined.

(** [t.Unix()]; the zero time is the first instant of year 1. *)
Definition unixOf (t : option Z) : Z :=
  match t with None => -62135596800 | Some ns => ns / 1000000000 end%Z.

Definition Proto (p : Peer) : PeerInfo :=
  mkPeerInfo (pNodeID p) (pAddress p) (pRegion p) (pZone p) (pRack p) (pHost p) (unixOf (pLastHeartbeat p)).

Definition PeerFromProto (now : Z) (info : option PeerInfo) : Peer :=
  match info with
  | None => mkPeer "" "" "" "" "" "" "" None
  | Some i =>
      mkPeer (NodeId i) (Address i) (Region i) (Zone i) (Rack i) (Host i) "HEALTHY"
        (Some (if (0 <? LastSeenUnix i)%Z then LastSeenUnix i * 1000000000 else now)%Z)
  end.

Record ArtifactRecord := mkArtifact {
  aArtifactID : string;
  aName : string;
  aVersion : string;
  aManifestJSON : bytes
}.

Definition withHeartbeat (t : Z) (p : Peer) : Peer :=
  mkPeer (pNodeID p) (pAddress p) (pRegion p) (pZone p) (pRack p) (pHost p) (pStatus p) (Some t).

(** ** The interface *)

Class Store (S : Type) := {
  UpsertPeer : Peer -> op S unit;
  Heartbeat : string -> op S bool;
  GetPeer : string -> op S (option Peer);
  ListPeers : Z -> op S (list Peer);
  DeregisterPeer : string -> op S unit;
  PruneExpiredPeers : Z -> op S Z;
  PutArtifact : ArtifactRecord -> op S unit;
  GetArtifact : string -> op S (option ArtifactRecord);
  ReportSeed : string -> string -> op S unit;
  ListSeeds : string -> op S (list string);
  ReportChunks : string -> list string -> op S Z;
  LocateChunkNodes : string -> op S (list string);
  LocateChunkNodesBatch : list string -> op S (gmap string (list string));
  GetPeersBatch : list string -> op S (gmap string Peer)
}.

(** ** The in-memory driver *)

Module Mem.

Record Memory := mkMemory {
  peers : gmap string Peer;
  arts : gmap string ArtifactRecord;
  seeds : gmap string (gmap string Z);
  chunks : gmap string (gmap string Z)
}.

Definition NewMemory : Memory := mkMemory ∅ ∅ ∅ ∅.

Definition UpsertPeer (peer : Peer) : op Memory unit :=
  fun now m =>
    if bool_decide (pNodeID peer = "") then (Ok tt, m)
    else
      let peer := match pLastHeartbeat peer with None => withHeartbeat now peer | Some _ => peer end in
      let peer := if bool_decide (pStatus peer = "")
                  then mkPeer (pNodeID peer) (pAddress peer) (pRegion peer) (pZone peer) (pRack peer)
                         (pHost peer) "HEALTHY" (pLastHeartbeat peer)
                  else peer in
      (Ok tt, mkMemory (<[pNodeID peer := peer]> (peers m)) (arts m) (seeds m) (chunks m)).

Definition Heartbeat (nodeID : string) : op Memory bool :=
  fun now m =>
    match peers m !! nodeID with
    | None => (Ok false, m)
    | Some p => (Ok true, mkMemory (<[nodeID := withHeartbeat now p]> (peers m)) (arts m) (seeds m) (chunks m))
    end.

Definition GetPeer (nodeID : string) : op Memory (option Peer) :=
  fun _ m => (Ok (peers m !! nodeID), m).

(** [now.Sub(p.LastHeartbeat) <= expiry] *)
Definition alive (now expiry : Z) (p : Peer) : bool := (timeSub now (pLastHeartbeat p) <=? expiry)%Z.

Definition ListPeers (expiry : Z) : op Memory (list Peer) :=
  fun now m => (Ok (List.filter (fun p => (expiry <=? 0)%Z || alive now expiry p) (map_to_list (peers m)).*2), m).

(** A node leaves every seed and chunk entry. *)
Definition forget (id : string) (m : Memory) : Memory :=
  mkMemory (delete id (peers m)) (arts m) (delete id <$> seeds m) (delete id <$> chunks m).

Definition DeregisterPeer (nodeID : string) : op Memory unit := fun _ m => (Ok tt, forget nodeID m).

Definition deadPeers (now expiry : Z) (m : Memory) : list string :=
  map fst (List.filter (fun ip => negb (alive now expiry ip.2)) (map_to_list (peers m))).

Definition PruneExpiredPeers (expiry : Z) : op Memory Z :=
  fun now m =>
    let dead := deadPeers now expiry m in
    (Ok (Z.of_nat (length dead)), fold_left (fun m id => forget id m) dead m).

Definition PutArtifact (rec : ArtifactRecord) : op Memory unit :=
  fun _ m => (Ok tt, mkMemory (peers m) (<[aArtifactID rec := rec]> (arts m)) (seeds m) (chunks m)).

Definition GetArtifact (artifactID : string) : op Memory (option ArtifactRecord) :=
  fun _ m => (Ok (arts m !! artifactID), m).

Definition ReportSeed (artifactID nodeID : string) : op Memory unit :=
  fun now m =>
    let s := default ∅ (seeds m !! artifactID) in
    (Ok tt, mkMemory (peers m) (arts m) (<[artifactID := <[nodeID := now]> s]> (seeds m)) (chunks m)).

Definition ListSeeds (artifactID : string) : op Memory (list string) :=
  fun _ m => (Ok (map_to_list (default ∅ (seeds m !! artifactID))).*1, m).

(** The loop over the hashes: the chunk index and the number of hashes. *)
Fixpoint reportEach (now : Z) (nodeID : string) (hashes : list string) (cs : gmap string (gmap string Z)) (n : Z)
    : gmap string (gmap string Z) * Z :=
  match hashes with
  | [] => (cs, n)
  | h :: hs =>
      if bool_decide (h = "") then reportEach now nodeID hs cs n
      else reportEach now nodeID hs (<[h := <[nodeID := now]> (default ∅ (cs !! h))]> cs) (add64 n 1)
  end.

Definition ReportChunks (nodeID : string) (hashes : list string) : op Memory Z :=
  fun now m =>
    let ps := match peers m !! nodeID with
              | Some p => <[nodeID := withHeartbeat now p]> (peers m)
              | None => peers m
              end in
    let '(cs, n) := reportEach now nodeID hashes (chunks m) 0 in
    (Ok n, mkMemory ps (arts m) (seeds m) cs).

Definition nodesOf (m : Memory) (hash : string) : list string := (map_to_list (default ∅ (chunks m !! hash))).*1.

Definition LocateChunkNodes (hash : string) : op Memory (list string) := fun _ m => (Ok (nodesOf m hash), m).

Definition LocateChunkNodesBatch (hashes : list string) : op Memory (gmap string (list string)) :=
  fun _ m => (Ok (fold_left (fun out h => <[h := nodesOf m h]> out) hashes ∅), m).

Definition GetPeersBatch (nodeIDs : list string) : op Memory (gmap string Peer) :=
  fun _ m =>
    (Ok (fold_left (fun out id => match peers m !! id with Some p => <[id := p]> out | None => out end)
           nodeIDs ∅), m).

End Mem.

#[export] Instance memoryStore : Store Mem.Memory := {|
  UpsertPeer := Mem.UpsertPeer;
  Heartbeat := Mem.Heartbeat;
  GetPeer := Mem.GetPeer;
  ListPeers := Mem.ListPeers;
  DeregisterPeer := Mem.DeregisterPeer;
  PruneExpiredPeers := Mem.PruneExpiredPeers;
  PutArtifact := Mem.PutArtifact;
  GetArtifact := Mem.GetArtifact;
  ReportSeed := Mem.ReportSeed;
  ListSeeds := Mem.ListSeeds;
  ReportChunks := Mem.ReportChunks;
  LocateChunkNodes := Mem.LocateChunkNodes;
  LocateChunkNodesBatch := Mem.LocateChunkNodesBatch;
  GetPeersBatch := Mem.GetPeersBatch
|}.

(** * Properties *)

(** ** What a reader relies on

    The view that the read operations of a store give: who reported a chunk,
    who seeds an artifact, and what is known of a peer at a time.  The reads
    succeed, return the view and leave it as it is. *)
Class StoreReads (S : Type) `{!Store S} := {
  sInv : S -> Prop;
  sNodes : S -> string -> gset string;
  sSeeds : S -> string -> gset string;
  sPeer : Z -> S -> string -> option Peer;
  sameView : Z -> S -> S -> Prop := fun now s s' =>
    sInv s' /\ (forall h, sNodes s' h = sNodes s h) /\ (forall a, sSeeds s' a = sSeeds s a)
    /\ (forall id, sPeer now s' id = sPeer now s id);
  reads_peer : forall now s id, sInv s ->
    exists s', GetPeer id now s = (Ok (sPeer now s id), s') /\ sameView now s s';
  reads_peers : forall now s ids, sInv s ->
    exists m s', GetPeersBatch ids now s = (Ok m, s') /\ sameView now s s'
                 /\ forall id, id ∈ ids -> m !! id = sPeer now s id;
  reads_locate : forall now s hs, sInv s ->
    exists m s', LocateChunkNodesBatch hs now s = (Ok m, s') /\ sameView now s s'
      /\ forall h, h ∈ hs -> exists l, m !! h = Some l /\ NoDup l /\ list_to_set l = sNodes s h;
  reads_seeds : forall now s a, sInv s ->
    exists l s', ListSeeds a now s = (Ok l, s') /\ sameView now s s' /\ NoDup l /\ list_to_set l = sSeeds s a
}.

Lemma sameView_trans {S} `{StoreReads S} now s1 s2 s3 :
  sameView now s1 s2 -> sameView now s2 s3 -> sameView now s1 s3.
Proof.
  intros (_ & N1 & S1 & P1) (I2 & N2 & S2 & P2). split_and!; [done|..]; intros; by rewrite ?N2, ?S2, ?P2.
Qed.

(** ** The in-memory driver *)

Section memory.
Import Mem.
Implicit Types m : Memory.

Lemma elem_of_nodesOf m h id : id ∈ nodesOf m h <-> is_Some (default ∅ (chunks m !! h) !! id).
Proof.
  unfold nodesOf. rewrite list_elem_of_fmap. split.
  - intros ([k t] & -> & Hin). apply elem_of_map_to_list in Hin. eauto.
  - intros [t Ht]. exists (id, t). by rewrite elem_of_map_to_list.
Qed.

Lemma nodesOf_NoDup m h : NoDup (nodesOf m h).
Proof. apply NoDup_fst_map_to_list. Qed.

Lemma list_to_set_keys (mm : gmap string Z) : list_to_set (map_to_list mm).*1 =@{gset string} dom mm.
Proof.
  apply set_eq. intros x. rewrite elem_of_list_to_set, list_elem_of_fmap, elem_of_dom. split.
  - intros ([k t] & -> & Hin). apply elem_of_map_to_list in Hin. eauto.
  - intros [t Ht]. exists (x, t). by rewrite elem_of_map_to_list.
Qed.

(** Filling a map in a loop over keys. *)
Lemma fold_insert_lookup {V} (f : string -> V) ks : forall (out : gmap string V) k,
  fold_left (fun out h => <[h := f h]> out) ks out !! k = if bool_decide (k ∈ ks) then Some (f k) else out !! k.
Proof.
  induction ks as [|x ks IH]; intros out k; [done|]. simpl. rewrite IH.
  destruct (decide (k = x)) as [->|Hne].
  - rewrite lookup_insert_eq. repeat case_bool_decide; set_solver.
  - rewrite lookup_insert_ne by done. repeat case_bool_decide; set_solver.
Qed.

Lemma fold_insert_some {V} (f : string -> option V) ks : forall (out : gmap string V) k,
  (forall k v, out !! k = Some v -> f k = Some v) ->
  fold_left (fun out id => match f id with Some p => <[id := p]> out | None => out end) ks out !! k
  = if bool_decide (k ∈ ks) then f k else out !! k.
Proof.
  induction ks as [|x ks IH]; intros out k Hout; [done|]. simpl.
  assert (forall out', (forall k v, out' !! k = Some v -> f k = Some v) ->
    (forall k, k <> x -> out' !! k = out !! k) -> out' !! x = f x \/ (out' = out /\ f x = None) ->
    fold_left (fun out id => match f id with Some p => <[id := p]> out | None => out end) ks out' !! k
    = if bool_decide (k ∈ x :: ks) then f k else out !! k) as H.
  { intros out' H1 H2 H3. rewrite IH by done. destruct (decide (k = x)) as [->|Hne].
    - rewrite (bool_decide_eq_true_2 (x ∈ x :: ks)) by by left. case_bool_decide; [done|].
      destruct H3 as [?|[-> Hx]]; [done|]. destruct (out !! x) as [v|] eqn:E; [|done]. by rewrite (Hout x v E).
    - rewrite H2 by done. repeat case_bool_decide; set_solver. }
  destruct (f x) as [v|] eqn:E.
  - apply H.
    + intros k' v'. intros [[<- <-]|[_ ?]]%lookup_insert_Some; eauto.
    + intros k' Hne. by rewrite lookup_insert_ne.
    + left. by rewrite lookup_insert_eq.
  - apply H; auto.
Qed.

#[export] Program Instance memoryReads : StoreReads Memory := {|
  sInv := fun _ => True;
  sNodes := fun m h => dom (default ∅ (chunks m !! h));
  sSeeds := fun m a => dom (default ∅ (seeds m !! a));
  sPeer := fun _ m id => peers m !! id
|}.
Next Obligation. intros now m id _. by exists m. Qed.
Next Obligation.
  intros now m ids _. eexists _, m. split; [reflexivity|]. split; [done|]. intros id Hid.
  rewrite (fold_insert_some (fun id => peers m !! id)) by done. by rewrite bool_decide_eq_true_2.
Qed.
Next Obligation.
  intros now m hs _. eexists _, m. split; [reflexivity|]. split; [done|]. intros h Hh.
  exists (nodesOf m h). rewrite fold_insert_lookup, bool_decide_eq_true_2 by done.
  split; [done|]. split; [apply nodesOf_NoDup|apply list_to_set_keys].
Qed.
Next Obligation.
  intros now m a _. eexists _, m. split; [reflexivity|]. split; [done|].
  split; [apply NoDup_fst_map_to_list|apply list_to_set_keys].
Qed.

(** ** Pruning *)

Lemma forget_fold ids : forall m,
  let m' := fold_left (fun m id => forget id m) ids m in
  arts m' = arts m
  /\ (forall id, peers m' !! id = if bool_decide (id ∈ ids) then None else peers m !! id)
  /\ (forall h id, default ∅ (chunks m' !! h) !! id
                   = if bool_decide (id ∈ ids) then None else default ∅ (chunks m !! h) !! id)
  /\ (forall a id, default ∅ (seeds m' !! a) !! id
                   = if bool_decide (id ∈ ids) then None else default ∅ (seeds m !! a) !! id).
Proof.
  assert (forall (mm : gmap string (gmap string Z)) x k id,
    default ∅ ((delete x <$> mm) !! k) !! id = if bool_decide (id = x) then None else default ∅ (mm !! k) !! id) as Hd.
  { intros mm x k id. rewrite lookup_fmap. destruct (mm !! k); simpl.
    - case_bool_decide; subst; [by rewrite lookup_delete_eq|by rewrite lookup_delete_ne].
    - rewrite lookup_empty. by case_bool_decide. }
  induction ids as [|x ids IH]; intros m m'; [done|]. subst m'. simpl.
  destruct (IH (forget x m)) as (Ha & Hp & Hc & Hs). split; [done|].
  split; [|split]; intros; rewrite ?Hp, ?Hc, ?Hs; simpl; rewrite ?Hd.
  - destruct (decide (id = x)) as [->|Hne]; [rewrite lookup_delete_eq|rewrite lookup_delete_ne by done];
      repeat case_bool_decide; set_solver.
  - repeat case_bool_decide; set_solver.
  - repeat case_bool_decide; set_solver.
Qed.

Lemma elem_of_dead now e m id :
  id ∈ deadPeers now e m <-> exists p, peers m !! id = Some p /\ alive now e p = false.
Proof.
  unfold deadPeers. rewrite list_elem_of_fmap. split.
  - intros ([k p] & -> & [Hin Ha]%elem_of_filterb). apply elem_of_map_to_list in Hin.
    exists p. split; [done|]. by apply negb_true_iff in Ha.
  - intros (p & Hp & Ha). exists (id, p). split; [done|]. apply elem_of_filterb.
    rewrite elem_of_map_to_list. simpl. by rewrite Ha.
Qed.

Lemma length_filterb {A} (P : A -> bool) l :
  length l = length (List.filter (fun x => negb (P x)) l) + length (List.filter P l).
Proof. induction l as [|x l IH]; simpl; [done|]. rewrite IH. destruct (P x); simpl; lia. Qed.

Lemma dead_count now e m :
  size (peers m) = length (deadPeers now e m) + size (peers (PruneExpiredPeers e now m).2).
Proof.
  destruct (forget_fold (deadPeers now e m) m) as (_ & Hp & _). cbv zeta in Hp.
  rewrite <- !length_map_to_list. rewrite (length_filterb (fun ip => alive now e ip.2) (map_to_list (peers m))).
  unfold deadPeers. rewrite length_map. f_equal. apply Permutation_length, NoDup_Permutation.
  - apply NoDup_ListNoDup, List.NoDup_filter, NoDup_ListNoDup, NoDup_map_to_list.
  - apply NoDup_map_to_list.
  - intros [id p]. rewrite elem_of_filterb, !elem_of_map_to_list. simpl. rewrite Hp. case_bool_decide as Hd.
    + apply elem_of_dead in Hd as (p' & Hl & Ha). split; [|done]. intros [Hl' Ha']. congruence.
    + split; [by intros [? _]|]. intros Hl. split; [done|]. destruct (alive now e p) eqn:E; [done|].
      destruct Hd. apply elem_of_dead. eauto.
Qed.

(** Pruning the in-memory store removes exactly the peers whose last
    heartbeat is older than the expiry time, with every seed and chunk entry
    of theirs and nothing else, and returns their number. *)
Theorem PruneExpiredPeers_exact now expiry m :
  let r := PruneExpiredPeers expiry now m in
  let dead id := exists p, peers m !! id = Some p /\ alive now expiry p = false in
  r.1 = Ok (Z.of_nat (size (peers m)) - Z.of_nat (size (peers r.2)))%Z
  /\ arts r.2 = arts m
  /\ (forall id, dead id -> peers r.2 !! id = None) /\ (forall id, ~ dead id -> peers r.2 !! id = peers m !! id)
  /\ (forall h id, id ∈ nodesOf r.2 h <-> id ∈ nodesOf m h /\ ~ dead id)
  /\ (forall a id, id ∈ sSeeds r.2 a <-> id ∈ sSeeds m a /\ ~ dead id).
Proof.
  intros r dead. destruct (forget_fold (deadPeers now expiry m) m) as (Ha & Hp & Hc & Hs). cbv zeta in *.
  change (fold_left _ _ m) with r.2 in *.
  assert (forall id, bool_decide (id ∈ deadPeers now expiry m) = true <-> dead id) as Hdead.
  { intros id. by rewrite bool_decide_eq_true, elem_of_dead. }
  split_and!; [|done|..].
  - cbn [r PruneExpiredPeers fst]. f_equal.
    rewrite (dead_count now expiry m). unfold r. lia.
  - intros id Hd. rewrite Hp. apply Hdead in Hd. by rewrite Hd.
  - intros id Hd. rewrite Hp. rewrite <- Hdead in Hd. apply not_true_iff_false in Hd. by rewrite Hd.
  - intros h id. rewrite !elem_of_nodesOf, Hc. rewrite <- Hdead.
    destruct (bool_decide (id ∈ deadPeers now expiry m)); split; [by intros [? ?]|by intros [_ ?]|done|by intros [? _]].
  - intros a id. simpl. rewrite !elem_of_dom, Hs. rewrite <- Hdead.
    destruct (bool_decide (id ∈ deadPeers now expiry m)); split; [by intros [? ?]|by intros [_ ?]|done|by intros [? _]].
Qed.

End memory.
