(* ===== verification/MetaCache.v ===== *)
(** * Metadata cache (pkg/metacache/cache.go, memory.go, none.go)

    The [Cache] interface, the in-memory driver with its time to live and the
    driver that stores nothing. *)

From S2P Require Import Prelude MetaStore.
Local Open Scope go_scope.

Class Cache (C : Type) := {
  Get : string -> op C (option bytes);
  Set_ : string -> bytes -> Z -> op C unit;
  MGet : list string -> op C (gmap string bytes);
  MSet : gmap string bytes -> Z -> op C unit;
  Delete : string -> op C unit;
  DeletePrefix : string -> op C unit
}.

(** ** Memory *)

Module MemCache.

Record memEntry := mkEntry { value : bytes; expiresAt : Z }.

Record Memory := mkMemory { items : gmap string memEntry; defaultTTL : Z }.

Definition NewMemory (ttl : Z) : Memory :=
  mkMemory ∅ (if (ttl <=? 0)%Z then 10 * 1000000000 else ttl)%Z.

Definition withItems (i : gmap string memEntry) (m : Memory) : Memory := mkMemory i (defaultTTL m).

(** [now.After(e.expiresAt)]; an entry always has an expiry time. *)
Definition expired (now : Z) (e : memEntry) : bool := (expiresAt e <? now)%Z.

(** One tick of the janitor. *)
Definition janitor : op Memory unit :=
  fun now m => (Ok tt, withItems (filter (fun ke => expired now ke.2 = false) (items m)) m).

Definition Get (key : string) : op Memory (option bytes) :=
  fun now m =>
    match items m !! key with
    | None => (Ok None, m)
    | Some e => if expired now e then (Ok None, withItems (delete key (items m)) m) else (Ok (Some (value e)), m)
    end.

Definition Set_ (key : string) (v : bytes) (ttl : Z) : op Memory unit :=
  fun now m =>
    let ttl := if (ttl <=? 0)%Z then defaultTTL m else ttl in
    (Ok tt, withItems (<[key := mkEntry v (now + ttl)]> (items m)) m).

Fixpoint MGet (keys : list string) : op Memory (gmap string bytes) :=
  match keys with
  | [] => opRet ∅
  | k :: ks =>
      let* v := Get k in
      let* rest := MGet ks in
      opRet match v with Some v => <[k := v]> rest | None => rest end
  end.

Definition MSet (its : gmap string bytes) (ttl : Z) : op Memory unit :=
  foldr (fun kv k => let* _ := Set_ kv.1 kv.2 ttl in k) (opRet tt) (map_to_list its).

Definition Delete (key : string) : op Memory unit := fun _ m => (Ok tt, withItems (delete key (items m)) m).

Definition DeletePrefix (prefix : string) : op Memory unit :=
  fun _ m => (Ok tt, withItems (filter (fun ke => hasPrefix prefix ke.1 = false) (items m)) m).

End MemCache.

#[export] Instance memoryCache : Cache MemCache.Memory := {|
  Get := MemCache.Get; Set_ := MemCache.Set_; MGet := MemCache.MGet; MSet := MemCache.MSet;
  Delete := MemCache.Delete; DeletePrefix := MemCache.DeletePrefix
|}.

(** ** Nop *)

Definition Nop : Type := unit.

#[export] Instance nopCache : Cache Nop := {|
  Get := fun _ => opRet None; Set_ := fun _ _ _ => opRet tt; MGet := fun _ => opRet ∅;
  MSet := fun _ _ => opRet tt; Delete := fun _ => opRet tt; DeletePrefix := fun _ => opRet tt
|}.

(** * Properties *)

(** An operation that succeeds, with its result and state. *)
Definition runs {S A} (m : op S A) (now : Z) (s : S) (Q : A -> S -> Prop) : Prop :=
  exists a s', m now s = (Ok a, s') /\ Q a s'.

Section runs.
Context {S : Type}.

Lemma runs_ret {A} (a : A) now (s : S) (Q : A -> S -> Prop) : Q a s -> runs (opRet a) now s Q.
Proof. intros H. by exists a, s. Qed.

Lemma runs_now now (s : S) (Q : Z -> S -> Prop) : Q now s -> runs opNow now s Q.
Proof. intros H. by exists now, s. Qed.

Lemma runs_bind {A B} (m : op S A) (k : A -> op S B) now s Q :
  runs m now s (fun a s' => runs (k a) now s' Q) -> runs (opBind m k) now s Q.
Proof. intros (a & s' & Hm & b & s'' & Hk & HQ). exists b, s''. unfold opBind. by rewrite Hm. Qed.

Lemma runs_try {A} (m : op S A) now s (Q : res A -> S -> Prop) :
  runs m now s (fun a => Q (Ok a)) -> runs (opTry m) now s Q.
Proof. intros (a & s' & Hm & HQ). exists (Ok a), s'. unfold opTry. by rewrite Hm. Qed.

Lemma runs_ignore {A} (m : op S A) now s (Q : unit -> S -> Prop) :
  runs m now s (fun _ => Q tt) -> runs (opIgnore m) now s Q.
Proof. intros (a & s' & Hm & HQ). exists tt, s'. unfold opIgnore. by rewrite Hm. Qed.

Lemma runs_mono {A} (m : op S A) now s (Q Q' : A -> S -> Prop) :
  runs m now s Q -> (forall a s', Q a s' -> Q' a s') -> runs m now s Q'.
Proof. intros (a & s' & Hm & HQ) H. exists a, s'. auto. Qed.

Lemma runs_on {T A} (get : T -> S) (set : S -> T -> T) (m : op S A) now t (Q : A -> T -> Prop) :
  runs m now (get t) (fun a s' => Q a (set s' t)) -> runs (opOn get set m) now t Q.
Proof. intros (a & s' & Hm & HQ). exists a, (set s' t). unfold opOn. by rewrite Hm. Qed.

End runs.

Section memory.
Import MemCache.
Implicit Types m : Memory.

(** What a read at [now] finds. *)
Definition live (now : Z) m (key : string) : option bytes :=
  match items m !! key with
  | Some e => if expired now e then None else Some (value e)
  | None => None
  end.

(** Only entries that no read would find have gone. *)
Definition shrinks (now : Z) m m' : Prop :=
  defaultTTL m' = defaultTTL m /\ items m' ⊆ items m /\ forall key, live now m' key = live now m key.

Lemma shrinks_refl now m : shrinks now m m.
Proof. done. Qed.

Lemma shrinks_trans now m1 m2 m3 : shrinks now m1 m2 -> shrinks now m2 m3 -> shrinks now m1 m3.
Proof.
  intros (E1 & S1 & L1) (E2 & S2 & L2). split; [congruence|]. split; [by trans (items m2)|].
  intros key. by rewrite L2.
Qed.

Lemma Get_runs now m key : runs (Get key) now m (fun v m' => v = live now m key /\ shrinks now m m').
Proof.
  unfold runs, Get, live. destruct (items m !! key) as [e|] eqn:E; [|by exists None, m].
  destruct (expired now e) eqn:Ex; [|by eexists _, m].
  eexists _, _. split; [reflexivity|]. split; [done|]. split; [done|]. split; [apply delete_subseteq|].
  intros k. unfold live. simpl. destruct (decide (key = k)) as [<-|Hne].
  - by rewrite lookup_delete_eq, E, Ex.
  - by rewrite lookup_delete_ne.
Qed.

Lemma MGet_runs now keys : forall m,
  runs (MGet keys) now m (fun got m' => shrinks now m m'
    /\ forall k, got !! k = if bool_decide (k ∈ keys) then live now m k else None).
Proof.
  induction keys as [|k keys IH]; intros m; cbn [MGet].
  { apply runs_ret. split; [apply shrinks_refl|]. intros k. by rewrite lookup_empty. }
  apply runs_bind. eapply runs_mono; [apply Get_runs|]. intros v m1 [-> Hs1].
  apply runs_bind. eapply runs_mono; [apply IH|]. intros rest m2 [Hs2 Hrest].
  apply runs_ret. split; [by eapply shrinks_trans|]. pose proof Hs1 as (_ & _ & Hl1).
  intros k'. destruct (decide (k' = k)) as [->|Hne].
  - rewrite (bool_decide_eq_true_2 (k ∈ k :: keys)) by by left.
    destruct (live now m k) as [v|] eqn:E; [by rewrite lookup_insert_eq|].
    rewrite Hrest, Hl1, E. by case_bool_decide.
  - assert (rest !! k' = if bool_decide (k' ∈ k :: keys) then live now m k' else None) as Hk'.
    { rewrite Hrest, Hl1. repeat case_bool_decide; set_solver. }
    destruct (live now m k); [by rewrite lookup_insert_ne|done].
Qed.

Lemma Set_runs now m key v ttl :
  runs (Set_ key v ttl) now m (fun _ m' => defaultTTL m' = defaultTTL m
    /\ items m' = <[key := mkEntry v (now + if (ttl <=? 0)%Z then defaultTTL m else ttl)%Z]> (items m)).
Proof. by eexists _, _. Qed.

Lemma MSet_list now ttl (l : list (string * bytes)) : forall m,
  NoDup l.*1 ->
  runs (foldr (fun kv k => let* _ := Set_ kv.1 kv.2 ttl in k) (opRet tt) l) now m (fun _ m' =>
    defaultTTL m' = defaultTTL m /\ forall k, items m' !! k
      = match (list_to_map l : gmap string bytes) !! k with
        | Some v => Some (mkEntry v (now + if (ttl <=? 0)%Z then defaultTTL m else ttl)%Z)
        | None => items m !! k end).
Proof.
  induction l as [|[k v] l IH]; intros m Hnd; simpl.
  { apply runs_ret. split; [done|]. intros k. by rewrite lookup_empty. }
  apply NoDup_cons in Hnd as [Hni Hnd].
  apply runs_bind. eapply runs_mono; [apply Set_runs|]. intros _ m1 [Hd1 Hi1].
  eapply runs_mono; [by apply IH|]. intros _ m2 [Hd2 Hi2]. split; [congruence|]. intros k'.
  rewrite Hi2, Hd1, Hi1. destruct (decide (k = k')) as [<-|Hne].
  - rewrite lookup_insert_eq. rewrite (not_elem_of_list_to_map_1 l k) by done. by rewrite lookup_insert_eq.
  - rewrite (lookup_insert_ne (list_to_map l)) by done.
    destruct (list_to_map l !! k'); [done|]. by rewrite lookup_insert_ne.
Qed.

Lemma MSet_runs now m its ttl :
  runs (MSet its ttl) now m (fun _ m' => defaultTTL m' = defaultTTL m /\ forall k, items m' !! k
    = match its !! k with
      | Some v => Some (mkEntry v (now + if (ttl <=? 0)%Z then defaultTTL m else ttl)%Z)
      | None => items m !! k end).
Proof.
  unfold MSet. pose proof (MSet_list now ttl (map_to_list its) m (NoDup_fst_map_to_list its)) as H.
  by rewrite list_to_map_to_list in H.
Qed.

Lemma Delete_runs now m key :
  runs (Delete key) now m (fun _ m' => defaultTTL m' = defaultTTL m /\ items m' = delete key (items m)).
Proof. by eexists _, _. Qed.

Lemma DeletePrefix_runs now m prefix :
  runs (DeletePrefix prefix) now m (fun _ m' => defaultTTL m' = defaultTTL m /\ items m' ⊆ items m
    /\ forall k, hasPrefix prefix k = true -> items m' !! k = None).
Proof.
  eexists _, _. split; [reflexivity|]. simpl. split; [done|]. split; [apply map_filter_subseteq|].
  intros k Hk. apply map_lookup_filter_None_2. right. intros e _. simpl. by rewrite Hk.
Qed.

End memory.
