(* ===== verification/Redis.v ===== *)
(** * Redis metadata cache (pkg/metacache/redis.go) and opening a cache (pkg/metacache/cache.go)

    The Redis server and its client are not part of the repository: they are a
    class of operations, with the documented behaviour that the cache relies on
    as laws.  A SCAN is described by the keys that it still owes to its caller:
    it starts with all keys, and a key that it owes is returned sooner or later
    unless it is removed before. *)

From S2P Require Import Prelude MetaStore MetaCache.
Local Open Scope go_scope.

(** ** What a cache promises *)

(** The patterns of Redis give a meaning to the star, the question mark, the
    brackets and the backslash. *)
Definition globChar (c : Ascii.ascii) : bool :=
  bool_decide (c ∈ map Ascii.ascii_of_N [42; 63; 91; 93; 92]%N).

Fixpoint plainGlob (s : string) : bool :=
  match s with EmptyString => true | String c s' => negb (globChar c) && plainGlob s' end.

(** [view now c key] is what a read of [key] at [now] finds.  A call that fails
    may have been executed or not. *)
Class CacheSpec (C : Type) {Ca : Cache C} := {
  cacheOK : C -> Prop;
  view : Z -> C -> string -> option bytes;
  view_expires : forall now now' c k v,
    (now <= now')%Z -> view now' c k = Some v -> view now c k = Some v;
  Get_spec : forall key now c, cacheOK c ->
    cacheOK (Get key now c).2 /\ (forall k, view now (Get key now c).2 k = view now c k)
    /\ forall v, (Get key now c).1 = Ok v -> v = view now c key;
  MGet_spec : forall keys now c, cacheOK c ->
    cacheOK (MGet keys now c).2 /\ (forall k, view now (MGet keys now c).2 k = view now c k)
    /\ forall got, (MGet keys now c).1 = Ok got ->
         forall k, got !! k = if bool_decide (k ∈ keys) then view now c k else None;
  Set_spec : forall key v ttl now c, cacheOK c ->
    let '(r, c') := Set_ key v ttl now c in
    cacheOK c' /\ (forall k, k <> key -> view now c' k = view now c k)
    /\ (view now c' key = Some v \/ (exists e, r = Err e) /\ view now c' key = view now c key);
  MSet_spec : forall items ttl now c, cacheOK c ->
    let '(r, c') := MSet items ttl now c in
    cacheOK c' /\ forall k,
      match items !! k with
      | None => view now c' k = view now c k
      | Some v => view now c' k = Some v \/ (exists e, r = Err e) /\ view now c' k = view now c k
      end;
  Delete_spec : forall key now c, cacheOK c ->
    let '(r, c') := Delete key now c in
    cacheOK c' /\ (forall k, k <> key -> view now c' k = view now c k)
    /\ (view now c' key = None \/ (exists e, r = Err e) /\ view now c' key = view now c key);
  DeletePrefix_spec : forall prefix now c, cacheOK c -> plainGlob prefix = true ->
    let '(r, c') := DeletePrefix prefix now c in
    cacheOK c' /\ forall k,
      if hasPrefix prefix k
      then view now c' k = None \/ (exists e, r = Err e) /\ view now c' k = view now c k
      else view now c' k = view now c k
}.

Module RedisCache.

(** ** The client *)

(** A value in the answer of MGET. *)
Inductive reply := RNil | RString (b : bytes) | RBytes (b : bytes) | ROther.

(** The commands that are sent through a pipeline. *)
Inductive command := CSet (key : string) (value : bytes) (ttl : Z) | CUnlink (key : string).

Class RedisClient (R : Type) := {
  rPing : op R unit;
  rGet : string -> op R (option bytes);
  rSet : string -> bytes -> Z -> op R unit;
  rMGet : list string -> op R (list reply);
  rDel : string -> op R unit;
  (** cursor, pattern and count; the keys and the next cursor *)
  rScan : Z -> string -> Z -> op R (list string * Z);
  rExec : list command -> op R unit;
  (** how many calls an iteration that starts now takes at most *)
  rRounds : R -> nat
}.

(** ** Options *)

Record Pool := mkPool {
  MaxOpenConns : Z; MaxIdleConns : Z; MinIdleConns : Z; ConnMaxLifetime : Z; ConnMaxIdleTime : Z;
  DialTimeout : Z; ReadTimeout : Z; WriteTimeout : Z; PoolTimeout : Z
}.

Record Options := mkOptions {
  TTL : Z; URL : string; Addr : string; Password : string; DB : Z; Prefix : string; oPool : Pool
}.

(** [redis.Options], the fields that are read or written here. *)
Record redisOptions := mkRedisOptions {
  roAddr : string; roPassword : string; roDB : Z; roPool : Pool
}.

Definition second : Z := 1000000000.

Section options.
(** [redis.ParseURL] and [runtime.GOMAXPROCS(0)] *)
Variables (ParseURL : string -> res redisOptions) (procs : Z).

Definition poolOptions (p : Pool) : Pool :=
  let poolSize := positiveOr (Z.max 8 (wrap64 (10 * procs))) (MaxOpenConns p) in
  let minIdle := positiveOr 2 (MinIdleConns p) in
  let maxIdle := positiveOr (Z.max minIdle (Z.quot poolSize 2)) (MaxIdleConns p) in
  mkPool poolSize maxIdle minIdle (ConnMaxLifetime p) (positiveOr (5 * 60 * second) (ConnMaxIdleTime p))
    (positiveOr (3 * second) (DialTimeout p)) (positiveOr (2 * second) (ReadTimeout p))
    (positiveOr (2 * second) (WriteTimeout p)) (positiveOr (4 * second) (PoolTimeout p)).

Definition redisClientOptions (opts : Options) : res redisOptions :=
  let target := if bool_decide (URL opts = "") then Addr opts else URL opts in
  let? ro :=
    if contains "://" target then
      match ParseURL target with Ok ro => Ok ro | Err e => Err (EWrap "parse redis url" e) end
    else
      Ok (mkRedisOptions (if bool_decide (target = "") then "127.0.0.1:6379" else target)
            (Password opts) (DB opts) (mkPool 0 0 0 0 0 0 0 0 0)) in
  Ok (mkRedisOptions (roAddr ro)
        (if bool_decide (Password opts = "") then roPassword ro else Password opts)
        (if (DB opts =? 0)%Z then roDB ro else DB opts)
        (poolOptions (oPool opts))).

End options.

(** ** The cache *)

Record Redis (R : Type) := mkRedis { client : R; prefix : string; ttl : Z }.
Arguments mkRedis {R}. Arguments client {R}. Arguments prefix {R}. Arguments ttl {R}.

Section redis.
Context {R : Type} {RC : RedisClient R}.

Definition setClient (c : R) (r : Redis R) : Redis R := mkRedis c (prefix r) (ttl r).

(** A call of the client; its error is wrapped. *)
Definition call {A} (msg : string) (m : op R A) : op (Redis R) A :=
  fun now r =>
    let '(x, c) := m now (client r) in
    (match x with Ok a => Ok a | Err e => Err (EWrap msg e) end, setClient c r).

(** [redis.NewClient] and the first ping; [c] is the client. *)
Definition NewRedis (ParseURL : string -> res redisOptions) (procs : Z) (opts : Options) (c : R) (now : Z)
    : res (Redis R) :=
  let? ro := redisClientOptions ParseURL procs opts in
  let '(pong, c') := rPing now c in
  match pong with
  | Err e => Err (EWrap ("redis ping " +:+ roAddr ro) e)
  | Ok _ => Ok (mkRedis c' (nonemptyOr "spider:" (Prefix opts))
                  (positiveOr (10 * second) (TTL opts)))
  end.

Definition k (r : Redis R) (key : string) : string := prefix r +:+ key.

Definition Get (key : string) : op (Redis R) (option bytes) :=
  fun now r => call "redis get" (rGet (k r key)) now r.

Definition Set_ (key : string) (value : bytes) (t : Z) : op (Redis R) unit :=
  fun now r => call "redis set" (rSet (k r key) value (positiveOr (ttl r) t)) now r.

(** The loop over the values; a value of another type is skipped. *)
Fixpoint collect (keys : list string) (vals : list reply) (out : gmap string bytes) : gmap string bytes :=
  match keys, vals with
  | key :: keys', v :: vals' =>
      collect keys' vals' match v with RString b | RBytes b => <[key := b]> out | _ => out end
  | _, _ => out
  end.

Definition MGet (keys : list string) : op (Redis R) (gmap string bytes) :=
  fun now r =>
    if bool_decide (keys = []) then (Ok ∅, r)
    else (let* vals := call "redis mget" (rMGet (map (k r) keys)) in opRet (collect keys vals ∅)) now r.

Definition MSet (items : gmap string bytes) (t : Z) : op (Redis R) unit :=
  fun now r =>
    if bool_decide (items = ∅) then (Ok tt, r)
    else call "redis mset"
           (rExec (map (fun kv => CSet (k r kv.1) kv.2 (positiveOr (ttl r) t)) (map_to_list items))) now r.

Definition Delete (key : string) : op (Redis R) unit :=
  fun now r => call "redis del" (rDel (k r key)) now r.

(** One turn of the loop: the next cursor. *)
Definition scanRound (cursor : Z) (pattern : string) : op (Redis R) Z :=
  let* kn := call "redis scan" (rScan cursor pattern 256) in
  let* _ := (if bool_decide (kn.1 = []) then opRet tt else call "redis unlink" (rExec (map CUnlink kn.1))) in
  opRet kn.2.

(** The loop; [false] when [fuel] turns are not enough. *)
Fixpoint scanLoop (fuel : nat) (cursor : Z) (pattern : string) : op (Redis R) bool :=
  match fuel with
  | O => opRet false
  | S fuel' =>
      let* next := scanRound cursor pattern in
      if (next =? 0)%Z then opRet true else scanLoop fuel' next pattern
  end.

Definition DeletePrefix (fuel : nat) (p : string) : op (Redis R) bool :=
  fun now r => scanLoop fuel 0 (k r p +:+ "*") now r.

End redis.
End RedisCache.

#[export] Instance redisCache {R} {RC : RedisCache.RedisClient R} : Cache (RedisCache.Redis R) := {|
  Get := RedisCache.Get; Set_ := RedisCache.Set_; MGet := RedisCache.MGet; MSet := RedisCache.MSet;
  Delete := RedisCache.Delete;
  DeletePrefix := fun p now r =>
    let '(x, r') := RedisCache.DeletePrefix (RedisCache.rRounds (RedisCache.client r)) p now r in
    (match x with Ok _ => Ok tt | Err e => Err e end, r')
|}.

(** * Properties *)

(** ** The laws of the server *)

Section laws.
Import RedisCache.

(** Letters from a to z. *)
Fixpoint lowerCase (s : string) : bool :=
  match s with
  | EmptyString => true
  | String c s' => (97 <=? Ascii.N_of_ascii c)%N && (Ascii.N_of_ascii c <=? 122)%N && lowerCase s'
  end.

Definition target (c : command) : string := match c with CSet key _ _ | CUnlink key => key end.
Definition effect (c : command) : option bytes := match c with CSet _ v _ => Some v | CUnlink _ => None end.
Definition wellTimed (c : command) : Prop := match c with CSet _ _ t => (0 < t)%Z | CUnlink _ => True end.

Definition apply (m : gmap string bytes) (c : command) : gmap string bytes :=
  match c with CSet key v _ => <[key := v]> m | CUnlink key => delete key m end.

Definition replyOf (v : option bytes) : reply := match v with Some b => RString b | None => RNil end.

(** [held now s]: the keys that have not expired at [now], and their values.
    [owed now s cursor key]: an iteration at [cursor] has yet to return [key].
    [left s cursor]: how many calls it takes at most.  A pipeline executes its
    commands in their order; when it fails, it may have skipped some. *)
Class RedisLaws (R : Type) {RC : RedisClient R} := {
  held : Z -> R -> gmap string bytes;
  owed : Z -> R -> Z -> string -> Prop;
  left : R -> Z -> nat;
  glob : string -> string -> bool;
  glob_star : forall p key, plainGlob p = true -> glob (p +:+ "*") key = hasPrefix p key;
  glob_class : forall cs p key, lowerCase cs = true -> glob ("[" +:+ cs +:+ "]" +:+ p) key = true ->
    hasPrefix "[" key = false;
  held_later : forall now now' s, (now <= now')%Z -> held now' s ⊆ held now s;
  rGet_law : forall key now s, held now (rGet key now s).2 = held now s
    /\ forall v, (rGet key now s).1 = Ok v -> v = held now s !! key;
  rMGet_law : forall keys now s, held now (rMGet keys now s).2 = held now s
    /\ forall vals, (rMGet keys now s).1 = Ok vals -> vals = map (fun key => replyOf (held now s !! key)) keys;
  rSet_law : forall key v t now s, (0 < t)%Z ->
    held now (rSet key v t now s).2 = <[key := v]> (held now s)
    \/ (exists e, (rSet key v t now s).1 = Err e) /\ held now (rSet key v t now s).2 = held now s;
  rDel_law : forall key now s,
    held now (rDel key now s).2 = delete key (held now s)
    \/ (exists e, (rDel key now s).1 = Err e) /\ held now (rDel key now s).2 = held now s;
  rExec_law : forall cmds now s, Forall wellTimed cmds ->
    exists ran, ran `sublist_of` cmds /\ held now (rExec cmds now s).2 = foldl apply (held now s) ran
      /\ ((rExec cmds now s).1 = Ok tt -> ran = cmds);
  rScan_law : forall cursor pattern count now s, held now (rScan cursor pattern count now s).2 = held now s
    /\ forall keys next, (rScan cursor pattern count now s).1 = Ok (keys, next) ->
         (forall key, key ∈ keys -> glob pattern key = true)
         /\ (forall key, owed now s cursor key -> glob pattern key = true ->
              key ∈ keys \/ next <> 0%Z /\ owed now (rScan cursor pattern count now s).2 next key)
         /\ (next <> 0%Z -> left (rScan cursor pattern count now s).2 next < left s cursor);
  left_pos : forall s cursor, 0 < left s cursor;
  left_start : forall s, left s 0 <= rRounds s;
  owed_start : forall now s key, is_Some (held now s !! key) -> owed now s 0 key;
  unlink_law : forall keys now s cursor,
    left (rExec (map CUnlink keys) now s).2 cursor <= left s cursor
    /\ forall key, owed now s cursor key -> is_Some (held now (rExec (map CUnlink keys) now s).2 !! key) ->
         owed now (rExec (map CUnlink keys) now s).2 cursor key
}.

End laws.

(** ** The commands of a pipeline *)

Section pipeline.
Import RedisCache.

Lemma foldl_apply_lookup cmds : forall m key,
  foldl apply m cmds !! key = m !! key /\ (forall c, c ∈ cmds -> target c <> key)
  \/ exists c, c ∈ cmds /\ target c = key /\ foldl apply m cmds !! key = effect c.
Proof.
  induction cmds as [|c cmds IH] using rev_ind; intros m key.
  { left. split; [done|]. intros c Hc. by apply elem_of_nil in Hc. }
  rewrite foldl_app. simpl. destruct (decide (target c = key)) as [<-|Hne].
  { right. exists c. split; [set_solver|]. split; [done|].
    destruct c; simpl; [apply lookup_insert_eq|apply lookup_delete_eq]. }
  assert (apply (foldl apply m cmds) c !! key = foldl apply m cmds !! key) as ->.
  { destruct c; simpl in *; [by apply lookup_insert_ne|by apply lookup_delete_ne]. }
  destruct (IH m key) as [[He Hno]|(c' & Hc' & Ht & He)].
  - left. split; [done|]. intros c' [Hc'|Hc']%elem_of_app; [by apply Hno|]. apply list_elem_of_singleton in Hc' as ->. done.
  - right. exists c'. set_solver.
Qed.

Lemma unlinks_lookup keys ran m key :
  ran `sublist_of` map CUnlink keys ->
  foldl apply m ran !! key = m !! key \/ key ∈ keys /\ foldl apply m ran !! key = None.
Proof.
  intros Hs. destruct (foldl_apply_lookup ran m key) as [[He _]|(c & Hc & Ht & He)]; [by left|]. right.
  apply (elem_of_sublist _ _ _ Hc) in Hs. apply list_elem_of_fmap in Hs as (x & -> & Hx). simpl in *. by subst x.
Qed.

Lemma unlinks_all keys m key : key ∈ keys -> foldl apply m (map CUnlink keys) !! key = None.
Proof.
  intros Hk. destruct (foldl_apply_lookup (map CUnlink keys) m key) as [[_ Hno]|(c & Hc & _ & ->)].
  - destruct (Hno (CUnlink key)); [|done]. by apply list_elem_of_fmap_2.
  - by apply list_elem_of_fmap in Hc as (x & -> & _).
Qed.

End pipeline.

(** ** Redis keeps the promise *)

Lemma hasPrefix_app2 a p s : hasPrefix (a +:+ p) (a +:+ s) = hasPrefix p s.
Proof.
  apply Bool.eq_iff_eq_true. rewrite !hasPrefix_iff. split; intros [t Ht]; exists t.
  - rewrite str_app_assoc in Ht. by apply (inj (String.append a)) in Ht.
  - by rewrite str_app_assoc, Ht.
Qed.

Lemma plainGlob_app a b : plainGlob (a +:+ b) = plainGlob a && plainGlob b.
Proof. induction a as [|c a IH]; [done|]. simpl. by rewrite IH, andb_assoc. Qed.

Section redis.
Import RedisCache.
Context {R : Type} {RC : RedisClient R} {RL : RedisLaws R}.
Implicit Types (r : Redis R) (now : Z).

Definition redisOK r : Prop := (0 < ttl r)%Z /\ plainGlob (prefix r) = true.
Definition redisView now r (key : string) : option bytes := held now (client r) !! k r key.

Lemma k_inj r x y : k r x = k r y -> x = y.
Proof. apply (inj (String.append (prefix r))). Qed.

Lemma redis_Get key now r : redisOK r ->
  redisOK (Get key now r).2 /\ (forall x, redisView now (Get key now r).2 x = redisView now r x)
  /\ forall v, (Get key now r).1 = Ok v -> v = redisView now r key.
Proof.
  intros HO. unfold Get, call. destruct (rGet_law (k r key) now (client r)) as [Hh Hv].
  destruct (rGet (k r key) now (client r)) as [x c]. simpl in *. split; [done|]. split.
  - intros y. unfold redisView. simpl. by rewrite Hh.
  - intros v Hr. apply Hv. by destruct x; simplify_eq.
Qed.

Lemma collect_lookup (f : string -> option bytes) keys : forall out x,
  collect keys (map (fun key => replyOf (f key)) keys) out !! x
  = match f x with Some b => if bool_decide (x ∈ keys) then Some b else out !! x | None => out !! x end.
Proof.
  induction keys as [|key keys IH]; intros out x; simpl; [by destruct (f x)|].
  rewrite IH. destruct (decide (x = key)) as [-> | Hne].
  - rewrite (bool_decide_eq_true_2 (key ∈ key :: keys)) by by left.
    destruct (f key) as [b|] eqn:E; simpl; [|done]. rewrite lookup_insert_eq. by case_bool_decide.
  - rewrite (bool_decide_ext (x ∈ key :: keys) (x ∈ keys)) by set_solver.
    destruct (f key); simpl; [by rewrite lookup_insert_ne|done].
Qed.

Lemma redis_MGet keys now r : redisOK r ->
  redisOK (MGet keys now r).2 /\ (forall x, redisView now (MGet keys now r).2 x = redisView now r x)
  /\ forall got, (MGet keys now r).1 = Ok got ->
       forall x, got !! x = if bool_decide (x ∈ keys) then redisView now r x else None.
Proof.
  intros HO. unfold MGet. case_bool_decide as Hk.
  { subst keys. split; [done|]. split; [done|]. intros got [= <-] x. by rewrite lookup_empty. }
  unfold opBind, call. destruct (rMGet_law (map (k r) keys) now (client r)) as [Hh Hv].
  destruct (rMGet (map (k r) keys) now (client r)) as [x c]. simpl in *.
  assert (forall y, redisView now (setClient c r) y = redisView now r y) as Hy.
  { intros y. unfold redisView. simpl. by rewrite Hh. }
  destruct x as [vals|e]; simpl; (split; [done|]; split; [done|]); [|done].
  intros got [= <-] y. rewrite (Hv vals eq_refl), map_map, (collect_lookup (redisView now r)), lookup_empty.
  destruct (redisView now r y); by case_bool_decide.
Qed.

(** What a write of one key does to the others. *)
Lemma redis_written now r c key v (x : res unit) msg m :
  held now c = v
  \/ (exists e, x = Err e) /\ held now c = held now (client r) ->
  (forall y, y <> k r key -> v !! y = held now (client r) !! y) -> v !! k r key = m ->
  (forall y, y <> key -> redisView now (setClient c r) y = redisView now r y)
  /\ (redisView now (setClient c r) key = m
      \/ (exists e, match x with Ok a => Ok a | Err e0 => Err (EWrap msg e0) end = Err e)
         /\ redisView now (setClient c r) key = redisView now r key).
Proof.
  intros Hc Ho Hm. unfold redisView. simpl. split.
  - intros y Hy. destruct Hc as [-> | [_ ->]]; [|done]. apply Ho. intros E. by apply k_inj in E.
  - destruct Hc as [-> | [[e ->] ->]]; [by left|]. right. split; [by eexists|done].
Qed.

Lemma redis_Set key v t now r : redisOK r ->
  let '(x, r') := Set_ key v t now r in
  redisOK r' /\ (forall y, y <> key -> redisView now r' y = redisView now r y)
  /\ (redisView now r' key = Some v \/ (exists e, x = Err e) /\ redisView now r' key = redisView now r key).
Proof.
  intros HO. unfold Set_, call.
  pose proof (rSet_law (k r key) v (positiveOr (ttl r) t) now (client r) (positiveOr_pos _ _ (proj1 HO))) as Hl.
  destruct (rSet _ _ _ _ _) as [x c]. simpl in Hl. split; [done|]. eapply redis_written; [exact Hl| |apply lookup_insert_eq].
  intros y Hy. by apply lookup_insert_ne.
Qed.

Lemma redis_Delete key now r : redisOK r ->
  let '(x, r') := Delete key now r in
  redisOK r' /\ (forall y, y <> key -> redisView now r' y = redisView now r y)
  /\ (redisView now r' key = None \/ (exists e, x = Err e) /\ redisView now r' key = redisView now r key).
Proof.
  intros HO. unfold Delete, call. pose proof (rDel_law (k r key) now (client r)) as Hl.
  destruct (rDel _ _ _) as [x c]. simpl in Hl. split; [done|]. eapply redis_written; [exact Hl| |apply lookup_delete_eq].
  intros y Hy. by apply lookup_delete_ne.
Qed.

(** The commands of [MSet] write the values of the map. *)
Lemma msets_lookup r items t m ran y :
  ran `sublist_of` map (fun kv => CSet (k r kv.1) kv.2 t) (map_to_list items) ->
  foldl apply m ran !! k r y = m !! k r y /\ (forall v, CSet (k r y) v t ∉ ran)
  \/ exists v, items !! y = Some v /\ foldl apply m ran !! k r y = Some v.
Proof.
  intros Hs. destruct (foldl_apply_lookup ran m (k r y)) as [[He Hno]|(c & Hc & Ht & He)].
  - left. split; [done|]. intros v Hv. by apply (Hno _ Hv).
  - right. apply (elem_of_sublist _ _ _ Hc) in Hs. apply list_elem_of_fmap in Hs as ([key v] & -> & Hkv).
    apply elem_of_map_to_list in Hkv. simpl in *. apply k_inj in Ht as ->. by exists v.
Qed.

Lemma redis_MSet items t now r : redisOK r ->
  let '(x, r') := MSet items t now r in
  redisOK r' /\ forall y,
    match items !! y with
    | None => redisView now r' y = redisView now r y
    | Some v => redisView now r' y = Some v \/ (exists e, x = Err e) /\ redisView now r' y = redisView now r y
    end.
Proof.
  intros HO. unfold MSet. case_bool_decide as Hi.
  { subst items. split; [done|]. intros y. by rewrite lookup_empty. }
  unfold call. set (cmds := map _ (map_to_list items)).
  destruct (rExec_law cmds now (client r)) as (ran & Hsub & Hh & Hok).
  { apply Forall_fmap, Forall_true. intros kv. by apply positiveOr_pos, HO. }
  destruct (rExec cmds now (client r)) as [x c]. simpl in *. split; [done|]. intros y. unfold redisView. simpl. rewrite Hh.
  destruct (msets_lookup r items _ (held now (client r)) ran y Hsub) as [[He Hno]|(v & Hv & He)].
  - fold (k r y). change (k (setClient c r) y) with (k r y). destruct (items !! y) as [v|] eqn:Ey; [|done]. right.
    split; [|done]. destruct x as [[]|e]; [|by eexists]. exfalso. specialize (Hok eq_refl). subst ran.
    apply (Hno v). apply list_elem_of_fmap. exists (y, v). split; [done|]. by apply elem_of_map_to_list.
  - rewrite Hv. by left.
Qed.

(** ** DeletePrefix *)

(** One turn: only keys that match are removed, and after a turn that succeeds
    the keys that match and are still there are owed at the next cursor. *)
Lemma scanRound_spec cursor pattern now r :
  (forall key, glob pattern key = true -> is_Some (held now (client r) !! key) -> owed now (client r) cursor key) ->
  exists c, (scanRound cursor pattern now r).2 = setClient c r
  /\ (forall key, held now c !! key = held now (client r) !! key \/ glob pattern key = true /\ held now c !! key = None)
  /\ forall next, (scanRound cursor pattern now r).1 = Ok next ->
       (forall key, glob pattern key = true -> is_Some (held now c !! key) -> next <> 0%Z /\ owed now c next key)
       /\ (next <> 0%Z -> left c next < left (client r) cursor).
Proof.
  intros Ho. unfold scanRound, opBind, call at 1 3.
  destruct (rScan_law cursor pattern 256 now (client r)) as [Hh Hs].
  destruct (rScan cursor pattern 256 now (client r)) as [[[keys next]|e] c1]; simpl in *.
  2: { exists c1. split; [done|]. split; [intros key; left; by rewrite Hh|done]. }
  destruct (Hs keys next eq_refl) as (Hm & Howed & Hleft). clear Hs. case_bool_decide as Hk.
  { exists c1. split; [done|]. split; [intros key; left; by rewrite Hh|]. intros n [= <-]. split; [|done].
    intros key Hg Hi. rewrite Hh in Hi. destruct (Howed key (Ho key Hg Hi) Hg) as [Hin|?]; [|done].
    subst keys. by apply elem_of_nil in Hin. }
  unfold call. destruct (rExec_law (map CUnlink keys) now c1) as (ran & Hsub & He & Hok).
  { by apply Forall_fmap, Forall_true. }
  pose proof (unlink_law keys now c1) as Hu.
  destruct (rExec (map CUnlink keys) now c1) as [x c2] eqn:Ex. simpl in *. rewrite Ex.
  exists c2. split; [by destruct x|]. split.
  - intros key. rewrite He, Hh. destruct (unlinks_lookup keys ran (held now (client r)) key Hsub) as [?|[Hin ?]]; [by left|].
    right. auto.
  - intros n Hn. destruct x as [[]|e]; [|done]. injection Hn as <-. specialize (Hok eq_refl). subst ran. split.
    + intros key Hg Hi. assert (is_Some (held now (client r) !! key)) as Hi'.
      { destruct Hi as [v Hv]. rewrite He, Hh in Hv.
        destruct (unlinks_lookup keys (map CUnlink keys) (held now (client r)) key) as [E|[_ E]]; [done| |congruence].
        rewrite E in Hv. by exists v. }
      destruct (Howed key (Ho key Hg Hi') Hg) as [Hin|[Hne Hw]].
      * exfalso. rewrite He, unlinks_all in Hi by done. by destruct Hi.
      * split; [done|]. by apply Hu.
    + intros Hne. specialize (Hleft Hne). destruct (Hu next) as [Hle _]. lia.
Qed.

Lemma scanLoop_spec pattern now fuel : forall cursor r,
  left (client r) cursor <= fuel ->
  (forall key, glob pattern key = true -> is_Some (held now (client r) !! key) -> owed now (client r) cursor key) ->
  exists c, (scanLoop fuel cursor pattern now r).2 = setClient c r
  /\ (forall key, held now c !! key = held now (client r) !! key \/ glob pattern key = true /\ held now c !! key = None)
  /\ forall b, (scanLoop fuel cursor pattern now r).1 = Ok b ->
       b = true /\ forall key, glob pattern key = true -> held now c !! key = None.
Proof.
  induction fuel as [|fuel IH]; intros cursor r Hf Ho.
  { pose proof (left_pos (client r) cursor). lia. }
  destruct (scanRound_spec cursor pattern now r Ho) as (c1 & H1 & Hk1 & Hn). simpl. unfold opBind.
  destruct (scanRound cursor pattern now r) as [[next|e] r1]; simpl in H1, Hn; subst r1.
  2: { exists c1. done. }
  destruct (Hn next eq_refl) as [Hgone Hleft]. destruct (Z.eqb_spec next 0) as [-> | Hne].
  { exists c1. split; [done|]. split; [done|]. intros b [= <-]. split; [done|]. intros key Hg.
    destruct (held now c1 !! key) eqn:E; [|done]. destruct (Hgone key Hg) as [? _]; [by rewrite E|done]. }
  destruct (IH next (setClient c1 r)) as (c2 & H2 & Hk2 & Hb).
  { simpl. specialize (Hleft Hne). lia. }
  { intros key Hg Hi. by apply Hgone. }
  exists c2. split; [done|]. split; [|done]. intros key. simpl in Hk2.
  destruct (Hk2 key) as [-> | ?]; [apply Hk1|by right].
Qed.

(** The loop ends, and the keys that match are gone. *)
Lemma DeletePrefix_run p now r :
  exists c, (DeletePrefix (rRounds (client r)) p now r).2 = setClient c r
  /\ (forall key, held now c !! key = held now (client r) !! key
        \/ glob (k r p +:+ "*") key = true /\ held now c !! key = None)
  /\ forall b, (DeletePrefix (rRounds (client r)) p now r).1 = Ok b ->
       b = true /\ forall key, glob (k r p +:+ "*") key = true -> held now c !! key = None.
Proof. apply scanLoop_spec; [apply left_start|]. intros key _. apply owed_start. Qed.

Lemma redis_DeletePrefix p now r : redisOK r -> plainGlob p = true ->
  let '(x, r') := MetaCache.DeletePrefix p now r in
  redisOK r' /\ forall y,
    if hasPrefix p y
    then redisView now r' y = None \/ (exists e, x = Err e) /\ redisView now r' y = redisView now r y
    else redisView now r' y = redisView now r y.
Proof.
  intros HO Hp. simpl. destruct (DeletePrefix_run p now r) as (c & Hc & Hk & Hb).
  destruct (DeletePrefix _ p now r) as [x r']. simpl in *. subst r'. split; [done|]. intros y.
  assert (glob (k r p +:+ "*") (k r y) = hasPrefix p y) as Hg.
  { rewrite glob_star; [apply hasPrefix_app2|]. unfold k. by rewrite plainGlob_app, Hp, (proj2 HO). }
  unfold redisView. simpl. change (k (setClient c r) y) with (k r y). specialize (Hk (k r y)). rewrite Hg in Hk.
  destruct (hasPrefix p y).
  - destruct x as [b|e]; [left; apply (Hb b); [done|by rewrite Hg]|].
    destruct Hk as [-> | [_ ->]]; [right; split; [by eexists|done]|by left].
  - by destruct Hk as [-> | [? _]].
Qed.

End redis.

#[export] Program Instance redisSpec {R} {RC : RedisCache.RedisClient R} {RL : RedisLaws R} : CacheSpec (RedisCache.Redis R) := {|
  cacheOK := redisOK; view := redisView;
  Get_spec := redis_Get; MGet_spec := redis_MGet; Set_spec := redis_Set; MSet_spec := redis_MSet;
  Delete_spec := redis_Delete; DeletePrefix_spec := redis_DeletePrefix
|}.
Next Obligation.
  intros R RC RL now now' r key v Hle. unfold redisView. simpl. intros Hv. eapply lookup_weaken; [exact Hv|]. by apply held_later.
Qed.

(** ** The in-memory cache keeps it too *)

Section memory.
Import MemCache.
Implicit Types (m : Memory) (now : Z).

Definition memOK m : Prop := (0 < defaultTTL m)%Z.

(** A run of the in-memory cache always succeeds. *)
Lemma runs_eq {S A} (x : op S A) now (s : S) (Q : A -> S -> Prop) :
  runs x now s Q -> exists a s', x now s = (Ok a, s') /\ Q a s'.
Proof. done. Qed.

Lemma live_later now now' m key v : (now <= now')%Z -> live now' m key = Some v -> live now m key = Some v.
Proof.
  intros Hle. unfold live, expired. destruct (items m !! key) as [e|]; [|done].
  destruct (Z.ltb_spec (expiresAt e) now'); [done|]. by rewrite (proj2 (Z.ltb_ge _ _)) by lia.
Qed.

Lemma live_same now m m' key : items m' !! key = items m !! key -> live now m' key = live now m key.
Proof. unfold live. by intros ->. Qed.

Lemma live_fresh now m key v t : (0 < t)%Z -> items m !! key = Some (mkEntry v (now + t)) -> live now m key = Some v.
Proof. intros Ht. unfold live, expired. intros ->. simpl. by rewrite (proj2 (Z.ltb_ge _ _)) by lia. Qed.

Lemma ttl_chosen m t : memOK m -> (0 < if (t <=? 0)%Z then defaultTTL m else t)%Z.
Proof. unfold memOK. destruct (Z.leb_spec t 0); lia. Qed.

Lemma mem_Get key now m : memOK m ->
  memOK (Get key now m).2 /\ (forall x, live now (Get key now m).2 x = live now m x)
  /\ forall v, (Get key now m).1 = Ok v -> v = live now m key.
Proof.
  intros HO. destruct (Get_runs now m key) as (v & m' & -> & -> & Ht & _ & Hl). simpl. unfold memOK. rewrite Ht.
  split; [done|]. split; [done|]. by intros v [= <-].
Qed.

Lemma mem_MGet keys now m : memOK m ->
  memOK (MGet keys now m).2 /\ (forall x, live now (MGet keys now m).2 x = live now m x)
  /\ forall got, (MGet keys now m).1 = Ok got ->
       forall x, got !! x = if bool_decide (x ∈ keys) then live now m x else None.
Proof.
  intros HO. destruct (MGet_runs now keys m) as (v & m' & -> & (Ht & _ & Hl) & Hg). simpl. unfold memOK. rewrite Ht.
  split; [done|]. split; [done|]. by intros got [= <-].
Qed.

Lemma mem_Set key v t now m : memOK m ->
  let '(x, m') := Set_ key v t now m in
  memOK m' /\ (forall y, y <> key -> live now m' y = live now m y)
  /\ (live now m' key = Some v \/ (exists e, x = Err e) /\ live now m' key = live now m key).
Proof.
  intros HO. destruct (Set_runs now m key v t) as ([] & m' & -> & Ht & Hi). unfold memOK. rewrite Ht. split; [done|]. split.
  - intros y Hy. apply live_same. rewrite Hi. by apply lookup_insert_ne.
  - left. eapply live_fresh; [by apply (ttl_chosen m t)|]. rewrite Hi. apply lookup_insert_eq.
Qed.

Lemma mem_MSet its t now m : memOK m ->
  let '(x, m') := MSet its t now m in
  memOK m' /\ forall y,
    match its !! y with
    | None => live now m' y = live now m y
    | Some v => live now m' y = Some v \/ (exists e, x = Err e) /\ live now m' y = live now m y
    end.
Proof.
  intros HO. destruct (MSet_runs now m its t) as ([] & m' & -> & Ht & Hi). unfold memOK. rewrite Ht. split; [done|].
  intros y. specialize (Hi y). destruct (its !! y) as [v|]; [|by apply live_same].
  left. eapply live_fresh; [by apply (ttl_chosen m t)|done].
Qed.

Lemma mem_Delete key now m : memOK m ->
  let '(x, m') := Delete key now m in
  memOK m' /\ (forall y, y <> key -> live now m' y = live now m y)
  /\ (live now m' key = None \/ (exists e, x = Err e) /\ live now m' key = live now m key).
Proof.
  intros HO. destruct (Delete_runs now m key) as ([] & m' & -> & Ht & Hi). unfold memOK. rewrite Ht. split; [done|]. split.
  - intros y Hy. apply live_same. rewrite Hi. by apply lookup_delete_ne.
  - left. unfold live. by rewrite Hi, lookup_delete_eq.
Qed.

Lemma mem_DeletePrefix p now m : memOK m -> plainGlob p = true ->
  let '(x, m') := DeletePrefix p now m in
  memOK m' /\ forall y,
    if hasPrefix p y
    then live now m' y = None \/ (exists e, x = Err e) /\ live now m' y = live now m y
    else live now m' y = live now m y.
Proof.
  intros HO _. unfold DeletePrefix. split; [done|]. intros y. unfold live. simpl.
  destruct (hasPrefix p y) eqn:Hp.
  - left. rewrite map_lookup_filter_None_2; [done|]. right. intros e _. simpl. by rewrite Hp.
  - destruct (items m !! y) as [e|] eqn:E.
    + by rewrite (map_lookup_filter_Some_2 _ _ y e).
    + rewrite map_lookup_filter_None_2; [done|]. by left.
Qed.

End memory.

#[export] Instance memorySpec : CacheSpec MemCache.Memory := {|
  cacheOK := memOK; view := live; view_expires := live_later;
  Get_spec := mem_Get; MGet_spec := mem_MGet; Set_spec := mem_Set; MSet_spec := mem_MSet;
  Delete_spec := mem_Delete; DeletePrefix_spec := mem_DeletePrefix
|}.

(** ** A cache never serves a value that was overwritten or deleted *)

Inductive cacheReq :=
| QGet (key : string)
| QMGet (keys : list string)
| QSet (key : string) (v : bytes) (ttl : Z)
| QMSet (items : gmap string bytes) (ttl : Z)
| QDelete (key : string)
| QDeletePrefix (prefix : string).

Section history.
Context {C : Type} {Ca : Cache C} {CS : CacheSpec C}.

Definition succeeded {A} (x : res A * C) : bool * C := (match x.1 with Ok _ => true | Err _ => false end, x.2).

Definition cexec (q : cacheReq) (now : Z) (c : C) : bool * C :=
  match q with
  | QGet key => succeeded (Get key now c)
  | QMGet keys => succeeded (MGet keys now c)
  | QSet key v ttl => succeeded (Set_ key v ttl now c)
  | QMSet items ttl => succeeded (MSet items ttl now c)
  | QDelete key => succeeded (Delete key now c)
  | QDeletePrefix prefix => succeeded (DeletePrefix prefix now c)
  end.

(** The requests with their outcomes, the last first. *)
Fixpoint crun (h : list (Z * cacheReq)) (c : C) (log : list (cacheReq * bool)) : list (cacheReq * bool) * C :=
  match h with
  | [] => (log, c)
  | (now, q) :: h' => let '(b, c') := cexec q now c in crun h' c' ((q, b) :: log)
  end.

Definition writes (q : cacheReq) (key : string) : option bytes :=
  match q with
  | QSet key' v _ => if bool_decide (key' = key) then Some v else None
  | QMSet items _ => items !! key
  | _ => None
  end.

Definition clears (q : cacheReq) (key : string) : bool :=
  match q with
  | QDelete key' => bool_decide (key' = key)
  | QDeletePrefix prefix => hasPrefix prefix key
  | _ => false
  end.

(** [v] was written to [key], and no later request that succeeded wrote or
    cleared it. *)
Definition current (log : list (cacheReq * bool)) (key : string) (v : bytes) : Prop :=
  exists later q b earlier, log = later ++ (q, b) :: earlier /\ writes q key = Some v
    /\ forall q', (q', true) ∈ later -> writes q' key = None /\ clears q' key = false.

Definition plainReq (q : cacheReq) : Prop := match q with QDeletePrefix p => plainGlob p = true | _ => True end.

Lemma cexec_OK q now c : plainReq q -> cacheOK c -> cacheOK (cexec q now c).2.
Proof.
  intros Hq HO. destruct q as [key|keys|key v ttl|items ttl|key|p]; simpl.
  - by apply Get_spec.
  - by apply MGet_spec.
  - pose proof (Set_spec key v ttl now c HO) as H. destruct (Set_ key v ttl now c). apply H.
  - pose proof (MSet_spec items ttl now c HO) as H. destruct (MSet items ttl now c). apply H.
  - pose proof (Delete_spec key now c HO) as H. destruct (Delete key now c). apply H.
  - pose proof (DeletePrefix_spec p now c HO Hq) as H. destruct (DeletePrefix p now c). apply H.
Qed.

(** What is there after a request was written by it, or was there before and
    the request has not removed it. *)
Lemma cexec_view q now c key v :
  plainReq q -> cacheOK c -> view now (cexec q now c).2 key = Some v ->
  writes q key = Some v
  \/ view now c key = Some v /\ ((cexec q now c).1 = true -> writes q key = None /\ clears q key = false).
Proof.
  intros Hq HO. destruct q as [k0|ks|k0 v0 t|its t|k0|p]; simpl.
  - destruct (Get_spec k0 now c HO) as (_ & -> & _). auto.
  - destruct (MGet_spec ks now c HO) as (_ & -> & _). auto.
  - pose proof (Set_spec k0 v0 t now c HO) as H. destruct (Set_ k0 v0 t now c) as [x c']. destruct H as (_ & Ho & Hk).
    simpl. case_bool_decide as E; [subst k0|rewrite (Ho key) by done; auto].
    destruct Hk as [-> | [[e ->] ->]]; [by left|]. intros ->. by right.
  - pose proof (MSet_spec its t now c HO) as H. destruct (MSet its t now c) as [x c']. destruct H as (_ & Hk).
    specialize (Hk key). simpl. destruct (its !! key); [|rewrite Hk; auto].
    destruct Hk as [-> | [[e ->] ->]]; [by left|]. intros ->. by right.
  - pose proof (Delete_spec k0 now c HO) as H. destruct (Delete k0 now c) as [x c']. destruct H as (_ & Ho & Hk).
    simpl. case_bool_decide as E; [subst k0|rewrite (Ho key) by done; auto].
    destruct Hk as [-> | [[e ->] ->]]; [done|]. intros ->. by right.
  - pose proof (DeletePrefix_spec p now c HO Hq) as H. destruct (DeletePrefix p now c) as [x c']. destruct H as (_ & Hk).
    specialize (Hk key). simpl. destruct (hasPrefix p key); [|rewrite Hk; auto].
    destruct Hk as [-> | [[e ->] ->]]; [done|]. intros ->. by right.
Qed.

Lemma current_step log key v q b :
  current log key v -> (b = true -> writes q key = None /\ clears q key = false) -> current ((q, b) :: log) key v.
Proof.
  intros (later & q0 & b0 & earlier & -> & Hw & Hl) Hb. exists ((q, b) :: later), q0, b0, earlier.
  split; [done|]. split; [done|]. intros q' [[= -> <-]|?]%elem_of_cons; auto.
Qed.

(** The times of the requests do not decrease. *)
Fixpoint ascending (t : Z) (h : list (Z * cacheReq)) : Prop :=
  match h with [] => True | (t', _) :: h' => (t <= t')%Z /\ ascending t' h' end.

Fixpoint endTime (t : Z) (h : list (Z * cacheReq)) : Z :=
  match h with [] => t | (t', _) :: h' => endTime t' h' end.

Lemma crun_current h : forall t c log,
  cacheOK c -> Forall (fun nq => plainReq nq.2) h -> ascending t h ->
  (forall key v, view t c key = Some v -> current log key v) ->
  cacheOK (crun h c log).2
  /\ forall key v, view (endTime t h) (crun h c log).2 key = Some v -> current (crun h c log).1 key v.
Proof.
  induction h as [|[now q] h IH]; intros t c log HO Hh Ht Hc; [done|].
  apply Forall_cons in Hh as [Hq Hh]. destruct Ht as [Hle Ht]. simpl in *.
  pose proof (cexec_OK q now c Hq HO) as HO'. pose proof (cexec_view q now c) as Hv.
  destruct (cexec q now c) as [b c']. simpl in *. apply IH; try done. intros key v Hkv.
  destruct (Hv key v Hq HO Hkv) as [Hw|[Hold Hb]].
  - exists [], q, b, log. split; [done|]. split; [done|]. intros q' H. by apply elem_of_nil in H.
  - apply current_step; [|done]. apply Hc. by eapply view_expires.
Qed.

(** A read after a run of a cache that was empty. *)
Lemma read_current h t c t' key v :
  cacheOK c -> (forall key, view t c key = None) -> Forall (fun nq => plainReq nq.2) h -> ascending t h ->
  (endTime t h <= t')%Z -> (Get key t' (crun h c []).2).1 = Ok (Some v) -> current (crun h c []).1 key v.
Proof.
  intros HO Hempty Hh Ht Hle Hg.
  destruct (crun_current h t c [] HO Hh Ht) as [HO' Hc]; [intros k0 v0; by rewrite Hempty|].
  apply Hc. eapply view_expires; [exact Hle|]. destruct (Get_spec key t' _ HO') as (_ & _ & Hr). by rewrite <- (Hr _ Hg).
Qed.

End history.

(** C35. For every Redis server that behaves as documented, every history of
    requests, in the order of their times, to a cache that starts empty, with
    a positive TTL, and calls that may fail: when the configured prefix and
    the prefixes that are deleted have no glob characters, a value that a
    later read returns was written to that key by one of the requests, and no
    later request that succeeded has overwritten it, deleted it or deleted a
    prefix of it. *)
Theorem Redis_never_stale {R} {RC : RedisCache.RedisClient R} {RL : RedisLaws R}
    (r : RedisCache.Redis R) t h t' key v :
  redisOK r -> (forall key, redisView t r key = None) -> Forall (fun nq => plainReq nq.2) h -> ascending t h ->
  (endTime t h <= t')%Z -> (RedisCache.Get key t' (crun h r []).2).1 = Ok (Some v) -> current (crun h r []).1 key v.
Proof. apply (read_current (CS := redisSpec)). Qed.

(** The same for the in-memory cache. *)
Lemma Memory_never_stale m t h t' key v :
  memOK m -> (forall key, live t m key = None) -> Forall (fun nq => plainReq nq.2) h -> ascending t h ->
  (endTime t h <= t')%Z -> (MemCache.Get key t' (crun h m []).2).1 = Ok (Some v) -> current (crun h m []).1 key v.
Proof. apply (read_current (CS := memorySpec)). Qed.

(** A key prefix that starts with letters in brackets is a class of
    characters in the pattern of the SCAN, so [DeletePrefix] never removes a key
    of the cache, whether it succeeds or not. *)
Theorem Redis_prefix_glob {R} {RC : RedisCache.RedisClient R} {RL : RedisLaws R}
    (r : RedisCache.Redis R) cs rest p now y :
  RedisCache.prefix r = "[" +:+ cs +:+ "]" +:+ rest -> lowerCase cs = true ->
  redisView now (DeletePrefix p now r).2 y = redisView now r y.
Proof.
  intros Hp Hcs. simpl. destruct (DeletePrefix_run p now r) as (c & Hc & Hk & _).
  destruct (RedisCache.DeletePrefix _ p now r) as [x r']. simpl in *. subst r'.
  unfold redisView. simpl. change (RedisCache.k (RedisCache.setClient c r) y) with (RedisCache.k r y).
  destruct (Hk (RedisCache.k r y)) as [-> | [Hg _]]; [done|]. exfalso. unfold RedisCache.k in Hg. rewrite Hp in Hg.
  rewrite !str_app_assoc in Hg. apply glob_class in Hg; [|done]. discriminate Hg.
Qed.

(** ** A concrete server *)

(** Keys with their values and the times when they expire; a SCAN returns all
    keys at once. *)
Abbreviation demoServer := (gmap string (bytes * Z)).

Definition demoHeld (now : Z) (s : demoServer) : gmap string bytes :=
  fst <$> filter (fun kv => (now <= kv.2.2)%Z) s.

Definition demoApply (now : Z) (s : demoServer) (c : RedisCache.command) : demoServer :=
  match c with RedisCache.CSet key v t => <[key := (v, (now + t)%Z)]> s | RedisCache.CUnlink key => delete key s end.

Definition demoGlob (pattern key : string) : bool :=
  negb (hasPrefix "[" pattern) && hasPrefix (strTake (String.length pattern - 1) pattern) key.

#[local] Instance demoClient : RedisCache.RedisClient demoServer := {|
  RedisCache.rPing := opRet tt;
  RedisCache.rGet := fun key now s => (Ok (demoHeld now s !! key), s);
  RedisCache.rSet := fun key v t now s => (Ok tt, demoApply now s (RedisCache.CSet key v t));
  RedisCache.rMGet := fun keys now s => (Ok (map (fun key => replyOf (demoHeld now s !! key)) keys), s);
  RedisCache.rDel := fun key now s => (Ok tt, demoApply now s (RedisCache.CUnlink key));
  RedisCache.rScan := fun _ pattern _ now s =>
    (Ok (List.filter (demoGlob pattern) (map fst (map_to_list (demoHeld now s))), 0%Z), s);
  RedisCache.rExec := fun cmds now s => (Ok tt, foldl (demoApply now) s cmds);
  RedisCache.rRounds := fun _ => 1
|}.

Lemma demoApply_held now s c : wellTimed c -> demoHeld now (demoApply now s c) = apply (demoHeld now s) c.
Proof.
  intros Hc. unfold demoHeld. destruct c as [key v t|key]; simpl in *.
  - rewrite (map_filter_insert_True _ s) by (simpl; lia). apply fmap_insert.
  - by rewrite map_filter_delete, fmap_delete.
Qed.

Lemma demoExec_held now cmds : forall s,
  Forall wellTimed cmds -> demoHeld now (foldl (demoApply now) s cmds) = foldl apply (demoHeld now s) cmds.
Proof.
  induction cmds as [|c cmds IH]; intros s Hc; [done|]. apply Forall_cons in Hc as [Hc Hcs]. simpl.
  by rewrite IH, demoApply_held.
Qed.

Lemma demoGlob_star p key : plainGlob p = true -> demoGlob (p +:+ "*") key = hasPrefix p key.
Proof.
  intros Hp. unfold demoGlob. replace (hasPrefix "[" (p +:+ "*")) with false by (destruct p as [|c p]; [done|]; simpl in *;
    apply andb_true_iff in Hp as [Hc _]; destruct c as [[] [] [] [] [] [] [] []]; first [reflexivity|discriminate Hc]).
  rewrite str_length_app. simpl. replace (String.length p + 1 - 1) with (String.length p) by lia. by rewrite strTake_app.
Qed.

#[local] Program Instance demoLaws : RedisLaws demoServer := {|
  held := demoHeld; owed := fun now s _ key => is_Some (demoHeld now s !! key); left := fun _ _ => 1; glob := demoGlob;
  glob_star := demoGlob_star
|}.
Next Obligation. by intros cs p key _ H. Qed.
Next Obligation.
  intros now now' s Hle. apply map_fmap_mono, map_subseteq_spec. intros key [v t] [H1 H2]%map_lookup_filter_Some.
  apply map_lookup_filter_Some. split; [done|]. simpl in *. lia.
Qed.
Next Obligation. intros key now s. simpl. split; [done|]. by intros v [= <-]. Qed.
Next Obligation. intros keys now s. simpl. split; [done|]. by intros v [= <-]. Qed.
Next Obligation. intros key v t now s Ht. left. exact (demoApply_held now s (RedisCache.CSet key v t) Ht). Qed.
Next Obligation. intros key now s. left. exact (demoApply_held now s (RedisCache.CUnlink key) I). Qed.
Next Obligation. intros cmds now s Hc. exists cmds. split; [done|]. split; [by apply demoExec_held|done]. Qed.
Next Obligation.
  intros cursor pattern count now s. simpl. split; [done|]. intros keys next [= <- <-]. split; [|split; [|done]].
  - intros key Hk. by apply elem_of_filterb in Hk as [_ ?].
  - intros key [v Hv] Hg. left. apply elem_of_filterb. split; [|done].
    apply list_elem_of_fmap. exists (key, v). split; [done|]. by apply elem_of_map_to_list.
Qed.
Next Obligation. intros. simpl. lia. Qed.
Next Obligation. intros. simpl. lia. Qed.
Next Obligation. done. Qed.
Next Obligation. intros keys now s cursor. simpl. split; [lia|done]. Qed.

Definition demoCache : RedisCache.Redis demoServer := RedisCache.mkRedis ∅ "spider:" 10.

(** Two values for one key, and another key under a prefix that is deleted. *)
Definition demoHistory : list (Z * cacheReq) :=
  [(1, QSet "peer:a" [] 5); (2, QMSet {["peer:b" := []]} 0); (3, QDeletePrefix "peer:"); (4, QSet "peer:a" [Byte.x01] 9)]%Z.

Lemma Redis_never_stale_witness :
  current (crun demoHistory demoCache []).1 "peer:a" [Byte.x01].
Proof.
  apply (Redis_never_stale demoCache 0%Z demoHistory 7%Z).
  - by split.
  - intros key. unfold redisView. simpl. unfold demoHeld. by rewrite map_filter_empty, fmap_empty, lookup_empty.
  - by repeat constructor.
  - simpl. lia.
  - simpl. lia.
  - vm_compute. reflexivity.
Defined.

Definition bracketCache : RedisCache.Redis demoServer :=
  RedisCache.mkRedis {["[prod]:peer:a" := ([Byte.x01], 99%Z)]} "[prod]:" 10.

Lemma Redis_prefix_glob_witness :
  redisView 5 (DeletePrefix "peer:" 5%Z bracketCache).2 "peer:a" = Some [Byte.x01].
Proof.
  rewrite (Redis_prefix_glob bracketCache "prod" ":" "peer:" 5%Z "peer:a" eq_refl eq_refl). vm_compute. reflexivity.
Defined.
