(* ===== verification/CachedStore.v ===== *)
(** * Read-through cache over a store (pkg/store/cached.go)

    [CachedStore] decorates any [Store] with any [Cache]; it is a [Store]
    again.  Hit and miss counters are metrics and are not modelled. *)

From S2P Require Import Prelude Json Topology MetaStore MetaCache.
Local Open Scope go_scope.

(** The JSON encodings of cache values; the decoders are total here, an
    undecodable value gives [None] (the code ignores the error for lists). *)
Class StoreCodec := {
  marshalPeer : Peer -> bytes;
  unmarshalPeer : bytes -> option Peer;
  marshalPeers : list Peer -> bytes;
  unmarshalPeers : bytes -> list Peer;
  marshalArtifact : ArtifactRecord -> bytes;
  unmarshalArtifact : bytes -> option ArtifactRecord;
  marshalStrings : list string -> bytes;
  unmarshalStrings : bytes -> list string
}.

Definition keyPeerPrefix : string := "peer:".
Definition keyPeersList : string := "peers:list".
Definition keyArtifactPrefix : string := "artifact:".
Definition keySeedsPrefix : string := "seeds:".
Definition keyLocatePrefix : string := "locate:".
Definition keyChunksPrefix : string := "chunks:".

Module Cached.

Record CachedStore (S C : Type) := mkCached {
  inner : S;
  cache : C;
  ttl : Z;
  hbEvery : Z;
  lastHBFlush : gmap string Z
}.
Arguments mkCached {S C}.
Arguments inner {S C}.
Arguments cache {S C}.
Arguments ttl {S C}.
Arguments hbEvery {S C}.
Arguments lastHBFlush {S C}.

Section cached.
Context {SC : StoreCodec} {S C : Type} {St : Store S} {Ca : Cache C}.
Implicit Types c : CachedStore S C.

(** [Wrap] for a cache that is neither [nil] nor [Nop]. *)
Definition Wrap (i : S) (c : C) (ttl : Z) : CachedStore S C :=
  mkCached i c (if (ttl <=? 0)%Z then 10 * 1000000000 else ttl)%Z (5 * 1000000000)%Z ∅.

(** Calls on the parts. *)
Definition onInner {A} (m : op S A) : op (CachedStore S C) A :=
  opOn inner (fun s c => mkCached s (cache c) (ttl c) (hbEvery c) (lastHBFlush c)) m.

Definition onCache {A} (m : op C A) : op (CachedStore S C) A :=
  opOn cache (fun s c => mkCached (inner c) s (ttl c) (hbEvery c) (lastHBFlush c)) m.

Definition self : op (CachedStore S C) (CachedStore S C) := fun _ c => (Ok c, c).

(** [raw, ok, err := c.cache.Get(...); err == nil && ok] *)
Definition cacheGet (key : string) : op (CachedStore S C) (option bytes) :=
  let* r := opTry (onCache (Get key)) in
  opRet match r with Ok v => v | Err _ => None end.

Definition cacheSet (key : string) (v : bytes) : op (CachedStore S C) unit :=
  let* c := self in opIgnore (onCache (Set_ key v (ttl c))).

Definition drop (key : string) : op (CachedStore S C) unit := opIgnore (onCache (Delete key)).

Definition dropPrefix (prefix : string) : op (CachedStore S C) unit := opIgnore (onCache (DeletePrefix prefix)).

Definition UpsertPeer (peer : Peer) : op (CachedStore S C) unit :=
  let* _ := onInner (UpsertPeer peer) in
  let* _ := drop (keyPeerPrefix +:+ pNodeID peer) in
  drop keyPeersList.

(** The flush decision and its record. *)
Definition takeFlush (nodeID : string) : op (CachedStore S C) bool :=
  fun now c =>
    let flush := (hbEvery c <=? timeSub now (lastHBFlush c !! nodeID))%Z in
    (Ok flush, if flush then mkCached (inner c) (cache c) (ttl c) (hbEvery c) (<[nodeID := now]> (lastHBFlush c))
               else c).

(** A cached peer gets the time of the heartbeat; [true] when there is one. *)
Definition touchCached (nodeID : string) : op (CachedStore S C) bool :=
  let* raw := cacheGet (keyPeerPrefix +:+ nodeID) in
  match raw ≫= unmarshalPeer with
  | Some p =>
      let* now := opNow in
      let* _ := cacheSet (keyPeerPrefix +:+ nodeID) (marshalPeer (withHeartbeat now p)) in
      opRet true
  | None => opRet false
  end.

Definition Heartbeat (nodeID : string) : op (CachedStore S C) bool :=
  let* flush := takeFlush nodeID in
  let* early := (if flush then opRet false else touchCached nodeID) in
  if early then opRet true
  else
    let* ok := onInner (Heartbeat nodeID) in
    if ok then let* _ := touchCached nodeID in opRet true else opRet false.

Definition GetPeer (nodeID : string) : op (CachedStore S C) (option Peer) :=
  let* raw := cacheGet (keyPeerPrefix +:+ nodeID) in
  match raw with
  | Some raw => match unmarshalPeer raw with
                | Some p => opRet (Some p)
                | None => opErr (EText "unmarshal peer")
                end
  | None =>
      let* p := onInner (GetPeer nodeID) in
      match p with
      | None => opRet None
      | Some p => let* _ := cacheSet (keyPeerPrefix +:+ nodeID) (marshalPeer p) in opRet (Some p)
      end
  end.

Definition filterExpiry (now : Z) (peers : list Peer) (expiry : Z) : list Peer :=
  if (expiry <=? 0)%Z then peers
  else List.filter (fun p => timeSub now (pLastHeartbeat p) <=? expiry)%Z peers.

Definition ListPeers (expiry : Z) : op (CachedStore S C) (list Peer) :=
  let* raw := cacheGet keyPeersList in
  let* now := opNow in
  match raw with
  | Some raw => opRet (filterExpiry now (unmarshalPeers raw) expiry)
  | None =>
      let* peers := onInner (ListPeers 0) in
      let* _ := cacheSet keyPeersList (marshalPeers peers) in
      opRet (filterExpiry now peers expiry)
  end.

Definition DeregisterPeer (nodeID : string) : op (CachedStore S C) unit :=
  let* _ := onInner (DeregisterPeer nodeID) in
  let* _ := drop (keyPeerPrefix +:+ nodeID) in
  let* _ := drop keyPeersList in
  let* _ := dropPrefix keySeedsPrefix in
  let* _ := dropPrefix keyLocatePrefix in
  dropPrefix keyChunksPrefix.

Definition PruneExpiredPeers (expiry : Z) : op (CachedStore S C) Z :=
  let* n := onInner (PruneExpiredPeers expiry) in
  if (n =? 0)%Z then opRet n
  else
    let* _ := drop keyPeersList in
    let* _ := dropPrefix keyPeerPrefix in
    let* _ := dropPrefix keySeedsPrefix in
    let* _ := dropPrefix keyLocatePrefix in
    let* _ := dropPrefix keyChunksPrefix in
    opRet n.

Definition PutArtifact (rec : ArtifactRecord) : op (CachedStore S C) unit :=
  let* _ := onInner (PutArtifact rec) in
  drop (keyArtifactPrefix +:+ aArtifactID rec).

Definition GetArtifact (artifactID : string) : op (CachedStore S C) (option ArtifactRecord) :=
  let* raw := cacheGet (keyArtifactPrefix +:+ artifactID) in
  match raw with
  | Some raw => match unmarshalArtifact raw with
                | Some a => opRet (Some a)
                | None => opErr (EText "unmarshal artifact")
                end
  | None =>
      let* a := onInner (GetArtifact artifactID) in
      match a with
      | None => opRet None
      | Some a => let* _ := cacheSet (keyArtifactPrefix +:+ artifactID) (marshalArtifact a) in opRet (Some a)
      end
  end.

Definition ReportSeed (artifactID nodeID : string) : op (CachedStore S C) unit :=
  let* _ := onInner (ReportSeed artifactID nodeID) in
  let* _ := drop (keySeedsPrefix +:+ artifactID) in
  drop (keyLocatePrefix +:+ artifactID).

(** The pattern of [ListSeeds] and [LocateChunkNodes]. *)
Definition readStrings (key : string) (m : op S (list string)) : op (CachedStore S C) (list string) :=
  let* raw := cacheGet key in
  match raw with
  | Some raw => opRet (unmarshalStrings raw)
  | None =>
      let* ids := onInner m in
      let* _ := cacheSet key (marshalStrings ids) in
      opRet ids
  end.

Definition ListSeeds (artifactID : string) : op (CachedStore S C) (list string) :=
  readStrings (keySeedsPrefix +:+ artifactID) (ListSeeds artifactID).

Fixpoint dropAll (keys : list string) : op (CachedStore S C) unit :=
  match keys with
  | [] => opRet tt
  | k :: ks => let* _ := drop k in dropAll ks
  end.

Definition ReportChunks (nodeID : string) (hashes : list string) : op (CachedStore S C) Z :=
  let* n := onInner (ReportChunks nodeID hashes) in
  let* _ := dropAll (map (fun h => keyChunksPrefix +:+ h) hashes) in
  opRet n.

Definition LocateChunkNodes (hash : string) : op (CachedStore S C) (list string) :=
  readStrings (keyChunksPrefix +:+ hash) (LocateChunkNodes hash).

(** The hashes that the cache has, decoded, and the ones it does not have. *)
Fixpoint splitHits (got : gmap string bytes) (hashes : list string) (out : gmap string (list string))
    : gmap string (list string) * list string :=
  match hashes with
  | [] => (out, [])
  | h :: hs =>
      match got !! (keyChunksPrefix +:+ h) with
      | None => let '(out', misses) := splitHits got hs out in (out', h :: misses)
      | Some raw => splitHits got hs (<[h := unmarshalStrings raw]> out)
      end
  end.

(** Copying a map into [out] and, encoded, into the map to set. *)
Definition addAll {V} (prefix : string) (enc : V -> bytes) (m : gmap string V) (out : gmap string V)
    : gmap string V * gmap string bytes :=
  fold_left (fun '(out, set) '(k, v) => (<[k := v]> out, <[prefix +:+ k := enc v]> set)) (map_to_list m) (out, ∅).

Definition LocateChunkNodesBatch (hashes : list string) : op (CachedStore S C) (gmap string (list string)) :=
  if bool_decide (hashes = []) then opRet ∅
  else
    let* got := onCache (MGet (map (fun h => keyChunksPrefix +:+ h) hashes)) in
    let '(out, misses) := splitHits got hashes ∅ in
    if bool_decide (misses = []) then opRet out
    else
      let* found := onInner (LocateChunkNodesBatch misses) in
      let '(out, set) := addAll keyChunksPrefix marshalStrings found out in
      let* c := self in
      let* _ := opIgnore (onCache (MSet set (ttl c))) in
      opRet out.

Fixpoint splitPeers (got : gmap string bytes) (ids : list string) (out : gmap string Peer)
    : gmap string Peer * list string :=
  match ids with
  | [] => (out, [])
  | id :: rest =>
      match got !! (keyPeerPrefix +:+ id) with
      | None => let '(out', misses) := splitPeers got rest out in (out', id :: misses)
      | Some raw =>
          splitPeers got rest match unmarshalPeer raw with Some p => <[id := p]> out | None => out end
      end
  end.

Definition GetPeersBatch (nodeIDs : list string) : op (CachedStore S C) (gmap string Peer) :=
  if bool_decide (nodeIDs = []) then opRet ∅
  else
    let* got := onCache (MGet (map (fun id => keyPeerPrefix +:+ id) nodeIDs)) in
    let '(out, misses) := splitPeers got nodeIDs ∅ in
    if bool_decide (misses = []) then opRet out
    else
      let* found := onInner (GetPeersBatch misses) in
      let '(out, set) := addAll keyPeerPrefix marshalPeer found out in
      let* c := self in
      let* _ := opIgnore (onCache (MSet set (ttl c))) in
      opRet out.

End cached.

End Cached.

#[export] Instance cachedStore {SC : StoreCodec} {S C} {St : Store S} {Ca : Cache C}
    : Store (Cached.CachedStore S C) := {|
  UpsertPeer := Cached.UpsertPeer;
  Heartbeat := Cached.Heartbeat;
  GetPeer := Cached.GetPeer;
  ListPeers := Cached.ListPeers;
  DeregisterPeer := Cached.DeregisterPeer;
  PruneExpiredPeers := Cached.PruneExpiredPeers;
  PutArtifact := Cached.PutArtifact;
  GetArtifact := Cached.GetArtifact;
  ReportSeed := Cached.ReportSeed;
  ListSeeds := Cached.ListSeeds;
  ReportChunks := Cached.ReportChunks;
  LocateChunkNodes := Cached.LocateChunkNodes;
  LocateChunkNodesBatch := Cached.LocateChunkNodesBatch;
  GetPeersBatch := Cached.GetPeersBatch
|}.

(** ** Requests *)

Inductive request :=
  | RUpsertPeer (p : Peer) | RHeartbeat (id : string) | RDeregisterPeer (id : string) | RPruneExpiredPeers (expiry : Z)
  | RPutArtifact (a : ArtifactRecord) | RReportSeed (a id : string) | RReportChunks (id : string) (hs : list string)
  | RGetPeer (id : string) | RListPeers (expiry : Z) | RGetArtifact (a : string) | RListSeeds (a : string)
  | RLocateChunkNodes (h : string) | RLocateChunkNodesBatch (hs : list string) | RGetPeersBatch (ids : list string).

(** Any store runs them. *)
Definition exec {S} {St : Store S} (q : request) : op S unit :=
  match q with
  | RUpsertPeer p => let* _ := UpsertPeer p in opRet tt
  | RHeartbeat id => let* _ := Heartbeat id in opRet tt
  | RDeregisterPeer id => let* _ := DeregisterPeer id in opRet tt
  | RPruneExpiredPeers e => let* _ := PruneExpiredPeers e in opRet tt
  | RPutArtifact a => let* _ := PutArtifact a in opRet tt
  | RReportSeed a id => let* _ := ReportSeed a id in opRet tt
  | RReportChunks id hs => let* _ := ReportChunks id hs in opRet tt
  | RGetPeer id => let* _ := GetPeer id in opRet tt
  | RListPeers e => let* _ := ListPeers e in opRet tt
  | RGetArtifact a => let* _ := GetArtifact a in opRet tt
  | RListSeeds a => let* _ := ListSeeds a in opRet tt
  | RLocateChunkNodes h => let* _ := LocateChunkNodes h in opRet tt
  | RLocateChunkNodesBatch hs => let* _ := LocateChunkNodesBatch hs in opRet tt
  | RGetPeersBatch ids => let* _ := GetPeersBatch ids in opRet tt
  end.

(** A history of timed requests, up to the first that fails. *)
Fixpoint history {S} {St : Store S} (h : list (Z * request)) (s : S) : res S :=
  match h with
  | [] => Ok s
  | (now, q) :: h => match exec q now s with
                     | (Ok _, s') => history h s'
                     | (Err e, _) => Err e
                     end
  end.

(** The history without some of its heartbeats. *)
Inductive heartbeatsKept : list (Z * request) -> list (Z * request) -> Prop :=
  | kept_nil : heartbeatsKept [] []
  | kept_cons x h h' : heartbeatsKept h h' -> heartbeatsKept (x :: h) (x :: h')
  | kept_drop t id h h' : heartbeatsKept h h' -> heartbeatsKept h ((t, RHeartbeat id) :: h').

(** * Properties *)

(** Times that JSON can carry (RFC 3339 has four digits for the year): from
    1970 up to the year 9999, whatever the time zone. *)
Definition jsonTime (ns : Z) : bool := ((0 <=? ns) && (ns <? 253370764800 * 1000000000))%Z.

(** Strings that survive a JSON round trip, as the strings of a protobuf
    message do, and such times. *)
Definition textPeer (p : Peer) : bool :=
  utf8Valid (pNodeID p) && utf8Valid (pAddress p) && utf8Valid (pRegion p) && utf8Valid (pZone p)
  && utf8Valid (pRack p) && utf8Valid (pHost p) && utf8Valid (pStatus p)
  && match pLastHeartbeat p with Some t => jsonTime t | None => true end.

Definition textArtifact (a : ArtifactRecord) : bool :=
  utf8Valid (aArtifactID a) && utf8Valid (aName a) && utf8Valid (aVersion a).

Definition textList (l : list string) : bool := forallb utf8Valid l.

Definition textArgs (q : request) : bool :=
  match q with
  | RUpsertPeer p => textPeer p
  | RPutArtifact a => textArtifact a
  | RReportSeed _ id | RReportChunks id _ => utf8Valid id
  | _ => true
  end.

Definition textRequest (tq : Z * request) : bool := jsonTime tq.1 && textArgs tq.2.

Class StoreCodecLaws `{StoreCodec} : Prop := {
  peer_roundtrip : forall p, textPeer p = true -> unmarshalPeer (marshalPeer p) = Some p;
  artifact_roundtrip : forall a, textArtifact a = true -> unmarshalArtifact (marshalArtifact a) = Some a;
  strings_roundtrip : forall l, textList l = true -> unmarshalStrings (marshalStrings l) = l
}.

(** ** The text of the in-memory store *)

Section text.
Import Mem.
Implicit Types m : Memory.

Record memText m : Prop := {
  text_peers : forall id p, peers m !! id = Some p -> textPeer p = true;
  text_arts : forall id a, arts m !! id = Some a -> textArtifact a = true;
  text_seeds : forall a id, is_Some (default ∅ (seeds m !! a) !! id) -> utf8Valid id = true;
  text_chunks : forall h id, is_Some (default ∅ (chunks m !! h) !! id) -> utf8Valid id = true
}.

Lemma textPeer_heartbeat t p : jsonTime t = true -> textPeer p = true -> textPeer (withHeartbeat t p) = true.
Proof. intros Ht. unfold textPeer. simpl. rewrite !andb_true_iff. tauto. Qed.

Lemma textList_keys (mm : gmap string Z) :
  (forall id, is_Some (mm !! id) -> utf8Valid id = true) -> textList (map_to_list mm).*1 = true.
Proof.
  intros Hm. unfold textList. apply forallb_forall. intros id Hin%list_elem_of_In.
  apply list_elem_of_fmap in Hin as ([k t] & -> & Hin). apply elem_of_map_to_list in Hin. eauto.
Qed.

Lemma UpsertPeer_text now p m : jsonTime now = true -> textPeer p = true -> memText m -> memText (UpsertPeer p now m).2.
Proof.
  intros Hn Hp [H1 H2 H3 H4]. unfold UpsertPeer. case_bool_decide; [done|]. split; simpl; try done.
  intros id q. intros [[_ <-]|[_ ?]]%lookup_insert_Some; [|eauto].
  set (p' := match pLastHeartbeat p with Some _ => p | None => withHeartbeat now p end).
  assert (textPeer p' = true) as Hp' by (unfold p'; destruct (pLastHeartbeat p); [done|by apply textPeer_heartbeat]).
  case_bool_decide as Hs; [|done]. unfold textPeer in *. rewrite !andb_true_iff in Hp' |- *.
  tauto.
Qed.

Lemma Heartbeat_text now id m : jsonTime now = true -> memText m -> memText (Heartbeat id now m).2.
Proof.
  intros Hn [H1 H2 H3 H4]. unfold Heartbeat. destruct (peers m !! id) as [p|] eqn:E; [|done].
  split; simpl; try done. intros id' q. intros [[_ <-]|[_ ?]]%lookup_insert_Some; [|eauto].
  apply textPeer_heartbeat; eauto.
Qed.

Lemma forget_text id m : memText m -> memText (forget id m).
Proof.
  assert (forall (mm : gmap string (gmap string Z)) k id', is_Some (default ∅ ((delete id <$> mm) !! k) !! id') ->
    is_Some (default ∅ (mm !! k) !! id')) as Hd.
  { intros mm k id'. rewrite lookup_fmap. destruct (mm !! k); simpl; [|done].
    intros [t [_ Ht]%lookup_delete_Some]. eauto. }
  intros [H1 H2 H3 H4]. split; simpl; [|done|..].
  - intros id' p [_ ?]%lookup_delete_Some. eauto.
  - intros a id' ?%Hd. eauto.
  - intros a id' ?%Hd. eauto.
Qed.

Lemma forgets_text ids : forall m, memText m -> memText (fold_left (fun m id => forget id m) ids m).
Proof. induction ids as [|id ids IH]; intros m Hm; [done|]. simpl. by apply IH, forget_text. Qed.

Lemma PutArtifact_text now a m : textArtifact a = true -> memText m -> memText (PutArtifact a now m).2.
Proof.
  intros Ha [H1 H2 H3 H4]. split; simpl; try done. intros id b. intros [[_ <-]|[_ ?]]%lookup_insert_Some; eauto.
Qed.

Lemma addNode_text (mm : gmap string (gmap string Z)) k id now :
  utf8Valid id = true ->
  (forall a id', is_Some (default ∅ (mm !! a) !! id') -> utf8Valid id' = true) ->
  forall a id', is_Some (default ∅ (<[k := <[id := now]> (default ∅ (mm !! k))]> mm !! a) !! id') ->
  utf8Valid id' = true.
Proof.
  intros Hid Hm a id'. destruct (decide (a = k)) as [->|Hne].
  - rewrite lookup_insert_eq. simpl. intros [t [[<- _]|[_ ?]]%lookup_insert_Some]; eauto.
  - rewrite lookup_insert_ne by done. apply Hm.
Qed.

Lemma ReportSeed_text now a id m : utf8Valid id = true -> memText m -> memText (ReportSeed a id now m).2.
Proof. intros Hid [H1 H2 H3 H4]. split; simpl; try done. by apply addNode_text. Qed.

Lemma reportEach_text now id hs : forall cs n,
  utf8Valid id = true ->
  (forall h id', is_Some (default ∅ (cs !! h) !! id') -> utf8Valid id' = true) ->
  forall h id', is_Some (default ∅ ((reportEach now id hs cs n).1 !! h) !! id') -> utf8Valid id' = true.
Proof.
  induction hs as [|x hs IH]; intros cs n Hid Hcs; [done|]. simpl. case_bool_decide; [by apply IH|].
  apply IH; [done|]. by apply addNode_text.
Qed.

Lemma ReportChunks_text now id hs m : jsonTime now = true -> utf8Valid id = true -> memText m -> memText (ReportChunks id hs now m).2.
Proof.
  intros Hn Hid [H1 H2 H3 H4]. unfold ReportChunks. pose proof (reportEach_text now id hs (chunks m) 0 Hid H4) as Hr.
  destruct (reportEach now id hs (chunks m) 0) as [cs n]. simpl in *. split; simpl; try done.
  destruct (peers m !! id) as [p|] eqn:E; [|done]. intros id' q.
  intros [[_ <-]|[_ ?]]%lookup_insert_Some; [|eauto]. apply textPeer_heartbeat; eauto.
Qed.

End text.

(** ** Coherence of the cache with the in-memory store *)

Section coherence.
Context {SC : StoreCodec} {SL : StoreCodecLaws}.
Abbreviation CS := (Cached.CachedStore Mem.Memory MemCache.Memory).
Implicit Types c : CS.

Definition cacheItems c : gmap string MemCache.memEntry := MemCache.items (Cached.cache c).

(** [l] lists the nodes of [mm], each once. *)
Definition listsNodes (l : list string) (mm : gmap string Z) : Prop :=
  NoDup l /\ list_to_set l =@{gset string} dom mm.

(** What is cached of artifacts, seeds and chunk locations is what the store
    has, expired or not; of peers only that it can be read. *)
Record Coh c : Prop := {
  coh_ttl : (0 < Cached.ttl c)%Z;
  coh_text : memText (Cached.inner c);
  coh_peer : forall id e, cacheItems c !! (keyPeerPrefix +:+ id) = Some e ->
    exists p, unmarshalPeer (MemCache.value e) = Some p /\ textPeer p = true;
  coh_art : forall id e, cacheItems c !! (keyArtifactPrefix +:+ id) = Some e ->
    exists a, unmarshalArtifact (MemCache.value e) = Some a /\ Mem.arts (Cached.inner c) !! id = Some a;
  coh_seeds : forall a e, cacheItems c !! (keySeedsPrefix +:+ a) = Some e ->
    listsNodes (unmarshalStrings (MemCache.value e)) (default ∅ (Mem.seeds (Cached.inner c) !! a));
  coh_chunks : forall h e, cacheItems c !! (keyChunksPrefix +:+ h) = Some e ->
    listsNodes (unmarshalStrings (MemCache.value e)) (default ∅ (Mem.chunks (Cached.inner c) !! h))
}.

(** The store, the cached items and the time to live. *)
Definition frameC c c' : Prop := Cached.inner c' = Cached.inner c /\ Cached.ttl c' = Cached.ttl c.

Lemma Coh_shrink c c' : Coh c -> frameC c c' -> cacheItems c' ⊆ cacheItems c -> Coh c'.
Proof.
  intros [Ht Hx Hp Ha Hs Hc] [Ei Et] Hsub.
  assert (forall k e, cacheItems c' !! k = Some e -> cacheItems c !! k = Some e) as Hk
    by (intros k e Hk; by eapply lookup_weaken).
  split; rewrite ?Ei, ?Et; eauto.
Qed.

(** A new item under [key] is coherent. *)
Definition itemOK c (key : string) (v : bytes) : Prop :=
  (forall id, key = keyPeerPrefix +:+ id -> exists p, unmarshalPeer v = Some p /\ textPeer p = true)
  /\ (forall id, key = keyArtifactPrefix +:+ id ->
       exists a, unmarshalArtifact v = Some a /\ Mem.arts (Cached.inner c) !! id = Some a)
  /\ (forall a, key = keySeedsPrefix +:+ a ->
       listsNodes (unmarshalStrings v) (default ∅ (Mem.seeds (Cached.inner c) !! a)))
  /\ (forall h, key = keyChunksPrefix +:+ h ->
       listsNodes (unmarshalStrings v) (default ∅ (Mem.chunks (Cached.inner c) !! h))).

Lemma Coh_items c c' :
  Coh c -> frameC c c' ->
  (forall k e, cacheItems c' !! k = Some e -> cacheItems c !! k = Some e \/ itemOK c k (MemCache.value e)) -> Coh c'.
Proof.
  intros [Ht Hx Hp Ha Hs Hc] [Ei Et] Hit.
  split; rewrite ?Ei, ?Et; try done; intros k e He; destruct (Hit _ e He) as [?|(I1 & I2 & I3 & I4)]; eauto.
Qed.

Lemma peer_itemOK c id p : textPeer p = true -> itemOK c (keyPeerPrefix +:+ id) (marshalPeer p).
Proof. intros Hp. split; [|done]. intros _ _. exists p. by rewrite peer_roundtrip. Qed.

Lemma list_itemOK c v : itemOK c keyPeersList v.
Proof. done. Qed.

Lemma art_itemOK c id a :
  Coh c -> Mem.arts (Cached.inner c) !! id = Some a -> itemOK c (keyArtifactPrefix +:+ id) (marshalArtifact a).
Proof.
  intros Hc Ha. split; [done|]. split; [|done]. intros id' E. simplify_eq/=. exists a.
  rewrite artifact_roundtrip; [done|]. by eapply text_arts; [apply Hc|].
Qed.

Lemma keys_listsNodes (mm : gmap string Z) :
  (forall id, is_Some (mm !! id) -> utf8Valid id = true) ->
  listsNodes (unmarshalStrings (marshalStrings (map_to_list mm).*1)) mm.
Proof.
  intros Hm. rewrite strings_roundtrip by by apply textList_keys.
  split; [apply NoDup_fst_map_to_list|apply list_to_set_keys].
Qed.

Lemma seeds_itemOK c a :
  Coh c -> itemOK c (keySeedsPrefix +:+ a) (marshalStrings (map_to_list (default ∅ (Mem.seeds (Cached.inner c) !! a))).*1).
Proof.
  intros Hc. split; [done|]. split; [done|]. split; [|done]. intros a' E. simplify_eq/=. apply keys_listsNodes.
  intros id. by eapply text_seeds; apply Hc.
Qed.

Lemma chunks_itemOK c h :
  Coh c -> itemOK c (keyChunksPrefix +:+ h) (marshalStrings (Mem.nodesOf (Cached.inner c) h)).
Proof.
  intros Hc. split; [done|]. split; [done|]. split; [done|]. intros h' E. simplify_eq/=. apply keys_listsNodes.
  intros id. by eapply text_chunks; apply Hc.
Qed.

(** ** The steps of the operations *)

(** A call on the store. *)
Lemma onInner_runs {A} (m : op Mem.Memory A) now c a :
  (m now (Cached.inner c)).1 = Ok a ->
  runs (Cached.onInner m) now c (fun a' c' => a' = a /\ Cached.inner c' = (m now (Cached.inner c)).2
    /\ Cached.cache c' = Cached.cache c /\ Cached.ttl c' = Cached.ttl c).
Proof.
  intros Ha. apply runs_on. exists a, (m now (Cached.inner c)).2. split; [|done].
  rewrite <- Ha. apply surjective_pairing.
Qed.

Definition shrinksC (now : Z) c c' : Prop :=
  frameC c c' /\ shrinks now (Cached.cache c) (Cached.cache c').

Lemma cacheGet_runs now c key :
  runs (Cached.cacheGet key) now c (fun v c' => v = live now (Cached.cache c) key /\ shrinksC now c c').
Proof.
  apply runs_bind, runs_try, runs_on. eapply runs_mono; [apply Get_runs|]. intros v m' [-> Hs].
  by apply runs_ret.
Qed.

Lemma cacheSet_runs now c key v :
  runs (Cached.cacheSet key v) now c (fun _ c' => frameC c c'
    /\ cacheItems c' = <[key := MemCache.mkEntry v
         (now + if (Cached.ttl c <=? 0)%Z then MemCache.defaultTTL (Cached.cache c) else Cached.ttl c)%Z]> (cacheItems c)).
Proof.
  apply runs_bind. exists c, c. split; [done|]. apply runs_ignore, runs_on.
  eapply runs_mono; [apply Set_runs|]. intros _ m' [_ Hi]. done.
Qed.

Lemma drop_runs now c key :
  runs (Cached.drop key) now c (fun _ c' => frameC c c' /\ cacheItems c' = delete key (cacheItems c)).
Proof. apply runs_ignore, runs_on. eapply runs_mono; [apply Delete_runs|]. intros _ m' [_ Hi]. done. Qed.

Lemma dropPrefix_runs now c prefix :
  runs (Cached.dropPrefix prefix) now c (fun _ c' => frameC c c' /\ cacheItems c' ⊆ cacheItems c
    /\ forall k, hasPrefix prefix k = true -> cacheItems c' !! k = None).
Proof. apply runs_ignore, runs_on. eapply runs_mono; [apply DeletePrefix_runs|]. intros _ m' (_ & Hi & Hk). done. Qed.

Lemma frameC_trans c1 c2 c3 : frameC c1 c2 -> frameC c2 c3 -> frameC c1 c3.
Proof. intros [??] [??]. split; congruence. Qed.

Lemma Coh_set c c' key v t :
  Coh c -> frameC c c' -> cacheItems c' = <[key := MemCache.mkEntry v t]> (cacheItems c) -> itemOK c key v -> Coh c'.
Proof.
  intros Hc Hf Hi Hok. eapply Coh_items; [done..|]. intros k e. rewrite Hi.
  intros [[<- <-]|[_ ?]]%lookup_insert_Some; [by right|by left].
Qed.

(** ** Reads *)

(** What a read of a peer gives. *)
Definition peerView (now : Z) c (id : string) : option Peer :=
  match live now (Cached.cache c) (keyPeerPrefix +:+ id) with
  | Some raw => unmarshalPeer raw
  | None => Mem.peers (Cached.inner c) !! id
  end.

(** A step that readers cannot see. *)
Definition sameC (now : Z) c c' : Prop :=
  Coh c' /\ frameC c c' /\ forall id, peerView now c' id = peerView now c id.

Lemma sameC_trans now c1 c2 c3 : sameC now c1 c2 -> sameC now c2 c3 -> sameC now c1 c3.
Proof. intros (_ & F1 & P1) (C2 & F2 & P2). split; [done|]. split; [by eapply frameC_trans|]. intros; by rewrite P2. Qed.

Lemma sameC_shrink now c c' : Coh c -> shrinksC now c c' -> sameC now c c'.
Proof.
  intros Hc [Hf (_ & Hsub & Hl)]. split; [by eapply Coh_shrink|]. split; [done|].
  intros id. unfold peerView. destruct Hf as [-> _]. by rewrite Hl.
Qed.

(** Items that are not peers. *)
Lemma sameC_items now c c' :
  Coh c -> frameC c c' ->
  (forall k e, cacheItems c' !! k = Some e -> cacheItems c !! k = Some e \/ itemOK c k (MemCache.value e)) ->
  (forall id, cacheItems c' !! (keyPeerPrefix +:+ id) = cacheItems c !! (keyPeerPrefix +:+ id)) -> sameC now c c'.
Proof.
  intros Hc Hf Hi Hp. split; [by eapply Coh_items|]. split; [done|]. intros id. unfold peerView, live.
  change (MemCache.items (Cached.cache c')) with (cacheItems c'). rewrite Hp. by destruct Hf as [-> _].
Qed.

Lemma sameC_set now c c' key v t :
  Coh c -> frameC c c' -> cacheItems c' = <[key := MemCache.mkEntry v t]> (cacheItems c) ->
  itemOK c key v -> (forall id, key <> keyPeerPrefix +:+ id) -> sameC now c c'.
Proof.
  intros Hc Hf Hi Hok Hk. apply sameC_items; [done..| |].
  - intros k e. rewrite Hi. intros [[<- <-]|[_ ?]]%lookup_insert_Some; [by right|by left].
  - intros id. by rewrite Hi, lookup_insert_ne.
Qed.

(** Peers read from the store. *)
Lemma sameC_peers now c c' (ps : gmap string Peer) :
  Coh c -> frameC c c' ->
  (forall id p, ps !! id = Some p -> Mem.peers (Cached.inner c) !! id = Some p
                 /\ live now (Cached.cache c) (keyPeerPrefix +:+ id) = None) ->
  (forall key, cacheItems c' !! key = cacheItems c !! key \/
     exists id p t, key = keyPeerPrefix +:+ id /\ ps !! id = Some p /\ (now <= t)%Z
                    /\ cacheItems c' !! key = Some (MemCache.mkEntry (marshalPeer p) t)) ->
  sameC now c c'.
Proof.
  intros Hc Hf Hps Hi.
  assert (forall id p, ps !! id = Some p -> textPeer p = true) as Htext.
  { intros id p Hp. eapply text_peers; [apply Hc|]. by apply (Hps id p). }
  split; [|split; [done|]].
  - eapply Coh_items; [done..|]. intros k e He. destruct (Hi k) as [Hk|(id & p & t & -> & Hp & _ & Hk)].
    + left. congruence.
    + right. rewrite Hk in He. injection He as <-. apply peer_itemOK. eauto.
  - intros id. unfold peerView. destruct Hf as [-> _].
    destruct (Hi (keyPeerPrefix +:+ id)) as [Hk|(id' & p & t & E & Hp & Ht & Hk)].
    + unfold live. change (MemCache.items (Cached.cache ?x)) with (cacheItems x). by rewrite Hk.
    + assert (id' = id) as -> by (by simplify_eq/=). destruct (Hps id p Hp) as [Hin Hl]. rewrite Hl.
      unfold live. change (MemCache.items (Cached.cache c')) with (cacheItems c'). rewrite Hk. simpl.
      unfold MemCache.expired. simpl. rewrite (proj2 (Z.ltb_ge t now)) by done.
      rewrite peer_roundtrip by eauto. by rewrite Hin.
Qed.

Lemma live_Some now c key v :
  live now (Cached.cache c) key = Some v -> exists e, cacheItems c !! key = Some e /\ v = MemCache.value e.
Proof.
  unfold live, cacheItems. destruct (MemCache.items (Cached.cache c) !! key) as [e|]; [|done].
  destruct (MemCache.expired now e); [done|]. intros [= <-]. eauto.
Qed.

Lemma ttl_pos c : Coh c -> (if (Cached.ttl c <=? 0)%Z then MemCache.defaultTTL (Cached.cache c) else Cached.ttl c) = Cached.ttl c.
Proof. intros Hc. pose proof (coh_ttl c Hc). by rewrite (proj2 (Z.leb_gt _ _)). Qed.

Lemma GetPeer_runs now c id :
  Coh c -> runs (Cached.GetPeer id) now c (fun p c' => p = peerView now c id /\ sameC now c c').
Proof.
  intros Hc. apply runs_bind. eapply runs_mono; [apply cacheGet_runs|]. intros v c1 [-> Hs1].
  pose proof (sameC_shrink now c c1 Hc Hs1) as (Hc1 & Hf1 & Hp1). unfold peerView at 1.
  destruct (live now (Cached.cache c) (keyPeerPrefix +:+ id)) as [raw|] eqn:El.
  - destruct (live_Some _ _ _ _ El) as (e & He & ->). destruct (coh_peer c Hc id e He) as (p & -> & _).
    apply runs_ret. done.
  - apply runs_bind. eapply runs_mono; [by apply onInner_runs|]. intros p c2 (-> & Hi2 & Hc2 & Ht2).
    simpl in Hi2. assert (frameC c1 c2) as Hf2 by done. assert (cacheItems c2 = cacheItems c1) as Hit2 by (unfold cacheItems; by rewrite Hc2).
    assert (sameC now c1 c2) as Hs2 by (apply sameC_items; try done; [rewrite Hit2; by left|by rewrite Hit2]).
    assert (Mem.peers (Cached.inner c1) = Mem.peers (Cached.inner c)) as Ein by (by destruct Hf1 as [-> _]). rewrite Ein.
    destruct (Mem.peers (Cached.inner c) !! id) as [p|] eqn:Ep.
    2: { apply runs_ret. split; [done|]. eapply sameC_trans; [by split|done]. }
    apply runs_bind. eapply runs_mono; [apply cacheSet_runs|]. intros _ c3 [Hf3 Hi3]. apply runs_ret.
    split; [done|]. apply (sameC_trans now c c1); [by split|]. apply (sameC_trans now c1 c2); [done|].
    destruct Hs2 as [Hcoh2 _]. rewrite (ttl_pos c2 Hcoh2) in Hi3.
    apply (sameC_peers now c2 c3 {[id := p]}); [done..| |].
    + intros id' p' [<- <-]%lookup_singleton_Some. rewrite Hi2, Ein. split; [done|].
      rewrite Hc2. destruct Hs1 as [_ (_ & _ & ->)]. done.
    + intros key. rewrite Hi3. destruct (decide (key = keyPeerPrefix +:+ id)) as [->|Hne].
      * right. exists id, p, (now + Cached.ttl c2)%Z. rewrite lookup_insert_eq, lookup_singleton_eq.
        pose proof (coh_ttl c2 Hcoh2). split_and!; [done..|lia|done].
      * left. by rewrite lookup_insert_ne.
Qed.

(** A read on the store that changes nothing. *)
Lemma readInner_runs {A} (m : op Mem.Memory A) now c a :
  Coh c -> m now (Cached.inner c) = (Ok a, Cached.inner c) ->
  runs (Cached.onInner m) now c (fun a' c' => a' = a /\ sameC now c c' /\ cacheItems c' = cacheItems c).
Proof.
  intros Hc Hm. eapply runs_mono; [apply onInner_runs; by rewrite Hm|].
  intros a' c' (-> & Hi & Hca & Ht). rewrite Hm in Hi. simpl in Hi.
  assert (cacheItems c' = cacheItems c) as Hit by (unfold cacheItems; by rewrite Hca).
  split; [done|]. split; [|done]. apply sameC_items; [done|done| |by rewrite Hit]. rewrite Hit. by left.
Qed.

(** [ListSeeds] and [LocateChunkNodes]: the nodes of [mm]. *)
Lemma readStrings_runs now c key m mm :
  Coh c -> (forall id, key <> keyPeerPrefix +:+ id) ->
  (forall e, cacheItems c !! key = Some e -> listsNodes (unmarshalStrings (MemCache.value e)) mm) ->
  (forall now, m now (Cached.inner c) = (Ok (map_to_list mm).*1, Cached.inner c)) ->
  (forall c', Coh c' -> Cached.inner c' = Cached.inner c -> itemOK c' key (marshalStrings (map_to_list mm).*1)) ->
  runs (Cached.readStrings key m) now c (fun l c' => listsNodes l mm /\ sameC now c c').
Proof.
  intros Hc Hk Hcached Hm Hok. apply runs_bind. eapply runs_mono; [apply cacheGet_runs|]. intros v c1 [-> Hs1].
  pose proof (sameC_shrink now c c1 Hc Hs1) as Hs1'. pose proof Hs1' as (Hc1 & [Hi1 _] & _).
  destruct (live now (Cached.cache c) key) as [raw|] eqn:El.
  - destruct (live_Some _ _ _ _ El) as (e & He & ->). apply runs_ret. split; [by apply Hcached|done].
  - apply runs_bind. eapply runs_mono; [apply readInner_runs; [done|rewrite Hi1; apply Hm]|].
    intros ids c2 (-> & Hs2 & Hit2). pose proof Hs2 as (Hc2 & [Hi2 _] & _).
    apply runs_bind. eapply runs_mono; [apply cacheSet_runs|]. intros _ c3 [Hf3 Hi3]. apply runs_ret.
    split; [split; [apply NoDup_fst_map_to_list|apply list_to_set_keys]|].
    eapply sameC_trans; [exact Hs1'|]. eapply sameC_trans; [exact Hs2|].
    eapply sameC_set; [done|done|exact Hi3| |done]. apply Hok; [done|congruence].
Qed.

Lemma ListSeeds_runs now c a :
  Coh c -> runs (Cached.ListSeeds a) now c (fun l c' =>
    listsNodes l (default ∅ (Mem.seeds (Cached.inner c) !! a)) /\ sameC now c c').
Proof.
  intros Hc. apply readStrings_runs; [done..| |done|].
  - intros e. by apply coh_seeds.
  - intros c' Hc' <-. by apply seeds_itemOK.
Qed.

Lemma LocateChunkNodes_runs now c h :
  Coh c -> runs (Cached.LocateChunkNodes h) now c (fun l c' =>
    listsNodes l (default ∅ (Mem.chunks (Cached.inner c) !! h)) /\ sameC now c c').
Proof.
  intros Hc. apply readStrings_runs; [done..| |done|].
  - intros e. by apply coh_chunks.
  - intros c' Hc' <-. by apply chunks_itemOK.
Qed.

Lemma GetArtifact_runs now c a :
  Coh c -> runs (Cached.GetArtifact a) now c (fun r c' => r = Mem.arts (Cached.inner c) !! a /\ sameC now c c').
Proof.
  intros Hc. apply runs_bind. eapply runs_mono; [apply cacheGet_runs|]. intros v c1 [-> Hs1].
  pose proof (sameC_shrink now c c1 Hc Hs1) as Hs1'. pose proof Hs1' as (Hc1 & [Hi1 _] & _).
  destruct (live now (Cached.cache c) (keyArtifactPrefix +:+ a)) as [raw|] eqn:El.
  - destruct (live_Some _ _ _ _ El) as (e & He & ->). destruct (coh_art c Hc a e He) as (r & -> & Hr).
    by apply runs_ret.
  - apply runs_bind. eapply runs_mono; [by apply readInner_runs|].
    intros r c2 (-> & Hs2 & _). pose proof Hs2 as (Hc2 & [Hi2 _] & _). rewrite Hi1.
    destruct (Mem.arts (Cached.inner c) !! a) as [r|] eqn:Ea.
    2: { apply runs_ret. split; [done|]. by eapply sameC_trans. }
    apply runs_bind. eapply runs_mono; [apply cacheSet_runs|]. intros _ c3 [Hf3 Hi3]. apply runs_ret.
    split; [done|]. eapply sameC_trans; [exact Hs1'|]. eapply sameC_trans; [exact Hs2|].
    eapply sameC_set; [done|done|exact Hi3| |done]. apply art_itemOK; [done|]. by rewrite Hi2, Hi1.
Qed.

Lemma ListPeers_runs now c e : Coh c -> runs (Cached.ListPeers e) now c (fun _ c' => sameC now c c').
Proof.
  intros Hc. apply runs_bind. eapply runs_mono; [apply cacheGet_runs|]. intros v c1 [-> Hs1].
  pose proof (sameC_shrink now c c1 Hc Hs1) as Hs1'. pose proof Hs1' as (Hc1 & _).
  apply runs_bind, runs_now. destruct (live _ _ _); [by apply runs_ret|].
  apply runs_bind. eapply runs_mono; [by apply readInner_runs|]. intros ps c2 (-> & Hs2 & _). pose proof Hs2 as (Hc2 & _).
  apply runs_bind. eapply runs_mono; [apply cacheSet_runs|]. intros _ c3 [Hf3 Hi3]. apply runs_ret.
  eapply sameC_trans; [exact Hs1'|]. eapply sameC_trans; [exact Hs2|].
  eapply sameC_set; [done|done|exact Hi3|apply list_itemOK|done].
Qed.

(** ** Batches *)

Lemma addAll_spec {V} (prefix : string) (enc : V -> bytes) (m out : gmap string V) :
  (forall k, (Cached.addAll prefix enc m out).1 !! k = match m !! k with Some v => Some v | None => out !! k end)
  /\ (forall key v, (Cached.addAll prefix enc m out).2 !! key = Some v ->
        exists k w, key = prefix +:+ k /\ m !! k = Some w /\ v = enc w).
Proof.
  unfold Cached.addAll.
  assert (forall (l : list (string * V)) (o : gmap string V) (set : gmap string bytes), NoDup l.*1 -> (forall k w, (k, w) ∈ l -> m !! k = Some w) ->
    (forall key v, set !! key = Some v -> exists k w, key = prefix +:+ k /\ m !! k = Some w /\ v = enc w) ->
    let r := fold_left (fun '(out, set) '(k, v) => (<[k := v]> out, <[prefix +:+ k := enc v]> set)) l (o, set) in
    (forall k, r.1 !! k = match (list_to_map l : gmap string V) !! k with Some v => Some v | None => o !! k end)
    /\ (forall key v, r.2 !! key = Some v -> exists k w, key = prefix +:+ k /\ m !! k = Some w /\ v = enc w)) as H.
  { induction l as [|[k0 v0] l IH]; intros o set Hnd Hl Hset.
    - split; [intros k; simpl; by rewrite lookup_empty|done].
    - apply NoDup_cons in Hnd as [Hni Hnd]. simpl in Hni.
      destruct (IH (<[k0 := v0]> o) (<[prefix +:+ k0 := enc v0]> set)) as [H1 H2].
      + done.
      + intros; apply Hl; by right.
      + intros key v [[<- <-]|[_ ?]]%lookup_insert_Some; [|eauto]. exists k0, v0. split; [done|]. split; [|done].
        apply Hl. by left.
      + split; [|done]. intros k. cbv zeta in H1. simpl. rewrite H1. destruct (decide (k0 = k)) as [<-|Hne].
        * rewrite lookup_insert_eq. rewrite (not_elem_of_list_to_map_1 l k0) by done. by rewrite lookup_insert_eq.
        * rewrite (lookup_insert_ne (list_to_map l)) by done.
          destruct (list_to_map l !! k); [done|]. by rewrite lookup_insert_ne. }
  destruct (H (map_to_list m) out ∅) as [H1 H2].
  - apply NoDup_fst_map_to_list.
  - intros k w. by rewrite elem_of_map_to_list.
  - intros key v. by rewrite lookup_empty.
  - split; [|done]. intros k. rewrite H1. by rewrite list_to_map_to_list.
Qed.

Lemma splitHits_spec got hs : forall out,
  (forall h, (Cached.splitHits got hs out).1 !! h
     = if bool_decide (h ∈ hs) then match got !! (keyChunksPrefix +:+ h) with
                                    | Some raw => Some (unmarshalStrings raw) | None => out !! h end
       else out !! h)
  /\ (forall h, h ∈ (Cached.splitHits got hs out).2 <-> h ∈ hs /\ got !! (keyChunksPrefix +:+ h) = None).
Proof.
  induction hs as [|x hs IH]; intros out; [split; [done|set_solver]|]. cbn [Cached.splitHits].
  destruct (got !! (keyChunksPrefix +:+ x)) as [raw|] eqn:Ex.
  - destruct (IH (<[x := unmarshalStrings raw]> out)) as [H1 H2]. split.
    + intros h. rewrite H1. destruct (decide (h = x)) as [->|Hne].
      * rewrite Ex, lookup_insert_eq, (bool_decide_eq_true_2 (x ∈ x :: hs)) by by left. by case_bool_decide.
      * rewrite lookup_insert_ne by done. by rewrite (bool_decide_ext (h ∈ hs) (h ∈ x :: hs)) by set_solver.
    + intros h. rewrite H2, elem_of_cons. split; [tauto|]. intros [[->|?] ?]; [congruence|done].
  - destruct (IH out) as [H1 H2]. destruct (Cached.splitHits got hs out) as [out' misses]. simpl in *. split.
    + intros h. rewrite H1. destruct (decide (h = x)) as [->|Hne].
      * rewrite Ex. by repeat case_bool_decide.
      * by rewrite (bool_decide_ext (h ∈ hs) (h ∈ x :: hs)) by set_solver.
    + intros h. rewrite !elem_of_cons, H2. split; [|tauto]. intros [->|?]; [by auto|tauto].
Qed.

Lemma MGet_cached now c keys :
  runs (Cached.onCache (S:=Mem.Memory) (MGet keys)) now c (fun got c' => shrinksC now c c'
    /\ forall k, got !! k = if bool_decide (k ∈ keys) then live now (Cached.cache c) k else None).
Proof. apply runs_on. eapply runs_mono; [apply MGet_runs|]. intros got m' [Hs Hg]. done. Qed.

Lemma elem_of_prefixed (prefix : string) h hs :
  (forall x y : string, prefix +:+ x = prefix +:+ y -> x = y) ->
  prefix +:+ h ∈ map (fun h => prefix +:+ h) hs <-> h ∈ hs.
Proof.
  intros Hinj. rewrite list_elem_of_fmap. split.
  - intros (y & E & Hy). by apply Hinj in E as ->.
  - intros Hh. eauto.
Qed.

Lemma keyChunks_inj x y : keyChunksPrefix +:+ x = keyChunksPrefix +:+ y -> x = y.
Proof. intros E. by simplify_eq/=. Qed.

Lemma keyPeer_inj x y : keyPeerPrefix +:+ x = keyPeerPrefix +:+ y -> x = y.
Proof. intros E. by simplify_eq/=. Qed.

(** Whatever list of nodes the batch gives for a chunk is right. *)
Lemma LocateChunkNodesBatch_runs now c hs :
  Coh c -> runs (Cached.LocateChunkNodesBatch hs) now c (fun out c' => sameC now c c'
    /\ forall h, h ∈ hs -> exists l, out !! h = Some l /\ listsNodes l (default ∅ (Mem.chunks (Cached.inner c) !! h))).
Proof.
  intros Hc. unfold Cached.LocateChunkNodesBatch. case_bool_decide as He.
  { subst. apply runs_ret. split; [by split|set_solver]. }
  apply runs_bind. eapply runs_mono; [apply MGet_cached|]. intros got c1 [Hs1 Hgot].
  pose proof (sameC_shrink now c c1 Hc Hs1) as Hs1'. pose proof Hs1' as (Hc1 & [Hi1 _] & _).
  destruct (splitHits_spec got hs ∅) as [Hout Hmiss]. destruct (Cached.splitHits got hs ∅) as [out misses]. simpl in *.
  assert (forall h raw, got !! (keyChunksPrefix +:+ h) = Some raw ->
    listsNodes (unmarshalStrings raw) (default ∅ (Mem.chunks (Cached.inner c) !! h))) as Hhit.
  { intros h raw Hr. rewrite Hgot in Hr. case_bool_decide; [|done].
    destruct (live_Some _ _ _ _ Hr) as (e & He' & ->). by apply coh_chunks. }
  case_bool_decide as Hm.
  - apply runs_ret. split; [done|]. intros h Hh. rewrite Hout, bool_decide_eq_true_2 by done.
    destruct (got !! (keyChunksPrefix +:+ h)) as [raw|] eqn:Eg; [eauto|].
    assert (h ∈ misses) as Hin by by apply Hmiss. subst misses. set_solver.
  - apply runs_bind. eapply runs_mono; [by apply readInner_runs|]. intros found c2 (-> & Hs2 & _).
    pose proof Hs2 as (Hc2 & [Hi2 _] & _).
    assert (forall h, (fold_left (fun out h => <[h := Mem.nodesOf (Cached.inner c1) h]> out) misses ∅ : gmap string (list string)) !! h
      = if bool_decide (h ∈ misses) then Some (Mem.nodesOf (Cached.inner c) h) else None) as Hfound.
    { intros h. rewrite fold_insert_lookup, lookup_empty, Hi1. done. }
    match goal with |- context [Cached.addAll _ _ ?f ?o] => set (found := f) in *;
      destruct (addAll_spec keyChunksPrefix marshalStrings found o) as [Hadd Hset];
      destruct (Cached.addAll keyChunksPrefix marshalStrings found o) as [out' set'] end. simpl in *.
    apply runs_bind. exists c2, c2. split; [done|].
    apply runs_bind, runs_ignore, runs_on. eapply runs_mono; [apply MSet_runs|]. intros _ m' [_ Hi3]. apply runs_ret.
    split.
    + eapply sameC_trans; [exact Hs1'|]. eapply sameC_trans; [exact Hs2|]. apply sameC_items; [done|done| |].
      * intros k e. unfold cacheItems. simpl. rewrite Hi3. destruct (set' !! k) as [v|] eqn:Ev; [|by left].
        intros [= <-]. right. simpl. destruct (Hset k v Ev) as (h & l & -> & Hl & ->).
        rewrite Hfound in Hl. case_bool_decide; [|done]. injection Hl as <-.
        rewrite <- Hi1, <- Hi2. by apply chunks_itemOK.
      * intros id. unfold cacheItems. simpl. rewrite Hi3. destruct (set' !! (keyPeerPrefix +:+ id)) as [v|] eqn:Ev; [|done].
        destruct (Hset _ v Ev) as (h & l & E & _). done.
    + intros h Hh. rewrite Hadd, Hfound. case_bool_decide as Hd.
      * eexists. split; [done|]. split; [apply nodesOf_NoDup|apply list_to_set_keys].
      * rewrite Hout, bool_decide_eq_true_2 by done.
        destruct (got !! (keyChunksPrefix +:+ h)) as [raw|] eqn:Eg; [eauto|]. by destruct Hd; apply Hmiss.
Qed.

Lemma splitPeers_spec got ids : forall out,
  (forall id raw, id ∈ ids -> got !! (keyPeerPrefix +:+ id) = Some raw -> is_Some (unmarshalPeer raw)) ->
  (forall id, (Cached.splitPeers got ids out).1 !! id
     = if bool_decide (id ∈ ids) then match got !! (keyPeerPrefix +:+ id) with
                                      | Some raw => unmarshalPeer raw | None => out !! id end
       else out !! id)
  /\ (forall id, id ∈ (Cached.splitPeers got ids out).2 <-> id ∈ ids /\ got !! (keyPeerPrefix +:+ id) = None).
Proof.
  induction ids as [|x ids IH]; intros out Hdec; [split; [done|set_solver]|]. cbn [Cached.splitPeers].
  assert (forall id raw, id ∈ ids -> got !! (keyPeerPrefix +:+ id) = Some raw -> is_Some (unmarshalPeer raw)) as Hdec'
    by (intros id raw Hin; apply Hdec; by right).
  destruct (got !! (keyPeerPrefix +:+ x)) as [raw|] eqn:Ex.
  - destruct (Hdec x raw) as [p Hp]; [by left|done|]. rewrite Hp. destruct (IH (<[x := p]> out) Hdec') as [H1 H2]. split.
    + intros id. rewrite H1. destruct (decide (id = x)) as [->|Hne].
      * rewrite Ex, Hp, lookup_insert_eq, (bool_decide_eq_true_2 (x ∈ x :: ids)) by by left. by case_bool_decide.
      * rewrite lookup_insert_ne by done. by rewrite (bool_decide_ext (id ∈ ids) (id ∈ x :: ids)) by set_solver.
    + intros id. rewrite H2, elem_of_cons. split; [tauto|]. intros [[->|?] ?]; [congruence|done].
  - destruct (IH out Hdec') as [H1 H2]. destruct (Cached.splitPeers got ids out) as [out' misses]. simpl in *. split.
    + intros id. rewrite H1. destruct (decide (id = x)) as [->|Hne].
      * rewrite Ex. by repeat case_bool_decide.
      * by rewrite (bool_decide_ext (id ∈ ids) (id ∈ x :: ids)) by set_solver.
    + intros id. rewrite !elem_of_cons, H2. split; [|tauto]. intros [->|?]; [by auto|tauto].
Qed.

Lemma GetPeersBatch_runs now c ids :
  Coh c -> runs (Cached.GetPeersBatch ids) now c (fun out c' => sameC now c c'
    /\ forall id, id ∈ ids -> out !! id = peerView now c id).
Proof.
  intros Hc. unfold Cached.GetPeersBatch. case_bool_decide as He.
  { subst. apply runs_ret. split; [by split|set_solver]. }
  apply runs_bind. eapply runs_mono; [apply MGet_cached|]. intros got c1 [Hs1 Hgot].
  pose proof (sameC_shrink now c c1 Hc Hs1) as Hs1'. pose proof Hs1' as (Hc1 & [Hi1 _] & _).
  assert (forall id, id ∈ ids -> got !! (keyPeerPrefix +:+ id) = live now (Cached.cache c) (keyPeerPrefix +:+ id)) as Hg.
  { intros id Hin. rewrite Hgot, bool_decide_eq_true_2; [done|]. by apply elem_of_prefixed; [apply keyPeer_inj|]. }
  assert (forall id raw, id ∈ ids -> got !! (keyPeerPrefix +:+ id) = Some raw -> is_Some (unmarshalPeer raw)) as Hdec.
  { intros id raw Hin Hr. rewrite Hg in Hr by done. destruct (live_Some _ _ _ _ Hr) as (e & He' & ->).
    destruct (coh_peer c Hc id e He') as (p & -> & _). eauto. }
  destruct (splitPeers_spec got ids ∅ Hdec) as [Hout Hmiss]. destruct (Cached.splitPeers got ids ∅) as [out misses]. simpl in *.
  case_bool_decide as Hm.
  - apply runs_ret. split; [done|]. intros id Hin. rewrite Hout, bool_decide_eq_true_2 by done. unfold peerView.
    rewrite <- (Hg id Hin). destruct (got !! (keyPeerPrefix +:+ id)) as [raw|] eqn:Eg; [done|].
    assert (id ∈ misses) as Hin' by by apply Hmiss. subst misses. set_solver.
  - apply runs_bind. eapply runs_mono; [by apply readInner_runs|]. intros found c2 (-> & Hs2 & Hit2).
    pose proof Hs2 as (Hc2 & [Hi2 _] & _).
    assert (forall id, (fold_left (fun out id => match Mem.peers (Cached.inner c1) !! id with
        Some p => <[id := p]> out | None => out end) misses ∅ : gmap string Peer) !! id
      = if bool_decide (id ∈ misses) then Mem.peers (Cached.inner c) !! id else None) as Hfound.
    { intros id. rewrite (fold_insert_some (fun id => Mem.peers (Cached.inner c1) !! id)) by done.
      by rewrite lookup_empty, Hi1. }
    match goal with |- context [Cached.addAll _ _ ?f ?o] => set (found := f) in *;
      destruct (addAll_spec keyPeerPrefix marshalPeer found o) as [Hadd Hset];
      destruct (Cached.addAll keyPeerPrefix marshalPeer found o) as [out' set'] end. simpl in *.
    apply runs_bind. exists c2, c2. split; [done|].
    apply runs_bind, runs_ignore, runs_on. eapply runs_mono; [apply MSet_runs|]. intros _ m' [_ Hi3]. apply runs_ret.
    rewrite (ttl_pos c2 Hc2) in Hi3. split.
    + eapply sameC_trans; [exact Hs1'|]. eapply sameC_trans; [exact Hs2|]. apply (sameC_peers now c2 _ found); [done|done| |].
      * intros id p Hp. rewrite Hfound in Hp. case_bool_decide as Hd; [|done]. rewrite Hi2, Hi1. split; [done|].
        apply Hmiss in Hd as [Hin Hn]. rewrite Hg in Hn by done. rewrite <- Hn.
        destruct Hs1 as [_ (_ & _ & <-)]. unfold live. change (MemCache.items (Cached.cache ?x)) with (cacheItems x).
        by rewrite Hit2.
      * intros key. unfold cacheItems. simpl. rewrite Hi3. destruct (set' !! key) as [v|] eqn:Ev; [|by left].
        right. destruct (Hset key v Ev) as (id & p & -> & Hp & ->). exists id, p, (now + Cached.ttl c2)%Z.
        pose proof (coh_ttl c2 Hc2). split_and!; [done..|lia|done].
    + intros id Hin. rewrite Hadd, Hfound. unfold peerView. rewrite <- (Hg id Hin). case_bool_decide as Hd.
      * apply Hmiss in Hd as [_ Hn]. rewrite Hn. destruct (Mem.peers (Cached.inner c) !! id) eqn:Ep; [done|].
        rewrite Hout, bool_decide_eq_true_2, Hn by done. by rewrite lookup_empty.
      * rewrite Hout, bool_decide_eq_true_2 by done.
        destruct (got !! (keyPeerPrefix +:+ id)) as [raw|] eqn:Eg; [done|]. by destruct Hd; apply Hmiss.
Qed.

(** ** Writes *)

(** A write has changed the store to [m'] and removed from the cache the keys
    of [P], and perhaps more. *)
Definition cleared c m' (P : string -> Prop) c' : Prop :=
  Cached.inner c' = m' /\ Cached.ttl c' = Cached.ttl c /\ cacheItems c' ⊆ cacheItems c
  /\ forall k, P k -> cacheItems c' !! k = None.

Lemma inner_cleared {A} (m : op Mem.Memory A) now c a :
  (m now (Cached.inner c)).1 = Ok a ->
  runs (Cached.onInner m) now c (fun a' c' => a' = a /\ cleared c (m now (Cached.inner c)).2 (fun _ => False) c').
Proof.
  intros Ha. eapply runs_mono; [by apply onInner_runs|]. intros a' c' (-> & Ei & Ec & Et). split; [done|].
  unfold cleared, cacheItems. by rewrite Ec.
Qed.

Lemma drop_cleared now c m' P c1 key :
  cleared c m' P c1 -> runs (Cached.drop key) now c1 (fun _ => cleared c m' (fun k => P k \/ k = key)).
Proof.
  intros (Ei & Et & Hsub & HP). eapply runs_mono; [apply drop_runs|]. intros _ c' ([Ei' Et'] & Hit).
  unfold cleared. rewrite Ei', Et', Hit. split_and!; [done|done|by etrans; [apply delete_subseteq|]|].
  intros k [Hk| ->]; [|apply lookup_delete_eq]. apply lookup_delete_None. auto.
Qed.

Lemma dropPrefix_cleared now c m' P c1 prefix :
  cleared c m' P c1 ->
  runs (Cached.dropPrefix prefix) now c1 (fun _ => cleared c m' (fun k => P k \/ hasPrefix prefix k = true)).
Proof.
  intros (Ei & Et & Hsub & HP). eapply runs_mono; [apply dropPrefix_runs|]. intros _ c' ([Ei' Et'] & Hsub' & Hk).
  unfold cleared. rewrite Ei', Et'. split_and!; [done|done|by etrans|]. intros k [HPk|Hpre]; [|auto].
  apply eq_None_not_Some. intros [e He]. eapply (lookup_weaken _ _ _ _ He) in Hsub'. by rewrite HP in Hsub'.
Qed.

Lemma dropAll_cleared now c m' keys : forall P c1,
  cleared c m' P c1 -> runs (Cached.dropAll keys) now c1 (fun _ => cleared c m' (fun k => P k \/ k ∈ keys)).
Proof.
  induction keys as [|x keys IH]; intros P c1 Hc1; cbn [Cached.dropAll].
  - apply runs_ret. destruct Hc1 as (? & ? & ? & HP). split_and!; [done..|]. intros k [?|?]; [auto|set_solver].
  - apply runs_bind. eapply runs_mono; [by apply drop_cleared|]. intros ? c2 Hc2.
    eapply runs_mono; [exact (IH _ _ Hc2)|]. intros ? c3 (? & ? & ? & HP). split_and!; [done..|].
    intros k [?|[?|?]%elem_of_cons]; apply HP; auto.
Qed.

(** The artifacts, seeds and chunk locations that a write does not clear must
    be the ones it does not change. *)
Lemma cleared_Coh c m' P c' :
  Coh c -> cleared c m' P c' -> memText m' ->
  (forall id, P (keyArtifactPrefix +:+ id) \/ Mem.arts m' !! id = Mem.arts (Cached.inner c) !! id) ->
  (forall a, P (keySeedsPrefix +:+ a) \/ Mem.seeds m' !! a = Mem.seeds (Cached.inner c) !! a) ->
  (forall h, P (keyChunksPrefix +:+ h) \/ Mem.chunks m' !! h = Mem.chunks (Cached.inner c) !! h) -> Coh c'.
Proof.
  intros [Ht Hx Hp Ha Hs Hc] (Ei & Et & Hsub & HP) Htx E1 E2 E3.
  assert (forall k e, cacheItems c' !! k = Some e -> ~ P k /\ cacheItems c !! k = Some e) as Hk.
  { intros k e He. split; [|by eapply lookup_weaken]. intros HPk. by rewrite HP in He. }
  split; rewrite ?Ei, ?Et; [done..| | | |].
  - intros id e [_ ?]%Hk. eauto.
  - intros id e [??]%Hk. destruct (E1 id) as [?| ->]; [done|]. eauto.
  - intros a e [??]%Hk. destruct (E2 a) as [?| ->]; [done|]. eauto.
  - intros h e [??]%Hk. destruct (E3 h) as [?| ->]; [done|]. eauto.
Qed.

(** The store after the write is [m'], and the cache is coherent with it. *)
Definition wrote m' c' : Prop := Coh c' /\ Cached.inner c' = m'.

Ltac clear_step :=
  lazymatch goal with
  | |- runs (opRet _) _ _ _ => apply runs_ret
  | |- runs (opBind _ _) _ _ _ => apply runs_bind; clear_step
  | _ =>
      eapply runs_mono;
      [ first [ by apply inner_cleared | by apply drop_cleared | by apply dropPrefix_cleared | by apply dropAll_cleared ] | ];
      first [ intros ? ? [-> ?] | intros ? ? ? ]; cbv beta in *
  end.

Lemma wrote_peers c P c' m' :
  Coh c -> cleared c m' P c' -> memText m' -> Mem.arts m' = Mem.arts (Cached.inner c) ->
  Mem.seeds m' = Mem.seeds (Cached.inner c) -> Mem.chunks m' = Mem.chunks (Cached.inner c) -> wrote m' c'.
Proof.
  intros Hc Hcl Htx E1 E2 E3. split; [|apply Hcl]. eapply cleared_Coh; [done..| | |];
    intros; right; congruence.
Qed.

Lemma UpsertPeer_runs now c p :
  Coh c -> jsonTime now = true -> textPeer p = true -> runs (Cached.UpsertPeer p) now c (fun _ => wrote (Mem.UpsertPeer p now (Cached.inner c)).2).
Proof.
  intros Hc Hn Hp. unfold Cached.UpsertPeer.
  assert ((Mem.UpsertPeer p now (Cached.inner c)).1 = Ok tt) as Hok by (unfold Mem.UpsertPeer; by case_bool_decide).
  repeat clear_step. eapply wrote_peers; [done..| | | |].
  - apply UpsertPeer_text; [done|done|apply Hc].
  - unfold Mem.UpsertPeer. by case_bool_decide.
  - unfold Mem.UpsertPeer. by case_bool_decide.
  - unfold Mem.UpsertPeer. by case_bool_decide.
Qed.

(** Nodes leave the store and the locations leave the cache. *)
Lemma wrote_forget c P c' m' :
  Coh c -> cleared c m' P c' -> memText m' -> Mem.arts m' = Mem.arts (Cached.inner c) ->
  (forall a, P (keySeedsPrefix +:+ a)) -> (forall h, P (keyChunksPrefix +:+ h)) -> wrote m' c'.
Proof.
  intros Hc Hcl Htx E1 E2 E3. split; [|apply Hcl]. eapply cleared_Coh; [done..|intros; right; congruence|by left|by left].
Qed.

Lemma DeregisterPeer_runs now c id :
  Coh c -> runs (Cached.DeregisterPeer id) now c (fun _ => wrote (Mem.DeregisterPeer id now (Cached.inner c)).2).
Proof.
  intros Hc. unfold Cached.DeregisterPeer. repeat clear_step. eapply wrote_forget; [done..| |done| |].
  - apply forget_text, Hc.
  - intros x. pose proof (hasPrefix_app keySeedsPrefix x). cbv beta. tauto.
  - intros x. pose proof (hasPrefix_app keyChunksPrefix x). cbv beta. tauto.
Qed.

Lemma PruneExpiredPeers_runs now c e :
  Coh c -> runs (Cached.PruneExpiredPeers e) now c (fun n c' => Ok n = (Mem.PruneExpiredPeers e now (Cached.inner c)).1
    /\ wrote (Mem.PruneExpiredPeers e now (Cached.inner c)).2 c').
Proof.
  intros Hc. unfold Cached.PruneExpiredPeers. clear_step. case_match eqn:En.
  - apply runs_ret. split; [done|]. apply Z.eqb_eq in En.
    assert (Mem.deadPeers now e (Cached.inner c) = []) as Hd by (apply length_zero_iff_nil; lia).
    eapply wrote_peers; [done..| | | |]; simpl; rewrite Hd; simpl; [apply Hc|done..].
  - repeat clear_step. split; [done|]. eapply wrote_forget; [done..| | | |].
    + apply forgets_text, Hc.
    + apply (forget_fold (Mem.deadPeers now e (Cached.inner c)) (Cached.inner c)).
    + intros x. pose proof (hasPrefix_app keySeedsPrefix x). cbv beta. tauto.
    + intros x. pose proof (hasPrefix_app keyChunksPrefix x). cbv beta. tauto.
Qed.

Lemma PutArtifact_runs now c a :
  Coh c -> textArtifact a = true ->
  runs (Cached.PutArtifact a) now c (fun _ => wrote (Mem.PutArtifact a now (Cached.inner c)).2).
Proof.
  intros Hc Ha. unfold Cached.PutArtifact. repeat clear_step. split; [|by apply H0].
  eapply cleared_Coh; [done..|by apply PutArtifact_text; [|apply Hc]| |by right|by right].
  intros id. simpl. destruct (decide (id = aArtifactID a)) as [->|Hne]; [by left; right|].
  right. by rewrite lookup_insert_ne.
Qed.

Lemma ReportSeed_runs now c a id :
  Coh c -> utf8Valid id = true ->
  runs (Cached.ReportSeed a id) now c (fun _ => wrote (Mem.ReportSeed a id now (Cached.inner c)).2).
Proof.
  intros Hc Ha. unfold Cached.ReportSeed. repeat clear_step. split; [|by apply H1].
  eapply cleared_Coh; [done..|by apply ReportSeed_text; [|apply Hc]|by right| |by right].
  intros x. destruct (decide (x = a)) as [->|Hne]; [by left; left; right|].
  right. simpl. by rewrite lookup_insert_ne.
Qed.

Lemma reportEach_other now id hs : forall cs n h,
  h ∉ hs -> (Mem.reportEach now id hs cs n).1 !! h = cs !! h.
Proof.
  induction hs as [|x hs IH]; intros cs n h Hh; [done|]. apply not_elem_of_cons in Hh as [Hne Hh]. simpl.
  case_bool_decide; rewrite IH by done; [done|]. by rewrite lookup_insert_ne.
Qed.

Lemma ReportChunks_others now id hs m :
  let m' := (Mem.ReportChunks id hs now m).2 in
  Mem.arts m' = Mem.arts m /\ Mem.seeds m' = Mem.seeds m
  /\ forall h, h ∉ hs -> Mem.chunks m' !! h = Mem.chunks m !! h.
Proof.
  unfold Mem.ReportChunks. pose proof (reportEach_other now id hs (Mem.chunks m) 0) as Hr.
  by destruct (Mem.reportEach now id hs (Mem.chunks m) 0).
Qed.

Lemma ReportChunks_runs now c id hs :
  Coh c -> jsonTime now = true -> utf8Valid id = true ->
  runs (Cached.ReportChunks id hs) now c (fun _ => wrote (Mem.ReportChunks id hs now (Cached.inner c)).2).
Proof.
  intros Hc Hnow Hid. unfold Cached.ReportChunks.
  pose proof (ReportChunks_text now id hs _ Hnow Hid (coh_text c Hc)) as Htx.
  assert (exists n, (Mem.ReportChunks id hs now (Cached.inner c)).1 = Ok n) as [n Hn]
    by (unfold Mem.ReportChunks; destruct (Mem.reportEach now id hs (Mem.chunks (Cached.inner c)) 0); eauto).
  destruct (ReportChunks_others now id hs (Cached.inner c)) as (Ea & Es & Ec).
  repeat clear_step. split; [|by apply H0].
  eapply cleared_Coh; [done..|intros x; right; exact (f_equal (lookup x) Ea)|intros x; right; exact (f_equal (lookup x) Es)|].
  intros h. destruct (decide (h ∈ hs)) as [Hin|Hin]; [|right; auto].
  left. right. by apply elem_of_prefixed; [apply keyChunks_inj|].
Qed.

Lemma touchCached_runs now c id :
  Coh c -> jsonTime now = true -> runs (Cached.touchCached id) now c (fun _ => wrote (Cached.inner c)).
Proof.
  intros Hc Hnow. unfold Cached.touchCached. apply runs_bind. eapply runs_mono; [apply cacheGet_runs|].
  intros v c1 [-> Hs]. pose proof (sameC_shrink now c c1 Hc Hs) as (Hc1 & [Ei _] & _).
  destruct (live now (Cached.cache c) (keyPeerPrefix +:+ id)) as [raw|] eqn:El; simpl; [|by apply runs_ret].
  destruct (live_Some _ _ _ _ El) as (e & He & ->). destruct (coh_peer c Hc id e He) as (p & -> & Hp).
  apply runs_bind, runs_now, runs_bind. eapply runs_mono; [apply cacheSet_runs|]. intros _ c2 [Hf Hi]. apply runs_ret.
  split; [|by destruct Hf as [-> _]]. eapply Coh_set; [exact Hc1|done..|]. by apply peer_itemOK, textPeer_heartbeat.
Qed.

Lemma Heartbeat_runs now c id :
  Coh c -> jsonTime now = true -> runs (Cached.Heartbeat id) now c (fun _ c' =>
    wrote (Cached.inner c) c' \/ wrote (Mem.Heartbeat id now (Cached.inner c)).2 c').
Proof.
  intros Hc Hnow. unfold Cached.Heartbeat. apply runs_bind.
  match goal with |- runs _ _ _ ?Q => assert (forall b c0, Coh c0 -> Cached.inner c0 = Cached.inner c -> Q b c0) as HQ end.
  { intros flush c0 Hc0 Ei. apply runs_bind.
    apply (runs_mono _ _ _ (fun _ => wrote (Cached.inner c))).
    - destruct flush; [by apply runs_ret|]. rewrite <- Ei. by apply touchCached_runs.
    - intros early c1 [Hc1 Ei1]. destruct early; [by apply runs_ret; left|]. apply runs_bind.
      assert (exists b, (Mem.Heartbeat id now (Cached.inner c1)).1 = Ok b) as [b Hb]
        by (unfold Mem.Heartbeat; destruct (Mem.peers _ !! id); eauto).
      eapply runs_mono; [by apply inner_cleared|]. intros b' c2 [-> Hcl]. rewrite Ei1 in Hcl.
      assert (wrote (Mem.Heartbeat id now (Cached.inner c)).2 c2) as [Hc2 Ei2].
      { eapply wrote_peers; [exact Hc1|done|..]; rewrite ?Ei1.
        - by apply Heartbeat_text; [|apply Hc].
        - unfold Mem.Heartbeat. by destruct (Mem.peers _ !! id).
        - unfold Mem.Heartbeat. by destruct (Mem.peers _ !! id).
        - unfold Mem.Heartbeat. by destruct (Mem.peers _ !! id). }
      destruct b; [|by apply runs_ret; right]. apply runs_bind. eapply runs_mono; [by apply touchCached_runs|].
      intros _ c3 [??]. apply runs_ret. right. split; [done|congruence]. }
  unfold Cached.takeFlush. eexists _, _. split; [reflexivity|].
  apply HQ; [|by case_match]. case_match; [|done]. by destruct Hc.
Qed.

(** ** The cached store as a store to read from *)

#[export] Program Instance cachedReads : StoreReads CS := {|
  sInv := Coh;
  sNodes := fun c h => dom (default ∅ (Mem.chunks (Cached.inner c) !! h));
  sSeeds := fun c a => dom (default ∅ (Mem.seeds (Cached.inner c) !! a));
  sPeer := peerView
|}.
Next Obligation.
  intros now c id Hc. destruct (GetPeer_runs now c id Hc) as (p & c' & Hr & -> & Hc' & [Ei _] & Hp).
  exists c'. split; [done|]. by rewrite Ei.
Qed.
Next Obligation.
  intros now c ids Hc. destruct (GetPeersBatch_runs now c ids Hc) as (m & c' & Hr & (Hc' & [Ei _] & Hp) & Hm).
  exists m, c'. split; [done|]. by rewrite Ei.
Qed.
Next Obligation.
  intros now c hs Hc. destruct (LocateChunkNodesBatch_runs now c hs Hc) as (m & c' & Hr & (Hc' & [Ei _] & Hp) & Hm).
  exists m, c'. split; [done|]. by rewrite Ei.
Qed.
Next Obligation.
  intros now c a Hc. destruct (ListSeeds_runs now c a Hc) as (l & c' & Hr & [Hnd Hl] & Hc' & [Ei _] & Hp).
  exists l, c'. split; [done|]. by rewrite Ei.
Qed.

(** ** Histories *)

(** One request changes the store as it does without the cache, except that a
    heartbeat may be kept back. *)
Lemma exec_runs now c q :
  Coh c -> textRequest (now, q) = true ->
  runs (exec q) now c (fun _ c' => Coh c' /\
    (exec q now (Cached.inner c) = (Ok tt, Cached.inner c')
     \/ Cached.inner c' = Cached.inner c /\ exists id, q = RHeartbeat id)).
Proof.
  intros Hc [Hnow Hq]%andb_true_iff. destruct q; cbn [exec textArgs] in *; apply runs_bind.
  - eapply runs_mono; [by apply UpsertPeer_runs|]. intros _ c' [Hc' Ei]. apply runs_ret. split; [done|]. left.
    rewrite Ei. unfold opBind. simpl. unfold Mem.UpsertPeer. by case_bool_decide.
  - eapply runs_mono; [by apply Heartbeat_runs|]. intros _ c' [[Hc' Ei]|[Hc' Ei]]; apply runs_ret; (split; [done|]).
    + right. eauto.
    + left. rewrite Ei. unfold opBind. simpl. unfold Mem.Heartbeat. by destruct (Mem.peers _ !! _).
  - eapply runs_mono; [by apply DeregisterPeer_runs|]. intros _ c' [Hc' Ei]. apply runs_ret. split; [done|]. left. by rewrite Ei.
  - eapply runs_mono; [by apply PruneExpiredPeers_runs|]. intros _ c' [_ [Hc' Ei]]. apply runs_ret. split; [done|]. left. by rewrite Ei.
  - eapply runs_mono; [by apply PutArtifact_runs|]. intros _ c' [Hc' Ei]. apply runs_ret. split; [done|]. left. by rewrite Ei.
  - eapply runs_mono; [by apply ReportSeed_runs|]. intros _ c' [Hc' Ei]. apply runs_ret. split; [done|]. left. by rewrite Ei.
  - eapply runs_mono; [by apply ReportChunks_runs|]. intros _ c' [Hc' Ei]. apply runs_ret. split; [done|]. left.
    rewrite Ei. unfold opBind. simpl. unfold Mem.ReportChunks. by destruct (Mem.reportEach _ _ _ (Mem.chunks (Cached.inner c)) _).
  - eapply runs_mono; [by apply GetPeer_runs|]. intros p c' [_ (Hc' & [Ei _] & _)]. apply runs_ret. split; [done|]. left. by rewrite Ei.
  - eapply runs_mono; [by apply ListPeers_runs|]. intros p c' (Hc' & [Ei _] & _). apply runs_ret. split; [done|]. left. by rewrite Ei.
  - eapply runs_mono; [by apply GetArtifact_runs|]. intros p c' [_ (Hc' & [Ei _] & _)]. apply runs_ret. split; [done|]. left. by rewrite Ei.
  - eapply runs_mono; [by apply ListSeeds_runs|]. intros p c' [_ (Hc' & [Ei _] & _)]. apply runs_ret. split; [done|]. left. by rewrite Ei.
  - eapply runs_mono; [by apply LocateChunkNodes_runs|]. intros p c' [_ (Hc' & [Ei _] & _)]. apply runs_ret. split; [done|]. left. by rewrite Ei.
  - eapply runs_mono; [by apply LocateChunkNodesBatch_runs|]. intros p c' [(Hc' & [Ei _] & _) _]. apply runs_ret. split; [done|]. left. by rewrite Ei.
  - eapply runs_mono; [by apply GetPeersBatch_runs|]. intros p c' [(Hc' & [Ei _] & _) _]. apply runs_ret. split; [done|]. left. by rewrite Ei.
Qed.

Lemma history_runs h : forall c,
  Coh c -> forallb textRequest h = true ->
  exists c' h', history h c = Ok c' /\ Coh c' /\ heartbeatsKept h' h /\ history h' (Cached.inner c) = Ok (Cached.inner c').
Proof.
  induction h as [|[now q] h IH]; intros c Hc Ht.
  { exists c, []. split_and!; [done..|constructor|done]. }
  apply andb_true_iff in Ht as [Hq Ht].
  destruct (exec_runs now c q Hc Hq) as ([] & c1 & Hr & Hc1 & Hi). cbn [history]. rewrite Hr.
  destruct (IH c1 Hc1 Ht) as (c' & h' & Hh & Hc' & Hs & Hin). destruct Hi as [He|[Ei [id ->]]].
  - exists c', ((now, q) :: h'). split_and!; [done..|by constructor|]. cbn [history]. by rewrite He.
  - exists c', h'. split_and!; [done..|by constructor|]. by rewrite <- Ei.
Qed.

Lemma Wrap_Coh ttl ttl' : Coh (Cached.Wrap Mem.NewMemory (MemCache.NewMemory ttl) ttl').
Proof.
  split; cbn; try done.
  - destruct (ttl' <=? 0)%Z eqn:E; lia.
  - split; cbn; [done..| |]; intros ? ? [? ?]; done.
Qed.

Lemma listsNodes_Permutation l mm : listsNodes l mm -> l ≡ₚ (map_to_list mm).*1.
Proof.
  intros [Hnd Hl]. apply NoDup_Permutation; [done|apply NoDup_fst_map_to_list|]. intros x.
  rewrite <- (elem_of_list_to_set (C:=gset string) x l), Hl, <- (elem_of_list_to_set (C:=gset string) x (map_to_list mm).*1).
  by rewrite list_to_set_keys.
Qed.

(** C32. The in-memory store behind the in-memory cache. Over any sequence of
    requests, one after the other, at times that JSON can carry and with text
    that is UTF-8, no operation fails, and the store goes through the history
    with at most some of the heartbeats kept back. After it, what is read
    through the cache of an artifact, of the seeds of an artifact and of the
    nodes of chunks, at any time, is what the store has (lists up to their
    order). *)
Theorem CachedStore_refines ttl ttl' h :
  forallb textRequest h = true ->
  exists c h', history h (Cached.Wrap Mem.NewMemory (MemCache.NewMemory ttl) ttl') = Ok c
    /\ heartbeatsKept h' h /\ history h' Mem.NewMemory = Ok (Cached.inner c)
    /\ (forall now a, (GetArtifact a now c).1 = (GetArtifact a now (Cached.inner c)).1)
    /\ (forall now a, exists l l', (ListSeeds a now c).1 = Ok l /\ (ListSeeds a now (Cached.inner c)).1 = Ok l' /\ l ≡ₚ l')
    /\ (forall now x, exists l l', (LocateChunkNodes x now c).1 = Ok l
          /\ (LocateChunkNodes x now (Cached.inner c)).1 = Ok l' /\ l ≡ₚ l')
    /\ (forall now xs, exists m m', (LocateChunkNodesBatch xs now c).1 = Ok m
          /\ (LocateChunkNodesBatch xs now (Cached.inner c)).1 = Ok m'
          /\ forall x, x ∈ xs -> exists l l', m !! x = Some l /\ m' !! x = Some l' /\ l ≡ₚ l').
Proof.
  intros Ht. destruct (history_runs h _ (Wrap_Coh ttl ttl') Ht) as (c & h' & Hh & Hc & Hs & Hi).
  exists c, h'. split_and!; [done..| | | |].
  - intros now a. destruct (GetArtifact_runs now c a Hc) as (r & c' & Hr & -> & _). simpl. by rewrite Hr.
  - intros now a. destruct (ListSeeds_runs now c a Hc) as (l & c' & Hr & Hl & _). eexists l, _.
    simpl. rewrite Hr. split_and!; [done..|]. by apply listsNodes_Permutation.
  - intros now x. destruct (LocateChunkNodes_runs now c x Hc) as (l & c' & Hr & Hl & _). eexists l, _.
    simpl. rewrite Hr. split_and!; [done..|]. by apply listsNodes_Permutation.
  - intros now xs. destruct (LocateChunkNodesBatch_runs now c xs Hc) as (m & c' & Hr & _ & Hm). eexists m, _.
    cbn [LocateChunkNodesBatch cachedStore]. rewrite Hr. split; [done|]. split; [reflexivity|]. intros x Hx.
    destruct (Hm x Hx) as (l & Hl & Hp). eexists l, _. split; [done|].
    rewrite fold_insert_lookup, bool_decide_eq_true_2 by done. split; [done|]. by apply listsNodes_Permutation.
Qed.

End coherence.

(** ** A concrete encoding *)

Definition peerTuple (p : Peer) :=
  (pNodeID p, pAddress p, pRegion p, pZone p, pRack p, pHost p, pStatus p, pLastHeartbeat p).
Definition tuplePeer t : Peer :=
  let '(a, b, c, d, e, f, g, h) := t in mkPeer a b c d e f g h.
Definition artifactTuple (a : ArtifactRecord) := (aArtifactID a, aName a, aVersion a, map Byte.to_nat (aManifestJSON a)).
Definition tupleArtifact t : ArtifactRecord :=
  let '(a, b, c, d) := t in mkArtifact a b c (map (fun n => default x00 (Byte.of_nat n)) d).

Definition demoStoreCodec : StoreCodec := {|
  marshalPeer := fun p => countEncode (peerTuple p);
  unmarshalPeer := fun b => tuplePeer <$> countDecode b;
  marshalPeers := fun l => countEncode (map peerTuple l);
  unmarshalPeers := fun b => map tuplePeer (default [] (countDecode b));
  marshalArtifact := fun a => countEncode (artifactTuple a);
  unmarshalArtifact := fun b => tupleArtifact <$> countDecode b;
  marshalStrings := fun l => countEncode l;
  unmarshalStrings := fun b => default [] (countDecode b)
|}.

Lemma demoStoreCodec_laws : StoreCodecLaws (H:=demoStoreCodec).
Proof.
  split.
  - intros [] _. cbn. by rewrite countDecode_encode.
  - intros [i n v j] _. cbn. rewrite countDecode_encode. simpl. f_equal. f_equal.
    rewrite map_map. rewrite <- (map_id j) at 2. apply map_ext. intros b. by rewrite Byte.of_to_nat.
  - intros l _. cbn. by rewrite countDecode_encode.
Qed.

(** ** A node that seeds and is read back through the cache *)

Definition demoPeer : Peer := mkPeer "n1" "10.0.0.1:7000" "eu" "eu-1" "r1" "h1" "HEALTHY" None.

Definition demoHistory : list (Z * request) :=
  [(1%Z, RUpsertPeer demoPeer); (2%Z, RReportChunks "n1" ["c"]); (3%Z, RLocateChunkNodes "c");
   (4%Z, RHeartbeat "n1"); (5%Z, RReportChunks "n2" ["c"]); (6%Z, RDeregisterPeer "n1")].

Lemma CachedStore_refines_witness :
  exists c h', history (St:=cachedStore (SC:=demoStoreCodec)) demoHistory
      (Cached.Wrap Mem.NewMemory (MemCache.NewMemory 0) 0) = Ok c
    /\ heartbeatsKept h' demoHistory /\ history h' Mem.NewMemory = Ok (Cached.inner c).
Proof.
  destruct (CachedStore_refines (SC:=demoStoreCodec) (SL:=demoStoreCodec_laws) 0 0 demoHistory) as (c & h' & H1 & H2 & H3 & _).
  - vm_compute. reflexivity.
  - exists c, h'. split; [exact H1|]. split; [exact H2|exact H3].
Defined.
