(* ===== verification/SqlStore.v ===== *)
(** * SQL store of the tracker (pkg/store/sql.go, pkg/store/embed.go, pkg/store/sql)

    The tables of schema.sql are maps under their primary keys, and every named
    query of queries.sql is a function on them.  A call of the database can
    fail, before it has an effect or after it (the server has executed it, and
    the answer is lost); how the calls end is a list that they consume.  The
    statements of a transaction act on its own view of the tables, which a
    commit makes the tables.  The rows of a query come in the order of
    [map_to_list].

    An INTEGER column holds 64 bits, as in SQLite (in Postgres it has 32), a TEXT
    column every string, and [RowsAffected] does not fail: both drivers know
    the number when the statement has returned. *)

From S2P Require Import Prelude Json Topology MetaStore MetaCache CachedStore.
Local Open Scope go_scope.

Module Sql.

(** ** The database *)

Record peerRow := mkRow {
  rAddress : string;
  rRegion : string;
  rZone : string;
  rRack : string;
  rHost : string;
  rLastHeartbeat : Z;
  rStatus : string
}.

(** [peers] by node_id, [artifacts] by artifact_id, [artifact_seeds] by
    (artifact_id, node_id) and [chunk_locations] by (chunk_hash, node_id), the
    last two with updated_at. *)
Record tables := mkTables {
  tPeers : gmap string peerRow;
  tArtifacts : gmap string ArtifactRecord;
  tSeeds : gmap (string * string) Z;
  tChunks : gmap (string * string) Z
}.

Definition schema : tables := mkTables ∅ ∅ ∅ ∅.

Definition setPeers (p : gmap string peerRow) (t : tables) : tables := mkTables p (tArtifacts t) (tSeeds t) (tChunks t).
Definition setSeeds (x : gmap (string * string) Z) (t : tables) : tables := mkTables (tPeers t) (tArtifacts t) x (tChunks t).
Definition setChunks (x : gmap (string * string) Z) (t : tables) : tables := mkTables (tPeers t) (tArtifacts t) (tSeeds t) x.

(** ** The queries: the result and the tables after it *)

Definition qUpsertPeer (id : string) (row : peerRow) (t : tables) : unit * tables :=
  (tt, setPeers (<[id := row]> (tPeers t)) t).

Definition touch (ts : Z) (row : peerRow) : peerRow :=
  mkRow (rAddress row) (rRegion row) (rZone row) (rRack row) (rHost row) ts (rStatus row).

(** [Heartbeat] and [TouchPeer]; the number of rows. *)
Definition qHeartbeat (ts : Z) (id : string) (t : tables) : Z * tables :=
  (if bool_decide (is_Some (tPeers t !! id)) then 1 else 0, setPeers (alter (touch ts) id (tPeers t)) t)%Z.

Definition qGetPeer (id : string) (t : tables) : option (string * peerRow) * tables :=
  ((fun row => (id, row)) <$> tPeers t !! id, t).

Definition qListPeers (cutoff : Z) (t : tables) : list (string * peerRow) * tables :=
  (List.filter (fun ir => (cutoff <=? rLastHeartbeat ir.2)%Z) (map_to_list (tPeers t)), t).

(** The entries of the nodes with [P] leave a table. *)
Definition withoutNodes (P : string -> bool) (x : gmap (string * string) Z) : gmap (string * string) Z :=
  filter (fun kv : (string * string) * Z => P kv.1.2 = false) x.

Definition qDeleteSeedsForNode (id : string) (t : tables) : unit * tables :=
  (tt, setSeeds (withoutNodes (fun n => bool_decide (n = id)) (tSeeds t)) t).
Definition qDeleteChunksForNode (id : string) (t : tables) : unit * tables :=
  (tt, setChunks (withoutNodes (fun n => bool_decide (n = id)) (tChunks t)) t).
Definition qDeletePeer (id : string) (t : tables) : unit * tables := (tt, setPeers (delete id (tPeers t)) t).

(** [node_id IN (SELECT node_id FROM peers WHERE last_heartbeat<?)] *)
Definition expired (cutoff : Z) (t : tables) (id : string) : bool :=
  match tPeers t !! id with Some row => (rLastHeartbeat row <? cutoff)%Z | None => false end.

Definition qDeleteSeedsExpired (cutoff : Z) (t : tables) : unit * tables :=
  (tt, setSeeds (withoutNodes (expired cutoff t) (tSeeds t)) t).
Definition qDeleteChunksExpired (cutoff : Z) (t : tables) : unit * tables :=
  (tt, setChunks (withoutNodes (expired cutoff t) (tChunks t)) t).
Definition qDeletePeersExpired (cutoff : Z) (t : tables) : Z * tables :=
  let kept := filter (fun ir : string * peerRow => (rLastHeartbeat ir.2 <? cutoff)%Z = false) (tPeers t) in
  (Z.of_nat (size (tPeers t)) - Z.of_nat (size kept), setPeers kept t)%Z.

Definition qPutArtifact (a : ArtifactRecord) (t : tables) : unit * tables :=
  (tt, mkTables (tPeers t) (<[aArtifactID a := a]> (tArtifacts t)) (tSeeds t) (tChunks t)).
Definition qGetArtifact (a : string) (t : tables) : option ArtifactRecord * tables := (tArtifacts t !! a, t).

Definition qReportSeed (a id : string) (ts : Z) (t : tables) : unit * tables :=
  (tt, setSeeds (<[(a, id) := ts]> (tSeeds t)) t).
Definition qUpsertChunk (h id : string) (ts : Z) (t : tables) : unit * tables :=
  (tt, setChunks (<[(h, id) := ts]> (tChunks t)) t).

(** [SELECT node_id ... WHERE <first key>=?] *)
Definition nodesWhere (k : string) (x : gmap (string * string) Z) : list string :=
  map (fun kv => kv.1.2) (List.filter (fun kv => bool_decide (kv.1.1 = k)) (map_to_list x)).

Definition qListSeeds (a : string) (t : tables) : list string * tables := (nodesWhere a (tSeeds t), t).
Definition qLocateChunkNodes (h : string) (t : tables) : list string * tables := (nodesWhere h (tChunks t), t).

(** The two queries with [IN (...)]. *)
Definition qChunksIn (hs : list string) (t : tables) : list (string * string) * tables :=
  (List.filter (fun kv => bool_decide (kv.1 ∈ hs)) (map fst (map_to_list (tChunks t))), t).
Definition qPeersIn (ids : list string) (t : tables) : list (string * peerRow) * tables :=
  (List.filter (fun ir => bool_decide (ir.1 ∈ ids)) (map_to_list (tPeers t)), t).

(** ** Calls *)

(** How a call ends: it is [Done], the server did not execute it ([Refused]),
    or the server executed it and the caller still gets an error ([Lost]: a
    timeout, a connection that breaks). *)
Inductive outcome := Done | Refused (e : error) | Lost (e : error).

(** The database and how its next calls end. *)
Record SQLStore := mkSQL { db : tables; calls : list outcome }.

Definition onDB (t : tables) (s : SQLStore) : SQLStore := mkSQL t (calls s).

Definition call {A} (f : tables -> A * tables) : op SQLStore A :=
  fun _ s =>
    match calls s with
    | Refused e :: cs => (Err e, mkSQL (db s) cs)
    | Lost e :: cs => (Err e, mkSQL (f (db s)).2 cs)
    | cs => (Ok (f (db s)).1, mkSQL (f (db s)).2 (tail cs))
    end.

(** [fmt.Errorf(msg+": %w", err)] *)
Definition wrapping {A} (msg : string) (m : op SQLStore A) : op SQLStore A :=
  fun now s => match m now s with (Err e, s') => (Err (EWrap msg e), s') | r => r end.

(** A query and the iteration over its rows, which may fail too. *)
Definition query {A} (msg : string) (f : tables -> A * tables) : op SQLStore A :=
  let* a := wrapping msg (call f) in
  let* _ := call (fun t => (tt, t)) in
  opRet a.

(** [BeginTx], the body on the view of the transaction, [Commit].  When the
    body fails there is no commit and the deferred [Rollback] drops the view; a
    commit that fails may have been executed. *)
Definition inTx {A} (what : string) (body : op SQLStore A) : op SQLStore A :=
  fun now s =>
    match wrapping (what +:+ " begin") (call (fun t => (tt, t))) now s with
    | (Err e, s1) => (Err e, s1)
    | (Ok _, s1) =>
        match body now s1 with
        | (Err e, s2) => (Err e, mkSQL (db s1) (calls s2))
        | (Ok a, s2) =>
            let commit := call (fun _ => (tt, db s2)) now (mkSQL (db s1) (calls s2)) in
            match commit with
            | (Err e, s3) => (Err (EWrap (what +:+ " commit") e), s3)
            | (Ok _, s3) => (Ok a, s3)
            end
        end
    end.

(** ** Times *)

(** [time.Now().Unix()] *)
Definition nowUnix : op SQLStore Z := fun now s => (Ok (unixOf (Some now)), s).

(** [time.Now().Add(-expiry).Unix()] *)
Definition cutoffUnix (expiry : Z) : op SQLStore Z := fun now s => (Ok (unixOf (Some (now + wrap64 (- expiry)))), s)%Z.

(** [time.Unix(ts, 0)] *)
Definition timeUnix (ts : Z) : option Z :=
  if (ts =? unixOf None)%Z then None else Some (ts * 1000000000)%Z.

Definition scanPeer (ir : string * peerRow) : Peer :=
  mkPeer ir.1 (rAddress ir.2) (rRegion ir.2) (rZone ir.2) (rRack ir.2) (rHost ir.2) (rStatus ir.2)
    (timeUnix (rLastHeartbeat ir.2)).

(** ** The store *)

(** The row that is written for a peer. *)
Definition rowOf (now : Z) (p : Peer) : peerRow :=
  mkRow (pAddress p) (pRegion p) (pZone p) (pRack p) (pHost p) (unixOf (Some (default now (pLastHeartbeat p))))
    (if bool_decide (pStatus p = "") then "HEALTHY" else pStatus p).

Definition UpsertPeer (peer : Peer) : op SQLStore unit :=
  if bool_decide (pNodeID peer = "") then opRet tt
  else
    let* now := opNow in
    wrapping "upsert peer" (call (qUpsertPeer (pNodeID peer) (rowOf now peer))).

Definition Heartbeat (nodeID : string) : op SQLStore bool :=
  let* ts := nowUnix in
  let* n := wrapping "heartbeat" (call (qHeartbeat ts nodeID)) in
  opRet (0 <? n)%Z.

Definition GetPeer (nodeID : string) : op SQLStore (option Peer) :=
  let* row := wrapping "get peer" (call (qGetPeer nodeID)) in
  opRet (scanPeer <$> row).

Definition ListPeers (expiry : Z) : op SQLStore (list Peer) :=
  let* cutoff := (if (0 <? expiry)%Z then cutoffUnix expiry else opRet 0%Z) in
  let* rows := query "list peers" (qListPeers cutoff) in
  opRet (map scanPeer rows).

Definition DeregisterPeer (nodeID : string) : op SQLStore unit :=
  inTx "deregister"
    (let* _ := wrapping "delete seeds" (call (qDeleteSeedsForNode nodeID)) in
     let* _ := wrapping "delete chunks" (call (qDeleteChunksForNode nodeID)) in
     wrapping "delete peer" (call (qDeletePeer nodeID))).

Definition PruneExpiredPeers (expiry : Z) : op SQLStore Z :=
  let* cutoff := cutoffUnix expiry in
  inTx "prune"
    (let* _ := wrapping "prune seeds" (call (qDeleteSeedsExpired cutoff)) in
     let* _ := wrapping "prune chunks" (call (qDeleteChunksExpired cutoff)) in
     wrapping "prune peers" (call (qDeletePeersExpired cutoff))).

Definition PutArtifact (rec : ArtifactRecord) : op SQLStore unit := wrapping "put artifact" (call (qPutArtifact rec)).

Definition GetArtifact (artifactID : string) : op SQLStore (option ArtifactRecord) :=
  wrapping "get artifact" (call (qGetArtifact artifactID)).

Definition ReportSeed (artifactID nodeID : string) : op SQLStore unit :=
  let* ts := nowUnix in
  wrapping "report seed" (call (qReportSeed artifactID nodeID ts)).

Definition ListSeeds (artifactID : string) : op SQLStore (list string) := query "list seeds" (qListSeeds artifactID).

(** The loop over the hashes. *)
Fixpoint upsertChunks (ts : Z) (nodeID : string) (hashes : list string) (n : Z) : op SQLStore Z :=
  match hashes with
  | [] => opRet n
  | h :: hs =>
      if bool_decide (h = "") then upsertChunks ts nodeID hs n
      else
        let* _ := wrapping "upsert chunk" (call (qUpsertChunk h nodeID ts)) in
        upsertChunks ts nodeID hs (add64 n 1)
  end.

Definition ReportChunks (nodeID : string) (hashes : list string) : op SQLStore Z :=
  let* ts := nowUnix in
  inTx "report chunks"
    (let* _ := wrapping "touch peer" (call (qHeartbeat ts nodeID)) in
     let* _ := wrapping "prepare upsert chunk" (call (fun t => (tt, t))) in
     upsertChunks ts nodeID hashes 0).

Definition LocateChunkNodes (hash : string) : op SQLStore (list string) := query "locate chunk" (qLocateChunkNodes hash).

Definition sqlINBatch : nat := 500.

(** [l[i:i+sqlINBatch]] for [i = 0, sqlINBatch, ...]; as many rounds as there
    are elements are enough. *)
Fixpoint batchesFrom (fuel : nat) (l : list string) : list (list string) :=
  match fuel, l with
  | S fuel, _ :: _ => take sqlINBatch l :: batchesFrom fuel (drop sqlINBatch l)
  | _, _ => []
  end.
Definition batches (l : list string) : list (list string) := batchesFrom (length l) l.

Fixpoint locateEach (bs : list (list string)) (out : gmap string (list string)) : op SQLStore (gmap string (list string)) :=
  match bs with
  | [] => opRet out
  | b :: bs' =>
      let* rows := query "locate chunks batch" (qChunksIn b) in
      locateEach bs' (fold_left (fun out hn => <[hn.1 := default [] (out !! hn.1) ++ [hn.2]]> out) rows out)
  end.

Definition LocateChunkNodesBatch (hashes : list string) : op SQLStore (gmap string (list string)) :=
  locateEach (batches hashes) (fold_left (fun out h => <[h := []]> out) hashes ∅).

Fixpoint peersEach (bs : list (list string)) (out : gmap string Peer) : op SQLStore (gmap string Peer) :=
  match bs with
  | [] => opRet out
  | b :: bs' =>
      let* rows := query "get peers batch" (qPeersIn b) in
      peersEach bs' (fold_left (fun out ir => <[ir.1 := scanPeer ir]> out) rows out)
  end.

Definition GetPeersBatch (nodeIDs : list string) : op SQLStore (gmap string Peer) := peersEach (batches nodeIDs) ∅.

End Sql.

#[export] Instance sqlStore : Store Sql.SQLStore := {|
  UpsertPeer := Sql.UpsertPeer;
  Heartbeat := Sql.Heartbeat;
  GetPeer := Sql.GetPeer;
  ListPeers := Sql.ListPeers;
  DeregisterPeer := Sql.DeregisterPeer;
  PruneExpiredPeers := Sql.PruneExpiredPeers;
  PutArtifact := Sql.PutArtifact;
  GetArtifact := Sql.GetArtifact;
  ReportSeed := Sql.ReportSeed;
  ListSeeds := Sql.ListSeeds;
  ReportChunks := Sql.ReportChunks;
  LocateChunkNodes := Sql.LocateChunkNodes;
  LocateChunkNodesBatch := Sql.LocateChunkNodesBatch;
  GetPeersBatch := Sql.GetPeersBatch
|}.

(** * Properties *)

(** ** All or nothing *)

Section atomic.
Import Sql.

(** The tables without faults: what the whole operation makes of them. *)
Abbreviation quiet t := (mkSQL t []).

(** A success is the success of a run without faults. *)
Definition faithful {A} (m : op SQLStore A) : Prop :=
  forall now s a s', m now s = (Ok a, s') -> m now (quiet (db s)) = (Ok a, quiet (db s')).

(** An error comes with the tables as they were, or with all of the changes. *)
Definition allOrNothing {A} (m : op SQLStore A) : Prop :=
  faithful m /\ forall now s e s', m now s = (Err e, s') ->
    db s' = db s \/ exists a, m now (quiet (db s)) = (Ok a, quiet (db s')).

Definition readonly {A} (m : op SQLStore A) : Prop := forall now s, db (m now s).2 = db s.

Lemma faithful_bind {A B} (m : op SQLStore A) (k : A -> op SQLStore B) :
  faithful m -> (forall a, faithful (k a)) -> faithful (opBind m k).
Proof.
  intros Hm Hk now s b s' H. unfold opBind in *. destruct (m now s) as [[a|e] s1] eqn:E; [|done].
  rewrite (Hm _ _ _ _ E). by apply Hk in H.
Qed.

Lemma faithful_ret {A} (a : A) : faithful (opRet a).
Proof. by intros now s a' s' [= -> ->]. Qed.

Lemma faithful_call {A} (f : tables -> A * tables) : faithful (call f).
Proof. by intros now [t [|[|e|e] cs]] a s' [= <- <-]. Qed.

Lemma faithful_wrapping {A} msg (m : op SQLStore A) : faithful m -> faithful (wrapping msg m).
Proof.
  intros Hm now s a s' H. unfold wrapping in *. destruct (m now s) as [[b|e] s1] eqn:E; [|done].
  injection H as -> ->. by rewrite (Hm _ _ _ _ E).
Qed.

Lemma readonly_call {A} (f : tables -> A) : readonly (call (fun t => (f t, t))).
Proof. by intros now [t [|[|e|e] cs]]. Qed.

Lemma readonly_bind {A B} (m : op SQLStore A) (k : A -> op SQLStore B) :
  readonly m -> (forall a, readonly (k a)) -> readonly (opBind m k).
Proof.
  intros Hm Hk now s. unfold opBind. specialize (Hm now s). destruct (m now s) as [[a|e] s1]; simpl in *; [|done].
  by rewrite Hk.
Qed.

Lemma readonly_wrapping {A} msg (m : op SQLStore A) : readonly m -> readonly (wrapping msg m).
Proof. intros Hm now s. specialize (Hm now s). unfold wrapping. by destruct (m now s) as [[a|e] s1]. Qed.

(** Reading changes nothing, whatever fails. *)
Definition reads {A} (m : op SQLStore A) : Prop := faithful m /\ readonly m.

Lemma reads_call {A} (f : tables -> A) : reads (call (fun t => (f t, t))).
Proof. split; [apply faithful_call|apply readonly_call]. Qed.

Lemma reads_ret {A} (a : A) : reads (opRet a).
Proof. split; [apply faithful_ret|done]. Qed.

Lemma reads_now {A} (f : Z -> A) : reads (fun now (s : SQLStore) => (Ok (f now), s)).
Proof. split; [|done]. by intros now s a s' [= <- <-]. Qed.

Lemma reads_bind {A B} (m : op SQLStore A) (k : A -> op SQLStore B) :
  reads m -> (forall a, reads (k a)) -> reads (opBind m k).
Proof. intros [H1 H2] Hk. split; [apply faithful_bind|apply readonly_bind]; try done; intros a; apply Hk. Qed.

Lemma reads_wrapping {A} msg (m : op SQLStore A) : reads m -> reads (wrapping msg m).
Proof. intros [H1 H2]. split; [by apply faithful_wrapping|by apply readonly_wrapping]. Qed.

#[local] Hint Resolve reads_call reads_ret reads_now reads_wrapping : core.

Lemma reads_query {A} msg (f : tables -> A) : reads (query msg (fun t => (f t, t))).
Proof. apply reads_bind; [auto|]. intros a. apply reads_bind; [apply (reads_call (fun _ => tt))|auto]. Qed.

Lemma reads_locateEach bs : forall out, reads (locateEach bs out).
Proof. induction bs as [|b bs IH]; intros out; cbn [locateEach]; [auto|]. apply reads_bind; [apply reads_query|auto]. Qed.

Lemma reads_peersEach bs : forall out, reads (peersEach bs out).
Proof. induction bs as [|b bs IH]; intros out; cbn [peersEach]; [auto|]. apply reads_bind; [apply reads_query|auto]. Qed.

Lemma all_reads {A} (m : op SQLStore A) : reads m -> allOrNothing m.
Proof. intros [Hf Hr]. split; [done|]. intros now s e s' H. left. specialize (Hr now s). by rewrite H in Hr. Qed.

Lemma all_call {A} (f : tables -> A * tables) : allOrNothing (call f).
Proof.
  split; [apply faithful_call|]. intros now [t [|[|e'|e'] cs]] e s' [= <- <-]; [by left|]. right. by eexists.
Qed.

Lemma all_wrapping {A} msg (m : op SQLStore A) : allOrNothing m -> allOrNothing (wrapping msg m).
Proof.
  intros [Hf Ha]. split; [by apply faithful_wrapping|]. intros now s e s' H. unfold wrapping in *.
  destruct (m now s) as [[b|e1] s1] eqn:E; [done|]. injection H as _ ->.
  destruct (Ha _ _ _ _ E) as [->|[a Hm]]; [by left|]. right. exists a. by rewrite Hm.
Qed.

(** What is read before and computed after makes no difference. *)
Lemma all_after {A B} (m : op SQLStore A) (k : A -> op SQLStore B) :
  reads m -> (forall a, allOrNothing (k a)) -> allOrNothing (opBind m k).
Proof.
  intros [Hf Hr] Hk. split; [apply faithful_bind; [done|apply Hk]|]. intros now s e s' H. unfold opBind in *.
  specialize (Hr now s). destruct (m now s) as [[a|e1] s1] eqn:E; simpl in Hr.
  - destruct (proj2 (Hk a) _ _ _ _ H) as [->|Hm]; [by left|]. right. by rewrite (Hf _ _ _ _ E).
  - injection H as _ <-. by left.
Qed.

Lemma all_ret {A B} (m : op SQLStore A) (f : A -> B) : allOrNothing m -> allOrNothing (let* a := m in opRet (f a)).
Proof.
  intros [Hf Ha]. split; [apply faithful_bind; [done|intros a; apply faithful_ret]|]. intros now s e s' H. unfold opBind in *.
  destruct (m now s) as [[a|e1] s1] eqn:E; [done|]. injection H as _ ->.
  destruct (Ha _ _ _ _ E) as [->|[a Hm]]; [by left|]. right. rewrite Hm. by eexists.
Qed.

Lemma all_inTx {A} what (m : op SQLStore A) : faithful m -> allOrNothing (inTx what m).
Proof.
  intros Hf. split.
  - intros now s a s' H. unfold inTx in *.
    pose proof (reads_wrapping (what +:+ " begin") _ (reads_call (fun _ => tt))) as [Hb Hr]. specialize (Hr now s).
    destruct (wrapping (what +:+ " begin") _ now s) as [[u|e] s1] eqn:E; [|done]. simpl in Hr. rewrite (Hb _ _ _ _ E), Hr.
    destruct (m now s1) as [[b|e] s2] eqn:Em; [|done]. rewrite <- Hr, (Hf _ _ _ _ Em).
    destruct s2 as [t [|[|e|e] cs]]; simplify_eq/=; done.
  - intros now s e s' H. unfold inTx in *.
    pose proof (reads_wrapping (what +:+ " begin") _ (reads_call (fun _ => tt))) as [Hb Hr]. specialize (Hr now s).
    destruct (wrapping (what +:+ " begin") _ now s) as [[u|e1] s1] eqn:E; simpl in Hr; [|injection H as _ <-; by left].
    destruct (m now s1) as [[b|e1] s2] eqn:Em; [|injection H as _ <-; by left].
    destruct s2 as [t [|[|e1|e1] cs]]; simplify_eq/=; [by left|]. right. exists b.
    rewrite <- Hr, (Hf _ _ _ _ Em). done.
Qed.

Lemma faithful_upsertChunks ts id hs : forall n, faithful (upsertChunks ts id hs n).
Proof.
  induction hs as [|h hs IH]; intros n; cbn [upsertChunks]; [apply faithful_ret|]. case_bool_decide; [apply IH|].
  apply faithful_bind; [apply faithful_wrapping, faithful_call|]. intros _. apply IH.
Qed.

Lemma exec_all (q : request) : allOrNothing (exec q).
Proof.
  assert (forall A msg (f : tables -> A * tables), faithful (wrapping msg (call f))) as Hw
    by (intros; apply faithful_wrapping, faithful_call).
  destruct q; cbn [exec]; apply (all_ret _ (fun _ => tt)).
  - unfold MetaStore.UpsertPeer, sqlStore, UpsertPeer. case_bool_decide; [auto using all_reads|].
    apply all_after; [apply reads_now|]. intros now. apply all_wrapping, all_call.
  - apply all_after; [apply reads_now|]. intros ts. apply (all_ret _ (fun n => (0 <? n)%Z)), all_wrapping, all_call.
  - apply all_inTx. apply faithful_bind; [apply Hw|]. intros _. apply faithful_bind; [apply Hw|]. intros _. apply Hw.
  - apply all_after; [apply reads_now|]. intros c. apply all_inTx.
    apply faithful_bind; [apply Hw|]. intros _. apply faithful_bind; [apply Hw|]. intros _. apply Hw.
  - apply all_wrapping, all_call.
  - apply all_after; [apply reads_now|]. intros ts. apply all_wrapping, all_call.
  - apply all_after; [apply reads_now|]. intros ts. apply all_inTx.
    apply faithful_bind; [apply Hw|]. intros _. apply faithful_bind; [apply Hw|]. intros _. apply faithful_upsertChunks.
  - apply (all_ret _ (fun row => scanPeer <$> row)), all_wrapping, all_call.
  - unfold MetaStore.ListPeers, sqlStore, ListPeers. apply all_after.
    { destruct (0 <? expiry)%Z; [apply reads_now|auto]. }
    intros c. apply (all_ret _ (map scanPeer)), all_reads, reads_query.
  - apply all_wrapping, all_call.
  - apply all_reads, reads_query.
  - apply all_reads, reads_query.
  - apply all_reads, reads_locateEach.
  - apply all_reads, reads_peersEach.
Qed.


End atomic.

(** ** The SQL store and the in-memory store

    Time in the tables is in whole seconds.  The SQL store behaves as the
    in-memory store does on a clock of whole seconds. *)

Section refinement.
Import Sql.
#[local] Arguments unixOf : simpl never.

Definition G : Z := 1000000000.
Definition atSec (t : Z) : Z := (t / G * G)%Z.

Definition secPeer (p : Peer) : Peer :=
  mkPeer (pNodeID p) (pAddress p) (pRegion p) (pZone p) (pRack p) (pHost p) (pStatus p) (atSec <$> pLastHeartbeat p).

Definition secRequest (nq : Z * request) : Z * request :=
  (atSec nq.1, match nq.2 with RUpsertPeer p => RUpsertPeer (secPeer p) | q => q end).

(** Times an [int64] of nanoseconds can hold, and whole seconds. *)
Definition goodTime (t : Z) : Prop := (0 <= t < 2 ^ 63)%Z.
Definition wholeSeconds (d : Z) : Prop := (d mod G = 0 /\ - 2 ^ 63 < d < 2 ^ 63)%Z.

Definition goodRequest (nq : Z * request) : Prop :=
  goodTime nq.1 /\ match nq.2 with
                   | RUpsertPeer p => forall t, pLastHeartbeat p = Some t -> goodTime t
                   | RPruneExpiredPeers d => wholeSeconds d
                   | _ => True
                   end.

Record refines (m : Mem.Memory) (t : tables) : Prop := {
  rf_peers : forall id, Mem.peers m !! id = (fun row => scanPeer (id, row)) <$> tPeers t !! id;
  rf_arts : Mem.arts m = tArtifacts t;
  rf_seeds : forall a id, default ∅ (Mem.seeds m !! a) !! id = (fun ts => ts * G)%Z <$> tSeeds t !! (a, id);
  rf_chunks : forall h id, default ∅ (Mem.chunks m !! h) !! id = (fun ts => ts * G)%Z <$> tChunks t !! (h, id);
  rf_times : forall id row, tPeers t !! id = Some row -> goodTime (rLastHeartbeat row * G)
}.

(** *** Times *)

Lemma atSec_good t : goodTime t -> goodTime (atSec t) /\ (t / G * G)%Z = atSec t.
Proof.
  unfold goodTime, atSec, G. intros Ht. split; [|done].
  pose proof (Z.mul_div_le t 1000000000). pose proof (Z.div_pos t 1000000000). lia.
Qed.

Lemma timeUnix_good ts : goodTime (ts * G) -> timeUnix ts = Some (ts * G)%Z.
Proof. unfold goodTime, timeUnix, unixOf, G. intros Ht. destruct (Z.eqb_spec ts (-62135596800)); [lia|done]. Qed.

Lemma unix_good t : goodTime t -> goodTime (unixOf (Some t) * G) /\ timeUnix (unixOf (Some t)) = Some (atSec t).
Proof. intros Ht. destruct (atSec_good t Ht) as [Hg _]. split; [exact Hg|]. rewrite timeUnix_good by exact Hg. done. Qed.

Lemma cutoff_spec now d ts :
  goodTime now -> wholeSeconds d -> (ts <? unixOf (Some (now + wrap64 (- d))))%Z = (d <? atSec now - ts * G)%Z.
Proof.
  intros Hn [Hd Hr]. rewrite wrap64_id by (unfold int64_range; lia). unfold atSec, unixOf.
  assert (d = d / G * G)%Z as Hdd by (pose proof (Z.div_mod d G ltac:(done)); lia). rewrite Hdd at 1.
  replace (now + - (d / G * G))%Z with (now + (- (d / G)) * G)%Z by lia. unfold G in *. rewrite Z.div_add by lia.
  apply eq_true_iff_eq. rewrite !Z.ltb_lt. lia.
Qed.

Lemma alive_spec now d id row :
  goodTime now -> goodTime (rLastHeartbeat row * G) ->
  Mem.alive (atSec now) d (scanPeer (id, row)) = negb (d <? atSec now - rLastHeartbeat row * G)%Z.
Proof.
  intros Hn Hr. unfold Mem.alive, scanPeer. cbn [pLastHeartbeat fst snd]. rewrite timeUnix_good by done. unfold timeSub.
  destruct (atSec_good now Hn) as [[? ?] _]. destruct Hr as [? ?]. rewrite Z.max_r, Z.min_r by lia.
  apply eq_true_iff_eq. rewrite negb_true_iff, Z.leb_le, Z.ltb_ge. done.
Qed.

(** *** Keys of two columns *)

Lemma withoutNodes_lookup P x k id : withoutNodes P x !! (k, id) = if P id then None else x !! (k, id).
Proof.
  unfold withoutNodes. rewrite map_lookup_filter. destruct (x !! (k, id)) as [v|]; simpl; [|by destruct (P id)].
  destruct (P id) eqn:E; [by rewrite option_guard_False by (simpl; congruence)|by rewrite option_guard_True].
Qed.

Lemma elem_of_nodesWhere k x id : id ∈ nodesWhere k x <-> is_Some (x !! (k, id)).
Proof.
  unfold nodesWhere. rewrite list_elem_of_fmap. split.
  - intros ([[k' id'] v] & -> & [Hin Hk%bool_decide_eq_true]%elem_of_filterb). simpl in *. subst k'.
    apply elem_of_map_to_list in Hin. eauto.
  - intros [v Hv]. exists ((k, id), v). split; [done|]. apply elem_of_filterb.
    rewrite elem_of_map_to_list. by rewrite bool_decide_eq_true_2.
Qed.

Lemma NoDup_nodesWhere k x : NoDup (nodesWhere k x).
Proof.
  unfold nodesWhere. pose proof (NoDup_fst_map_to_list x) as Hnd. induction (map_to_list x) as [|[[k' id] v] l IH]; [constructor|].
  simpl in Hnd |- *. apply NoDup_cons in Hnd as [Hni Hnd]. case_bool_decide as Hk; [|by apply IH].
  simpl. apply NoDup_cons. split; [|by apply IH]. subst k'. intros ([[k' id'] v'] & Hid & [Hin Hk%bool_decide_eq_true]%elem_of_filterb)%list_elem_of_fmap.
  simpl in *. subst. apply Hni. apply list_elem_of_fmap. exists ((k, id'), v'). done.
Qed.

Lemma nodesWhere_keys k x (mm : gmap string Z) (f : Z -> Z) :
  (forall id, mm !! id = f <$> x !! (k, id)) -> nodesWhere k x ≡ₚ (map_to_list mm).*1.
Proof.
  intros H. apply NoDup_Permutation; [apply NoDup_nodesWhere|apply NoDup_fst_map_to_list|]. intros id.
  rewrite elem_of_nodesWhere, list_elem_of_fmap. split.
  - intros [v Hv]. exists (id, f v). split; [done|]. apply elem_of_map_to_list. by rewrite H, Hv.
  - intros ([id' v] & -> & Hin). apply elem_of_map_to_list in Hin. rewrite H in Hin. simpl.
    destruct (x !! (k, id')); [eauto|done].
Qed.

(** *** The operations *)

Definition sim {A B} (Q : A -> B -> Prop) (a : res A * Mem.Memory) (b : res B * SQLStore) : Prop :=
  exists x y, a.1 = Ok x /\ b.1 = Ok y /\ refines a.2 (db b.2) /\ calls b.2 = [] /\ Q x y.

Implicit Types (m : Mem.Memory) (t : tables).

Lemma peers_insert m t id row :
  (forall x, Mem.peers m !! x = (fun row => scanPeer (x, row)) <$> tPeers t !! x) ->
  forall x, <[id := scanPeer (id, row)]> (Mem.peers m) !! x = (fun row => scanPeer (x, row)) <$> <[id := row]> (tPeers t) !! x.
Proof.
  intros H x. destruct (decide (x = id)) as [->|Hne]; [by rewrite !lookup_insert_eq|]. by rewrite !lookup_insert_ne by done.
Qed.

Lemma times_insert t id row :
  (forall x r, tPeers t !! x = Some r -> goodTime (rLastHeartbeat r * G)) -> goodTime (rLastHeartbeat row * G) ->
  forall x r, <[id := row]> (tPeers t) !! x = Some r -> goodTime (rLastHeartbeat r * G).
Proof. intros H Hr x r [[_ <-]|[_ Hx]]%lookup_insert_Some; eauto. Qed.

Lemma touched m t id now row :
  refines m t -> goodTime now -> tPeers t !! id = Some row ->
  withHeartbeat (atSec now) (scanPeer (id, row)) = scanPeer (id, touch (unixOf (Some now)) row)
  /\ goodTime (rLastHeartbeat (touch (unixOf (Some now)) row) * G).
Proof.
  intros [_ _ _ _ Ht] Hn Hr. destruct (unix_good now Hn) as [Hg Hu]. split; [|exact Hg].
  unfold withHeartbeat, scanPeer, touch. cbn [fst snd rLastHeartbeat pNodeID pAddress pRegion pZone pRack pHost pStatus rAddress rRegion rZone rRack rHost rStatus].
  by rewrite Hu.
Qed.

Lemma mem_UpsertPeer m now p :
  goodTime (default now (pLastHeartbeat p)) -> pNodeID p <> "" ->
  Mem.UpsertPeer (secPeer p) (atSec now) m
  = (Ok tt, Mem.mkMemory (<[pNodeID p := scanPeer (pNodeID p, rowOf now p)]> (Mem.peers m)) (Mem.arts m) (Mem.seeds m) (Mem.chunks m)).
Proof.
  intros Hg Hid. destruct (unix_good _ Hg) as [_ Hu]. unfold Mem.UpsertPeer, scanPeer, rowOf.
  cbn [secPeer pNodeID pLastHeartbeat fst snd rAddress rRegion rZone rRack rHost rStatus rLastHeartbeat].
  rewrite bool_decide_eq_false_2, Hu by done. clear Hu Hg.
  destruct p as [i a r z k ho st [x|]]; simpl; case_bool_decide; done.
Qed.

Lemma sim_UpsertPeer m t now p :
  refines m t -> goodTime now -> (forall x, pLastHeartbeat p = Some x -> goodTime x) ->
  sim eq (Mem.UpsertPeer (secPeer p) (atSec now) m) (UpsertPeer p now (mkSQL t [])).
Proof.
  intros HR Hn Hp. assert (goodTime (default now (pLastHeartbeat p))) as Hg by (destruct (pLastHeartbeat p); simpl; auto).
  destruct (decide (pNodeID p = "")) as [Hid|Hid].
  { unfold Mem.UpsertPeer, UpsertPeer. cbn [secPeer pNodeID]. rewrite !bool_decide_eq_true_2 by done. by exists tt, tt. }
  rewrite mem_UpsertPeer by done. unfold UpsertPeer. rewrite bool_decide_eq_false_2 by done.
  exists tt, tt. split_and!; try done. simpl.
  split; simpl; try apply HR; [apply peers_insert, HR|apply times_insert; [apply HR|]]. apply (unix_good _ Hg).
Qed.

Lemma alter_eq {V} (f : V -> V) i (x : gmap string V) :
  alter f i x = match x !! i with Some v => <[i := f v]> x | None => x end.
Proof.
  apply map_eq. intros j. destruct (decide (j = i)) as [->|Hne].
  - rewrite lookup_alter_eq. destruct (x !! i) eqn:E; simpl; [by rewrite lookup_insert_eq|by rewrite E].
  - rewrite lookup_alter_ne by done. destruct (x !! i); [by rewrite lookup_insert_ne|done].
Qed.

(** A heartbeat in both stores. *)
Lemma refines_touch m t now id :
  refines m t -> goodTime now ->
  refines (Mem.mkMemory (match Mem.peers m !! id with Some p => <[id := withHeartbeat (atSec now) p]> (Mem.peers m) | None => Mem.peers m end)
             (Mem.arts m) (Mem.seeds m) (Mem.chunks m))
    (setPeers (alter (touch (unixOf (Some now))) id (tPeers t)) t).
Proof.
  intros HR Hn. rewrite alter_eq, (rf_peers _ _ HR). destruct (tPeers t !! id) as [row|] eqn:E; simpl.
  - destruct (touched m t id now row HR Hn E) as [-> Hg].
    split; simpl; try apply HR; [apply peers_insert, HR|apply times_insert; [apply HR|exact Hg]].
  - split; apply HR.
Qed.

Lemma sim_Heartbeat m t now id :
  refines m t -> goodTime now -> sim eq (Mem.Heartbeat id (atSec now) m) (Heartbeat id now (mkSQL t [])).
Proof.
  intros HR Hn. pose proof (refines_touch m t now id HR Hn) as HR'. unfold Mem.Heartbeat. rewrite (rf_peers _ _ HR) in *.
  unfold Heartbeat, opBind, nowUnix, wrapping, call, qHeartbeat. cbn [calls db fst snd tail].
  destruct (tPeers t !! id) as [row|]; cbn [fmap option_fmap option_map] in *.
  - exists true, true. split_and!; try done.
  - exists false, false. split_and!; try done. by destruct m.
Qed.

Lemma sim_DeregisterPeer m t now id :
  refines m t -> sim eq (Mem.DeregisterPeer id (atSec now) m) (DeregisterPeer id now (mkSQL t [])).
Proof.
  intros HR. exists tt, tt. split_and!; try done. simpl.
  assert (forall (x : gmap string (gmap string Z)) y,
    (forall a i, default ∅ (x !! a) !! i = (fun ts => ts * G)%Z <$> y !! (a, i)) ->
    forall a i, default ∅ ((delete id <$> x) !! a) !! i
      = (fun ts => ts * G)%Z <$> withoutNodes (fun n => bool_decide (n = id)) y !! (a, i)) as Hdel.
  { intros x y H a i. rewrite withoutNodes_lookup, lookup_fmap. specialize (H a i). destruct (x !! a) as [mm|]; simpl in *.
    - case_bool_decide as Hi; [subst; by rewrite lookup_delete_eq|by rewrite lookup_delete_ne].
    - rewrite lookup_empty in *. by case_bool_decide. }
  split; simpl; try apply HR.
  - intros x. destruct (decide (x = id)) as [->|Hne]; [by rewrite !lookup_delete_eq|rewrite !lookup_delete_ne by done; apply HR].
  - apply Hdel, HR.
  - apply Hdel, HR.
  - intros x row [_ Hx]%lookup_delete_Some. by eapply HR.
Qed.

Lemma expired_dead m t now d id :
  refines m t -> goodTime now -> wholeSeconds d ->
  expired (unixOf (Some (now + wrap64 (- d))%Z)) t id = bool_decide (id ∈ Mem.deadPeers (atSec now) d m).
Proof.
  intros HR Hn Hd. apply eq_true_iff_eq. rewrite bool_decide_eq_true, elem_of_dead. unfold expired.
  rewrite (rf_peers _ _ HR). destruct (tPeers t !! id) as [row|] eqn:E; simpl; [|split; [done|by intros (p & ? & _)]].
  rewrite cutoff_spec by done. pose proof (alive_spec now d id row Hn (rf_times _ _ HR _ _ E)) as Ha. split.
  - intros Hc. eexists. split; [done|]. by rewrite Ha, Hc.
  - intros (p & [= <-] & Hp). rewrite Ha in Hp. by apply negb_false_iff in Hp.
Qed.

Lemma size_peers m t : refines m t -> size (Mem.peers m) = size (tPeers t).
Proof.
  intros HR. assert (Mem.peers m = map_imap (fun id row => Some (scanPeer (id, row))) (tPeers t)) as ->.
  { apply map_eq. intros id. rewrite map_lookup_imap, (rf_peers _ _ HR). by destruct (tPeers t !! id). }
  rewrite <- !size_dom. f_equal. apply dom_imap_L. intros id. rewrite elem_of_dom. unfold is_Some. naive_solver.
Qed.

Lemma sim_PruneExpiredPeers m t now d :
  refines m t -> goodTime now -> wholeSeconds d ->
  sim eq (Mem.PruneExpiredPeers d (atSec now) m) (PruneExpiredPeers d now (mkSQL t [])).
Proof.
  intros HR Hn Hd. set (c := unixOf (Some (now + wrap64 (- d))%Z)).
  destruct (forget_fold (Mem.deadPeers (atSec now) d m) m) as (Ea & Ep & Ec & Es). cbv zeta in *.
  assert (forall id, expired c t id = bool_decide (id ∈ Mem.deadPeers (atSec now) d m)) as Hx by (intros id; by apply expired_dead).
  assert (refines (fold_left (fun m id => Mem.forget id m) (Mem.deadPeers (atSec now) d m) m)
    (mkTables (qDeletePeersExpired c t).2.(tPeers) (tArtifacts t) (withoutNodes (expired c t) (tSeeds t))
       (withoutNodes (expired c t) (tChunks t)))) as HR'.
  { split; simpl.
    - intros id. rewrite Ep, (rf_peers _ _ HR), map_lookup_filter, <- Hx. unfold expired.
      destruct (tPeers t !! id) as [row|]; simpl; [|done]. destruct (rLastHeartbeat row <? c)%Z eqn:E.
      + by rewrite option_guard_False by (simpl; congruence).
      + by rewrite option_guard_True.
    - rewrite Ea. apply HR.
    - intros a id. rewrite Es, withoutNodes_lookup, Hx. case_bool_decide; [done|apply HR].
    - intros h id. rewrite Ec, withoutNodes_lookup, Hx. case_bool_decide; [done|apply HR].
    - intros id row [Hr _]%map_lookup_filter_Some. by eapply HR. }
  eexists _, _. split; [done|]. split; [done|]. split; [exact HR'|]. split; [done|].
  pose proof (size_peers _ _ HR) as Hs. pose proof (size_peers _ _ HR') as Hs'. simpl in Hs'. simpl.
  pose proof (dead_count (atSec now) d m) as Hc. unfold Mem.PruneExpiredPeers in Hc. simpl in Hc. fold c. lia.
Qed.

Lemma sim_PutArtifact m t now a :
  refines m t -> sim eq (Mem.PutArtifact a (atSec now) m) (PutArtifact a now (mkSQL t [])).
Proof.
  intros HR. exists tt, tt. split_and!; try done. split; simpl; try apply HR. by rewrite (rf_arts _ _ HR).
Qed.

(** One entry more in a table of two columns. *)
Lemma refines_pair (x : gmap string (gmap string Z)) (y : gmap (string * string) Z) k id ts :
  (forall a i, default ∅ (x !! a) !! i = (fun ts => ts * G)%Z <$> y !! (a, i)) ->
  forall a i, default ∅ (<[k := <[id := (ts * G)%Z]> (default ∅ (x !! k))]> x !! a) !! i
    = (fun ts => ts * G)%Z <$> <[(k, id) := ts]> y !! (a, i).
Proof.
  intros H a i. destruct (decide (a = k)) as [->|Ha].
  - rewrite lookup_insert_eq. simpl. destruct (decide (i = id)) as [->|Hi]; [by rewrite !lookup_insert_eq|].
    rewrite !lookup_insert_ne by congruence. apply H.
  - rewrite !lookup_insert_ne by congruence. apply H.
Qed.

Lemma sim_ReportSeed m t now a id :
  refines m t -> sim eq (Mem.ReportSeed a id (atSec now) m) (ReportSeed a id now (mkSQL t [])).
Proof.
  intros HR. exists tt, tt. split_and!; try done. split; simpl; try apply HR.
  apply (refines_pair _ _ _ _ (now / G)), HR.
Qed.

Lemma upsertChunks_run now id hs : forall t x n,
  (forall h i, default ∅ (x !! h) !! i = (fun ts => ts * G)%Z <$> tChunks t !! (h, i)) ->
  exists y, upsertChunks (now / G) id hs n now (mkSQL t []) = (Ok (Mem.reportEach (atSec now) id hs x n).2, mkSQL (setChunks y t) [])
    /\ forall h i, default ∅ ((Mem.reportEach (atSec now) id hs x n).1 !! h) !! i = (fun ts => ts * G)%Z <$> y !! (h, i).
Proof.
  induction hs as [|h hs IH]; intros t x n Hx; cbn [upsertChunks Mem.reportEach].
  - exists (tChunks t). split; [by destruct t|done].
  - case_bool_decide; [by apply IH|].
    destruct (IH (setChunks (<[(h, id) := (now / G)%Z]> (tChunks t)) t) (<[h := <[id := atSec now]> (default ∅ (x !! h))]> x) (add64 n 1))
      as (y & Hrun & Hy); [simpl; by apply refines_pair|].
    exists y. split; [exact Hrun|done].
Qed.

Lemma sim_ReportChunks m t now id hs :
  refines m t -> goodTime now -> sim eq (Mem.ReportChunks id hs (atSec now) m) (ReportChunks id hs now (mkSQL t [])).
Proof.
  intros HR Hn. pose proof (refines_touch m t now id HR Hn) as HR'.
  destruct (upsertChunks_run now id hs (setPeers (alter (touch (unixOf (Some now))) id (tPeers t)) t) (Mem.chunks m) 0)
    as (y & Hrun & Hy); [apply HR|].
  unfold sim, Mem.ReportChunks. destruct (Mem.reportEach (atSec now) id hs (Mem.chunks m) 0) as [cs n] eqn:E. simpl in Hrun, Hy.
  assert (ReportChunks id hs now (mkSQL t []) = (Ok n, mkSQL (setChunks y (setPeers (alter (touch (unixOf (Some now))) id (tPeers t)) t)) [])) as ->.
  { unfold ReportChunks, inTx, opBind, nowUnix, wrapping, call, qHeartbeat. cbn [calls db fst snd tail].
    change (unixOf (Some now)) with (now / G)%Z in *. by rewrite Hrun. }
  exists n, n. split_and!; try done. split; simpl; try apply HR'. exact Hy.
Qed.

Lemma sim_GetPeer m t now id : refines m t -> sim eq (Mem.GetPeer id (atSec now) m) (GetPeer id now (mkSQL t [])).
Proof.
  intros HR. eexists _, _. split_and!; try done. rewrite (rf_peers _ _ HR). simpl. by destruct (tPeers t !! id).
Qed.

(** The peers of both stores, in lists. *)
Lemma peers_list m t :
  refines m t -> (map_to_list (Mem.peers m)).*2 ≡ₚ map scanPeer (map_to_list (tPeers t)).
Proof.
  intros HR. trans (map snd (map (fun ir => (ir.1, scanPeer ir)) (map_to_list (tPeers t)))); [|by rewrite map_map].
  apply (fmap_Permutation snd). apply NoDup_Permutation.
  - apply NoDup_map_to_list.
  - apply (NoDup_fmap_1 fst). rewrite <- list_fmap_compose. apply (NoDup_fst_map_to_list (tPeers t)).
  - intros [id p]. rewrite elem_of_map_to_list, (rf_peers _ _ HR), list_elem_of_fmap. split.
    + destruct (tPeers t !! id) as [row|] eqn:E; simpl; [|done]. intros [= <-]. exists (id, row). split; [done|].
      by apply elem_of_map_to_list.
    + intros ([id' row] & [= -> ->] & Hin%elem_of_map_to_list). by rewrite Hin.
Qed.

Lemma filterb_map {A B} (f : A -> B) (P : B -> bool) l : List.filter P (map f l) = map f (List.filter (fun x => P (f x)) l).
Proof. induction l as [|x l IH]; simpl; [done|]. by destruct (P (f x)); simpl; rewrite IH. Qed.

Lemma filterb_Permutation {A} (P : A -> bool) l l' : l ≡ₚ l' -> List.filter P l ≡ₚ List.filter P l'.
Proof.
  induction 1 as [|x l l' _ IH|x y l|l1 l2 l3 _ IH1 _ IH2]; simpl; [done| | |by trans (List.filter P l2)].
  - destruct (P x); [by constructor|done].
  - destruct (P x), (P y); try done. apply Permutation_swap.
Qed.

Lemma sim_ListPeers m t now d :
  refines m t -> goodTime now -> wholeSeconds d -> sim (≡ₚ) (Mem.ListPeers d (atSec now) m) (ListPeers d now (mkSQL t [])).
Proof.
  intros HR Hn Hd. unfold sim, Mem.ListPeers, ListPeers.
  set (c := if (0 <? d)%Z then unixOf (Some (now + wrap64 (- d))%Z) else 0%Z).
  assert ((let* cutoff := (if (0 <? d)%Z then cutoffUnix d else opRet 0%Z) in
           let* rows := query "list peers" (qListPeers cutoff) in opRet (map scanPeer rows)) now (mkSQL t [])
    = (Ok (map scanPeer (List.filter (fun ir => (c <=? rLastHeartbeat ir.2)%Z) (map_to_list (tPeers t)))), mkSQL t [])) as ->.
  { unfold c. by destruct (0 <? d)%Z. }
  eexists _, _. split_and!; try done. rewrite (filterb_Permutation _ _ _ (peers_list m t HR)), filterb_map.
  apply fmap_Permutation. apply eq_subrelation; [apply _|]. apply List.filter_ext_in. intros [id row] Hin.
  apply list_elem_of_In, elem_of_map_to_list in Hin. pose proof (rf_times _ _ HR _ _ Hin) as Ht.
  rewrite alive_spec by done. unfold c. cbn [snd]. destruct (Z.ltb_spec 0 d) as [Hpos|Hneg].
  - rewrite <- cutoff_spec by done. rewrite (proj2 (Z.leb_gt d 0)) by lia. simpl. by rewrite Z.ltb_antisym, negb_involutive.
  - rewrite (proj2 (Z.leb_le d 0)) by lia. simpl. symmetry. apply Z.leb_le. destruct Ht. unfold G in *. lia.
Qed.

Lemma sim_GetArtifact m t now a : refines m t -> sim eq (Mem.GetArtifact a (atSec now) m) (GetArtifact a now (mkSQL t [])).
Proof. intros HR. eexists _, _. split_and!; try done. by rewrite (rf_arts _ _ HR). Qed.

Lemma sim_ListSeeds m t now a : refines m t -> sim (≡ₚ) (Mem.ListSeeds a (atSec now) m) (ListSeeds a now (mkSQL t [])).
Proof.
  intros HR. eexists _, _. split_and!; try done. symmetry. apply (nodesWhere_keys a _ _ (fun ts => ts * G)%Z), HR.
Qed.

Lemma sim_LocateChunkNodes m t now h :
  refines m t -> sim (≡ₚ) (Mem.LocateChunkNodes h (atSec now) m) (LocateChunkNodes h now (mkSQL t [])).
Proof.
  intros HR. eexists _, _. split_and!; try done. symmetry. apply (nodesWhere_keys h _ _ (fun ts => ts * G)%Z), HR.
Qed.

(** *** Batches *)

Lemma batches_concat l : concat (batches l) = l.
Proof.
  unfold batches. assert (forall n l, length l <= n -> concat (batchesFrom n l) = l) as H; [|by apply H].
  clear l. induction n as [|n IH]; intros l Hl; [by destruct l; simpl in *; [|lia]|].
  destruct l as [|x l]; [done|]. cbn [batchesFrom concat]. rewrite IH; [apply take_drop|].
  rewrite length_drop. unfold sqlINBatch. simpl in *. lia.
Qed.

(** How many of the batches ask for a key. *)
Definition asked (k : string) (bs : list (list string)) : nat := length (List.filter (fun b => bool_decide (k ∈ b)) bs).

Lemma asked_once k bs : NoDup (concat bs) -> k ∈ concat bs -> asked k bs = 1.
Proof.
  unfold asked. induction bs as [|b bs IH]; simpl; [by intros _ ?%elem_of_nil|].
  rewrite elem_of_app. intros (Hb & Hd & Hbs)%NoDup_app Hk. case_bool_decide as Hin; simpl.
  - f_equal. assert (forall b', b' ∈ bs -> k ∉ b') as Hno.
    { intros b' Hb' Hk'. apply (Hd k Hin). apply list_elem_of_In, in_concat. exists b'. by rewrite <- !list_elem_of_In. }
    clear -Hno. induction bs as [|b' bs IH]; [done|]. simpl. rewrite bool_decide_eq_false_2 by (apply Hno; by left).
    apply IH. intros b0 Hb0. apply Hno. by right.
  - apply IH; [done|]. by destruct Hk.
Qed.

Lemma append_rows (rows : list (string * string)) : forall (out : gmap string (list string)) h l,
  out !! h = Some l ->
  fold_left (fun out hn => <[hn.1 := default [] (out !! hn.1) ++ [hn.2]]> out) rows out !! h
  = Some (l ++ map snd (List.filter (fun hn => bool_decide (hn.1 = h)) rows)).
Proof.
  induction rows as [|[k n] rows IH]; intros out h l Hl; simpl; [by rewrite app_nil_r|].
  case_bool_decide as Hk.
  - subst k. rewrite (IH _ h (l ++ [n])); [by rewrite <- app_assoc|]. by rewrite lookup_insert_eq, Hl.
  - rewrite (IH _ h l); [done|]. by rewrite lookup_insert_ne.
Qed.

Lemma rows_of (b : list string) x h :
  map snd (List.filter (fun hn => bool_decide (hn.1 = h)) (List.filter (fun kv => bool_decide (kv.1 ∈ b)) (map fst (map_to_list x))))
  = if bool_decide (h ∈ b) then nodesWhere h x else [].
Proof.
  unfold nodesWhere. destruct (decide (h ∈ b)) as [Hb|Hb];
    [rewrite (bool_decide_eq_true_2 (h ∈ b)) by done|rewrite (bool_decide_eq_false_2 (h ∈ b)) by done];
    (induction (map_to_list x) as [|[[k n] v] l IH]; simpl; [done|]; destruct (decide (k = h)) as [->|Hne]).
  - rewrite (bool_decide_eq_true_2 (h ∈ b)), (bool_decide_eq_true_2 (h = h)) by done. simpl.
    rewrite (bool_decide_eq_true_2 (h = h)) by done. simpl. by rewrite IH.
  - rewrite (bool_decide_eq_false_2 (k = h)) by done. case_bool_decide; simpl; [|done].
    by rewrite (bool_decide_eq_false_2 (k = h)) by done.
  - by rewrite (bool_decide_eq_false_2 (h ∈ b)).
  - case_bool_decide; simpl; [|done]. by rewrite (bool_decide_eq_false_2 (k = h)) by done.
Qed.

Lemma locateEach_run now t bs : forall out,
  exists out', locateEach bs out now (mkSQL t []) = (Ok out', mkSQL t [])
    /\ forall h l, out !! h = Some l -> out' !! h = Some (l ++ concat (replicate (asked h bs) (nodesWhere h (tChunks t)))).
Proof.
  induction bs as [|b bs IH]; intros out; cbn [locateEach].
  - exists out. split; [done|]. intros h l Hl. by rewrite Hl, app_nil_r.
  - set (rows := (qChunksIn b t).1).
    destruct (IH (fold_left (fun out hn => <[hn.1 := default [] (out !! hn.1) ++ [hn.2]]> out) rows out)) as (out' & Hrun & Hout).
    exists out'. split; [exact Hrun|]. intros h l Hl. rewrite (Hout h _ (append_rows rows out h l Hl)).
    unfold rows. cbn [qChunksIn fst]. rewrite rows_of. unfold asked. simpl. case_bool_decide; simpl; [by rewrite <- app_assoc|by rewrite app_nil_r].
Qed.

Lemma LocateChunkNodesBatch_run now t hs :
  exists out, LocateChunkNodesBatch hs now (mkSQL t []) = (Ok out, mkSQL t [])
    /\ forall h, h ∈ hs -> out !! h = Some (concat (replicate (asked h (batches hs)) (nodesWhere h (tChunks t)))).
Proof.
  destruct (locateEach_run now t (batches hs) (fold_left (fun out h => <[h := []]> out) hs ∅)) as (out & Hrun & Hout).
  exists out. split; [exact Hrun|]. intros h Hh. rewrite (Hout h []); [done|].
  rewrite (fold_insert_lookup (fun _ => [])). by rewrite bool_decide_eq_true_2.
Qed.

Lemma insert_rows (rows : list (string * peerRow)) : forall (out : gmap string Peer) id,
  (forall row, (id, row) ∈ rows -> forall row', (id, row') ∈ rows -> row = row') ->
  fold_left (fun out ir => <[ir.1 := scanPeer ir]> out) rows out !! id
  = match List.find (fun ir => bool_decide (ir.1 = id)) rows with Some ir => Some (scanPeer ir) | None => out !! id end.
Proof.
  induction rows as [|[k row] rows IH]; intros out id Hu; simpl; [done|].
  rewrite IH by (intros r Hr r' Hr'; apply Hu; by right). case_bool_decide as Hk.
  - subst k. destruct (List.find _ rows) as [[k' r']|] eqn:E.
    + apply List.find_some in E as [Hin%list_elem_of_In Hk'%bool_decide_eq_true]. simpl in Hk'. subst k'.
      by rewrite (Hu row ltac:(by left) r' ltac:(by right)).
    + by rewrite lookup_insert_eq.
  - destruct (List.find _ rows); [done|]. by rewrite lookup_insert_ne.
Qed.

Lemma peersEach_run now t bs : forall out,
  exists out', peersEach bs out now (mkSQL t []) = (Ok out', mkSQL t [])
    /\ forall id, out' !! id = match tPeers t !! id with
                              | Some row => if bool_decide (id ∈ concat bs) then Some (scanPeer (id, row)) else out !! id
                              | None => out !! id
                              end.
Proof.
  induction bs as [|b bs IH]; intros out; cbn [peersEach].
  { exists out. split; [done|]. intros id. by destruct (tPeers t !! id). }
  set (rows := (qPeersIn b t).1).
  destruct (IH (fold_left (fun out ir => <[ir.1 := scanPeer ir]> out) rows out)) as (out' & Hrun & Hout).
  exists out'. split; [exact Hrun|]. intros id. rewrite Hout. simpl.
  assert (forall id row, (id, row) ∈ rows <-> tPeers t !! id = Some row /\ id ∈ b) as Hrows.
  { intros x row. unfold rows. cbn [qPeersIn fst]. rewrite elem_of_filterb, elem_of_map_to_list. simpl. by rewrite bool_decide_eq_true. }
  rewrite insert_rows; [|intros r [Hr _]%Hrows r' [Hr' _]%Hrows; congruence].
  assert (List.find (fun ir => bool_decide (ir.1 = id)) rows = (if bool_decide (id ∈ b) then (fun row => (id, row)) <$> tPeers t !! id else None)) as ->.
  { destruct (List.find _ rows) as [[k r]|] eqn:E.
    - apply List.find_some in E as [Hin%list_elem_of_In Hk%bool_decide_eq_true]. simpl in Hk. subst k.
      apply Hrows in Hin as [Hr Hb]. rewrite bool_decide_eq_true_2, Hr by done. done.
    - case_bool_decide as Hb; [|done]. destruct (tPeers t !! id) as [row|] eqn:Er; [|done]. simpl. exfalso.
      assert (List.In (id, row) rows) as Hin by (apply list_elem_of_In, Hrows; done).
      pose proof (List.find_none _ _ E _ Hin) as Hf. simpl in Hf. by rewrite bool_decide_eq_true_2 in Hf. }
  destruct (tPeers t !! id) as [row|]; simpl; [|by destruct (bool_decide _)].
  rewrite (bool_decide_ext (id ∈ b ++ concat bs) (id ∈ b \/ id ∈ concat bs)) by apply elem_of_app.
  rewrite bool_decide_or. by destruct (bool_decide (id ∈ concat bs)), (bool_decide (id ∈ b)).
Qed.

Lemma sim_GetPeersBatch m t now ids :
  refines m t -> sim eq (Mem.GetPeersBatch ids (atSec now) m) (GetPeersBatch ids now (mkSQL t [])).
Proof.
  intros HR. destruct (peersEach_run now t (batches ids) ∅) as (out & Hrun & Hout). unfold sim, GetPeersBatch. rewrite Hrun.
  eexists _, _. split_and!; try done. apply map_eq. intros id. rewrite Hout, batches_concat, lookup_empty.
  rewrite (fold_insert_some (fun id => Mem.peers m !! id)) by by intros k v; rewrite lookup_empty.
  rewrite (rf_peers _ _ HR). by destruct (tPeers t !! id), (bool_decide (id ∈ ids)).
Qed.

Lemma sim_LocateChunkNodesBatch m t now hs :
  refines m t -> NoDup hs ->
  sim (fun a b => forall h, h ∈ hs -> exists l l', a !! h = Some l /\ b !! h = Some l' /\ l ≡ₚ l')
    (Mem.LocateChunkNodesBatch hs (atSec now) m) (LocateChunkNodesBatch hs now (mkSQL t [])).
Proof.
  intros HR Hnd. destruct (LocateChunkNodesBatch_run now t hs) as (out & Hrun & Hout). unfold sim. rewrite Hrun.
  eexists _, _. split_and!; try done. intros h Hh. rewrite (Hout h Hh), fold_insert_lookup, bool_decide_eq_true_2 by done.
  rewrite asked_once; rewrite ?batches_concat; try done. eexists _, _. split; [done|]. split; [done|]. simpl. rewrite app_nil_r.
  symmetry. apply (nodesWhere_keys h _ _ (fun ts => ts * G)%Z), HR.
Qed.

(** *** Histories *)

Lemma sim_unit {A B} (Q : A -> B -> Prop) (a : op Mem.Memory A) (b : op SQLStore B) now now' m s :
  sim Q (a now m) (b now' s) ->
  exists m' t', (let* _ := a in opRet tt) now m = (Ok tt, m') /\ (let* _ := b in opRet tt) now' s = (Ok tt, mkSQL t' []) /\ refines m' t'.
Proof.
  intros (x & y & Hx & Hy & HR & Hc & _). unfold opBind. destruct (a now m) as [ra m'], (b now' s) as [rb [t' cs]].
  simpl in *. subst. by exists m', t'.
Qed.

(** Reads leave both stores alone. *)
Lemma sim_read {A B} (x : A) (y : B) m t : refines m t -> sim (fun _ _ => True) (Ok x, m) (Ok y, mkSQL t []).
Proof. intros HR. by exists x, y. Qed.

Lemma exec_sim m t nq :
  refines m t -> goodRequest nq ->
  exists m' t', exec (secRequest nq).2 (secRequest nq).1 m = (Ok tt, m') /\ exec nq.2 nq.1 (mkSQL t []) = (Ok tt, mkSQL t' [])
    /\ refines m' t'.
Proof.
  intros HR [Hn Hq]. destruct nq as [now q]. simpl in Hn, Hq. cbn [secRequest fst snd].
  destruct q; cbn [exec]; eapply sim_unit.
  - by apply sim_UpsertPeer.
  - by apply sim_Heartbeat.
  - by apply sim_DeregisterPeer.
  - by apply sim_PruneExpiredPeers.
  - by apply sim_PutArtifact.
  - by apply sim_ReportSeed.
  - by apply sim_ReportChunks.
  - by apply sim_GetPeer.
  - cbn [MetaStore.ListPeers sqlStore memoryStore]. unfold Mem.ListPeers, ListPeers. destruct (0 <? expiry)%Z; by apply sim_read.
  - by apply sim_GetArtifact.
  - by apply sim_ListSeeds.
  - by apply sim_LocateChunkNodes.
  - cbn [MetaStore.LocateChunkNodesBatch sqlStore memoryStore].
    destruct (LocateChunkNodesBatch_run now t hs) as (out & -> & _). by apply sim_read.
  - by apply sim_GetPeersBatch.
Qed.

Lemma history_sim h : forall m t,
  refines m t -> Forall goodRequest h ->
  exists m' t', history (map secRequest h) m = Ok m' /\ history h (mkSQL t []) = Ok (mkSQL t' []) /\ refines m' t'.
Proof.
  induction h as [|[now q] h IH]; intros m t HR Hh; [by exists m, t|]. apply Forall_cons in Hh as [Hq Hh].
  destruct (exec_sim m t (now, q) HR Hq) as (m1 & t1 & E1 & E2 & HR1). cbn [fst snd] in E2.
  destruct (IH m1 t1 HR1 Hh) as (m2 & t2 & H1 & H2 & HR2). exists m2, t2.
  split; [|split; [|done]]; cbn [map history]; [|by rewrite E2].
  destruct (secRequest (now, q)) as [now' q']. cbn [fst snd] in E1. by rewrite E1.
Qed.

Lemma refines_new : refines Mem.NewMemory schema.
Proof. by split. Qed.

(** Both calls return, and what they return is related. *)
Definition answers {A B} (Q : A -> B -> Prop) (a : res A) (b : res B) : Prop := exists x y, a = Ok x /\ b = Ok y /\ Q x y.

Lemma sim_answers {A B} (Q : A -> B -> Prop) a b : sim Q a b -> answers Q a.1 b.1.
Proof. intros (x & y & ? & ? & _ & _ & ?). by exists x, y. Qed.

(** C33. The SQL store implements the in-memory store, on a clock of whole
    seconds.  When the database does not fail, after any history of requests
    both stores have answered all of them, and every read gives the same from
    both: a peer and an artifact exactly, the peers that are alive, the seeds
    of an artifact and the nodes of a chunk up to their order, and batches
    entry by entry (for a batch of distinct hashes). *)
Theorem SQL_refines h (Hh : Forall goodRequest h) :
  exists m s, history (map secRequest h) Mem.NewMemory = Ok m /\ history h (mkSQL schema []) = Ok s
    /\ forall now, goodTime now ->
      (forall id, answers eq (Mem.GetPeer id (atSec now) m).1 (GetPeer id now s).1)
      /\ (forall a, answers eq (Mem.GetArtifact a (atSec now) m).1 (GetArtifact a now s).1)
      /\ (forall d, wholeSeconds d -> answers (≡ₚ) (Mem.ListPeers d (atSec now) m).1 (ListPeers d now s).1)
      /\ (forall a, answers (≡ₚ) (Mem.ListSeeds a (atSec now) m).1 (ListSeeds a now s).1)
      /\ (forall x, answers (≡ₚ) (Mem.LocateChunkNodes x (atSec now) m).1 (LocateChunkNodes x now s).1)
      /\ (forall ids, answers eq (Mem.GetPeersBatch ids (atSec now) m).1 (GetPeersBatch ids now s).1)
      /\ (forall xs, NoDup xs -> answers (fun a b => forall x, x ∈ xs -> exists l l', a !! x = Some l /\ b !! x = Some l' /\ l ≡ₚ l')
            (Mem.LocateChunkNodesBatch xs (atSec now) m).1 (LocateChunkNodesBatch xs now s).1).
Proof.
  destruct (history_sim h _ _ refines_new Hh) as (m & t & H1 & H2 & HR). exists m, (mkSQL t []).
  split; [done|]. split; [done|]. intros now Hn. split_and!; intros; apply sim_answers;
    auto using sim_GetPeer, sim_GetArtifact, sim_ListPeers, sim_ListSeeds, sim_LocateChunkNodes, sim_GetPeersBatch,
      sim_LocateChunkNodesBatch.
Qed.

(** A hash that is asked for in two batches of [LocateChunkNodesBatch] gets
    its nodes twice: with more than 500 hashes a repeated one is listed with
    every node repeated. *)
Theorem SQL_batch_repeats now t h others (Hlen : length others = sqlINBatch - 1) (Hnew : h ∉ others) :
  exists out, (LocateChunkNodesBatch (h :: others ++ [h]) now (mkSQL t [])).1 = Ok out
    /\ out !! h = Some (nodesWhere h (tChunks t) ++ nodesWhere h (tChunks t)).
Proof.
  destruct (LocateChunkNodesBatch_run now t (h :: others ++ [h])) as (out & -> & Hout). exists out. split; [done|].
  rewrite (Hout h) by by left.
  assert (batches (h :: others ++ [h]) = [h :: others; [h]]) as ->.
  { unfold batches. replace (length (h :: others ++ [h])) with (S (S (length others))) by (simpl; rewrite length_app; simpl; lia).
    cbn [batchesFrom]. unfold sqlINBatch in *.
    replace (take 500 (h :: others ++ [h])) with (h :: others)
      by (change (h :: others ++ [h]) with ((h :: others) ++ [h]); rewrite take_app_length'; [done|simpl; lia]).
    replace (drop 500 (h :: others ++ [h])) with [h]
      by (change (h :: others ++ [h]) with ((h :: others) ++ [h]); rewrite drop_app_length'; [done|simpl; lia]).
    destruct others; [simpl in Hlen; lia|]. done. }
  unfold asked. simpl. rewrite !bool_decide_eq_true_2 by by left. simpl. by rewrite app_nil_r.
Qed.

End refinement.

(** ** Concrete stores *)

(** One node reports a chunk, is pruned after a minute, and registers again. *)
Definition sqlHistory : list (Z * request) :=
  [(5 * 1000000000 + 7, RUpsertPeer (mkPeer "n1" "a:1" "" "" "" "" "" None));
   (6 * 1000000000, RReportChunks "n1" ["h1"; ""; "h2"]);
   (90 * 1000000000, RPruneExpiredPeers (60 * 1000000000));
   (91 * 1000000000, RReportSeed "art" "n1")]%Z.

Lemma sqlHistory_good : Forall goodRequest sqlHistory.
Proof. repeat constructor; cbn; try done; try lia. Qed.

Lemma SQL_refines_witness :
  exists s, history sqlHistory (Sql.mkSQL Sql.schema []) = Ok s /\ (Sql.GetPeer "n1" 0%Z s).1 = Ok None.
Proof.
  destruct (SQL_refines sqlHistory sqlHistory_good) as (m & s & Hm & Hs & Hreads). exists s. split; [exact Hs|].
  destruct (Hreads 0%Z) as [Hp _]; [by split|]. destruct (Hp "n1") as (x & y & Hx & Hy & <-). rewrite Hy.
  vm_compute in Hm. injection Hm as <-. vm_compute in Hx. by injection Hx as <-.
Defined.


Lemma SQL_batch_repeats_witness :
  exists out, (Sql.LocateChunkNodesBatch ("h1" :: replicate 499 "h2" ++ ["h1"]) 0%Z
      (Sql.mkSQL (Sql.qUpsertChunk "h1" "n1" 5 Sql.schema).2 [])).1 = Ok out
    /\ out !! "h1" = Some ["n1"; "n1"].
Proof.
  destruct (SQL_batch_repeats 0%Z (Sql.qUpsertChunk "h1" "n1" 5 Sql.schema).2 "h1" (replicate 499 "h2"))
    as (out & H1 & H2).
  - reflexivity.
  - by intros [? _]%elem_of_replicate.
  - exists out. split; [exact H1|exact H2].
Defined.
