(* ===== verification/SqlText.v ===== *)
(** * The text of the SQL queries (pkg/store/embed.go, pkg/store/sql.go)

    Splitting the embedded file into named queries, the placeholders of the two
    dialects, and opening a store. *)

From S2P Require Import Prelude Json Topology MetaStore MetaCache CachedStore SqlStore.
Local Open Scope go_scope.

Module SqlText.

(** ** The named queries *)

Definition newline : Ascii.ascii := Ascii.ascii_of_N 10.
Definition nl : string := String newline EmptyString.

(** [strings.Split(s, nl)] *)
Fixpoint splitLines (s : string) : list string :=
  match s with
  | EmptyString => [""]
  | String a s' =>
      if bool_decide (a = newline) then "" :: splitLines s'
      else match splitLines s' with
           | [] => [String a ""]
           | l :: ls => String a l :: ls
           end
  end.

(** The local variables of the loop: [out], [name] and [body]. *)
Record parser := mkParser { pOut : gmap string string; pName : string; pBody : string }.

Definition flush (p : parser) : parser :=
  let n := trimSpace (pName p) in
  let q := trimSpace (pBody p) in
  mkParser (if bool_decide (n = "") || bool_decide (q = "") then pOut p else <[n := q]> (pOut p)) "" "".

Definition onLine (p : parser) (line : string) : parser :=
  let trim := trimSpace line in
  if hasPrefix "-- name:" trim then
    let p := flush p in
    mkParser (pOut p) (pName p +:+ trimSpace (trimPrefix trim "-- name:")) (pBody p)
  else if hasPrefix "--" trim then p
  else mkParser (pOut p) (pName p) (pBody p +:+ line +:+ nl).

Definition parseNamedQueries (src : string) : gmap string string :=
  pOut (flush (fold_left onLine (splitLines src) (mkParser ∅ "" ""))).

(** ** Placeholders *)

Definition qmark : Ascii.ascii := Ascii.ascii_of_N 63.

(** The loop over the query; [n] placeholders have been written.  The queries
    are ASCII. *)
Fixpoint numberFrom (n : nat) (q : string) : string :=
  match q with
  | EmptyString => ""
  | String c q' =>
      if bool_decide (c = qmark) then "$" +:+ pretty (S n) +:+ numberFrom (S n) q'
      else String c (numberFrom n q')
  end.

Definition placeholdersPostgres (q : string) : string := numberFrom 0 q.

(** [strings.Join(l, ",")] *)
Fixpoint joinComma (l : list string) : string :=
  match l with
  | [] => ""
  | [x] => x
  | x :: l' => x +:+ "," +:+ joinComma l'
  end.

(** The text that [queryIN] sends; the ids are its arguments. *)
Definition queryIN (driver prefix : string) (ids : list string) : string :=
  let q := prefix +:+ joinComma (map (fun _ => "?") ids) +:+ ")" in
  if bool_decide (driver = "postgres") then placeholdersPostgres q else q.

(** ** Opening *)

Definition backslash : Ascii.ascii := Ascii.ascii_of_N 92.

(** [strings.ReplaceAll(s, backslash, slash)] *)
Fixpoint slashes (s : string) : string :=
  match s with
  | EmptyString => ""
  | String a s' => if bool_decide (a = backslash) then "/" +:+ slashes s' else String a (slashes s')
  end.

Definition sqliteDSN (dsn : string) : string :=
  let dsn := if bool_decide (dsn = "") then "file:spider.db?cache=shared" else dsn in
  let dsn := if negb (bool_decide (dsn = ":memory:")) && negb (hasPrefix "file:" dsn) then "file:" +:+ slashes dsn else dsn in
  if contains "?" dsn then dsn
  else dsn +:+ "?_pragma=busy_timeout(5000)&_pragma=journal_mode(WAL)&_pragma=foreign_keys(1)".

Record Pool := mkPool { MaxOpenConns : Z; MaxIdleConns : Z; ConnMaxLifetime : Z; ConnMaxIdleTime : Z }.

(** What is set on the [sql.DB]: [None] leaves its default. *)
Record dbLimits := mkDbLimits {
  maxOpen : Z;
  maxIdle : Z;
  maxLifetime : option Z;
  maxIdleTime : option Z
}.

Definition configurePool (driver : string) (p : Pool) : dbLimits :=
  if bool_decide (driver = "sqlite") then
    let open := positiveOr 8 (MaxOpenConns p) in
    mkDbLimits open (positiveOr open (MaxIdleConns p))
      (if (0 <? ConnMaxLifetime p)%Z then Some (ConnMaxLifetime p) else None)
      (if (0 <? ConnMaxIdleTime p)%Z then Some (ConnMaxIdleTime p) else None)
  else
    mkDbLimits (positiveOr 25 (MaxOpenConns p)) (positiveOr 5 (MaxIdleConns p))
      (Some (positiveOr (5 * 60 * 1000000000) (ConnMaxLifetime p))) (Some (positiveOr (60 * 1000000000) (ConnMaxIdleTime p))).

(** An open store: the dialect, the queries and the limits of its pool. *)
Record handle := mkHandle { hDSN : string; hDriver : string; hQueries : gmap string string; hLimits : dbLimits }.

(** [sql.Open], [Ping] and the schema, whose statements change nothing when the
    tables exist: the database is the state.  [queriesSQL] is the embedded file. *)
Definition openSQL (queriesSQL driver dsn : string) (pool : Pool) : op Sql.SQLStore handle :=
  let dsn := if bool_decide (driver = "sqlite") then sqliteDSN dsn else dsn in
  let* _ := Sql.wrapping "sql open" (Sql.call (fun t => (tt, t))) in
  let* _ := Sql.wrapping "sql ping" (Sql.call (fun t => (tt, t))) in
  let* _ := Sql.wrapping "migrate" (Sql.call (fun t => (tt, t))) in
  let name := if bool_decide (driver = "pgx") then "postgres" else "sqlite" in
  let q := parseNamedQueries queriesSQL in
  opRet (mkHandle dsn name (if bool_decide (name = "postgres") then placeholdersPostgres <$> q else q) (configurePool driver pool)).

(** [s.q(name)]; [None] is the panic. *)
Definition queryText (h : handle) (name : string) : option string := hQueries h !! name.

(** The embedded queries.sql. *)
Definition dq : string := String (Ascii.ascii_of_N 34) EmptyString.

Definition queriesSQL : string := String.concat nl [
   "-- Named queries. Placeholders are " +:+ dq +:+ "?" +:+ dq +:+ " and rewritten to $N for Postgres.";
   "-- SQLite and Postgres both accept EXCLUDED in ON CONFLICT updates.";
   "";
   "-- name: UpsertPeer";
   "INSERT INTO peers (node_id, address, region, zone, rack, host, last_heartbeat, status)";
   "VALUES (?, ?, ?, ?, ?, ?, ?, ?)";
   "ON CONFLICT(node_id) DO UPDATE SET";
   "  address=EXCLUDED.address, region=EXCLUDED.region, zone=EXCLUDED.zone,";
   "  rack=EXCLUDED.rack, host=EXCLUDED.host, last_heartbeat=EXCLUDED.last_heartbeat, status=EXCLUDED.status";
   "";
   "-- name: Heartbeat";
   "UPDATE peers SET last_heartbeat=? WHERE node_id=?";
   "";
   "-- name: GetPeer";
   "SELECT node_id, address, region, zone, rack, host, last_heartbeat, status FROM peers WHERE node_id=?";
   "";
   "-- name: ListPeers";
   "SELECT node_id, address, region, zone, rack, host, last_heartbeat, status FROM peers WHERE last_heartbeat>=?";
   "";
   "-- name: DeleteSeedsForNode";
   "DELETE FROM artifact_seeds WHERE node_id=?";
   "";
   "-- name: DeleteChunksForNode";
   "DELETE FROM chunk_locations WHERE node_id=?";
   "";
   "-- name: DeletePeer";
   "DELETE FROM peers WHERE node_id=?";
   "";
   "-- name: DeleteSeedsExpired";
   "DELETE FROM artifact_seeds WHERE node_id IN (SELECT node_id FROM peers WHERE last_heartbeat<?)";
   "";
   "-- name: DeleteChunksExpired";
   "DELETE FROM chunk_locations WHERE node_id IN (SELECT node_id FROM peers WHERE last_heartbeat<?)";
   "";
   "-- name: DeletePeersExpired";
   "DELETE FROM peers WHERE last_heartbeat<?";
   "";
   "-- name: PutArtifact";
   "INSERT INTO artifacts (artifact_id, name, version, manifest_json) VALUES (?, ?, ?, ?)";
   "ON CONFLICT(artifact_id) DO UPDATE SET name=EXCLUDED.name, version=EXCLUDED.version, manifest_json=EXCLUDED.manifest_json";
   "";
   "-- name: GetArtifact";
   "SELECT artifact_id, name, version, manifest_json FROM artifacts WHERE artifact_id=?";
   "";
   "-- name: ReportSeed";
   "INSERT INTO artifact_seeds (artifact_id, node_id, updated_at) VALUES (?, ?, ?)";
   "ON CONFLICT(artifact_id, node_id) DO UPDATE SET updated_at=EXCLUDED.updated_at";
   "";
   "-- name: ListSeeds";
   "SELECT node_id FROM artifact_seeds WHERE artifact_id=?";
   "";
   "-- name: TouchPeer";
   "UPDATE peers SET last_heartbeat=? WHERE node_id=?";
   "";
   "-- name: UpsertChunk";
   "INSERT INTO chunk_locations (chunk_hash, node_id, updated_at) VALUES (?, ?, ?)";
   "ON CONFLICT(chunk_hash, node_id) DO UPDATE SET updated_at=EXCLUDED.updated_at";
   "";
   "-- name: LocateChunkNodes";
   "SELECT node_id FROM chunk_locations WHERE chunk_hash=?";
   ""].

End SqlText.

(** * Properties *)

Section properties.
Import SqlText.

(** The names that the operations ask for. *)
Definition usedQueries : list string :=
  ["UpsertPeer"; "Heartbeat"; "GetPeer"; "ListPeers"; "DeleteSeedsForNode"; "DeleteChunksForNode"; "DeletePeer";
   "DeleteSeedsExpired"; "DeleteChunksExpired"; "DeletePeersExpired"; "PutArtifact"; "GetArtifact"; "ReportSeed"; "ListSeeds";
   "TouchPeer"; "UpsertChunk"; "LocateChunkNodes"].

Definition hasQuery (q : gmap string string) (name : string) : bool :=
  match q !! name with Some _ => true | None => false end.

Lemma used_present : forallb (hasQuery (parseNamedQueries queriesSQL)) usedQueries = true.
Proof. vm_compute. reflexivity. Qed.

Lemma openSQL_queries src driver dsn pool now s h s' :
  openSQL src driver dsn pool now s = (Ok h, s') ->
  hQueries h = (if bool_decide (driver = "pgx") then placeholdersPostgres <$> parseNamedQueries src else parseNamedQueries src).
Proof.
  unfold openSQL, opBind, opRet. intros Hopen. repeat (case_match; try discriminate); by injection Hopen as <- _.
Qed.

Lemma openSQL_runs src driver dsn pool now s :
  Sql.calls s = [] -> exists h s', openSQL src driver dsn pool now s = (Ok h, s').
Proof. intros Hc. unfold openSQL, opBind, Sql.wrapping, Sql.call. rewrite Hc. simpl. by eexists _, _. Qed.

(** No operation of an open store panics on an unknown query. *)
Lemma queries_exist driver dsn pool now s h s' name :
  openSQL queriesSQL driver dsn pool now s = (Ok h, s') -> name ∈ usedQueries -> is_Some (queryText h name).
Proof.
  intros Hopen Hname. pose proof used_present as Hall. rewrite forallb_forall in Hall.
  apply list_elem_of_In, Hall in Hname. unfold hasQuery in Hname. unfold queryText.
  rewrite (openSQL_queries _ _ _ _ _ _ _ _ Hopen). revert Hname. generalize (parseNamedQueries queriesSQL) as q. intros q Hq.
  case_bool_decide; rewrite ?lookup_fmap; destruct (q !! name); simpl; first [done | by eexists].
Qed.

(** The arguments of a batch: one placeholder each, numbered for Postgres. *)
Fixpoint numbered (n count : nat) : list string :=
  match count with O => [] | S count' => ("$" +:+ pretty (S n)) :: numbered (S n) count' end.

Definition plain (s : string) : Prop := forall n, numberFrom n s = s.

Lemma numberFrom_plain n a b : plain a -> numberFrom n (a +:+ b) = a +:+ numberFrom n b.
Proof.
  revert n. induction a as [|c a IH]; intros n Ha; [done|]. pose proof (Ha n) as Hc. simpl in Hc |- *.
  case_bool_decide as Hq; [subst c; discriminate Hc|].
  change (String c a +:+ numberFrom n b) with (String c (a +:+ numberFrom n b)). f_equal. apply IH. intros k.
  specialize (Ha k). simpl in Ha. rewrite bool_decide_eq_false_2 in Ha by done. by injection Ha.
Qed.

Lemma numberFrom_batch n ids :
  numberFrom n (joinComma (map (fun _ : string => "?") ids) +:+ ")") = joinComma (numbered n (length ids)) +:+ ")".
Proof.
  revert n. induction ids as [|x [|y ids] IH]; intros n; [done| |].
  - reflexivity.
  - specialize (IH (S n)).
    change (numberFrom n (joinComma (map (fun _ : string => "?") (x :: y :: ids)) +:+ ")"))
      with ("$" +:+ pretty (S n) +:+ "," +:+ numberFrom (S n) (joinComma (map (fun _ : string => "?") (y :: ids)) +:+ ")")).
    rewrite IH.
    change (joinComma (numbered n (length (x :: y :: ids))))
      with (("$" +:+ pretty (S n)) +:+ "," +:+ joinComma (numbered (S n) (length (y :: ids)))).
    by rewrite !str_app_assoc.
Qed.

Lemma queryIN_postgres prefix ids :
  plain prefix -> queryIN "postgres" prefix ids = prefix +:+ joinComma (numbered 0 (length ids)) +:+ ")".
Proof.
  intros Hp. unfold queryIN, placeholdersPostgres. rewrite bool_decide_eq_true_2 by done.
  by rewrite numberFrom_plain, numberFrom_batch.
Qed.

End properties.
