(* ===== verification/Registry.v ===== *)
(** * The tracker (pkg/tracker: registry.go, fleet.go, server.go)

    The registry of peers and chunks over any [Store], the fleet readiness
    milestones and the handlers of the gRPC service.  Contexts only bound the
    time of store calls, whose failures are the [Err] results of the store. *)

From S2P Require Import Prelude GoFloat Topology MetaStore.
Local Open Scope go_scope.

(** ** FleetWatch *)

Module Fleet.

Record fleetState := mkState {
  publishedAt : Z;
  expected : Z;
  ready : gset string;
  recorded : gset string
}.

(** The watch, with the two gauges it drives: ready nodes, and seconds to
    readiness per milestone. *)
Record FleetWatch := mkWatch {
  artifacts : gmap string fleetState;
  readyNodes : nat;
  timeToReady : gmap string float64
}.

Definition NewFleetWatch : FleetWatch := mkWatch ∅ 0 ∅.

Definition fleetThresholds : list (string * Z) := [("first", 0); ("50", 50); ("90", 90); ("99", 99); ("100", 100)]%Z.

Definition BeginDistribution (artifactID : string) (expectedNodes : Z) (now : Z) (f : FleetWatch) : FleetWatch :=
  if bool_decide (artifactID = "") then f
  else
    let expectedNodes := if (expectedNodes <? 1)%Z then 1%Z else expectedNodes in
    mkWatch (<[artifactID := mkState now expectedNodes ∅ ∅]> (artifacts f)) 0
      (fold_left (fun g th => <[th.1 := fzero]> g) fleetThresholds (timeToReady f)).

(** The milestone [pct] for [readyCount] nodes out of [expected]. *)
Definition thresholdMet (pct : Z) (readyCount : nat) (expected : Z) : bool :=
  if (0 <? pct)%Z then
    fleb (ofInt64 pct) (fmul (fdiv (ofInt64 (Z.of_nat readyCount)) (ofInt64 expected)) (ofInt64 100))
  else (1 <=? readyCount).

(** One round of the loop over the thresholds. *)
Definition milestone (now : Z) (readyCount : nat) (sg : fleetState * gmap string float64) (th : string * Z)
    : fleetState * gmap string float64 :=
  let '(st, g) := sg in
  if bool_decide (th.1 ∈ recorded st) then (st, g)
  else if thresholdMet th.2 readyCount (expected st) then
    let elapsed := seconds (now - publishedAt st) in
    let elapsed := if fleb elapsed fzero then literal 1 1000000 else elapsed in
    (mkState (publishedAt st) (expected st) (ready st) ({[th.1]} ∪ recorded st), <[th.1 := elapsed]> g)
  else (st, g).

Definition NodeReady (artifactID nodeID : string) (now : Z) (f : FleetWatch) : FleetWatch :=
  if bool_decide (artifactID = "") || bool_decide (nodeID = "") then f
  else
    match artifacts f !! artifactID with
    | None => f
    | Some st =>
        if bool_decide (nodeID ∈ ready st) then f
        else
          let st := mkState (publishedAt st) (expected st) ({[nodeID]} ∪ ready st) (recorded st) in
          let readyCount := size (ready st) in
          let '(st, g) := fold_left (milestone now readyCount) fleetThresholds (st, timeToReady f) in
          mkWatch (<[artifactID := st]> (artifacts f)) readyCount g
    end.

End Fleet.

(** ** Registry *)

Record ChunkLocation := mkLocation { ChunkHash : string; Peers : list PeerInfo }.

Module Reg.

Record Registry (S : Type) := mkRegistry { store : S; peerExpiry : Z; fleet : Fleet.FleetWatch }.
Arguments mkRegistry {S}.
Arguments store {S}.
Arguments peerExpiry {S}.
Arguments fleet {S}.

Section registry.
Context {CF : CaseFold} {S : Type} {St : Store S}.

Definition NewRegistryWithStore (st : S) (expiry : Z) : Registry S :=
  mkRegistry st (if (expiry <=? 0)%Z then 30 * 1000000000 else expiry)%Z Fleet.NewFleetWatch.

Definition onStore {A} (m : op S A) : op (Registry S) A :=
  opOn store (fun s r => mkRegistry s (peerExpiry r) (fleet r)) m.

Definition onFleet (f : Z -> Fleet.FleetWatch -> Fleet.FleetWatch) : op (Registry S) unit :=
  fun now r => (Ok tt, mkRegistry (store r) (peerExpiry r) (f now (fleet r))).

Definition expiry : op (Registry S) Z := fun _ r => (Ok (peerExpiry r), r).

(** A store call whose error is logged and replaced by a default. *)
Definition orElse {A} (d : A) (m : op S A) : op (Registry S) A :=
  let* r := opTry (onStore m) in opRet match r with Ok a => a | Err _ => d end.

Definition RegisterPeer (peer : option PeerInfo) : op (Registry S) unit :=
  match peer with
  | None => opRet tt
  | Some i =>
      if bool_decide (NodeId i = "") then opRet tt
      else
        let* now := opNow in
        orElse tt (UpsertPeer (withHeartbeat now (PeerFromProto now peer)))
  end.

Definition Heartbeat (nodeID : string) : op (Registry S) bool := orElse false (Heartbeat nodeID).

Definition DeregisterPeer (nodeID : string) : op (Registry S) unit := orElse tt (DeregisterPeer nodeID).

Definition ReportChunks (nodeID : string) (chunkHashes : list string) : op (Registry S) Z :=
  orElse 0%Z (ReportChunks nodeID chunkHashes).

Definition ReportArtifact (nodeID artifactID : string) : op (Registry S) unit :=
  let* r := opTry (onStore (ReportSeed artifactID nodeID)) in
  match r with
  | Err _ => opRet tt
  | Ok _ => onFleet (Fleet.NodeReady artifactID nodeID)
  end.

Definition ListActivePeers : op (Registry S) (list PeerInfo) :=
  let* e := expiry in
  let* r := opTry (onStore (ListPeers e)) in
  opRet match r with Ok peers => map Proto peers | Err _ => [] end.

Definition PutArtifact (rec : ArtifactRecord) : op (Registry S) unit :=
  let* _ := onStore (PutArtifact rec) in
  let* active := ListActivePeers in
  let expected := Z.of_nat (length active) in
  let expected := if (expected <=? 0)%Z then 1%Z else expected in
  onFleet (Fleet.BeginDistribution (aArtifactID rec) expected).

Definition requesterLoc (nodeID : string) : op (Registry S) Locality :=
  let* r := opTry (onStore (GetPeer nodeID)) in
  opRet match r with Ok (Some p) => FromProto (Some (Proto p)) | _ => mkLocality "" "" "" "" end.

(** The peers among [ids] that are known and alive, but not [skip]. *)
Definition peersFromCache (ids : list string) (skip : string) (now expiry : Z) (peers : gmap string Peer)
    : list PeerInfo :=
  omap (fun id =>
    if bool_decide (id = skip) then None
    else match peers !! id with
         | None => None
         | Some p => if (timeSub now (pLastHeartbeat p) <=? expiry)%Z then Some (Proto p) else None
         end) ids.

Definition peersForIDs (ids : list string) (skip : string) : op (Registry S) (list PeerInfo) :=
  let* now := opNow in
  let* e := expiry in
  let* r := opTry (onStore (GetPeersBatch ids)) in
  opRet match r with Ok peers => peersFromCache ids skip now e peers | Err _ => [] end.

(** The node ids of all the locations, without the requester. *)
Definition locatedIDs (requester : string) (located : gmap string (list string)) : list string :=
  elements (list_to_set (List.filter (fun id => negb (bool_decide (id = requester)))
                           (concat (map_to_list located).*2)) : gset string).

Definition LocateChunks (requesterNodeID : string) (chunkHashes : list string)
    : op (Registry S) (list ChunkLocation) :=
  let* loc := requesterLoc requesterNodeID in
  let* now := opNow in
  let* e := expiry in
  let* r := opTry (onStore (LocateChunkNodesBatch chunkHashes)) in
  match r with
  | Err _ => opRet (map (fun h => mkLocation h []) chunkHashes)
  | Ok located =>
      let* peersByID := orElse ∅ (GetPeersBatch (locatedIDs requesterNodeID located)) in
      opRet (map (fun h =>
        mkLocation h (SortPeersByProximity loc
          (peersFromCache (default [] (located !! h)) requesterNodeID now e peersByID))) chunkHashes)
  end.

Definition LocateArtifact (requesterNodeID artifactID : string) : op (Registry S) (list PeerInfo) :=
  let* r := opTry (onStore (ListSeeds artifactID)) in
  match r with
  | Err _ => opRet []
  | Ok ids =>
      let* peers := peersForIDs ids requesterNodeID in
      let* loc := requesterLoc requesterNodeID in
      opRet (SortPeersByProximity loc peers)
  end.

Definition PruneDeadPeers : op (Registry S) Z :=
  let* e := expiry in orElse 0%Z (PruneExpiredPeers e).

Definition ReadyNodes (artifactID : string) : op (Registry S) (list string) := orElse [] (ListSeeds artifactID).

End registry.

End Reg.

(** ** Handlers *)

Module Server.

Section server.
Context {CF : CaseFold} {S : Type} {St : Store S}.
Abbreviation handler := (op (Reg.Registry S)).

(** Success and message. *)
Definition RegisterPeer (peer : option PeerInfo) : handler (bool * string) :=
  if match peer with None => true | Some i => bool_decide (NodeId i = "") end then
    opRet (false, "missing peer information or node_id")
  else
    let* _ := Reg.RegisterPeer peer in
    opRet (true, "registered successfully").

Definition Heartbeat (nodeID : string) : handler bool := Reg.Heartbeat nodeID.

Definition DeregisterPeer (nodeID : string) : handler bool :=
  let* _ := Reg.DeregisterPeer nodeID in opRet true.

Definition ReportChunks (nodeID : string) (hashes : list string) : handler Z := Reg.ReportChunks nodeID hashes.

Definition LocateChunks (requester : string) (hashes : list string) : handler (list ChunkLocation) :=
  Reg.LocateChunks requester hashes.

Definition ListPeers : handler (list PeerInfo) := Reg.ListActivePeers.

Definition PutArtifact (id name version : string) (manifestJSON : bytes) : handler bool :=
  let* _ := Reg.PutArtifact (mkArtifact id name version manifestJSON) in opRet true.

Definition ReportArtifact (nodeID artifactID : string) (complete : bool) : handler bool :=
  let* _ := (if complete then Reg.ReportArtifact nodeID artifactID else opRet tt) in opRet true.

Definition LocateArtifact (requester artifactID : string) : handler (list PeerInfo) :=
  Reg.LocateArtifact requester artifactID.

Definition GetArtifactStatus (artifactID : string) : handler (list string) := Reg.ReadyNodes artifactID.

(** One tick of the pruning goroutine: how many peers it removed, and the number
    of the active ones for the gauge. *)
Definition pruneTick : handler (Z * Z) :=
  let* pruned := Reg.PruneDeadPeers in
  let* peers := Reg.ListActivePeers in
  opRet (pruned, Z.of_nat (length peers)).

End server.

End Server.

(** * Properties *)

Section properties.
Context {CF : CaseFold} {S : Type} `{StoreReads S}.
Implicit Types r : Reg.Registry S.

(** A node that may serve: not the requester, known, and heard of recently. *)
Definition serves (now : Z) r (requester id : string) (i : PeerInfo) : Prop :=
  id <> requester /\ exists p, sPeer now (Reg.store r) id = Some p
    /\ (timeSub now (pLastHeartbeat p) <= Reg.peerExpiry r)%Z /\ i = Proto p.

(** Registries whose store has the same view. *)
Definition sameReg (now : Z) r r' : Prop :=
  sameView now (Reg.store r) (Reg.store r') /\ Reg.peerExpiry r' = Reg.peerExpiry r /\ Reg.fleet r' = Reg.fleet r.

Lemma onStore_run {A} (m : op S A) now r a s' :
  m now (Reg.store r) = (Ok a, s') ->
  Reg.onStore m now r = (Ok a, Reg.mkRegistry s' (Reg.peerExpiry r) (Reg.fleet r)).
Proof. intros Hm. unfold Reg.onStore, opOn. by rewrite Hm. Qed.

Lemma opBind_run {X A B} (m : op X A) (k : A -> op X B) now s a s' :
  m now s = (Ok a, s') -> opBind m k now s = k a now s'.
Proof. intros Hm. unfold opBind. by rewrite Hm. Qed.

Lemma opTry_run {X A} (m : op X A) now s a s' : m now s = (Ok a, s') -> opTry m now s = (Ok (Ok a), s').
Proof. intros Hm. unfold opTry. by rewrite Hm. Qed.

Lemma requesterLoc_run now r id :
  sInv (Reg.store r) ->
  exists r', Reg.requesterLoc id now r
    = (Ok match sPeer now (Reg.store r) id with
          | Some p => FromProto (Some (Proto p)) | None => mkLocality "" "" "" "" end, r')
    /\ sameReg now r r'.
Proof.
  intros Hi. destruct (reads_peer now (Reg.store r) id Hi) as (s' & Hg & Hv).
  eexists. split.
  - unfold Reg.requesterLoc. erewrite opBind_run by (by eapply opTry_run, onStore_run). by destruct (sPeer _ _ _).
  - done.
Qed.

(** The peers among [ids] that may serve, by the view of the store. *)
Definition viewPeers (now : Z) r (requester : string) (ids : list string) : list PeerInfo :=
  omap (fun id => if bool_decide (id = requester) then None
    else match sPeer now (Reg.store r) id with
         | Some p => if (timeSub now (pLastHeartbeat p) <=? Reg.peerExpiry r)%Z then Some (Proto p) else None
         | None => None end) ids.

Lemma peersFromCache_view now r requester ids peers :
  (forall id, id ∈ ids -> id <> requester -> peers !! id = sPeer now (Reg.store r) id) ->
  Reg.peersFromCache ids requester now (Reg.peerExpiry r) peers = viewPeers now r requester ids.
Proof.
  intros Hp. unfold Reg.peersFromCache, viewPeers. induction ids as [|id ids IH]; [done|]. cbn [omap list_omap].
  rewrite IH by (intros; apply Hp; [by right|done]). case_bool_decide as Hid; [done|].
  by rewrite (Hp id) by (by left || done).
Qed.

Lemma elem_of_viewPeers now r requester ids i :
  i ∈ viewPeers now r requester ids <-> exists id, id ∈ ids /\ serves now r requester id i.
Proof.
  unfold viewPeers. rewrite list_elem_of_omap. unfold serves. split.
  - intros (id & Hid & Hs). exists id. split; [done|]. case_bool_decide; [done|]. split; [done|].
    destruct (sPeer now (Reg.store r) id) as [p|]; [|done]. exists p.
    destruct (Z.leb_spec (timeSub now (pLastHeartbeat p)) (Reg.peerExpiry r)); [|done]. by injection Hs.
  - intros (id & Hid & Hne & p & Hp & Ht & ->). exists id. split; [done|].
    rewrite bool_decide_eq_false_2, Hp by done. by rewrite (proj2 (Z.leb_le _ _)).
Qed.

Lemma elem_of_locatedIDs requester located id :
  id ∈ Reg.locatedIDs requester located
  <-> id <> requester /\ exists h l, located !! h = Some l /\ id ∈ l.
Proof.
  unfold Reg.locatedIDs. rewrite elem_of_elements, elem_of_list_to_set, elem_of_filterb.
  rewrite negb_true_iff, bool_decide_eq_false. rewrite list_elem_of_In, in_concat. split.
  - intros [(l & Hl & Hid) Hne]. split; [done|]. apply list_elem_of_In, list_elem_of_fmap in Hl as ([h l'] & -> & Hl).
    apply elem_of_map_to_list in Hl. exists h, l'. by rewrite list_elem_of_In.
  - intros [Hne (h & l & Hl & Hid)]. split; [|done]. exists l. split; [|by apply list_elem_of_In].
    apply list_elem_of_In, list_elem_of_fmap. exists (h, l). by rewrite elem_of_map_to_list.
Qed.

Lemma sameReg_refl now r : sInv (Reg.store r) -> sameReg now r r.
Proof. by intros Hi. Qed.

Lemma viewPeers_same now r r' requester ids :
  sameReg now r r' -> viewPeers now r' requester ids = viewPeers now r requester ids.
Proof.
  intros [(_ & _ & _ & Hp) [He _]]. unfold viewPeers. induction ids as [|id ids IH]; [done|].
  cbn [omap list_omap]. by rewrite IH, Hp, He.
Qed.

(** C36. On a store whose reads succeed, agree with one another and name each
    node of a chunk once (shown for the in-memory store, alone and behind the
    in-memory cache), [LocateChunks] answers for each requested chunk, in
    order, with the peers that reported it: known to the store, heard of
    within the expiry time and not the requester, each once, nearest to the
    requester first. *)
Theorem LocateChunks_spec now r requester hashes :
  sInv (Reg.store r) ->
  exists out r', Reg.LocateChunks requester hashes now r = (Ok out, r')
    /\ sameReg now r r'
    /\ Forall2 (fun h loc => ChunkHash loc = h
         /\ (exists ids, NoDup ids /\ list_to_set ids = sNodes (Reg.store r) h
              /\ Peers loc ≡ₚ viewPeers now r requester ids)
         /\ (forall i, i ∈ Peers loc <-> exists id, id ∈ sNodes (Reg.store r) h /\ serves now r requester id i)
         /\ StronglySorted (fun p q => distTo (match sPeer now (Reg.store r) requester with
               | Some p => FromProto (Some (Proto p)) | None => mkLocality "" "" "" "" end) p
             <= distTo (match sPeer now (Reg.store r) requester with
               | Some p => FromProto (Some (Proto p)) | None => mkLocality "" "" "" "" end) q)%Z (Peers loc))
         hashes out.
Proof.
  intros Hi. destruct (requesterLoc_run now r requester Hi) as (r1 & Hloc & Hs1). pose proof Hs1 as [(Hi1 & Hn1 & _ & Hp1) [He1 _]].
  set (loc := match sPeer now (Reg.store r) requester with Some p => _ | None => _ end) in *.
  destruct (reads_locate now (Reg.store r1) hashes Hi1) as (located & s2 & Hl & Hv2 & Hall).
  set (r2 := Reg.mkRegistry s2 (Reg.peerExpiry r1) (Reg.fleet r1)).
  destruct (reads_peers now s2 (Reg.locatedIDs requester located)) as (peers & s3 & Hg & Hv3 & Hpeers); [apply Hv2|].
  set (r3 := Reg.mkRegistry s3 (Reg.peerExpiry r1) (Reg.fleet r1)).
  assert (sameReg now r r3) as Hs3.
  { destruct Hs1 as [Hv1 Hrest]. split; [|done]. eapply sameView_trans; [exact Hv1|].
    eapply sameView_trans; [exact Hv2|exact Hv3]. }
  eexists _, r3. split; [|split; [done|]].
  - unfold Reg.LocateChunks. erewrite opBind_run by exact Hloc.
    rewrite (opBind_run _ _ _ r1 now r1) by done. rewrite (opBind_run _ _ _ r1 (Reg.peerExpiry r1) r1) by done.
    erewrite opBind_run by (by eapply opTry_run, onStore_run). cbn [Reg.store] in *.
    unfold Reg.orElse. erewrite opBind_run.
    2: { erewrite opBind_run; [reflexivity|]. eapply opTry_run. apply (onStore_run _ _ r2). exact Hg. }
    reflexivity.
  - apply Forall2_fmap_r. apply Forall_Forall2_diag. apply Forall_forall. intros h Hh.
    destruct (Hall h Hh) as (ids & Hids & Hnd & Hset). simpl. rewrite Hids. simpl. rewrite He1.
    assert (Reg.peersFromCache ids requester now (Reg.peerExpiry r) peers = viewPeers now r requester ids) as ->.
    { apply peersFromCache_view. intros id Hid Hne. rewrite Hpeers.
      - destruct Hv2 as (_ & _ & _ & Hp2). by rewrite Hp2, Hp1.
      - apply elem_of_locatedIDs. eauto. }
    rewrite Hn1 in Hset. destruct (SortPeersByProximity_ok loc (viewPeers now r requester ids)) as [Hperm Hsorted].
    split; [done|]. split; [|split; [|done]].
    + exists ids. done.
    + intros i. rewrite Hperm, elem_of_viewPeers. rewrite <- Hset. setoid_rewrite elem_of_list_to_set. done.
Qed.

End properties.

(** ** A registry with one seeder *)

Definition seeder : Peer := mkPeer "n1" "10.0.0.1:7000" "eu" "eu-1" "r1" "h1" "HEALTHY" (Some 0%Z).

Definition oneSeeder : Reg.Registry Mem.Memory :=
  Reg.mkRegistry (Mem.mkMemory {["n1" := seeder]} ∅ ∅ {["c" := {["n1" := 0%Z]}]}) (30 * 1000000000)%Z Fleet.NewFleetWatch.

Lemma LocateChunks_spec_witness :
  exists out r', Reg.LocateChunks (CF:=asciiFold) "n2" ["c"] 0%Z oneSeeder = (Ok out, r')
    /\ Forall2 (fun h loc => ChunkHash loc = h
         /\ forall i, i ∈ Peers loc <-> exists id, id ∈ sNodes (Reg.store oneSeeder) h /\ serves 0%Z oneSeeder "n2" id i)
         ["c"] out.
Proof.
  destruct (LocateChunks_spec (CF:=asciiFold) (H:=memoryReads) 0%Z oneSeeder "n2" ["c"] I) as (out & r' & Hr & _ & Hf).
  exists out, r'. split; [exact Hr|]. eapply Forall2_impl; [exact Hf|]. intros h loc (H1 & _ & H2 & _).
  split; [exact H1|exact H2].
Defined.

Example LocateChunks_oneSeeder :
  (Reg.LocateChunks (CF:=asciiFold) "n2" ["c"] 0%Z oneSeeder).1 = Ok [mkLocation "c" [Proto seeder]].
Proof. vm_compute. reflexivity. Qed.
