(* ===== verification/TrackerMain.v ===== *)
(** * The tracker process (cmd/tracker/main.go, cmd/tracker/pool.go) and the drivers it opens

    The flags over the configuration, opening the store and the metadata cache
    by the names of their drivers, and the registry on top of them.  The HTTP
    server, the signals and the listener are not modelled. *)

From S2P Require Import Prelude GoFloat Json GoPath Manifest GoFs Topology MetaStore MetaCache.
From S2P Require Import Redis CachedStore SqlStore SqlText Registry Config.
Local Open Scope go_scope.

(** ** Pools *)

Definition storePool (p : PoolConfig) : SqlText.Pool :=
  SqlText.mkPool (MaxOpenConns p) (MaxIdleConns p) (ConnMaxLifetime p) (ConnMaxIdleTime p).

Definition cachePool (p : PoolConfig) : RedisCache.Pool :=
  RedisCache.mkPool (MaxOpenConns p) (MaxIdleConns p) (MinIdleConns p) (ConnMaxLifetime p) (ConnMaxIdleTime p)
    (DialTimeout p) (ReadTimeout p) (WriteTimeout p) (PoolTimeout p).

(** ** The drivers *)

(** A store that [store.Open] returns. *)
Inductive backend := BMemory (m : Mem.Memory) | BSql (h : SqlText.handle) (s : Sql.SQLStore).

Definition onBackend {A} (mem : op Mem.Memory A) (sql : op Sql.SQLStore A) : op backend A :=
  fun now b =>
    match b with
    | BMemory m => let '(r, m') := mem now m in (r, BMemory m')
    | BSql h s => let '(r, s') := sql now s in (r, BSql h s')
    end.

#[export] Instance backendStore : Store backend := {|
  UpsertPeer p := onBackend (UpsertPeer p) (UpsertPeer p);
  Heartbeat n := onBackend (Heartbeat n) (Heartbeat n);
  GetPeer n := onBackend (GetPeer n) (GetPeer n);
  ListPeers e := onBackend (ListPeers e) (ListPeers e);
  DeregisterPeer n := onBackend (DeregisterPeer n) (DeregisterPeer n);
  PruneExpiredPeers e := onBackend (PruneExpiredPeers e) (PruneExpiredPeers e);
  PutArtifact a := onBackend (PutArtifact a) (PutArtifact a);
  GetArtifact a := onBackend (GetArtifact a) (GetArtifact a);
  ReportSeed a n := onBackend (ReportSeed a n) (ReportSeed a n);
  ListSeeds a := onBackend (ListSeeds a) (ListSeeds a);
  ReportChunks n hs := onBackend (ReportChunks n hs) (ReportChunks n hs);
  LocateChunkNodes h := onBackend (LocateChunkNodes h) (LocateChunkNodes h);
  LocateChunkNodesBatch hs := onBackend (LocateChunkNodesBatch hs) (LocateChunkNodesBatch hs);
  GetPeersBatch ns := onBackend (GetPeersBatch ns) (GetPeersBatch ns)
|}.

(** [store.Open]; [db] is the database that the data source name leads to. *)
Definition OpenStore (driver dsn : string) (pool : SqlText.Pool) (db : Sql.SQLStore) (now : Z) : res backend :=
  let driver := nonemptyOr "memory" driver in
  let sql d :=
    match SqlText.openSQL SqlText.queriesSQL d dsn pool now db with
    | (Ok h, s) => Ok (BSql h s)
    | (Err e, _) => Err e
    end in
  if bool_decide (driver = "memory") then Ok (BMemory Mem.NewMemory)
  else if bool_decide (driver = "sqlite") then sql "sqlite"
  else if bool_decide (driver = "postgres") then sql "pgx"
  else Err (EText "unknown store driver").

(** A cache that [metacache.Open] returns. *)
Inductive anyCache (R : Type) := ANop | AMemory (m : MemCache.Memory) | ARedis (r : RedisCache.Redis R).
Arguments ANop {R}. Arguments AMemory {R}. Arguments ARedis {R}.

Section caches.
Context {R : Type} {RC : RedisCache.RedisClient R}.

Definition onAny {A} (nop : op Nop A) (mem : op MemCache.Memory A) (red : op (RedisCache.Redis R) A) : op (anyCache R) A :=
  fun now c =>
    match c with
    | ANop => let '(r, _) := nop now tt in (r, ANop)
    | AMemory m => let '(r, m') := mem now m in (r, AMemory m')
    | ARedis x => let '(r, x') := red now x in (r, ARedis x')
    end.

#[export] Instance cacheAny : MetaCache.Cache (anyCache R) := {|
  Get key := onAny (Get key) (Get key) (Get key);
  Set_ key v t := onAny (Set_ key v t) (Set_ key v t) (Set_ key v t);
  MGet keys := onAny (MGet keys) (MGet keys) (MGet keys);
  MSet items t := onAny (MSet items t) (MSet items t) (MSet items t);
  Delete key := onAny (Delete key) (Delete key) (Delete key);
  DeletePrefix p := onAny (DeletePrefix p) (DeletePrefix p) (DeletePrefix p)
|}.

(** [redis.ParseURL] and [runtime.GOMAXPROCS(0)] *)
Context (ParseURL : string -> res RedisCache.redisOptions) (procs : Z).

(** [metacache.Open]; [server] is the Redis server that the options lead to. *)
Definition OpenCache (driver : string) (opts : RedisCache.Options) (server : R) (now : Z) : res (anyCache R) :=
  let opts := RedisCache.mkOptions (positiveOr (10 * second) (RedisCache.TTL opts)) (RedisCache.URL opts) (RedisCache.Addr opts)
                (RedisCache.Password opts) (RedisCache.DB opts) (nonemptyOr "spider:" (RedisCache.Prefix opts))
                (RedisCache.oPool opts) in
  if bool_decide (driver = "none") then Ok ANop
  else if bool_decide (driver = "memory") then Ok (AMemory (MemCache.NewMemory (RedisCache.TTL opts)))
  else if bool_decide (driver = "redis") then
    match RedisCache.NewRedis ParseURL procs opts server now with Ok r => Ok (ARedis r) | Err e => Err e end
  else Err (EText "unknown cache driver").

End caches.

(** ** Main *)

Section main.
Context {SC : StoreCodec} {CF : CaseFold} {R : Type} {RC : RedisCache.RedisClient R}.

(** What [store.Wrap] returns: a [Nop] cache is left out. *)
Inductive wrapped := Bare (b : backend) | WithCache (c : Cached.CachedStore backend (anyCache R)).

Definition wrapStore (b : backend) (c : anyCache R) (ttl : Z) : wrapped :=
  match c with ANop => Bare b | _ => WithCache (Cached.Wrap b c ttl) end.

Definition onWrapped {A} (bare : op backend A) (cached : op (Cached.CachedStore backend (anyCache R)) A) : op wrapped A :=
  fun now w =>
    match w with
    | Bare b => let '(r, b') := bare now b in (r, Bare b')
    | WithCache c => let '(r, c') := cached now c in (r, WithCache c')
    end.

#[export] Instance wrappedStore : Store wrapped := {|
  UpsertPeer p := onWrapped (UpsertPeer p) (UpsertPeer p);
  Heartbeat n := onWrapped (Heartbeat n) (Heartbeat n);
  GetPeer n := onWrapped (GetPeer n) (GetPeer n);
  ListPeers e := onWrapped (ListPeers e) (ListPeers e);
  DeregisterPeer n := onWrapped (DeregisterPeer n) (DeregisterPeer n);
  PruneExpiredPeers e := onWrapped (PruneExpiredPeers e) (PruneExpiredPeers e);
  PutArtifact a := onWrapped (PutArtifact a) (PutArtifact a);
  GetArtifact a := onWrapped (GetArtifact a) (GetArtifact a);
  ReportSeed a n := onWrapped (ReportSeed a n) (ReportSeed a n);
  ListSeeds a := onWrapped (ListSeeds a) (ListSeeds a);
  ReportChunks n hs := onWrapped (ReportChunks n hs) (ReportChunks n hs);
  LocateChunkNodes h := onWrapped (LocateChunkNodes h) (LocateChunkNodes h);
  LocateChunkNodesBatch hs := onWrapped (LocateChunkNodesBatch hs) (LocateChunkNodesBatch hs);
  GetPeersBatch ns := onWrapped (GetPeersBatch ns) (GetPeersBatch ns)
|}.

Record flags := mkFlags {
  flHTTPAddr : string; flExpiry : Z; flStoreDriver : string; flStoreDSN : string; flCacheDriver : string;
  flRedisAddr : string; flRedisURL : string; flLogFormat : string
}.

(** A flag that is set replaces the value of the configuration. *)
Definition applyFlags (f : flags) (c : Config) : Config :=
  let s := cStore c in
  let m := MetaCache c in
  let r := mcRedis m in
  let m' := mkMetaCache (nonemptyOr (mcDriver m) (flCacheDriver f)) (mcTTL m)
              (mkRedis (nonemptyOr (rURL r) (flRedisURL f)) (nonemptyOr (rAddr r) (flRedisAddr f)) (rPassword r) (rDB r)
                 (rPrefix r) (rPool r)) in
  mkConfig (nonemptyOr (HTTPAddr c) (flHTTPAddr f)) (nonemptyOr (LogFormat c) (flLogFormat f))
    (mkStoreConfig (nonemptyOr (sDriver s) (flStoreDriver f)) (nonemptyOr (sDSN s) (flStoreDSN f)) (sPool s))
    m' m' (ChunkCache c) (DiskCache c) (Node c) (Advertisement c) (PeerDiscovery c) (Download c) (Origin c) (Upload c)
    (PeerClient c) (Retry c).

Context (ParseURL : string -> res RedisCache.redisOptions) (procs : Z).

(** The registry that the process serves, or the error it exits with. *)
Definition startTracker (f : flags) (loaded : Config) (db : Sql.SQLStore) (server : R) (now : Z)
    : res (Reg.Registry wrapped) :=
  let cfg := applyFlags f loaded in
  let? st := OpenStore (sDriver (cStore cfg)) (sDSN (cStore cfg)) (storePool (sPool (cStore cfg))) db now in
  let mc := MetaCache cfg in
  let r := mcRedis mc in
  let? c := OpenCache ParseURL procs (mcDriver mc)
              (RedisCache.mkOptions (mcTTL mc) (rURL r) (rAddr r) (rPassword r) (rDB r) (rPrefix r) (cachePool (rPool r)))
              server now in
  Ok (Reg.NewRegistryWithStore (wrapStore st c (mcTTL mc)) (flExpiry f)).

End main.

(** * Properties *)

Section properties.
Context {SC : StoreCodec} {CF : CaseFold} {R : Type} {RC : RedisCache.RedisClient R} {RL : RedisLaws R}.
Variables (ParseURL : string -> res RedisCache.redisOptions) (procs : Z).

(** A cache that was opened keeps the promise of [CacheSpec] when the prefix
    of its keys has no character that patterns give a meaning to. *)
Lemma OpenCache_OK driver opts server now (c : anyCache R) :
  OpenCache ParseURL procs driver opts server now = Ok c -> plainGlob (RedisCache.Prefix opts) = true ->
  match c with ANop => True | AMemory m => memOK m | ARedis r => redisOK r end.
Proof.
  unfold OpenCache. intros Ho Hp. repeat case_bool_decide; simplify_eq; try done.
  - unfold memOK, MemCache.NewMemory. simpl. apply (positiveOr_pos (10 * second)). unfold second. lia.
  - destruct (RedisCache.NewRedis _ _ _ _ _) as [r|] eqn:Hn; simplify_eq. unfold RedisCache.NewRedis in Hn. cbn in Hn.
    destruct (RedisCache.redisClientOptions _ _ _); simplify_eq/=. destruct (RedisCache.rPing _ _) as [[]]; simplify_eq/=.
    split; simpl; [apply positiveOr_pos; unfold RedisCache.second; lia|].
    unfold nonemptyOr. repeat case_bool_decide; done.
Qed.

#[local] Opaque SqlText.openSQL.

Definition knownStore (driver : string) : Prop := driver ∈ [""; "memory"; "sqlite"; "postgres"].

(** A store is opened exactly for the known drivers, when the database can be
    reached. *)
Lemma OpenStore_known driver dsn pool db now :
  Sql.calls db = [] -> (exists b, OpenStore driver dsn pool db now = Ok b) <-> knownStore driver.
Proof.
  intros Hc. pose proof (fun d => openSQL_runs SqlText.queriesSQL d dsn pool now db Hc) as Hopen.
  unfold OpenStore, knownStore, nonemptyOr. split.
  - intros [b Hb]. repeat case_bool_decide; subst; try discriminate; set_solver.
  - destruct (Hopen "sqlite") as (h & s & ->), (Hopen "pgx") as (h' & s' & ->). intros Hd.
    repeat case_bool_decide; subst; try discriminate; first [by (eexists; reflexivity)|set_solver].
Qed.

(** The process serves a registry exactly when both drivers are known and
    neither the database nor the Redis server fails. *)
Lemma startTracker_starts f cfg db server now :
  Sql.calls db = [] ->
  (exists g, startTracker ParseURL procs f cfg db server now = Ok g /\ (0 < Reg.peerExpiry g)%Z)
  <-> knownStore (nonemptyOr (sDriver (cStore cfg)) (flStoreDriver f))
      /\ let m := MetaCache (applyFlags f cfg) in
         exists c, OpenCache ParseURL procs (mcDriver m)
           (RedisCache.mkOptions (mcTTL m) (rURL (mcRedis m)) (rAddr (mcRedis m)) (rPassword (mcRedis m)) (rDB (mcRedis m))
              (rPrefix (mcRedis m)) (cachePool (rPool (mcRedis m)))) server now = Ok c.
Proof.
  intros Hc. unfold startTracker. cbv zeta.
  rewrite <- (OpenStore_known _ (sDSN (cStore (applyFlags f cfg))) (storePool (sPool (cStore (applyFlags f cfg)))) db now Hc).
  change (nonemptyOr (sDriver (cStore cfg)) (flStoreDriver f)) with (sDriver (cStore (applyFlags f cfg))).
  destruct (OpenStore _ _ _ _ _) as [b|e]; simpl; [|naive_solver].
  destruct (OpenCache _ _ _ _ _ _) as [c|e]; simpl; [|naive_solver].
  split; [intros _; eauto|]. intros _. eexists. split; [done|]. simpl. destruct (Z.leb_spec (flExpiry f) 0); lia.
Qed.

End properties.
